(* ===== verification/_CoqProject ===== *)
-Q . S2P
Prelude.v
Heap.v
Pool.v
Ringbuf.v
RingbufConc.v
System.v
Ipc.v
Process.v
Watchers.v
Buffer.v
Event.v
Io.v
Slab.v
SlabLists.v
SlabInv.v
SlabPages.v
SlabChunks.v
SlabAlloc.v
SlabFree.v
SlabSpec.v
SlabBuffer.v
Lua.v
Gxcopy.v
GxcopyInv.v
GxcopySpec.v
LazyAtomics.v
Instring.v
Modules.v
ModulesInit.v
ModulesEvents.v
IpcFd.v
IpcFdSpec.v
Config.v
ConfigSettings.v
ConfigCore.v
Sysutil.v
Sockaddr.v
Sockets.v
Server.v
Listener.v
