(* ===== verification/Prelude.v ===== *)
(** * Shuttlesock: a verification development

    Shuttlesock (src/) is a framework for servers in C: a master process, a manager process
    and worker threads of the manager, that run modules on one event loop each and talk over
    shared memory.  This library models the C code that carries that: the memory
    allocators, the messages between processes, starting and stopping, events, timers,
    buffers, and input and output.

    ** How the program's parts interact

    Every process has a [shuso_t] with its pool (src/src/pool.c), its event loop, its timers
    (src/src/watchers.c) and its error state (src/src/shuttlesock.c).  The processes share
    one block of mapped memory, managed by the slab allocator (src/src/shared_slab.c); each of them
    owns a ring buffer there, into which the others put messages (src/src/ipc.c), and the manager passes
    on what the master and the workers say to each other.  A message's handler (src/src/ipc_commands.c)
    changes run states or publishes events (src/src/event.c), to which the core module
    (src/src/modules/core/core.c) listens to bring the processes up and down.  Modules read and write
    sockets in coroutines over src/src/io/, and keep what they read in buffers
    (src/src/buffer.c) whose memory comes from malloc, a pool or the slab.  The server module
    (src/src/modules/server/server.c) has the master open the sockets that workers accept connections on: the manager puts an
    address into shared memory, the master sends the descriptors back, and each worker runs a coroutine on its own.

    ** The files

    - Prelude.v (this file): machine integers, the monad [M] of computations with state
      that can abort, address ranges, tactics, the hint database [shuso].
    - Heap.v: live blocks, the class [Malloc] that says what malloc and free promise, ownership.
    - Pool.v: src/src/pool.c.  A [pool] record per [shuso_pool_t], one definition per function.
    - Ringbuf.v, RingbufConc.v: the ring buffer of src/src/ipc.c, an operation at a time and an atomic
      access at a time.  Both have the code's 256 slots and
      its 64-bit indices, of which the low byte is the slot.
    - System.v: the processes, what they share, run states and errors
      (src/src/shuttlesock.c, src/src/include/shuttlesock/common.h); the world of the next two files.
    - Ipc.v: src/src/ipc.c above the ring buffer and src/src/ipc_commands.c.
    - Process.v: spawning, stopping, signals and the log descriptor of src/src/shuttlesock.c, the
      stop listeners of core.c, and the shutdown protocol they make together.
    - Watchers.v: src/src/watchers.c and src/src/include/shuttlesock/llist.h.
    - Buffer.v: src/src/buffer.c over the class [BufMem] of allocators, with malloc and pool
      instances; SlabBuffer.v has the instance for shared memory.
    - Event.v: publication in src/src/event.c, with cancelling, pausing and delaying.
    - Io.v: src/src/io/io.c, src/src/io/io_libev.c and the coroutine macros of io.h.
    - Slab.v: src/src/shared_slab.c.  SlabLists.v (lists of descriptors), SlabInv.v (the
      invariant [sinv]), SlabPages.v (runs of pages), SlabChunks.v (bitmaps), SlabAlloc.v
      and SlabFree.v (each operation keeps the invariant) lead to SlabSpec.v (what clients get).
    - Lua.v: Lua's values, tables, closures and the functions of its C interface that the copying uses.
    - Gxcopy.v: luaS_gxcopy of src/src/lua_utils.c, which copies what a worker needs from the manager's Lua
      state to its own; GxcopyInv.v (the invariant) leads to GxcopySpec.v.
    - LazyAtomics.v: src/src/modules/lua_bridge/api/lazy_atomics.c, atomic access by atomic access.
    - Instring.v: src/src/instring.c, strings with variables and their cached conversions.
    - Modules.v: src/src/module.c with the tables of src/src/module.lua and src/src/event.lua: modules, what depends on what,
      events and listeners; ModulesInit.v: freezing and contexts; ModulesEvents.v: the order of listeners.
    - IpcFd.v: the sending and receiving of file descriptors in src/src/ipc.c, over the operations of Io.v and the
      buffers of Buffer.v; IpcFdSpec.v: what becomes of a descriptor.
    - Config.v: functions of src/src/modules/config/config.lua: patterns of paths, the search for settings, their values;
      ConfigSettings.v: src/src/modules/config/config.c, the C structs of settings and their values in the manager
      and in workers; ConfigCore.v: core_module_initialize_config of src/src/modules/core/core.c.
    - Sysutil.v: src/src/sysutil.c, the tables that depend on the system and its sizes.
    - Sockaddr.v: socket addresses between C and Lua, of src/src/lua_utils.c.
    - Sockets.v: shuso_setsockopt and the functions on sockets of src/src/modules/lua_bridge/api/core_lua_api.c, over a
      kernel that may fail any call.
    - Server.v: src/src/modules/server/server.c up to an open socket: bindings, the copy of a host in shared memory (over
      the classes of Buffer.v), the request to the master; Listener.v: its coroutine on the operations of Io.v
      and the coroutines of IpcFd.v, and its listeners on the events of Event.v.
    A [bool] or pointer that C returns is the result of the definition of the same name; a
    field it assigns is a record update; a failed assertion, an abort or the release of
    a block that is not live is [None] of [M].  Loops are structural where C walks a list;
    the others have fuel.

    ** What the theorems show

    - Pool: in every run the blocks handed out are disjoint and inside memory the pool owns; an allocation
      is a disjoint aligned block or NULL without a change; emptying the pool frees exactly what it took; draining
      goes back to the marked state, or does not (single allocations made since stay; the
      level array stays); a request of nearly 2^64 bytes rewinds the current page.
    - Ring buffer: it is a FIFO queue of 256 messages; receiving terminates; under interleaving
      what is delivered is a prefix of what was reserved as long as nobody finds it full, and is everything
      once the writers rest; two reachable states show what happens otherwise.
    - IPC: per destination, delivered, buffered and waiting messages are the accepted ones in order; a
      message from the master reaches a worker over the manager, once; handlers are never replaced.
    - System and Process: captured errors are not published and each message is freed once; the stop
      protocol brings workers down before the manager and the manager before the
      master; where a range of workers or its start goes wrong.
    - Watchers, Event: timers removed in order leave a sound list; listeners run in order through pauses and
      delays; and where not.
    - Buffer: a FIFO queue over any allocator that keeps its promises, on the slab in particular.
    - Io: a coroutine of operations on a non-blocking descriptor runs as the same operations would on
      a blocking one; with the calls for which this fails.
    - Slab: the blocks held are disjoint, inside the map and outside the allocator's own
      memory; an allocation fails only if no run of pages is free for it; what was given back can be
      allocated again as one block.
    - Gxcopy: copying tables and Lua functions between states ends and is one to one, cycles and sharing
      included, and reading the copy is reading the original; what is not kept (shared upvalues,
      identity of C closures and userdata).
    - LazyAtomics: a get sees only what was set, no increment is lost, set and get round trip; and
      the races and initialisation errors.
    - Instring: the cache cannot be noticed, and a string that begins with its variables has their current
      values; what goes wrong with the others.
    - Modules: the tables of modules stay well-formed whatever is added; each module has its own context with each
      module it depends on; listeners are called by priority; what goes wrong with optional subscriptions
      and late listeners.
    - IpcFd: descriptors arrive at their receivers in order, or are closed; what timers, errors and
      a full socket do to them.
    - Config: what a pattern of a path matches and which setting is found; a setting's literal values are the same everywhere
      and at all times; the core module's settings stand for what a specification says; what is wrong with
      inheritance, defaults with variables, missing settings and inner [**].
    - Sysutil, Sockaddr, Sockets: names of errors, sizes of pages, and what is read back of an address or an option; what
      is wrong with Unix addresses and with sockets that are made with options.
    - Server, Listener: a binding becomes a socket bound to its address without a descriptor left open on any error; what freeing a
      host's copy forgets; connections are published once and in order; how a listener dies, and what it publishes when it
      is stopped.
    ** Bounds and fuel

    Integers are [Z] with [u64], [s64], [u8], ... where the C type wraps; sizes are those of
    LP64.  The ring has 256 slots, as the code.  The slab's page is 4096 bytes (the page size
    the code asks the system for, on the targets it is built for) and the smallest chunk 8 bytes, so shifts run
    from 3 to 11.  Where C walks a list that the model has as a Rocq list, its loop is structural; the other
    loops have fuel, and a theorem says how much is enough: for [ipc_receive] as many turns as there are messages
    (Ringbuf.v), for the clean-up of the timers as many as there are (Watchers.v), for an interrupted event as
    many as it has interrupts (Event.v), for a coroutine one more than it has operations, and a turn of the event
    loop for every answer of the kernel (Io.v).  The slab's walk of the free list has one step per page and one for
    the head, fixed in the definition: no list is longer (SlabInv.v).
    The copying of Lua values has fuel for the depth of its recursion: one more than there are
    objects to copy is enough (GxcopySpec.v).  A chain of [__index] handlers has Lua's own limit of 2000.

    The coroutine that receives descriptors has fuel for the messages it finds at once, one more than there
    are; the one that sends needs two, since it sends before the next message is queued (IpcFdSpec.v).

    Blocks are nested at most as deep as there are settings, which is the fuel of the walks over the configuration
    (find_setting_nearest shows that it is enough).  The substitution of variables has as many turns as its user gives
    it: a variable set to itself never ends in the code; strings without variables need two.

    The coroutine that accepts connections needs two steps of fuel, for one operation that completes at once inside the
    event loop's call (Listener.v); the loop over a new socket's options never gets beyond its second turn (Sockets.v).
    ** What is not modelled

    Fork, threads, signals' delivery, epoll and the event loop itself (libev is a parameter: which watcher
    fires next is an input); the io_uring backend and c-ares resolver, whose queues and
    sockets belong to those libraries; the contents of buffers; the creation of the pipes and sockets
    between processes; formatting of log lines and errors.  The parsers of configurations and of strings with variables and
    the coroutines that start the server are Lua scripts (src/src/*.lua, src/src/modules/*/*.lua), and most of the Lua
    bindings, with the conversion of the server's events to tables, move values
    between those scripts' tables and C structures; modules written in Lua and the generated
    list of core modules are left out too.  Lua itself is a parameter (the class [LuaVM] of Lua.v).  src/thirdparty, the tests
    and the build are left aside. *)

From Stdlib Require Export ZArith Lia.
From stdpp Require Export base tactics numbers gmap list.

#[global] Open Scope Z_scope.

(** ** Machine integers

    A [w]-bit unsigned word is a [Z] in [0, 2^w); [wrap w] is C's conversion to
    it.  [swrap w] is the two's complement conversion to a signed integer. *)

Definition wrap (w x : Z) : Z := x mod 2 ^ w.
Definition swrap (w x : Z) : Z := (x + 2 ^ (w - 1)) mod 2 ^ w - 2 ^ (w - 1).

(** [size_t] and [uintptr_t], [ssize_t] and [int64_t], [uint8_t], [int] on the
    LP64 targets the code is built for. *)
Definition u64 (x : Z) : Z := wrap 64 x.
Definition s64 (x : Z) : Z := swrap 64 x.
Definition u8 (x : Z) : Z := wrap 8 x.
Definition u16 (x : Z) : Z := wrap 16 x.
Definition u32 (x : Z) : Z := wrap 32 x.
Definition s32 (x : Z) : Z := swrap 32 x.

(** ** Computations with state that can abort

    [M S A] is a computation over the state [S] that returns an [A], or aborts
    ([None]): a failed [assert], [raise(SIGABRT)], [abort()], the release of
    a block that is not live. *)

Definition M (S A : Type) : Type := S → option (A * S).

Definition m_ret {S A} (a : A) : M S A := λ s, Some (a, s).
Definition m_bind {S A B} (m : M S A) (k : A → M S B) : M S B :=
  λ s, match m s with Some (a, s') => k a s' | None => None end.
Definition m_get {S} : M S S := λ s, Some (s, s).
Definition m_put {S} (s' : S) : M S unit := λ _, Some (tt, s').
Definition m_gets {S A} (f : S → A) : M S A := λ s, Some (f s, s).
Definition m_modify {S} (f : S → S) : M S unit := λ s, Some (tt, f s).
Definition m_abort {S A} : M S A := λ _, None.
(** C's [assert] *)
Definition m_assert {S} (b : bool) : M S unit := if b then m_ret tt else m_abort.

Declare Scope shuso_scope.
Delimit Scope shuso_scope with shuso.
Notation "x <- m ;; k" := (m_bind m (λ x, k))
  (at level 100, m at next level, right associativity) : shuso_scope.
Notation "m ;;; k" := (m_bind m (λ _, k))
  (at level 100, right associativity) : shuso_scope.
#[global] Open Scope shuso_scope.

(** ** Address ranges *)

(** A block of memory: its address and its length. *)
Definition block : Type := Z * Z.

Definition disjoint_blk (x y : block) : Prop :=
  x.1 + x.2 ≤ y.1 ∨ y.1 + y.2 ≤ x.1.

Definition within_blk (x y : block) : Prop :=
  y.1 ≤ x.1 ∧ x.1 + x.2 ≤ y.1 + y.2.

(** Every two blocks of a list are disjoint. *)
Fixpoint all_disjoint (l : list block) : Prop :=
  match l with
  | [] => True
  | x :: l' => Forall (disjoint_blk x) l' ∧ all_disjoint l'
  end.

(** ** Tactics *)

(** Case analysis on the tests of the goal, then on those of the hypotheses. *)
Ltac bool_case :=
  match goal with
  | |- context [if Z.ltb ?a ?b then _ else _] => destruct (Z.ltb_spec a b)
  | |- context [if Z.leb ?a ?b then _ else _] => destruct (Z.leb_spec a b)
  | |- context [if Z.eqb ?a ?b then _ else _] => destruct (Z.eqb_spec a b)
  | H : context [if Z.ltb ?a ?b then _ else _] |- _ => destruct (Z.ltb_spec a b)
  | H : context [if Z.leb ?a ?b then _ else _] |- _ => destruct (Z.leb_spec a b)
  | H : context [if Z.eqb ?a ?b then _ else _] |- _ => destruct (Z.eqb_spec a b)
  end.

(** Run the monad's definitions. *)
Ltac m_unfold :=
  unfold m_assert, m_bind, m_ret, m_get, m_put, m_gets, m_modify, m_abort in *.

(** ** Lemmas on machine integers *)

Lemma wrap_small w x : 0 ≤ x < 2 ^ w → wrap w x = x.
Proof. apply Z.mod_small. Qed.

Lemma wrap_range w x : 0 ≤ w → 0 ≤ wrap w x < 2 ^ w.
Proof. intros. apply Z.mod_pos_bound. lia. Qed.

Lemma swrap_small w x :
  0 < w → - 2 ^ (w - 1) ≤ x < 2 ^ (w - 1) → swrap w x = x.
Proof.
  intros Hw Hx. unfold swrap.
  assert (2 ^ w = 2 * 2 ^ (w - 1)) as Hp.
  { replace w with (Z.succ (w - 1)) at 1 by lia. rewrite Z.pow_succ_r; lia. }
  rewrite Z.mod_small; lia.
Qed.

Lemma u64_small x : 0 ≤ x < 2 ^ 64 → u64 x = x.
Proof. apply wrap_small. Qed.

Lemma u64_range x : 0 ≤ u64 x < 2 ^ 64.
Proof. apply wrap_range. lia. Qed.

Lemma s64_small x : - 2 ^ 63 ≤ x < 2 ^ 63 → s64 x = x.
Proof. intros. apply swrap_small; lia. Qed.

Lemma u8_small x : 0 ≤ x < 256 → u8 x = x.
Proof. apply (wrap_small 8). Qed.

Lemma u16_small x : 0 ≤ x < 2 ^ 16 → u16 x = x.
Proof. apply (wrap_small 16). Qed.

Lemma u8_range x : 0 ≤ u8 x < 256.
Proof. apply (wrap_range 8). lia. Qed.

(** [x & ~(2^k - 1)] rounds down to a multiple of [2^k]. *)
Lemma land_lnot_ones x k : 0 ≤ k → Z.land x (Z.lnot (Z.ones k)) = x - x mod 2 ^ k.
Proof.
  intros Hk. rewrite <- Z.ldiff_land, Z.ldiff_ones_r by lia.
  rewrite Z.shiftl_mul_pow2, Z.shiftr_div_pow2 by lia.
  pose proof (Z.div_mod x (2 ^ k)). lia.
Qed.

(** ** Lemmas on address ranges *)

Lemma disjoint_blk_sym x y : disjoint_blk x y → disjoint_blk y x.
Proof. unfold disjoint_blk. tauto. Qed.

Lemma disjoint_within x y z :
  0 ≤ x.2 → within_blk x y → disjoint_blk y z → disjoint_blk x z.
Proof. unfold disjoint_blk, within_blk. lia. Qed.

Lemma within_blk_trans x y z : within_blk x y → within_blk y z → within_blk x z.
Proof. unfold within_blk. lia. Qed.

Lemma within_blk_refl x : within_blk x x.
Proof. unfold within_blk. lia. Qed.

Lemma all_disjoint_app l1 l2 :
  all_disjoint (l1 ++ l2) ↔
  all_disjoint l1 ∧ all_disjoint l2 ∧ Forall (λ x, Forall (disjoint_blk x) l2) l1.
Proof.
  induction l1 as [|x l1 IH]; simpl; [by split; [repeat constructor|tauto]|].
  rewrite IH, Forall_app, Forall_cons. tauto.
Qed.

Lemma all_disjoint_perm l1 l2 : l1 ≡ₚ l2 → all_disjoint l1 → all_disjoint l2.
Proof.
  induction 1 as [|x l1 l2 Hp IH|x y l|l1 l2 l3 _ IH1 _ IH2]; simpl.
  - done.
  - intros [Hx Hl]. split; [by rewrite <- Hp|auto].
  - rewrite !Forall_cons. intros [[Hyx Hy] [Hx Hl]]. split_and!; auto using disjoint_blk_sym.
  - auto.
Qed.

Lemma all_disjoint_lookup l i j x y :
  all_disjoint l → i ≠ j → l !! i = Some x → l !! j = Some y → disjoint_blk x y.
Proof.
  revert i j. induction l as [|z l IH]; intros i j Hd Hij Hi Hj; [done|].
  destruct Hd as [Hz Hl].
  destruct i as [|i], j as [|j]; simplify_eq/=.
  - by eapply Forall_lookup_1 in Hz.
  - apply disjoint_blk_sym. by eapply Forall_lookup_1 in Hz.
  - eapply (IH i j); eauto.
Qed.

Lemma elem_of_sublist {A} (l1 l2 : list A) x : l1 `sublist_of` l2 → x ∈ l1 → x ∈ l2.
Proof. induction 1; rewrite ?elem_of_cons; tauto. Qed.

Lemma all_disjoint_sublist l1 l2 : l1 `sublist_of` l2 → all_disjoint l2 → all_disjoint l1.
Proof.
  induction 1 as [|x l1 l2 Hs IH|x l1 l2 Hs IH]; simpl; [done| |tauto].
  intros [Hx Hd]. split; [|auto]. rewrite Forall_forall in *. intros y Hy.
  apply Hx. by eapply elem_of_sublist.
Qed.

(** Words inside words: [u64] absorbs the conversions below it. *)
Lemma u64_idem x : u64 (u64 x) = u64 x.
Proof. apply Z.mod_mod. done. Qed.
Lemma u64_add_l x y : u64 (u64 x + y) = u64 (x + y).
Proof. apply Zplus_mod_idemp_l. Qed.
Lemma u64_add_r x y : u64 (x + u64 y) = u64 (x + y).
Proof. apply Zplus_mod_idemp_r. Qed.
Lemma u64_sub_l x y : u64 (u64 x - y) = u64 (x - y).
Proof. apply Zminus_mod_idemp_l. Qed.
Lemma u64_sub_r x y : u64 (x - u64 y) = u64 (x - y).
Proof. apply Zminus_mod_idemp_r. Qed.

(** Prove an equation between words that holds modulo [2^64]. *)
Ltac u64_eq :=
  unfold u64, wrap; change (2 ^ 64) with 18446744073709551616;
  Z.div_mod_to_equations; lia.

Create HintDb shuso.
#[export] Hint Resolve disjoint_blk_sym within_blk_refl within_blk_trans : shuso.
#[export] Hint Resolve u64_range u8_range : shuso.
