(* ===== verification/Heap.v ===== *)
(** The C heap as its clients see it: which blocks are live, what [malloc] and
    [free] promise, and the ownership of a set of live blocks by a component.
    [malloc] belongs to the C library, so it is a parameter: the class [Malloc]
    states its documented behaviour and [bump_malloc] is one instance. *)

From S2P Require Import Prelude.

(** A heap maps the address of every live block to its size. *)
Abbreviation heap := (gmap Z Z).

Class Malloc := {
  malloc_fn : heap → Z → option Z;
  malloc_ok : ∀ h n a, 0 ≤ n → malloc_fn h n = Some a →
    16 ≤ a ∧ a mod 16 = 0 ∧ a + n < 2 ^ 47 ∧ h !! a = None ∧
    ∀ b m, h !! b = Some m → disjoint_blk (a, n) (b, m)
}.

(** [malloc(n)] and [free(a)]; freeing an address that is not a live block is
    undefined behaviour and has no result. *)
Definition h_malloc `{Malloc} (n : Z) : M heap (option Z) :=
  λ h, match malloc_fn h n with
       | Some a => Some (Some a, <[a := n]> h)
       | None => Some (None, h)
       end.

Definition h_free (a : Z) : M heap unit :=
  λ h, match h !! a with Some _ => Some (tt, delete a h) | None => None end.

(** Live blocks do not overlap. *)
Definition heap_wf (h : heap) : Prop :=
  ∀ a n b m, h !! a = Some n → h !! b = Some m → a ≠ b →
    disjoint_blk (a, n) (b, m).

(** The heap is the blocks [B] of one component and, beside them, [base]. *)
Record owns (h base : heap) (B : list block) : Prop := Owns {
  owns_eq : h = list_to_map B ∪ base;
  owns_nodup : NoDup (B.*1);
  owns_base : Forall (λ b, base !! b.1 = None) B
}.

(** An allocator that always takes the first 16-aligned address above every
    live block. *)
Definition heap_top (h : heap) : Z :=
  foldr (λ b t, Z.max t (b.1 + Z.max 1 b.2)) 16 (map_to_list h).
Definition bump_malloc (h : heap) (n : Z) : option Z :=
  let a := 16 * ((heap_top h + 15) / 16) in
  if a + n <? 2 ^ 47 then Some a else None.

Lemma heap_top_le h : 16 ≤ heap_top h.
Proof. unfold heap_top. induction (map_to_list h); simpl; lia. Qed.

Lemma heap_top_above (h : heap) a n :
  h !! a = Some n → a + Z.max 1 n ≤ heap_top h.
Proof.
  intros Hl%elem_of_map_to_list. unfold heap_top.
  induction (map_to_list h) as [|b l IH]; [by apply elem_of_nil in Hl|].
  apply elem_of_cons in Hl as [<-|Hl]; simpl; [lia|]. specialize (IH Hl). lia.
Qed.

Lemma bump_malloc_ok (h : heap) (n a : Z) : 0 ≤ n → bump_malloc h n = Some a →
  16 ≤ a ∧ a mod 16 = 0 ∧ a + n < 2 ^ 47 ∧ h !! a = None ∧
  ∀ b m, h !! b = Some m → disjoint_blk (a, n) (b, m).
Proof.
  intros Hn. unfold bump_malloc. cbv zeta.
  case (Z.ltb_spec (16 * ((heap_top h + 15) / 16) + n) (2 ^ 47)); [|done].
  intros Hlt [= <-]. pose proof (heap_top_le h) as Ht.
  pose proof (Z.div_mod (heap_top h + 15) 16).
  pose proof (Z.mod_pos_bound (heap_top h + 15) 16).
  split_and!; [lia| |lia| |].
  - rewrite Z.mul_comm. apply Z.mod_mul. lia.
  - destruct (h !! _) eqn:E; [|done]. apply heap_top_above in E. lia.
  - intros b m Hb%heap_top_above. right. simpl. lia.
Qed.

#[export] Instance malloc_bump : Malloc :=
  {| malloc_fn := bump_malloc; malloc_ok := bump_malloc_ok |}.

Lemma heap_wf_insert h a n :
  heap_wf h → h !! a = None →
  (∀ b m, h !! b = Some m → disjoint_blk (a, n) (b, m)) → heap_wf (<[a:=n]> h).
Proof.
  intros Hwf Ha Hd b m c k Hb Hc Hne.
  destruct (decide (a = b)) as [<-|?], (decide (a = c)) as [<-|?];
    simplify_map_eq; eauto with shuso.
Qed.

Lemma heap_wf_delete h a : heap_wf h → heap_wf (delete a h).
Proof.
  intros Hwf b m c k Hb Hc Hne.
  apply lookup_delete_Some in Hb as [_ Hb]. apply lookup_delete_Some in Hc as [_ Hc].
  eauto.
Qed.

Lemma owns_nil h : owns h h [].
Proof. split; [simpl; by rewrite (left_id_L ∅ (∪))|constructor|constructor]. Qed.

Lemma owns_perm h base B B' : B ≡ₚ B' → owns h base B → owns h base B'.
Proof.
  intros HP [-> Hnd Hb]. split.
  - by rewrite (list_to_map_proper B B').
  - by rewrite <- HP.
  - by rewrite <- HP.
Qed.

(** Ownership does not depend on the order of the blocks. *)
#[export] Instance owns_proper h base : Proper ((≡ₚ) ==> iff) (owns h base).
Proof. intros B B' HP. split; by apply owns_perm. Qed.

Lemma owns_lookup h base B a n : owns h base B → (a, n) ∈ B → h !! a = Some n.
Proof.
  intros [-> Hnd _] Hin. apply lookup_union_Some_l. by apply elem_of_list_to_map.
Qed.

Lemma owns_insert h base B a n :
  owns h base B → h !! a = None → owns (<[a:=n]> h) base ((a, n) :: B).
Proof.
  intros [-> Hnd Hb] Ha. apply lookup_union_None in Ha as [HaB Hab]. split.
  - simpl. by rewrite insert_union_l.
  - simpl. constructor; [|done]. by apply not_elem_of_list_to_map.
  - by constructor.
Qed.

Lemma owns_delete h base B a n :
  owns h base ((a, n) :: B) → owns (delete a h) base B.
Proof.
  intros [-> Hnd Hb]. simpl in *. apply NoDup_cons in Hnd as [Hn Hnd].
  apply Forall_cons in Hb as [Ha Hb]. split; [|done..]. simpl in *.
  rewrite delete_union, (delete_id base) by done.
  rewrite delete_insert_id; [done|]. by apply not_elem_of_list_to_map.
Qed.

Lemma h_malloc_inv `{Malloc} n h r h' :
  0 ≤ n → heap_wf h → h_malloc n h = Some (r, h') →
  match r with
  | None => h' = h
  | Some a => h' = <[a:=n]> h ∧ heap_wf h' ∧ h !! a = None ∧
              16 ≤ a ∧ a mod 16 = 0 ∧ a + n < 2 ^ 47 ∧
              ∀ b m, h !! b = Some m → disjoint_blk (a, n) (b, m)
  end.
Proof.
  intros Hn Hwf. unfold h_malloc. destruct (malloc_fn h n) as [a|] eqn:E;
    intros ?; simplify_eq; [|done].
  destruct (malloc_ok h n a Hn E) as (?&?&?&?&?).
  split_and!; eauto using heap_wf_insert.
Qed.

Lemma h_free_owned h base B a n :
  owns h base ((a, n) :: B) → h_free a h = Some (tt, delete a h).
Proof.
  intros Ho. unfold h_free. by rewrite (owns_lookup _ _ _ a n Ho) by set_solver.
Qed.

(** The blocks of a component do not overlap. *)
Lemma owns_all_disjoint h base B : heap_wf h → owns h base B → all_disjoint B.
Proof.
  intros Hwf Ho.
  assert (∀ a n, (a, n) ∈ B → h !! a = Some n) as Hl
    by (intros; by eapply owns_lookup).
  destruct Ho as [_ Hnd _]. induction B as [|[a n] B IH]; [done|].
  simpl in Hnd. apply NoDup_cons in Hnd as [Hn Hnd]. split.
  - apply Forall_forall. intros [b m] Hb. apply (Hwf a n b m); [by apply Hl; left|by apply Hl; right|].
    intros ->. apply Hn. by apply (list_elem_of_fmap_2 fst B (b, m)).
  - apply IH; [done|]. intros. apply Hl. by right.
Qed.
