(* ===== verification/Pool.v ===== *)
(** The pool allocator of src/src/pool.c, in the build that tracks space
    (SHUTTLESOCK_POOL_TRACK_SPACE) on an LP64 target, without valgrind,
    sanitizer or NOPOOL.  A pool carves its allocations out of pages it takes
    from [malloc], falls back to single [malloc]s for what no page can hold, and
    can be drained back to a marked level.

    The singly linked lists [page.last]/[prev] and [allocd.last]/[prev] are only
    pushed and popped at their heads: they are lists here, the last page first.
    [levels.array[0 .. count)] is the list [p_levels] (what a level struct holds
    is kept with the array, not in the pool memory the struct occupies). *)

From S2P Require Import Prelude Heap.

Record page_space := PageSpace {
  ps_used : Z; ps_wasted : Z; ps_reserved : Z; ps_cur : Z
}.

Record pool_page := PoolPage { pg_addr : Z; pg_space : page_space }.

Record pool_allocd := PoolAllocd { ad_addr : Z; ad_size : Z }.

(** [NULL] is 0. *)
Record pool_level := PoolLevel {
  lv_page : Z; lv_page_cur : Z; lv_page_space : page_space; lv_allocd : Z
}.

Record pool_space := PoolSpace {
  sp_wasted : Z; sp_free : Z; sp_used : Z; sp_reserved : Z; sp_allocd : Z
}.

Record pool := Pool {
  p_space : pool_space;
  p_size : Z;                    (* page.size *)
  p_count : Z;                   (* page.count *)
  p_pages : list pool_page;      (* page.last and its prev chain *)
  p_cur : Z;                     (* page.cur *)
  p_allocd : list pool_allocd;   (* allocd.last and its prev chain *)
  p_levels : list pool_level     (* levels.array[0 .. levels.count) *)
}.

Record pw := PW { w_heap : heap; w_pool : pool }.

(** Struct sizes on LP64 with space tracking, and the level limit of pool.h. *)
Definition sizeof_pool_page : Z := 40.
Definition sizeof_pool_allocd : Z := 16.
Definition sizeof_pool_level : Z := 56.
Definition POOL_MAX_LEVELS : Z := 8.

Inductive space_kind := SPACE_FREE | SPACE_USED | SPACE_WASTED | SPACE_RESERVED.

(** [(p + 7) & ~7] on [uintptr_t] *)
Definition align_native (p : Z) : Z := Z.land (u64 (p + 7)) (u64 (Z.lnot 7)).

Definition page_used_space (page cur : Z) : Z := u64 (cur - page).

Definition zero_space : pool_space := PoolSpace 0 0 0 0 0.
Definition zero_page_space : page_space := PageSpace 0 0 0 0.
Definition zero_pool : pool := Pool zero_space 0 0 [] 0 [] [].

Definition last_page_addr (p : pool) : Z :=
  match p_pages p with [] => 0 | pg :: _ => pg_addr pg end.
Definition last_allocd_addr (p : pool) : Z :=
  match p_allocd p with [] => 0 | ad :: _ => ad_addr ad end.

(** Lifting the C heap's operations. *)
Definition w_malloc `{Malloc} (n : Z) : M pw (option Z) :=
  λ w, match h_malloc n (w_heap w) with
       | Some (r, h) => Some (r, PW h (w_pool w))
       | None => None
       end.
Definition w_free (a : Z) : M pw unit :=
  λ w, match h_free a (w_heap w) with
       | Some (_, h) => Some (tt, PW h (w_pool w))
       | None => None
       end.
Definition set_pool (p : pool) : M pw unit := λ w, Some (tt, PW (w_heap w) p).
Definition get_pool : M pw pool := m_gets w_pool.

Section pool.
Context `{Malloc}.
(** [shuso_system.page_size], what [sysconf(_SC_PAGESIZE)] returned *)
Variable system_page_size : Z.

(** The space left in the last page is wasted once another page follows it. *)
Definition space_retire_last (p : pool) : pool_space :=
  let sp := p_space p in
  match p_pages p with
  | [] => sp
  | last :: _ =>
      let wasted := u64 (p_size p - page_used_space (pg_addr last) (p_cur p)) in
      PoolSpace (u64 (sp_wasted sp + wasted)) (u64 (sp_free sp - wasted))
        (sp_used sp) (sp_reserved sp) (sp_allocd sp)
  end.

Definition add_page : M pw (option Z) :=
  p <- get_pool ;;
  r <- w_malloc (p_size p) ;;
  match r with
  | None => m_ret None
  | Some page =>
      let cur := align_native (page + sizeof_pool_page) in
      let sp := space_retire_last p in
      let reserved := page_used_space page cur in
      let sp := PoolSpace (sp_wasted sp)
                  (u64 (sp_free sp + u64 (p_size p - reserved)))
                  (sp_used sp) (u64 (sp_reserved sp + reserved)) (sp_allocd sp) in
      let node := PoolPage page (PageSpace 0 0 reserved cur) in
      set_pool (Pool sp (p_size p) (u64 (p_count p + 1)) (node :: p_pages p) cur
                  (p_allocd p) (p_levels p)) ;;;
      m_ret (Some page)
  end.

Definition remove_last_page : M pw unit :=
  p <- get_pool ;;
  match p_pages p with
  | [] => m_ret tt
  | page :: prevs =>
      let sp := p_space p in
      let free := u64 (sp_free sp -
        u64 (p_size p - page_used_space (pg_addr page) (ps_cur (pg_space page)))) in
      let used := u64 (sp_used sp - ps_used (pg_space page)) in
      let wasted := u64 (sp_wasted sp - ps_wasted (pg_space page)) in
      let reserved := u64 (sp_reserved sp - ps_reserved (pg_space page)) in
      let sp :=
        match prevs with
        | [] => PoolSpace wasted free used reserved (sp_allocd sp)
        | prev :: _ =>
            let freespace_left := u64 (p_size p -
              page_used_space (pg_addr prev) (ps_cur (pg_space prev))) in
            PoolSpace (u64 (wasted - freespace_left)) (u64 (free + freespace_left))
              used reserved (sp_allocd sp)
        end in
      set_pool (Pool sp (p_size p) (u64 (p_count p - 1)) prevs (p_cur p)
                  (p_allocd p) (p_levels p)) ;;;
      w_free (pg_addr page)
  end.

Definition shuso_pool_init_clean (pagesize : Z) : M pw bool :=
  p <- get_pool ;;
  set_pool (Pool (p_space p) (if 0 <? pagesize then pagesize else system_page_size)
              (p_count p) (p_pages p) (p_cur p) (p_allocd p) (p_levels p)) ;;;
  r <- add_page ;;
  m_ret (match r with None => false | Some _ => true end).

Definition shuso_pool_init (pagesize : Z) : M pw bool :=
  set_pool zero_pool ;;; shuso_pool_init_clean pagesize.

(** A single [malloc] with a header in front of the data. *)
Definition plain_old_malloc (sz : Z) : M pw (option Z) :=
  r <- w_malloc (u64 (sizeof_pool_allocd + sz)) ;;
  match r with
  | None => m_ret None
  | Some cur =>
      p <- get_pool ;;
      let sp := p_space p in
      set_pool (Pool (PoolSpace (sp_wasted sp) (sp_free sp) (sp_used sp)
                        (sp_reserved sp) (u64 (sp_allocd sp + sz)))
                  (p_size p) (p_count p) (p_pages p) (p_cur p)
                  (PoolAllocd cur sz :: p_allocd p) (p_levels p)) ;;;
      m_ret (Some (cur + sizeof_pool_allocd))
  end.

Definition plain_old_free_last : M pw unit :=
  p <- get_pool ;;
  match p_allocd p with
  | [] => m_abort
  | cur :: prevs =>
      let sp := p_space p in
      set_pool (Pool (PoolSpace (sp_wasted sp) (sp_free sp) (sp_used sp)
                        (sp_reserved sp) (u64 (sp_allocd sp - ad_size cur)))
                  (p_size p) (p_count p) (p_pages p) (p_cur p)
                  prevs (p_levels p)) ;;;
      w_free (ad_addr cur)
  end.

Definition page_max_free_space (pagesize : Z) : Z :=
  pagesize - align_native sizeof_pool_page.

(** [palloc_in_current_page] with the counters it updates through
    [pool_update_space].  Both paddings are what the non-valgrind build has:
    the alignment gap before the block and nothing after it. *)
Definition pool_update_space (p : pool) (page : pool_page) (rest : list pool_page)
    (cur sz before_pad after_pad : Z) : pool :=
  let pad := before_pad + after_pad in
  let sp := p_space p in
  let ps := pg_space page in
  Pool (PoolSpace (u64 (sp_wasted sp + pad)) (u64 (sp_free sp - u64 (sz + pad)))
          (u64 (sp_used sp + sz)) (sp_reserved sp) (sp_allocd sp))
    (p_size p) (p_count p)
    (PoolPage (pg_addr page)
       (PageSpace (u64 (ps_used ps + sz)) (u64 (ps_wasted ps + pad))
          (ps_reserved ps) cur) :: rest)
    cur (p_allocd p) (p_levels p).

Definition palloc_in_current_page (sz : Z) (align : bool) : M pw (option Z) :=
  p <- get_pool ;;
  let cur := p_cur p in
  let ret := if align then align_native cur else cur in
  let after_padding := 0 in
  let before_padding := ret - cur in
  if s64 (p_size p) - s64 (page_used_space (last_page_addr p) cur)
     <? before_padding + s64 sz + after_padding
  then m_ret None
  else
    match p_pages p with
    | [] => m_abort
    | page :: rest =>
        set_pool (pool_update_space p page rest (u64 (ret + sz + after_padding)) sz
                    before_padding after_padding) ;;;
        m_ret (if ret =? 0 then None else Some ret)
    end.

Definition palloc_in_new_page (sz : Z) (align : bool) : M pw (option Z) :=
  p <- get_pool ;;
  if page_max_free_space (s64 (p_size p)) <? 0 + s64 sz + 0
  then m_ret None
  else
    page <- add_page ;;
    match page with
    | None => m_ret None
    | Some a =>
        p' <- get_pool ;;
        m_assert (last_page_addr p' =? a) ;;;
        ret <- palloc_in_current_page sz align ;;
        m_assert (bool_decide (is_Some ret)) ;;;
        m_ret ret
    end.

Definition palloc_with_alignment (sz : Z) (align : bool) : M pw (option Z) :=
  r1 <- palloc_in_current_page sz align ;;
  match r1 with
  | Some r => m_ret (Some r)
  | None =>
      r2 <- palloc_in_new_page sz align ;;
      match r2 with
      | Some r => m_ret (Some r)
      | None => plain_old_malloc sz
      end
  end.

Definition shuso_palloc (sz : Z) : M pw (option Z) := palloc_with_alignment sz true.
Definition shuso_palloc_unaligned (sz : Z) : M pw (option Z) :=
  palloc_with_alignment sz false.

Definition shuso_pool_mark_level : M pw Z :=
  level <- shuso_palloc sizeof_pool_level ;;
  match level with
  | None => m_ret 0
  | Some _ =>
      p <- get_pool ;;
      let lv := PoolLevel (last_page_addr p) (p_cur p)
                  (match p_pages p with
                   | [] => zero_page_space
                   | pg :: _ => pg_space pg
                   end) (last_allocd_addr p) in
      m_assert (Z.of_nat (length (p_levels p)) <? POOL_MAX_LEVELS) ;;;
      set_pool (Pool (p_space p) (p_size p) (p_count p) (p_pages p) (p_cur p)
                  (p_allocd p) (p_levels p ++ [lv])) ;;;
      m_ret (Z.of_nat (length (p_levels p)) + 1)
  end.

(** [while(pool->allocd.last != target)]: every turn asserts that the list is not
    empty and pops it, so the length of the list is enough fuel. *)
Fixpoint free_allocd_until (n : nat) (target : Z) : M pw unit :=
  p <- get_pool ;;
  if last_allocd_addr p =? target then m_ret tt
  else match n with
       | O => m_abort
       | S n' => plain_old_free_last ;;; free_allocd_until n' target
       end.

Fixpoint remove_pages_until (n : nat) (target : Z) : M pw unit :=
  p <- get_pool ;;
  if last_page_addr p =? target then m_ret tt
  else match n with
       | O => m_abort
       | S n' => remove_last_page ;;; remove_pages_until n' target
       end.

Definition shuso_pool_empty : M pw bool :=
  p <- get_pool ;;
  free_allocd_until (length (p_allocd p)) 0 ;;;
  remove_pages_until (length (p_pages p)) 0 ;;;
  m_ret true.

(** The last page is rolled back to what it was when [level] was marked. *)
Definition roll_back_page (level : pool_level) (p : pool) : pool :=
  let sp := p_space p in
  match p_pages p with
  | page :: rest =>
      let used_diff := u64 (ps_used (pg_space page) - ps_used (lv_page_space level)) in
      let wasted_diff :=
        u64 (ps_wasted (pg_space page) - ps_wasted (lv_page_space level)) in
      Pool (PoolSpace (u64 (sp_wasted sp - wasted_diff))
              (u64 (sp_free sp + u64 (used_diff + wasted_diff)))
              (u64 (sp_used sp - used_diff)) (sp_reserved sp) (sp_allocd sp))
        (p_size p) (p_count p)
        (PoolPage (pg_addr page) (lv_page_space level) :: rest)
        (lv_page_cur level) (p_allocd p) (p_levels p)
  | [] => Pool sp (p_size p) (p_count p) [] (lv_page_cur level) (p_allocd p) (p_levels p)
  end.

Definition shuso_pool_drain_to_level (levelnum : Z) : M pw bool :=
  p <- get_pool ;;
  if Z.of_nat (length (p_levels p)) <? levelnum then m_ret false
  else if levelnum =? 0 then
    ok <- shuso_pool_empty ;;
    if negb ok then m_ret false
    else set_pool zero_pool ;;; m_ret true
  else
    match p_levels p !! Z.to_nat (levelnum - 1) with
    | None => m_abort
    | Some level =>
        (if lv_allocd level =? 0 then m_ret tt
         else free_allocd_until (length (p_allocd p)) (lv_allocd level)) ;;;
        (if lv_page level =? 0 then m_ret tt
         else m_assert (negb (last_page_addr p =? 0)) ;;;
              remove_pages_until (length (p_pages p)) (lv_page level)) ;;;
        p' <- get_pool ;;
        set_pool (roll_back_page level p') ;;;
        m_ret true
    end.

Definition shuso_pool_space (kind : space_kind) (p : pool) : Z :=
  match kind with
  | SPACE_USED => sp_used (p_space p)
  | SPACE_FREE => sp_free (p_space p)
  | SPACE_WASTED => sp_wasted (p_space p)
  | SPACE_RESERVED => sp_reserved (p_space p)
  end.

End pool.

(** ** What the counters count *)

Definition sum_pages (f : page_space → Z) (l : list pool_page) : Z :=
  foldr (λ pg t, f (pg_space pg) + t) 0 l.

(** The space at the end of a page, past its cursor. *)
Definition page_tail (size : Z) (pg : pool_page) : Z :=
  size - (ps_cur (pg_space pg) - pg_addr pg).

Definition sum_tails (size : Z) (l : list pool_page) : Z :=
  foldr (λ pg t, page_tail size pg + t) 0 l.

Definition sum_allocd (l : list pool_allocd) : Z := foldr (λ ad t, ad_size ad + t) 0 l.

(** The counters that the pages and the single allocations determine. *)
Definition space_of (size : Z) (pages : list pool_page) (ads : list pool_allocd)
    : pool_space :=
  PoolSpace (u64 (sum_pages ps_wasted pages + sum_tails size (tail pages)))
    (match pages with [] => 0 | pg :: _ => u64 (page_tail size pg) end)
    (u64 (sum_pages ps_used pages)) (u64 (sum_pages ps_reserved pages))
    (u64 (sum_allocd ads)).

(** ** The invariant *)

Definition page_ok (size : Z) (pg : pool_page) : Prop :=
  16 ≤ pg_addr pg ∧ pg_addr pg mod 16 = 0 ∧ pg_addr pg + size < 2 ^ 47 ∧
  0 ≤ ps_used (pg_space pg) ∧ 0 ≤ ps_wasted (pg_space pg) ∧
  ps_reserved (pg_space pg) = sizeof_pool_page ∧
  ps_cur (pg_space pg) ≤ pg_addr pg + size ∧
  ps_used (pg_space pg) + ps_wasted (pg_space pg) + sizeof_pool_page
    = ps_cur (pg_space pg) - pg_addr pg.

Definition allocd_ok (ad : pool_allocd) : Prop :=
  16 ≤ ad_addr ad ∧ ad_addr ad mod 16 = 0 ∧ 0 ≤ ad_size ad ∧
  ad_addr ad + (sizeof_pool_allocd + ad_size ad) < 2 ^ 47.

Definition page_blk (size : Z) (pg : pool_page) : block := (pg_addr pg, size).
Definition allocd_blk (ad : pool_allocd) : block :=
  (ad_addr ad, sizeof_pool_allocd + ad_size ad).

(** The heap blocks the pool took from [malloc]. *)
Definition pool_blocks (p : pool) : list block :=
  (page_blk (p_size p) <$> p_pages p) ++ (allocd_blk <$> p_allocd p).

(** The part of a page, and of a single allocation, that is handed out. *)
Definition page_data (pg : pool_page) : block :=
  (pg_addr pg + sizeof_pool_page,
   ps_cur (pg_space pg) - (pg_addr pg + sizeof_pool_page)).
Definition allocd_data (ad : pool_allocd) : block :=
  (ad_addr ad + sizeof_pool_allocd, ad_size ad).

(** The pool's own data is consistent and the heap holds its blocks beside
    the blocks [base] of the rest of the program. *)
Record pool_wf (base : heap) (w : pw) : Prop := PoolWf {
  pw_size : sizeof_pool_page ≤ p_size (w_pool w) < 2 ^ 47;
  pw_heap : heap_wf (w_heap w);
  pw_owns : owns (w_heap w) base (pool_blocks (w_pool w));
  pw_pages : Forall (page_ok (p_size (w_pool w))) (p_pages (w_pool w));
  pw_allocd : Forall allocd_ok (p_allocd (w_pool w));
  pw_space : p_space (w_pool w) =
    space_of (p_size (w_pool w)) (p_pages (w_pool w)) (p_allocd (w_pool w));
  pw_count : p_count (w_pool w) = u64 (Z.of_nat (length (p_pages (w_pool w))))
}.

(** [G] are the blocks handed out so far: each is inside a page below its
    cursor, or is a single allocation, and no two overlap. *)
Record pool_inv (base : heap) (G : list block) (w : pw) : Prop := PoolInv {
  pi_wf : pool_wf base w;
  pi_last : ∃ pg rest, p_pages (w_pool w) = pg :: rest ∧
                       p_cur (w_pool w) = ps_cur (pg_space pg);
  pi_live : Forall (λ b, 0 ≤ b.2 ∧
      ((∃ pg, pg ∈ p_pages (w_pool w) ∧ within_blk b (page_data pg)) ∨
       (∃ ad, ad ∈ p_allocd (w_pool w) ∧ b = allocd_data ad))) G;
  pi_disj : all_disjoint G
}.

(** [p2] is what allocations and marks make of [p1]: pages and single
    allocations were pushed, the last page of [p1] may have moved its cursor. *)
Inductive pool_ext (p1 p2 : pool) : Prop :=
  PoolExt news pg pg' rest nads nlvs :
    p_size p2 = p_size p1 →
    p_pages p1 = pg :: rest → p_pages p2 = news ++ pg' :: rest →
    pg_addr pg' = pg_addr pg →
    p_allocd p2 = nads ++ p_allocd p1 →
    p_levels p2 = p_levels p1 ++ nlvs → pool_ext p1 p2.

(** ** Lemmas *)

Lemma align_native_spec p :
  0 ≤ p < 2 ^ 63 → p ≤ align_native p ≤ p + 7 ∧ align_native p mod 8 = 0.
Proof.
  intros Hp. unfold align_native. rewrite (u64_small (p + 7)) by lia.
  pose proof (Z.mod_pos_bound (p + 7) 8 ltac:(lia)) as Hm.
  assert (Z.land (p + 7) (u64 (Z.lnot 7)) = p + 7 - (p + 7) mod 8) as ->.
  - unfold u64, wrap. rewrite <- Z.land_ones, Z.land_assoc by lia.
    change (Z.lnot 7) with (Z.lnot (Z.ones 3)). rewrite land_lnot_ones by lia.
    change (2 ^ 3) with 8. rewrite Z.land_ones by lia. apply Z.mod_small. lia.
  - split; [lia|]. rewrite Zminus_mod_idemp_r, Z.sub_diag. done.
Qed.

Lemma page_used_space_ok size pg :
  page_ok size pg → page_used_space (pg_addr pg) (ps_cur (pg_space pg))
                    = ps_cur (pg_space pg) - pg_addr pg.
Proof.
  unfold page_ok, sizeof_pool_page. intros. unfold page_used_space.
  rewrite u64_small; lia.
Qed.

Lemma page_data_within size pg : page_ok size pg → within_blk (page_data pg) (page_blk size pg).
Proof. unfold page_ok, within_blk, page_data, page_blk, sizeof_pool_page. simpl. lia. Qed.

Lemma allocd_data_within ad : within_blk (allocd_data ad) (allocd_blk ad).
Proof. unfold within_blk, allocd_data, allocd_blk, sizeof_pool_allocd. simpl. lia. Qed.

(** The counters add up to the pages. *)
Lemma space_of_total size pages ads :
  Forall (page_ok size) pages →
  let sp := space_of size pages ads in
  u64 (sp_used sp + sp_wasted sp + sp_reserved sp + sp_free sp)
  = u64 (size * Z.of_nat (length pages)).
Proof.
  intros Hok. cbv zeta.
  assert (∀ l, Forall (page_ok size) l →
    sum_pages ps_wasted l + sum_tails size l + sum_pages ps_used l
      + sum_pages ps_reserved l = size * Z.of_nat (length l)) as Hsum.
  { unfold page_ok. induction 1; unfold sum_pages, sum_tails, page_tail in *;
      cbn [foldr length]; rewrite ?Nat2Z.inj_succ; lia. }
  specialize (Hsum _ Hok). destruct pages as [|pg rest].
  { simpl. by rewrite Z.mul_0_r. }
  unfold space_of. cbn [sp_used sp_wasted sp_reserved sp_free tail] in *.
  unfold sum_tails in Hsum. cbn [foldr] in Hsum. fold (sum_tails size rest) in Hsum.
  u64_eq.
Qed.

Lemma space_of_pop_page size pg rest ads :
  page_ok size pg →
  let sp := space_of size (pg :: rest) ads in
  u64 (sp_free sp - u64 (size - page_used_space (pg_addr pg) (ps_cur (pg_space pg)))) = 0.
Proof.
  intros Hok. simpl. rewrite (page_used_space_ok _ _ Hok).
  unfold page_tail. by rewrite Z.sub_diag.
Qed.

(** The pool with other pages and single allocations, its counters to match. *)
Definition with_blocks (p : pool) (pages : list pool_page) (ads : list pool_allocd)
    : pool :=
  Pool (space_of (p_size p) pages ads) (p_size p) (u64 (Z.of_nat (length pages)))
    pages (p_cur p) ads (p_levels p).

Lemma pool_wf_owned_page base w pg rest :
  pool_wf base w → p_pages (w_pool w) = pg :: rest →
  owns (w_heap w) base (page_blk (p_size (w_pool w)) pg ::
    pool_blocks (with_blocks (w_pool w) rest (p_allocd (w_pool w)))).
Proof. intros [_ _ Ho _ _ _ _] Hp. unfold pool_blocks in *. by rewrite Hp in Ho. Qed.

Lemma pool_wf_owned_allocd base w ad rest :
  pool_wf base w → p_allocd (w_pool w) = ad :: rest →
  owns (w_heap w) base (allocd_blk ad ::
    pool_blocks (with_blocks (w_pool w) (p_pages (w_pool w)) rest)).
Proof.
  intros [_ _ Ho _ _ _ _] Hp. unfold pool_blocks in *. rewrite Hp in Ho.
  eapply owns_perm; [|done]. simpl. by rewrite Permutation_middle.
Qed.

Lemma remove_last_page_spec base w pg rest :
  pool_wf base w → p_pages (w_pool w) = pg :: rest →
  ∃ h, remove_last_page w
         = Some (tt, PW h (with_blocks (w_pool w) rest (p_allocd (w_pool w)))) ∧
       pool_wf base (PW h (with_blocks (w_pool w) rest (p_allocd (w_pool w)))).
Proof.
  intros Hwf Hp. pose proof (pool_wf_owned_page _ _ _ _ Hwf Hp) as Ho.
  destruct Hwf as [Hsz Hh _ Hpg Had Hsp Hct].
  exists (delete (pg_addr pg) (w_heap w)). split.
  - unfold remove_last_page, get_pool, w_free, set_pool. m_unfold. rewrite Hp. simpl.
    rewrite (h_free_owned _ _ _ _ _ Ho). unfold with_blocks. simpl.
    rewrite Hp in Hpg. apply Forall_cons in Hpg as [Hpg Hrest].
    rewrite Hsp, Hct, Hp, (page_used_space_ok _ _ Hpg). do 4 f_equal.
    + destruct rest as [|prev rest]; unfold space_of; simpl; unfold page_tail.
      { f_equal; u64_eq. }
      apply Forall_cons in Hrest as [Hprev _].
      rewrite (page_used_space_ok _ _ Hprev). f_equal; u64_eq.
    + simpl length. rewrite Nat2Z.inj_succ. u64_eq.
  - apply owns_delete in Ho. split; simpl; try done.
    + by apply heap_wf_delete.
    + rewrite Hp in Hpg. by apply Forall_cons in Hpg as [_ ?].
Qed.

Lemma plain_old_free_last_spec base w ad rest :
  pool_wf base w → p_allocd (w_pool w) = ad :: rest →
  ∃ h, plain_old_free_last w
         = Some (tt, PW h (with_blocks (w_pool w) (p_pages (w_pool w)) rest)) ∧
       pool_wf base (PW h (with_blocks (w_pool w) (p_pages (w_pool w)) rest)).
Proof.
  intros Hwf Hp. pose proof (pool_wf_owned_allocd _ _ _ _ Hwf Hp) as Ho.
  destruct Hwf as [Hsz Hh _ Hpg Had Hsp Hct].
  exists (delete (ad_addr ad) (w_heap w)). split.
  - unfold plain_old_free_last, get_pool, w_free, set_pool. m_unfold. rewrite Hp. simpl.
    rewrite (h_free_owned _ _ _ _ _ Ho). unfold with_blocks. simpl.
    rewrite Hsp, <- Hct, Hp. unfold space_of. simpl. do 4 f_equal. f_equal. u64_eq.
  - apply owns_delete in Ho. split; simpl; try done.
    + by apply heap_wf_delete.
    + rewrite Hp in Had. by apply Forall_cons in Had as [_ ?].
Qed.

(** The loops pop what lies above the target. *)
Lemma free_allocd_until_spec base nads n target w rest :
  pool_wf base w → p_allocd (w_pool w) = nads ++ rest → (length nads ≤ n)%nat →
  Forall (λ ad, ad_addr ad ≠ target) nads →
  match rest with [] => target = 0 | ad :: _ => ad_addr ad = target end →
  ∃ h, free_allocd_until n target w
         = Some (tt, PW h (with_blocks (w_pool w) (p_pages (w_pool w)) rest)) ∧
       pool_wf base (PW h (with_blocks (w_pool w) (p_pages (w_pool w)) rest)).
Proof.
  revert n w. induction nads as [|ad nads IH]; intros n w Hwf Hp Hn Hne Ht.
  - assert (w = PW (w_heap w) (with_blocks (w_pool w) (p_pages (w_pool w)) rest)) as Hw.
    { destruct w as [h p], Hwf as [_ _ _ _ _ Hsp Hct], p. simpl in *. by subst. }
    exists (w_heap w). rewrite <- Hw. split; [|done].
    assert (last_allocd_addr (w_pool w) = target) as Hl.
    { unfold last_allocd_addr. rewrite Hp. simpl. by destruct rest. }
    destruct n; simpl; unfold get_pool; m_unfold; by rewrite Hl, Z.eqb_refl.
  - apply Forall_cons in Hne as [Had Hne]. destruct n as [|n]; [simpl in Hn; lia|].
    destruct (plain_old_free_last_spec _ _ _ _ Hwf Hp) as (h1 & E1 & Hwf1).
    destruct (IH n _ Hwf1 eq_refl ltac:(simpl in Hn; lia) Hne Ht) as (h2 & E2 & Hwf2).
    exists h2. split; [|done].
    simpl. unfold get_pool at 1. m_unfold. unfold last_allocd_addr. rewrite Hp. simpl.
    destruct (Z.eqb_spec (ad_addr ad) target); [done|]. by rewrite E1.
Qed.

Lemma remove_pages_until_spec base news n target w rest :
  pool_wf base w → p_pages (w_pool w) = news ++ rest → (length news ≤ n)%nat →
  Forall (λ pg, pg_addr pg ≠ target) news →
  match rest with [] => target = 0 | pg :: _ => pg_addr pg = target end →
  ∃ h, remove_pages_until n target w
         = Some (tt, PW h (with_blocks (w_pool w) rest (p_allocd (w_pool w)))) ∧
       pool_wf base (PW h (with_blocks (w_pool w) rest (p_allocd (w_pool w)))).
Proof.
  revert n w. induction news as [|pg news IH]; intros n w Hwf Hp Hn Hne Ht.
  - assert (w = PW (w_heap w) (with_blocks (w_pool w) rest (p_allocd (w_pool w)))) as Hw.
    { destruct w as [h p], Hwf as [_ _ _ _ _ Hsp Hct], p. simpl in *. by subst. }
    exists (w_heap w). rewrite <- Hw. split; [|done].
    assert (last_page_addr (w_pool w) = target) as Hl.
    { unfold last_page_addr. rewrite Hp. simpl. by destruct rest. }
    destruct n; simpl; unfold get_pool; m_unfold; by rewrite Hl, Z.eqb_refl.
  - apply Forall_cons in Hne as [Had Hne]. destruct n as [|n]; [simpl in Hn; lia|].
    destruct (remove_last_page_spec _ _ _ _ Hwf Hp) as (h1 & E1 & Hwf1).
    destruct (IH n _ Hwf1 eq_refl ltac:(simpl in Hn; lia) Hne Ht) as (h2 & E2 & Hwf2).
    exists h2. split; [|done].
    simpl. unfold get_pool at 1. m_unfold. unfold last_page_addr. rewrite Hp. simpl.
    destruct (Z.eqb_spec (pg_addr pg) target); [done|]. by rewrite E1.
Qed.

(** The cursor of the pool is the cursor of its last page. *)
Definition cur_ok (p : pool) : Prop :=
  match p_pages p with [] => True | pg :: _ => p_cur p = ps_cur (pg_space pg) end.

Definition new_page (a : Z) : pool_page :=
  PoolPage a (PageSpace 0 0 sizeof_pool_page (a + sizeof_pool_page)).

Section pool_lemmas.
Context `{Malloc}.

Lemma align_native_page a :
  16 ≤ a → a mod 16 = 0 → a < 2 ^ 47 →
  align_native (a + sizeof_pool_page) = a + sizeof_pool_page.
Proof.
  unfold sizeof_pool_page. intros ? Hm16 ?.
  destruct (align_native_spec (a + 40)) as [Hr Hm]; [lia|].
  apply Z.mod_divide in Hm as [k Hk], Hm16 as [j Hj]; lia.
Qed.

Lemma space_retire_last_ok p :
  p_space p = space_of (p_size p) (p_pages p) (p_allocd p) → cur_ok p →
  Forall (page_ok (p_size p)) (p_pages p) →
  space_retire_last p =
  PoolSpace (u64 (sum_pages ps_wasted (p_pages p) + sum_tails (p_size p) (p_pages p))) 0
    (u64 (sum_pages ps_used (p_pages p))) (u64 (sum_pages ps_reserved (p_pages p)))
    (u64 (sum_allocd (p_allocd p))).
Proof.
  unfold space_retire_last, cur_ok. intros Hsp Hc Hpg. rewrite Hsp.
  destruct (p_pages p) as [|pg rest]; [done|]. apply Forall_cons in Hpg as [Hpg _].
  rewrite Hc, (page_used_space_ok _ _ Hpg). unfold space_of. simpl. unfold page_tail.
  f_equal; u64_eq.
Qed.

Lemma add_page_spec base w :
  pool_wf base w → cur_ok (w_pool w) →
  add_page w = Some (None, w) ∨
  ∃ a w', add_page w = Some (Some a, w') ∧ pool_wf base w' ∧ w_heap w !! a = None ∧
    w_pool w' = Pool (space_of (p_size (w_pool w)) (new_page a :: p_pages (w_pool w))
                       (p_allocd (w_pool w)))
                  (p_size (w_pool w)) (u64 (Z.of_nat (S (length (p_pages (w_pool w))))))
                  (new_page a :: p_pages (w_pool w)) (a + sizeof_pool_page)
                  (p_allocd (w_pool w)) (p_levels (w_pool w)).
Proof.
  intros [Hsz Hh Ho Hpg Had Hsp Hct] Hc. unfold add_page, get_pool, w_malloc, set_pool.
  unfold sizeof_pool_page in Hsz.
  m_unfold. destruct (h_malloc _ (w_heap w)) as [[r h]|] eqn:E;
    [|unfold h_malloc in E; by destruct (malloc_fn _ _)].
  pose proof (h_malloc_inv (p_size (w_pool w)) _ _ _ ltac:(lia) Hh E) as Hinv.
  destruct r as [a|]; simpl; [right|left; by destruct w; simplify_eq/=].
  destruct Hinv as (-> & Hh' & Hfr & H16 & Hm & Hb & Hd).
  rewrite align_native_page by lia.
  rewrite (space_retire_last_ok _ Hsp Hc Hpg). simpl.
  exists a. eexists. split; [done|].
  assert (page_used_space a (a + sizeof_pool_page) = sizeof_pool_page) as Hu.
  { unfold page_used_space, sizeof_pool_page. rewrite u64_small; lia. }
  rewrite Hu. simpl. split; [|split; [done|]].
  - split; simpl; try done.
    + unfold pool_blocks. simpl. by apply owns_insert.
    + constructor; [|done]. unfold page_ok. simpl. unfold sizeof_pool_page. lia.
    + unfold space_of. simpl. unfold page_tail, sizeof_pool_page. simpl. f_equal; u64_eq.
    + rewrite Hct, Nat2Z.inj_succ. u64_eq.
  - unfold new_page. f_equal.
    + unfold space_of. simpl. unfold page_tail, sizeof_pool_page. simpl. f_equal; u64_eq.
    + rewrite Hct, Nat2Z.inj_succ. u64_eq.
Qed.

Lemma pool_inv_cur base G w : pool_inv base G w → cur_ok (w_pool w).
Proof. intros [_ (pg & rest & Hp & Hc) _ _]. unfold cur_ok. by rewrite Hp. Qed.

Lemma pool_inv_add_page base G w a w' :
  pool_inv base G w → pool_wf base w' →
  p_pages (w_pool w') = new_page a :: p_pages (w_pool w) →
  p_cur (w_pool w') = a + sizeof_pool_page →
  p_allocd (w_pool w') = p_allocd (w_pool w) → pool_inv base G w'.
Proof.
  intros [_ _ Hl Hd] Hwf Hp Hc Ha. split; [done| |idtac|done].
  - by exists (new_page a), (p_pages (w_pool w)).
  - eapply Forall_impl; [done|]. intros b [? [(pg & ? & ?)|?]]; split; try done.
    + left. exists pg. rewrite Hp. split; [by right|done].
    + right. by rewrite Ha.
Qed.

(** Every live block other than those of the last page is away from it. *)
Lemma live_disjoint_last base G w pg rest x :
  pool_inv base G w → p_pages (w_pool w) = pg :: rest →
  within_blk x (page_blk (p_size (w_pool w)) pg) → 0 ≤ x.2 →
  ps_cur (pg_space pg) ≤ x.1 → Forall (disjoint_blk x) G.
Proof.
  intros [Hwf _ Hl _] Hp Hx Hx0 Hcur.
  pose proof (owns_all_disjoint _ _ _ (pw_heap _ _ Hwf) (pw_owns _ _ Hwf)) as Had.
  unfold pool_blocks in Had. rewrite Hp in Had. simpl in Had. destruct Had as [Had _].
  rewrite Forall_forall in Had.
  eapply Forall_impl; [exact Hl|]. intros b [Hb0 Hb]. pose proof (pw_pages _ _ Hwf) as Hok.
  rewrite Forall_forall in Hok.
  assert (∀ z, within_blk b z → disjoint_blk (page_blk (p_size (w_pool w)) pg) z →
               disjoint_blk x b) as Hfar.
  { intros z Hbz Hz. apply (disjoint_within x _ b Hx0 Hx), disjoint_blk_sym.
    apply (disjoint_within b z _ Hb0 Hbz). by apply disjoint_blk_sym. }
  destruct Hb as [(pg' & Hin & Hw)|(ad & Hin & ->)].
  - pose proof (page_data_within _ _ (Hok _ Hin)) as Hw'. rewrite Hp in Hin.
    apply elem_of_cons in Hin as [->|Hin].
    + right. unfold within_blk, page_data in Hw. simpl in Hw. lia.
    + apply (Hfar _ (within_blk_trans _ _ _ Hw Hw')), Had, elem_of_app. left.
      by apply list_elem_of_fmap_2.
  - apply (Hfar _ (allocd_data_within ad)), Had, elem_of_app. right.
    by apply list_elem_of_fmap_2.
Qed.

(** Where the next block of the current page would start. *)
Definition next_ret (p : pool) (align : bool) : Z :=
  if align then align_native (p_cur p) else p_cur p.

Lemma next_ret_spec base G w align :
  pool_inv base G w →
  p_cur (w_pool w) ≤ next_ret (w_pool w) align ≤ p_cur (w_pool w) + 7 ∧
  56 ≤ p_cur (w_pool w) < 2 ^ 47 ∧
  (align = true → next_ret (w_pool w) align mod 8 = 0).
Proof.
  intros [Hwf (pg & rest & Hp & Hc) _ _].
  pose proof (pw_pages _ _ Hwf) as Hpg. rewrite Hp in Hpg.
  apply Forall_cons in Hpg as [Hpg _]. unfold page_ok, sizeof_pool_page in Hpg.
  assert (56 ≤ p_cur (w_pool w) < 2 ^ 47) by lia.
  unfold next_ret. destruct align; [|by split_and!; lia].
  pose proof (align_native_spec (p_cur (w_pool w)) ltac:(lia)) as [? ?].
  by split_and!; try lia.
Qed.

(** The state after a block of [sz] bytes at [ret] was cut from the last page. *)
Definition bump_state (w : pw) (pg : pool_page) (rest : list pool_page) (ret sz : Z) : pw :=
  PW (w_heap w) (pool_update_space (w_pool w) pg rest (ret + sz) sz (ret - p_cur (w_pool w)) 0).

Lemma bump_state_inv base G w pg rest ret sz :
  pool_inv base G w → p_pages (w_pool w) = pg :: rest →
  p_cur (w_pool w) ≤ ret → 0 ≤ sz → ret + sz ≤ pg_addr pg + p_size (w_pool w) →
  pool_inv base ((ret, sz) :: G) (bump_state w pg rest ret sz).
Proof.
  intros Hinv Hp Hret Hsz Hroom.
  pose proof (pool_inv_cur _ _ _ Hinv) as Hcur. unfold cur_ok in Hcur. rewrite Hp in Hcur.
  pose proof Hinv as [[Hsize Hh Ho Hpg Had Hsp Hct] _ Hl Hd].
  rewrite Hp in Hpg, Hct. apply Forall_cons in Hpg as [Hpg Hrest].
  pose proof Hpg as (Hp1 & Hp2 & Hp3 & Hp4 & Hp5 & Hp6 & Hp7 & Hp8).
  unfold sizeof_pool_page in *.
  assert (u64 (ps_used (pg_space pg) + sz) = ps_used (pg_space pg) + sz) as Eu
    by (apply u64_small; lia).
  assert (u64 (ps_wasted (pg_space pg) + (ret - p_cur (w_pool w) + 0))
          = ps_wasted (pg_space pg) + (ret - p_cur (w_pool w))) as Ew
    by (rewrite u64_small; lia).
  split.
  - split; simpl; rewrite ?Eu, ?Ew; try done.
    + unfold pool_blocks in *. rewrite Hp in Ho. by simpl in *.
    + constructor; [|done]. unfold page_ok, sizeof_pool_page. simpl. lia.
    + rewrite Hsp, Hp. unfold space_of. simpl. unfold page_tail. simpl.
      rewrite Hcur. f_equal; u64_eq.
  - by eexists _, _.
  - constructor.
    + simpl. split; [done|]. left. eexists. split; [by left|].
      unfold within_blk, page_data, sizeof_pool_page. simpl. lia.
    + eapply Forall_impl; [exact Hl|]. intros b [Hb Hor]. split; [done|].
      destruct Hor as [(pg' & Hin & Hw)|?]; [|by right]. left. rewrite Hp in Hin.
      apply elem_of_cons in Hin as [->|Hin]; [|by exists pg'; split; [right|]].
      eexists. split; [by left|]. unfold within_blk, page_data in *. simpl in *. lia.
  - split; [|done]. eapply live_disjoint_last; [done|done| |done|].
    + unfold within_blk, page_blk. simpl. lia.
    + simpl. lia.
Qed.

Lemma bump_state_ext w pg rest ret sz :
  p_pages (w_pool w) = pg :: rest →
  pool_ext (w_pool w) (w_pool (bump_state w pg rest ret sz)).
Proof. intros Hp. by eapply (PoolExt _ _ [] pg _ rest [] []); simpl; rewrite ?app_nil_r. Qed.

(** Whether the last page has room for a block. *)
Definition has_room (p : pool) (sz : Z) (align : bool) : Prop :=
  next_ret p align + sz ≤ last_page_addr p + p_size p.

Lemma palloc_in_current_page_spec base G w sz align :
  pool_inv base G w → 0 ≤ sz < 2 ^ 63 →
  (has_room (w_pool w) sz align ∧ ∃ pg rest, p_pages (w_pool w) = pg :: rest ∧
     palloc_in_current_page sz align w
     = Some (Some (next_ret (w_pool w) align),
             bump_state w pg rest (next_ret (w_pool w) align) sz)) ∨
  (¬ has_room (w_pool w) sz align ∧ palloc_in_current_page sz align w = Some (None, w)).
Proof.
  intros Hinv Hsz. pose proof (next_ret_spec _ _ _ align Hinv) as (Hr1 & Hc1 & _).
  pose proof (pool_inv_cur _ _ _ Hinv) as Hcur. unfold cur_ok in Hcur.
  destruct Hinv as [Hwf (pg & rest & Hp & Hc) _ _]. rewrite Hp in Hcur.
  pose proof (pw_pages _ _ Hwf) as Hpg. rewrite Hp in Hpg.
  apply Forall_cons in Hpg as [Hpg _]. pose proof (pw_size _ _ Hwf) as Hsize.
  unfold palloc_in_current_page, get_pool, set_pool, has_room, last_page_addr.
  m_unfold. rewrite Hp. fold (next_ret (w_pool w) align).
  rewrite Hcur, (page_used_space_ok _ _ Hpg), <- Hcur.
  unfold page_ok, sizeof_pool_page in *.
  rewrite !s64_small by lia.
  destruct (Z.ltb_spec (p_size (w_pool w) - (p_cur (w_pool w) - pg_addr pg))
    (next_ret (w_pool w) align - p_cur (w_pool w) + sz + 0)).
  - right. split; [lia|done].
  - left. split; [lia|]. exists pg, rest. split; [done|].
    rewrite Z.add_0_r, (u64_small (_ + sz)) by lia.
    destruct (Z.eqb_spec (next_ret (w_pool w) align) 0); [lia|done].
Qed.

(** A new page has room for what [page_max_free_space] admits. *)
Lemma palloc_in_new_page_spec base G w sz align :
  pool_inv base G w → 0 ≤ sz < 2 ^ 63 →
  palloc_in_new_page sz align w = Some (None, w) ∨
  ∃ a w', palloc_in_new_page sz align w = Some (Some a, w') ∧
    pool_inv base ((a, sz) :: G) w' ∧ pool_ext (w_pool w) (w_pool w') ∧
    (align = true → a mod 8 = 0).
Proof.
  intros Hinv Hsz. pose proof (pi_wf _ _ _ Hinv) as Hwf.
  pose proof (pw_size _ _ Hwf) as Hsize.
  unfold sizeof_pool_page in Hsize.
  assert (page_max_free_space (s64 (p_size (w_pool w))) = p_size (w_pool w) - 40) as Hmx
    by (rewrite s64_small by lia; reflexivity).
  unfold palloc_in_new_page, get_pool. m_unfold. rewrite Hmx, (s64_small sz) by lia.
  destruct (Z.ltb_spec (p_size (w_pool w) - 40) (0 + sz + 0)) as [?|Hfit]; [by left|].
  destruct (add_page_spec _ _ Hwf (pool_inv_cur _ _ _ Hinv)) as [E|(a & w1 & E & Hwf1 & Hfr & Hw1)];
    rewrite E; [by left|right].
  assert (pool_inv base G w1) as Hinv1
    by (eapply (pool_inv_add_page _ _ w a); [done|done|by rewrite Hw1..]).
  pose proof (next_ret_spec _ _ _ align Hinv1) as (_ & _ & Hal).
  assert (next_ret (w_pool w1) align = a + sizeof_pool_page) as Hret.
  { pose proof (pw_pages _ _ Hwf1) as Hpg. rewrite Hw1 in Hpg. simpl in Hpg.
    apply Forall_cons in Hpg as [(?&?&?&_) _]. unfold new_page in *. simpl in *.
    unfold next_ret. rewrite Hw1. simpl. destruct align; [|done].
    apply align_native_page; lia. }
  assert (last_page_addr (w_pool w1) = a) as Hla by (unfold last_page_addr; by rewrite Hw1).
  rewrite Hla, Z.eqb_refl. cbv beta iota.
  destruct (palloc_in_current_page_spec _ _ _ sz align Hinv1 Hsz)
    as [(Hroom & pg & rest & Hp & E2)|[Hno _]].
  - rewrite E2. simpl. eexists _, _. split; [done|].
    unfold has_room, last_page_addr in Hroom. rewrite Hp in Hroom.
    pose proof (pool_inv_cur _ _ _ Hinv1) as Hcur. unfold cur_ok in Hcur. rewrite Hp in Hcur.
    split_and!; [|idtac|done].
    + apply bump_state_inv; [done|done| |lia|lia].
      rewrite Hret, Hw1. simpl. lia.
    + destruct (pi_last _ _ _ Hinv) as (pg0 & rest0 & Hp0 & _).
      rewrite Hw1, Hp0 in Hp. simpl in Hp. injection Hp as <- <-.
      eapply (PoolExt _ _ [_] pg0 pg0 rest0 [] []); simpl; rewrite ?Hw1, ?app_nil_r; done.
  - destruct Hno. unfold has_room, last_page_addr. rewrite Hret, Hw1. simpl.
    unfold sizeof_pool_page. lia.
Qed.

Lemma plain_old_malloc_spec base G w sz :
  pool_inv base G w → 0 ≤ sz < 2 ^ 63 →
  (malloc_fn (w_heap w) (sizeof_pool_allocd + sz) = None ∧
   plain_old_malloc sz w = Some (None, w)) ∨
  ∃ a w', plain_old_malloc sz w = Some (Some a, w') ∧ pool_inv base ((a, sz) :: G) w' ∧
    pool_ext (w_pool w) (w_pool w') ∧ a mod 8 = 0.
Proof.
  intros Hinv Hsz. pose proof Hinv as [[Hsize Hh Ho Hpg Had Hsp Hct] Hlast Hl Hd].
  unfold plain_old_malloc, w_malloc, get_pool, set_pool. m_unfold.
  unfold sizeof_pool_allocd. rewrite u64_small by lia.
  destruct (h_malloc (16 + sz) (w_heap w)) as [[r h]|] eqn:E;
    [|unfold h_malloc in E; by destruct (malloc_fn _ _)].
  pose proof (h_malloc_inv (16 + sz) _ _ _ ltac:(lia) Hh E) as Hm.
  unfold h_malloc in E. destruct r as [a|]; simpl.
  2: { left. subst h. split; [by destruct (malloc_fn _ _)|by destruct w]. }
  right. destruct Hm as (-> & Hh' & Hfr & H16 & Hm & Hb & Hfar).
  eexists _, _. split; [done|]. split_and!.
  - split; [split| | |]; simpl; try done.
    + unfold pool_blocks in *. simpl. rewrite <- Permutation_middle.
      by apply owns_insert.
    + constructor; [|done]. unfold allocd_ok, sizeof_pool_allocd. simpl. lia.
    + rewrite Hsp. unfold space_of. simpl. f_equal. u64_eq.
    + constructor.
      * split; [simpl; lia|]. right. eexists. split; [by left|]. done.
      * eapply Forall_impl; [exact Hl|]. intros b [? [?|(ad & ? & ?)]]; split; try done.
        -- by left.
        -- right. exists ad. split; [by right|done].
    + split; [|done]. rewrite Forall_forall in Hl. apply Forall_forall.
      intros b Hb'. destruct (Hl _ Hb') as [Hb0 Hor].
      assert (∀ z, within_blk b z → z ∈ pool_blocks (w_pool w) → disjoint_blk (a + 16, sz) b)
        as Hz.
      { intros [z zn] Hbz Hin. pose proof (owns_lookup _ _ _ _ _ Ho Hin) as Hlz.
        apply (disjoint_within _ (a, 16 + sz)); [simpl; lia|unfold within_blk; simpl; lia|].
        apply disjoint_blk_sym, (disjoint_within _ (z, zn)); [done|done|].
        by apply disjoint_blk_sym, Hfar. }
      destruct Hor as [(pg & Hin & Hw)|(ad & Hin & ->)].
      * rewrite Forall_forall in Hpg.
        apply (Hz (page_blk (p_size (w_pool w)) pg));
          [eapply within_blk_trans; [done|]; by apply page_data_within, Hpg|].
        apply elem_of_app. left. by apply list_elem_of_fmap_2.
      * apply (Hz (allocd_blk ad)); [apply allocd_data_within|].
        apply elem_of_app. right. by apply list_elem_of_fmap_2.
  - destruct Hlast as (pg & rest & Hp & _).
    by eapply (PoolExt _ _ [] pg pg rest [_] []); simpl; rewrite ?app_nil_r.
  - unfold sizeof_pool_allocd. apply Z.mod_divide in Hm as [k ->]; [|done].
    apply Z.mod_divide; [done|]. exists (2 * k + 2). lia.
Qed.

Lemma palloc_with_alignment_spec base G w sz align :
  pool_inv base G w → 0 ≤ sz < 2 ^ 63 →
  (palloc_with_alignment sz align w = Some (None, w) ∧
   malloc_fn (w_heap w) (sizeof_pool_allocd + sz) = None) ∨
  ∃ a w', palloc_with_alignment sz align w = Some (Some a, w') ∧
    pool_inv base ((a, sz) :: G) w' ∧ pool_ext (w_pool w) (w_pool w') ∧
    (align = true → a mod 8 = 0).
Proof.
  intros Hinv Hsz. unfold palloc_with_alignment. m_unfold.
  destruct (palloc_in_current_page_spec _ _ _ sz align Hinv Hsz)
    as [(Hroom & pg & rest & Hp & ->)|[_ ->]].
  { right. eexists _, _. split; [done|].
    unfold has_room, last_page_addr in Hroom. rewrite Hp in Hroom.
    pose proof (next_ret_spec _ _ _ align Hinv) as (Hr & _ & Hal). split_and!; [|by apply bump_state_ext|done].
    apply bump_state_inv; [done|done|lia..]. }
  destruct (palloc_in_new_page_spec _ _ _ sz align Hinv Hsz) as [->|(a & w' & -> & ?)].
  2: { right. by eexists _, _. }
  destruct (plain_old_malloc_spec _ _ _ sz Hinv Hsz) as [[? ->]|(a & w' & -> & ? & ? & ?)].
  - by left.
  - right. by eexists _, _.
Qed.

(** What [shuso_pool_mark_level] records of the pool. *)
Definition level_of (p : pool) : pool_level :=
  PoolLevel (last_page_addr p) (p_cur p)
    (match p_pages p with [] => zero_page_space | pg :: _ => pg_space pg end)
    (last_allocd_addr p).

Lemma pool_ext_refl base G w : pool_inv base G w → pool_ext (w_pool w) (w_pool w).
Proof.
  intros [_ (pg & rest & Hp & _) _ _].
  by apply (PoolExt _ _ [] pg pg rest [] []); rewrite ?app_nil_r.
Qed.

Lemma pool_ext_trans p1 p2 p3 : pool_ext p1 p2 → pool_ext p2 p3 → pool_ext p1 p3.
Proof.
  intros [n1 pg1 pg1' r1 a1 l1 Hs1 Hp1 Hp1' Hg1 Ha1 Hl1] [n2 pg2 pg2' r2 a2 l2 Hs2 Hp2 Hp2' Hg2 Ha2 Hl2].
  rewrite Hp2 in Hp1'. destruct n1 as [|x n1]; simplify_eq/=.
  - eapply (PoolExt _ _ n2 pg1 pg2' r1 (a2 ++ a1) (l1 ++ l2));
      rewrite <- ?app_assoc, ?Hl2, ?Hl1, <- ?app_assoc; congruence.
  - eapply (PoolExt _ _ (n2 ++ pg2' :: n1) pg1 pg1' r1 (a2 ++ a1) (l1 ++ l2));
      rewrite <- ?app_assoc; simpl; rewrite ?Hl2, ?Hl1, <- ?app_assoc; congruence.
Qed.

Lemma pool_wf_nodup base w :
  pool_wf base w →
  NoDup (pg_addr <$> p_pages (w_pool w)) ∧ NoDup (ad_addr <$> p_allocd (w_pool w)).
Proof.
  intros [_ _ [_ Hnd _] _ _ _ _]. unfold pool_blocks in Hnd.
  rewrite fmap_app, <- !list_fmap_compose in Hnd.
  apply NoDup_app in Hnd as (? & _ & ?). done.
Qed.

Lemma nodup_app_ne {A} (f : A → Z) l1 x l2 :
  NoDup (f <$> (l1 ++ x :: l2)) → Forall (λ y, f y ≠ f x) l1.
Proof.
  rewrite fmap_app. intros (_ & Hd & _)%NoDup_app. apply Forall_forall. intros y Hy He.
  apply (Hd (f y)); [by apply list_elem_of_fmap_2|]. rewrite He. by left.
Qed.

(** The single allocations a drain to the level of [p1] leaves. *)
Definition drained_allocd (p1 p2 : pool) : list pool_allocd :=
  match p_allocd p1 with [] => p_allocd p2 | ads => ads end.

(** The first half of a drain: single allocations. *)
Lemma drain_allocd_spec base w2 p1 nads :
  pool_wf base w2 → p_allocd (w_pool w2) = nads ++ p_allocd p1 →
  let p2 := w_pool w2 in
  let pA := with_blocks p2 (p_pages p2) (drained_allocd p1 p2) in
  ∃ hA, (if last_allocd_addr p1 =? 0 then m_ret tt
         else free_allocd_until (length (p_allocd p2)) (last_allocd_addr p1)) w2
        = Some (tt, PW hA pA) ∧ pool_wf base (PW hA pA).
Proof.
  intros Hwf Ha p2 pA. unfold pA, p2, drained_allocd, last_allocd_addr.
  destruct (pool_wf_nodup _ _ Hwf) as [_ Hnd].
  pose proof (pw_allocd _ _ Hwf) as Had. rewrite Ha in Had.
  apply Forall_app in Had as [_ Had].
  destruct (p_allocd p1) as [|ad ads] eqn:E.
  - destruct (free_allocd_until_spec base [] 0 (last_allocd_addr (w_pool w2)) w2
      (p_allocd (w_pool w2)) Hwf eq_refl ltac:(done) ltac:(done)) as (h & E' & Hwf').
    { unfold last_allocd_addr. by destruct (p_allocd (w_pool w2)). }
    exists h. split; [|done]. revert E'. simpl. unfold get_pool. m_unfold.
    by rewrite Z.eqb_refl.
  - apply Forall_cons in Had as [Had _]. unfold allocd_ok in Had.
    destruct (Z.eqb_spec (ad_addr ad) 0); [lia|].
    apply (free_allocd_until_spec base nads); try done.
    + rewrite Ha, length_app. lia.
    + rewrite Ha in Hnd. by apply nodup_app_ne in Hnd.
Qed.

Lemma roll_back_page_spec base h pA pg pg' rest p1 :
  pool_wf base (PW h pA) → p_pages pA = pg' :: rest → pg_addr pg' = pg_addr pg →
  page_ok (p_size pA) pg → p_pages p1 = pg :: rest →
  let p3 := Pool (space_of (p_size pA) (pg :: rest) (p_allocd pA)) (p_size pA)
              (p_count pA) (pg :: rest) (p_cur p1) (p_allocd pA) (p_levels pA) in
  roll_back_page (level_of p1) pA = p3 ∧ pool_wf base (PW h p3).
Proof.
  intros [Hsz Hh Ho Hpg Had Hsp Hct] Hp Haddr Hok Hp1 p3. simpl in *.
  rewrite Hp in *. apply Forall_cons in Hpg as [Hpg' Hrest].
  assert (PoolPage (pg_addr pg') (pg_space pg) = pg) as Hpgeq
    by (destruct pg; simpl in *; congruence).
  split.
  - unfold roll_back_page, level_of. rewrite Hp, Hp1, Hsp. simpl. unfold p3.
    rewrite Hpgeq. f_equal. unfold space_of. simpl. unfold page_tail. rewrite <- Haddr.
    unfold page_ok, sizeof_pool_page in *. f_equal; u64_eq.
  - split; simpl; try done.
    + unfold pool_blocks in *. rewrite Hp in Ho. simpl in *.
      unfold page_blk in *. by rewrite <- Haddr.
    + by constructor.
Qed.

Lemma drain_spec base G1 G2 w1 w2 n :
  pool_inv base G1 w1 → pool_inv base G2 w2 → pool_ext (w_pool w1) (w_pool w2) →
  0 < n ≤ Z.of_nat (length (p_levels (w_pool w2))) →
  p_levels (w_pool w2) !! Z.to_nat (n - 1) = Some (level_of (w_pool w1)) →
  let p1 := w_pool w1 in let p2 := w_pool w2 in
  let ads := drained_allocd p1 p2 in
  let p3 := Pool (space_of (p_size p1) (p_pages p1) ads) (p_size p1) (p_count p1)
              (p_pages p1) (p_cur p1) ads (p_levels p2) in
  ∃ h3, shuso_pool_drain_to_level n w2 = Some (true, PW h3 p3) ∧
        pool_wf base (PW h3 p3).
Proof.
  intros Hi1 Hi2 [news pg pg' rest nads nlvs Hs Hp1 Hp2 Haddr Ha Hl] Hn Hlv p1 p2 ads p3.
  pose proof (pi_wf _ _ _ Hi2) as Hwf2. pose proof (pi_wf _ _ _ Hi1) as Hwf1.
  pose proof (pw_pages _ _ Hwf1) as Hok. rewrite Hp1, <- Hs in Hok.
  apply Forall_cons in Hok as [Hok _].
  destruct (drain_allocd_spec _ _ p1 _ Hwf2 Ha) as (hA & EA & HwfA).
  destruct (pool_wf_nodup _ _ HwfA) as [Hnd _]. simpl in Hnd. rewrite Hp2 in Hnd.
  destruct (remove_pages_until_spec base news (length (p_pages p2)) (pg_addr pg') _
    (pg' :: rest) HwfA Hp2) as (hB & EB & HwfB); [|by apply nodup_app_ne in Hnd|done|].
  { unfold p2. rewrite Hp2, length_app. lia. }
  pose proof (pw_pages _ _ HwfB) as Hok'. simpl in Hok'.
  apply Forall_cons in Hok' as [Hok' _].
  destruct (roll_back_page_spec _ _ _ pg _ _ p1 HwfB eq_refl Haddr Hok Hp1) as [E3 Hwf3].
  assert (p3 = Pool (space_of (p_size p2) (pg :: rest) ads) (p_size p2)
    (u64 (Z.of_nat (length (pg' :: rest)))) (pg :: rest) (p_cur p1) ads (p_levels p2)) as ->.
  { unfold p3, p1, p2. rewrite Hs, Hp1, (pw_count _ _ Hwf1), Hp1. done. }
  exists hB. split; [|exact Hwf3].
  assert (last_page_addr p1 = pg_addr pg') as Hlp by (unfold last_page_addr, p1; by rewrite Hp1).
  assert (last_page_addr p2 ≠ 0) as Hlp2.
  { unfold last_page_addr. pose proof (pw_pages _ _ Hwf2) as Hok2. fold p2 in Hok2.
    destruct (p_pages p2) as [|x l] eqn:El; [by destruct news; unfold p2 in El; rewrite Hp2 in El|].
    apply Forall_cons in Hok2 as [(? & _) _]. lia. }
  unfold shuso_pool_drain_to_level, get_pool, set_pool. m_unfold. fold p2. fold p2 in Hn, Hlv.
  destruct (Z.ltb_spec (Z.of_nat (length (p_levels p2))) n); [lia|].
  destruct (Z.eqb_spec n 0); [lia|]. rewrite Hlv. unfold level_of at 1 2 3 4. simpl.
  fold p1. simpl in EA. fold p2 in EA. rewrite EA. rewrite Hlp.
  destruct Hok' as (? & _). destruct (Z.eqb_spec (pg_addr pg') 0); [lia|].
  destruct (Z.eqb_spec (last_page_addr p2) 0); [done|]. simpl in EB |- *. fold p2 in EB. rewrite EB. simpl.
  do 3 f_equal. exact E3.
Qed.

Lemma palloc_spec_inv base G w sz align r w' :
  pool_inv base G w → 0 ≤ sz < 2 ^ 63 →
  palloc_with_alignment sz align w = Some (r, w') →
  pool_ext (w_pool w) (w_pool w') ∧
  match r with
  | Some a => pool_inv base ((a, sz) :: G) w' ∧ (align = true → a mod 8 = 0)
  | None => w' = w ∧ malloc_fn (w_heap w) (sizeof_pool_allocd + sz) = None
  end.
Proof.
  intros Hinv Hsz E.
  destruct (palloc_with_alignment_spec _ _ _ sz align Hinv Hsz)
    as [[E' Hm]|(a & w1 & E' & Hi & He & Hal)]; simplify_eq; [|done].
  split; [by eapply pool_ext_refl|done].
Qed.

Lemma mark_level_spec base G w n w' :
  pool_inv base G w → shuso_pool_mark_level w = Some (n, w') → n ≠ 0 →
  ∃ a, pool_inv base ((a, sizeof_pool_level) :: G) w' ∧
    pool_ext (w_pool w) (w_pool w') ∧
    n = Z.of_nat (length (p_levels (w_pool w'))) ∧ n ≤ POOL_MAX_LEVELS ∧
    p_levels (w_pool w') !! Z.to_nat (n - 1) = Some (level_of (w_pool w')).
Proof.
  intros Hinv. unfold shuso_pool_mark_level, get_pool, set_pool. m_unfold.
  destruct (palloc_with_alignment_spec _ _ _ sizeof_pool_level true Hinv ltac:(done))
    as [[E _]|(a & w1 & E & Hi & He & _)]; unfold shuso_palloc; rewrite E;
    [by intros ?; simplify_eq|].
  destruct (Z.ltb_spec (Z.of_nat (length (p_levels (w_pool w1)))) POOL_MAX_LEVELS); [|done].
  intros [= <- <-] _. exists a. cbn [w_pool p_levels]. rewrite length_app. simpl.
  split_and!; try lia.
  - destruct Hi as [[] ? ? ?]. split; try done.
  - eapply pool_ext_trans; [done|].
    destruct (pi_last _ _ _ Hi) as (pg & rest & Hp & _).
    by eapply (PoolExt _ _ [] pg pg rest [] [_]).
  - rewrite lookup_app_r by lia.
    replace (_ - _)%nat with 0%nat by lia. done.
Qed.

End pool_lemmas.

(** ** Runs of the pool *)

Inductive pool_op :=
  | OpAlloc (sz : Z)
  | OpAllocUnaligned (sz : Z)
  | OpMark.

Definition op_ok (o : pool_op) : Prop :=
  match o with OpAlloc sz | OpAllocUnaligned sz => 0 ≤ sz < 2 ^ 63 | OpMark => True end.

Section runs.
Context `{Malloc}.

(** Run the operations; the result lists the blocks handed out, newest first. *)
Definition run_op (o : pool_op) : M pw (list block) :=
  match o with
  | OpAlloc sz =>
      r <- shuso_palloc sz ;;
      m_ret (match r with Some a => [(a, sz)] | None => [] end)
  | OpAllocUnaligned sz =>
      r <- shuso_palloc_unaligned sz ;;
      m_ret (match r with Some a => [(a, sz)] | None => [] end)
  | OpMark => _ <- shuso_pool_mark_level ;; m_ret []
  end.

Fixpoint run_ops (ops : list pool_op) : M pw (list block) :=
  match ops with
  | [] => m_ret []
  | o :: ops' => l <- run_op o ;; l' <- run_ops ops' ;; m_ret (l' ++ l)
  end.

Lemma run_op_spec base G w o l w' :
  pool_inv base G w → op_ok o → run_op o w = Some (l, w') →
  pool_ext (w_pool w) (w_pool w') ∧ ∃ G', pool_inv base (G' ++ G) w' ∧ l `sublist_of` G'.
Proof.
  intros Hinv Hok. destruct o as [sz|sz|]; unfold run_op; m_unfold.
  - destruct (shuso_palloc sz w) as [[r w1]|] eqn:E; [|done].
    pose proof (palloc_spec_inv _ _ _ _ _ _ _ Hinv Hok E) as [He Hr].
    destruct r as [a|]; intros [= <- <-]; (split; [done|]).
    + exists [(a, sz)]. by destruct Hr.
    + destruct Hr as [-> _]. by exists [].
  - destruct (shuso_palloc_unaligned sz w) as [[r w1]|] eqn:E; [|done].
    pose proof (palloc_spec_inv _ _ _ _ _ _ _ Hinv Hok E) as [He Hr].
    destruct r as [a|]; intros [= <- <-]; (split; [done|]).
    + exists [(a, sz)]. by destruct Hr.
    + destruct Hr as [-> _]. by exists [].
  - destruct (shuso_pool_mark_level w) as [[n w1]|] eqn:E; [|done].
    intros [= <- <-]. destruct (decide (n = 0)) as [->|Hn].
    + revert E. unfold shuso_pool_mark_level, get_pool, set_pool. m_unfold.
      destruct (shuso_palloc sizeof_pool_level w) as [[r w2]|] eqn:E; [|done].
      pose proof (palloc_spec_inv _ _ _ sizeof_pool_level true _ _ Hinv ltac:(done) E) as [He Hr].
      destruct r as [a|]; [bool_case; intros; simplify_eq; lia|].
      intros [= <-]. split; [done|]. exists []. by destruct Hr as [-> _].
    + destruct (mark_level_spec _ _ _ _ _ Hinv E Hn) as (a & Hi & He & _).
      split; [done|]. exists [(a, sizeof_pool_level)]. split; [done|]. apply sublist_nil_l.
Qed.

Lemma run_ops_spec base G w ops l w' :
  pool_inv base G w → Forall op_ok ops → run_ops ops w = Some (l, w') →
  pool_ext (w_pool w) (w_pool w') ∧ ∃ G', pool_inv base (G' ++ G) w' ∧ l `sublist_of` G'.
Proof.
  revert G w l. induction ops as [|o ops IH]; intros G w l Hinv Hok; simpl.
  - intros [= <- <-]. split; [by eapply pool_ext_refl|]. by exists [].
  - apply Forall_cons in Hok as [Ho Hops]. m_unfold.
    destruct (run_op o w) as [[l1 w1]|] eqn:E1; [|done].
    destruct (run_ops ops w1) as [[l2 w2]|] eqn:E2; [|done]. intros [= <- <-].
    destruct (run_op_spec _ _ _ _ _ _ Hinv Ho E1) as (He1 & G1 & Hi1 & Hs1).
    destruct (IH _ _ _ Hi1 Hops E2) as (He2 & G2 & Hi2 & Hs2).
    split; [by eapply pool_ext_trans|]. exists (G2 ++ G1). rewrite <- app_assoc.
    split; [done|]. by apply sublist_app.
Qed.

Lemma init_spec system_page_size pagesize h p0 :
  heap_wf h →
  let size := if 0 <? pagesize then pagesize else system_page_size in
  sizeof_pool_page ≤ size < 2 ^ 47 →
  shuso_pool_init system_page_size pagesize (PW h p0)
    = Some (false, PW h (Pool zero_space size 0 [] 0 [] [])) ∨
  ∃ w, shuso_pool_init system_page_size pagesize (PW h p0) = Some (true, w) ∧
       pool_inv h [] w ∧ p_size (w_pool w) = size.
Proof.
  intros Hh size Hsz. unfold shuso_pool_init, shuso_pool_init_clean, get_pool, set_pool.
  m_unfold. simpl. fold size.
  set (w0 := PW h (Pool zero_space size 0 [] 0 [] [])).
  assert (pool_wf h w0) as Hwf0 by (split; simpl; try done; [apply owns_nil]).
  destruct (add_page_spec h w0 Hwf0 I) as [->|(a & w1 & -> & Hwf & _ & Hp)]; [by left|right].
  exists w1. split; [done|]. rewrite Hp. simpl. split; [|done].
  split; [done| |constructor|done]. rewrite Hp. by eexists _, _.
Qed.

End runs.

(** ** Properties *)

Section properties.
Context `{Malloc}.

Lemma pool_inv_in_heap base G w b :
  pool_inv base G w → b ∈ G →
  ∃ a n, w_heap w !! a = Some n ∧ base !! a = None ∧ within_blk b (a, n).
Proof.
  intros [Hwf _ Hl _] Hb. rewrite Forall_forall in Hl. apply Hl in Hb as [_ Hb].
  pose proof (pw_owns _ _ Hwf) as Ho. pose proof (owns_base _ _ _ Ho) as Hbase.
  pose proof (pw_pages _ _ Hwf) as Hok. rewrite Forall_forall in Hok. rewrite Forall_forall in Hbase.
  assert (∃ z, z ∈ pool_blocks (w_pool w) ∧ within_blk b z) as ([a n] & Hz & Hw).
  { destruct Hb as [(pg & Hin & Hw)|(ad & Hin & ->)].
    - exists (page_blk (p_size (w_pool w)) pg).
      split; [apply elem_of_app; left; by apply list_elem_of_fmap_2|].
      eapply within_blk_trans; [done|]. by apply page_data_within, Hok.
    - exists (allocd_blk ad). split; [|apply allocd_data_within].
      apply elem_of_app; right; by apply list_elem_of_fmap_2. }
  exists a, n. split_and!; [by eapply owns_lookup|by apply (Hbase (a, n))|done].
Qed.

Lemma loop_keeps_levels n target w w' :
  free_allocd_until n target w = Some (tt, w') ∨ remove_pages_until n target w = Some (tt, w') →
  p_levels (w_pool w') = p_levels (w_pool w).
Proof.
  revert w. induction n as [|n IH]; intros w; simpl; unfold get_pool; m_unfold.
  - intros [E|E]; revert E; bool_case; by intros; simplify_eq.
  - unfold plain_old_free_last, remove_last_page, get_pool, set_pool, w_free. m_unfold.
    intros [E|E]; revert E; bool_case; try (by intros; simplify_eq).
    + destruct (p_allocd (w_pool w)); [done|]. simpl.
      destruct (h_free _ _) as [[? ?]|]; [|done]. intros E. by apply (IH _ (or_introl E)).
    + destruct (p_pages (w_pool w)); simpl; [intros E; by apply (IH _ (or_intror E))|].
      destruct (h_free _ _) as [[? ?]|]; [|done]. intros E. by apply (IH _ (or_intror E)).
Qed.

(** C2: whatever a program allocates from a pool after [shuso_pool_init], marks
    included, no two blocks it was handed overlap, every block lies inside a heap
    block the pool took from [malloc], and the blocks the program had before are
    all still live. *)
Theorem pool_blocks_safe system_page_size pagesize h p0 ops w0 l w :
  heap_wf h →
  sizeof_pool_page ≤ (if 0 <? pagesize then pagesize else system_page_size) < 2 ^ 47 →
  shuso_pool_init system_page_size pagesize (PW h p0) = Some (true, w0) →
  Forall op_ok ops → run_ops ops w0 = Some (l, w) →
  all_disjoint l ∧
  Forall (λ b, ∃ a n, w_heap w !! a = Some n ∧ h !! a = None ∧ within_blk b (a, n)) l ∧
  h ⊆ w_heap w.
Proof.
  intros Hh Hsz Hinit Hops Hrun.
  destruct (init_spec system_page_size pagesize h p0 Hh Hsz) as [E|(w0' & E & Hinv & _)];
    rewrite E in Hinit; simplify_eq.
  destruct (run_ops_spec _ _ _ _ _ _ Hinv Hops Hrun) as (_ & G & Hi & Hs).
  rewrite app_nil_r in Hi. split_and!.
  - eapply all_disjoint_sublist; [done|]. by destruct Hi.
  - apply Forall_forall. intros b Hb. eapply pool_inv_in_heap; [done|].
    by eapply elem_of_sublist.
  - destruct Hi as [[_ _ [-> _ Hb] _ _ _ _] _ _ _]. apply map_union_subseteq_r.
    apply map_disjoint_spec. intros a n m Ha Hm.
    apply elem_of_list_to_map_2 in Ha. rewrite Forall_forall in Hb.
    apply Hb in Ha. simpl in Ha. congruence.
Qed.

(** [shuso_palloc] always returns: either a block aligned to 8 bytes and
    disjoint from every block handed out before, with the invariant kept, or
    [NULL] with the pool unchanged, and then [malloc] had refused the request. *)
Theorem shuso_palloc_correct base G w sz :
  pool_inv base G w → 0 ≤ sz < 2 ^ 63 →
  ∃ r w', shuso_palloc sz w = Some (r, w') ∧
  match r with
  | Some a => a mod 8 = 0 ∧ Forall (disjoint_blk (a, sz)) G ∧ pool_inv base ((a, sz) :: G) w'
  | None => w' = w ∧ malloc_fn (w_heap w) (sizeof_pool_allocd + sz) = None
  end.
Proof.
  intros Hinv Hsz. unfold shuso_palloc.
  destruct (palloc_with_alignment_spec _ _ _ sz true Hinv Hsz)
    as [[E Hm]|(a & w1 & E & Hi & _ & Hal)]; eexists _, _; (split; [exact E|]); [done|].
  split_and!; [by apply Hal| |done]. by destruct Hi as [_ _ _ [? _]].
Qed.

(** The space counters of a pool account for every byte of its pages, at any
    point of a run: used + wasted + reserved + free is the number of pages times
    the page size (on 64-bit words). *)
Theorem pool_space_accounts base G w ops l w' :
  pool_inv base G w → Forall op_ok ops → run_ops ops w = Some (l, w') →
  let p := w_pool w' in
  u64 (shuso_pool_space SPACE_USED p + shuso_pool_space SPACE_WASTED p +
       shuso_pool_space SPACE_RESERVED p + shuso_pool_space SPACE_FREE p)
  = u64 (p_size p * p_count p).
Proof.
  intros Hinv Hops Hrun p.
  destruct (run_ops_spec _ _ _ _ _ _ Hinv Hops Hrun) as (_ & G' & Hi & _).
  pose proof (pi_wf _ _ _ Hi) as Hwf.
  pose proof (space_of_total _ _ (p_allocd p) (pw_pages _ _ Hwf)) as Ht. simpl in Ht.
  unfold shuso_pool_space, p in *. rewrite (pw_space _ _ Hwf), (pw_count _ _ Hwf).
  simpl. rewrite Ht.   symmetry. apply Zmult_mod_idemp_r.
Qed.

(** Draining a pool to a level marked when the pool had single allocations
    restores the pool and the heap to what they were when the level was marked,
    whatever was allocated in between; only the array of levels keeps the
    levels marked since. *)
Theorem pool_drain_restores base G w n w1 ops l w2 :
  pool_inv base G w → shuso_pool_mark_level w = Some (n, w1) → n ≠ 0 →
  p_allocd (w_pool w1) ≠ [] →
  Forall op_ok ops → run_ops ops w1 = Some (l, w2) →
  let p1 := w_pool w1 in
  shuso_pool_drain_to_level n w2 =
  Some (true, PW (w_heap w1)
    (Pool (p_space p1) (p_size p1) (p_count p1) (p_pages p1) (p_cur p1)
       (p_allocd p1) (p_levels (w_pool w2)))).
Proof.
  intros Hinv Hm Hn Ha Hops Hrun p1.
  destruct (mark_level_spec _ _ _ _ _ Hinv Hm Hn) as (a & Hi1 & _ & Hnl & _ & Hlv).
  destruct (run_ops_spec _ _ _ _ _ _ Hi1 Hops Hrun) as (He & G2 & Hi2 & _).
  assert (0 < n ≤ Z.of_nat (length (p_levels (w_pool w2))) ∧
    p_levels (w_pool w2) !! Z.to_nat (n - 1) = Some (level_of (w_pool w1))) as [Hb Hlv2].
  { destruct He as [? ? ? ? ? nl _ _ _ _ _ ->]. rewrite length_app. split; [lia|].
    rewrite lookup_app_l by lia. done. }
  destruct (drain_spec _ _ _ _ _ n Hi1 Hi2 He Hb Hlv2) as (h3 & E & Hwf3).
  assert (drained_allocd p1 (w_pool w2) = p_allocd p1) as Hd
    by (unfold drained_allocd, p1; by destruct (p_allocd (w_pool w1))).
  fold p1 in E, Hwf3. rewrite Hd in E, Hwf3.
  pose proof (pi_wf _ _ _ Hi1) as Hwf1. unfold p1 in *.
  rewrite E, (pw_space _ _ Hwf1). do 3 f_equal.
  pose proof (owns_eq _ _ _ (pw_owns _ _ Hwf3)) as Hh3. simpl in Hh3.
  by rewrite Hh3, (owns_eq _ _ _ (pw_owns _ _ Hwf1)).
Qed.

(** A level marked while the pool had no single allocation does not bring
    that state back: draining to it keeps every single allocation made since,
    although the pages are rolled back. *)
Theorem pool_drain_keeps_singles base G w n w1 ops l w2 :
  pool_inv base G w → shuso_pool_mark_level w = Some (n, w1) → n ≠ 0 →
  p_allocd (w_pool w1) = [] →
  Forall op_ok ops → run_ops ops w1 = Some (l, w2) →
  ∃ w3, shuso_pool_drain_to_level n w2 = Some (true, w3) ∧
    p_pages (w_pool w3) = p_pages (w_pool w1) ∧
    p_cur (w_pool w3) = p_cur (w_pool w1) ∧
    p_allocd (w_pool w3) = p_allocd (w_pool w2).
Proof.
  intros Hinv Hm Hn Ha Hops Hrun.
  destruct (mark_level_spec _ _ _ _ _ Hinv Hm Hn) as (a & Hi1 & _ & Hnl & _ & Hlv).
  destruct (run_ops_spec _ _ _ _ _ _ Hi1 Hops Hrun) as (He & G2 & Hi2 & _).
  assert (0 < n ≤ Z.of_nat (length (p_levels (w_pool w2))) ∧
    p_levels (w_pool w2) !! Z.to_nat (n - 1) = Some (level_of (w_pool w1))) as [Hb Hlv2].
  { destruct He as [? ? ? ? ? nl _ _ _ _ _ ->]. rewrite length_app. split; [lia|].
    rewrite lookup_app_l by lia. done. }
  destruct (drain_spec _ _ _ _ _ n Hi1 Hi2 He Hb Hlv2) as (h3 & E & Hwf3).
  eexists. split; [exact E|]. simpl. unfold drained_allocd. by rewrite Ha.
Qed.

(** Draining to a level other than 0 leaves the array of levels and its
    count alone: the drained levels stay marked. *)
Theorem pool_drain_keeps_levels n w w' :
  0 < n → shuso_pool_drain_to_level n w = Some (true, w') →
  p_levels (w_pool w') = p_levels (w_pool w).
Proof.
  intros Hn. unfold shuso_pool_drain_to_level, get_pool, set_pool. m_unfold.
  bool_case; [done|]. bool_case; [lia|]. destruct (_ !! _) as [lv|]; [|done].
  match goal with |- match ?X with _ => _ end = _ → _ => destruct X as [[[] w1]|] eqn:E1 end;
    [|done].
  assert (p_levels (w_pool w1) = p_levels (w_pool w)) as <-.
  { revert E1. bool_case; [by intros [= <-]|]. intros E1. by apply (loop_keeps_levels _ _ _ _ (or_introl E1)). }
  match goal with |- match ?X with _ => _ end = _ → _ => destruct X as [[[] w2]|] eqn:E2 end;
    [|done].
  intros [= <-]. simpl. assert (p_levels (w_pool w2) = p_levels (w_pool w1)) as <-.
  { revert E2. bool_case; [by intros [= <-]|]. destruct (negb _); [|done].
    intros E2. by apply (loop_keeps_levels _ _ _ _ (or_intror E2)). }
  unfold roll_back_page. by destruct (p_pages (w_pool w2)).
Qed.

(** Emptying a pool frees exactly the blocks the pool took from [malloc]:
    the heap is the rest of the program's again. *)
Theorem shuso_pool_empty_frees base G w :
  pool_inv base G w →
  ∃ w', shuso_pool_empty w = Some (true, w') ∧ w_heap w' = base ∧
    p_pages (w_pool w') = [] ∧ p_allocd (w_pool w') = [].
Proof.
  intros Hinv. pose proof (pi_wf _ _ _ Hinv) as Hwf.
  unfold shuso_pool_empty, get_pool. m_unfold.
  destruct (free_allocd_until_spec base (p_allocd (w_pool w)) (length (p_allocd (w_pool w))) 0 w [])
    as (h1 & E1 & Hwf1); try done; [by rewrite app_nil_r| |].
  { eapply Forall_impl; [exact (pw_allocd _ _ Hwf)|]. unfold allocd_ok. intros ad ?. simpl. lia. }
  destruct (remove_pages_until_spec base (p_pages (w_pool w)) (length (p_pages (w_pool w))) 0 _ [] Hwf1)
    as (h2 & E2 & Hwf2); try done; [by rewrite app_nil_r| |].
  { eapply Forall_impl; [exact (pw_pages _ _ Hwf)|]. unfold page_ok. intros pg ?. simpl. lia. }
  rewrite E1. rewrite E2. eexists. split; [done|]. split_and!; try done. simpl.
  destruct (pw_owns _ _ Hwf2) as [Heq _ _]. simpl in Heq. rewrite Heq.
  unfold pool_blocks. simpl. by rewrite (left_id_L ∅ (∪)).
Qed.


End properties.

(** ** The properties at work on a small pool *)

Definition result_state (r : option (list block * pw)) : pw :=
  match r with Some (_, w) => w | None => PW ∅ zero_pool end.
Definition result_blocks (r : option (list block * pw)) : list block :=
  match r with Some (l, _) => l | None => [] end.

(** A pool of 4096-byte pages on an empty heap; then one with a single
    allocation, and with a level marked. *)
Definition demo_pool : pw :=
  match shuso_pool_init 4096 0 (PW ∅ zero_pool) with
  | Some (_, w) => w
  | None => PW ∅ zero_pool
  end.
Definition demo_single : pw := result_state (run_ops [OpAlloc 8192] demo_pool).
Definition demo_marked : pw := result_state (run_ops [OpMark] demo_pool).
Definition demo_single_marked : pw := result_state (run_ops [OpMark] demo_single).
Definition demo_ops : list pool_op :=
  [OpAlloc 100; OpAllocUnaligned 3; OpAlloc 4000; OpMark; OpAlloc 9000; OpAlloc 0].

Lemma demo_heap_wf : heap_wf ∅.
Proof. intros a n b m Ha. by rewrite lookup_empty in Ha. Qed.

Lemma demo_pool_inv : pool_inv ∅ [] demo_pool.
Proof.
  destruct (init_spec 4096 0 ∅ zero_pool demo_heap_wf) as [E|(w & E & Hi & _)];
    [by vm_compute|vm_compute in E; discriminate|].
  unfold demo_pool. by rewrite E.
Qed.

Lemma demo_single_inv : pool_inv ∅ [(4128, 8192)] demo_single.
Proof.
  pose proof (palloc_spec_inv ∅ [] demo_pool 8192 true (Some 4128) demo_single
    demo_pool_inv ltac:(done) ltac:(by vm_compute)) as [_ [Hi _]]. exact Hi.
Qed.

Lemma demo_ops_ok : Forall op_ok demo_ops.
Proof. by repeat constructor. Qed.

Lemma pool_blocks_safe_witness :
  let w := result_state (run_ops demo_ops demo_pool) in
  let l := result_blocks (run_ops demo_ops demo_pool) in
  length l = 5%nat ∧ all_disjoint l.
Proof.
  split; [by vm_compute|].
  refine (proj1 (pool_blocks_safe 4096 0 ∅ zero_pool demo_ops demo_pool _ _
    demo_heap_wf _ _ demo_ops_ok _)); [done|by vm_compute..].
Defined.

Lemma shuso_palloc_correct_witness :
  ∃ r w', shuso_palloc 24 demo_single = Some (r, w') ∧
    match r with
    | Some a => a mod 8 = 0 ∧ Forall (disjoint_blk (a, 24)) [(4128, 8192)] ∧
                pool_inv ∅ ((a, 24) :: [(4128, 8192)]) w'
    | None => w' = demo_single ∧
              malloc_fn (w_heap demo_single) (sizeof_pool_allocd + 24) = None
    end.
Proof. apply (shuso_palloc_correct ∅ [(4128, 8192)] demo_single 24 demo_single_inv). lia. Defined.

Lemma pool_space_accounts_witness :
  let p := w_pool (result_state (run_ops demo_ops demo_pool)) in
  p_size p * p_count p = 8192 ∧
  u64 (shuso_pool_space SPACE_USED p + shuso_pool_space SPACE_WASTED p +
       shuso_pool_space SPACE_RESERVED p + shuso_pool_space SPACE_FREE p)
  = u64 (p_size p * p_count p).
Proof.
  split; [by vm_compute|].
  refine (pool_space_accounts ∅ [] demo_pool demo_ops
    (result_blocks (run_ops demo_ops demo_pool)) _ demo_pool_inv demo_ops_ok _).
  by vm_compute.
Defined.

Lemma pool_drain_restores_witness :
  shuso_pool_drain_to_level 1 (result_state (run_ops demo_ops demo_single_marked)) =
  Some (true, PW (w_heap demo_single_marked)
    (let p1 := w_pool demo_single_marked in
     Pool (p_space p1) (p_size p1) (p_count p1) (p_pages p1) (p_cur p1) (p_allocd p1)
       (p_levels (w_pool (result_state (run_ops demo_ops demo_single_marked)))))).
Proof.
  refine (pool_drain_restores ∅ [(4128, 8192)] demo_single 1 demo_single_marked demo_ops
    (result_blocks (run_ops demo_ops demo_single_marked)) _ demo_single_inv _ _ _
    demo_ops_ok _); [by vm_compute|done|by vm_compute|by vm_compute].
Defined.

Lemma pool_drain_keeps_singles_witness :
  ∃ w3, shuso_pool_drain_to_level 1 (result_state (run_ops demo_ops demo_marked)) = Some (true, w3) ∧
    p_pages (w_pool w3) = p_pages (w_pool demo_marked) ∧
    p_cur (w_pool w3) = p_cur (w_pool demo_marked) ∧
    p_allocd (w_pool w3) = p_allocd (w_pool (result_state (run_ops demo_ops demo_marked))).
Proof.
  refine (pool_drain_keeps_singles ∅ [] demo_pool 1 demo_marked demo_ops
    (result_blocks (run_ops demo_ops demo_marked)) _ demo_pool_inv _ _ _
    demo_ops_ok _); [by vm_compute|done|by vm_compute|by vm_compute].
Defined.

Lemma pool_drain_keeps_levels_witness :
  ∃ w', shuso_pool_drain_to_level 1 (result_state (run_ops demo_ops demo_marked)) = Some (true, w') ∧
    length (p_levels (w_pool w')) = 2%nat.
Proof.
  destruct (shuso_pool_drain_to_level 1 (result_state (run_ops demo_ops demo_marked)))
    as [[b w']|] eqn:E; [|by vm_compute in E].
  assert (b = true) as -> by (vm_compute in E; congruence).
  exists w'. split; [done|]. rewrite (pool_drain_keeps_levels 1 _ w' ltac:(lia) E).
  by vm_compute.
Defined.

Lemma shuso_pool_empty_frees_witness :
  ∃ w', shuso_pool_empty demo_single = Some (true, w') ∧ w_heap w' = ∅ ∧
    p_pages (w_pool w') = [] ∧ p_allocd (w_pool w') = [].
Proof. exact (shuso_pool_empty_frees ∅ [(4128, 8192)] demo_single demo_single_inv). Defined.

