(* ===== verification/Ringbuf.v ===== *)
(** The IPC ring buffer of src/src/ipc.c, one send or receive at a time: the
    functions on [shuso_ipc_ringbuf_t], and the bounded FIFO queue they
    implement.  RingbufConc.v has the same functions with their atomic accesses
    interleaved. *)

From S2P Require Import Prelude.

Definition IPC_CMD_NIL : Z := 0.
Definition RING_SIZE : Z := 256.

(** [shuso_ipc_ringbuf_t] *)
Record ringbuf := Ringbuf {
  next_read : Z;
  next_write_reserve : Z;
  next_write_release : Z;
  rb_full : bool;
  rb_code : list Z;
  rb_ptr : list Z
}.

(** A fresh ring buffer is zeroed memory. *)
Definition ringbuf_init : ringbuf :=
  Ringbuf 0 0 0 false (replicate 256 0) (replicate 256 0).

(** A message is a code and a pointer. *)
Definition msg : Type := Z * Z.

Definition set_full (b : bool) (rb : ringbuf) : ringbuf :=
  Ringbuf (next_read rb) (next_write_reserve rb) (next_write_release rb) b
    (rb_code rb) (rb_ptr rb).
Definition set_reserve (n : Z) (rb : ringbuf) : ringbuf :=
  Ringbuf (next_read rb) n (next_write_release rb) (rb_full rb) (rb_code rb) (rb_ptr rb).
Definition set_release (n : Z) (rb : ringbuf) : ringbuf :=
  Ringbuf (next_read rb) (next_write_reserve rb) n (rb_full rb) (rb_code rb) (rb_ptr rb).
Definition set_read (n : Z) (rb : ringbuf) : ringbuf :=
  Ringbuf n (next_write_reserve rb) (next_write_release rb) (rb_full rb)
    (rb_code rb) (rb_ptr rb).
(** [code[i] = c] and [ptr[i] = p]; [i] is a [uint8_t], the arrays have 256 cells. *)
Definition set_code (i c : Z) (rb : ringbuf) : ringbuf :=
  Ringbuf (next_read rb) (next_write_reserve rb) (next_write_release rb) (rb_full rb)
    (<[Z.to_nat i := c]> (rb_code rb)) (rb_ptr rb).
Definition set_ptr (i p : Z) (rb : ringbuf) : ringbuf :=
  Ringbuf (next_read rb) (next_write_reserve rb) (next_write_release rb) (rb_full rb)
    (rb_code rb) (<[Z.to_nat i := p]> (rb_ptr rb)).
Definition get_code (i : Z) (rb : ringbuf) : Z := nth (Z.to_nat i) (rb_code rb) 0.
Definition get_ptr (i : Z) (rb : ringbuf) : Z := nth (Z.to_nat i) (rb_ptr rb) 0.

Definition ipc_reserve_write_index : M ringbuf (option Z) :=
  dstbuf <- m_get ;;
  if rb_full dstbuf then m_ret None
  else
    let next := next_write_reserve dstbuf in
    m_modify (set_reserve (s64 (next + 1))) ;;;
    dstbuf <- m_get ;;
    if rb_full dstbuf then m_ret None
    else if 255 <? next - next_read dstbuf then
      m_modify (λ rb, if rb_full rb then rb else set_full true rb) ;;; m_ret None
    else m_ret (Some next).

Definition ipc_release_write_index : M ringbuf unit :=
  m_modify (λ rb, set_release (s64 (next_write_release rb + 1)) rb).

(** [ipc_send_direct] up to the notice it sends to the receiver. *)
Definition ring_send (m : msg) : M ringbuf bool :=
  r <- ipc_reserve_write_index ;;
  match r with
  | None => m_ret false
  | Some idx =>
      m_assert (0 <=? idx) ;;;
      let next := u8 idx in
      m_modify (set_ptr next m.2) ;;;
      m_modify (set_code next m.1) ;;;
      ipc_release_write_index ;;;
      m_ret true
  end.

(** Messages sent one after another, as a handler does. *)
Fixpoint ring_send_all (ms : list msg) : M ringbuf unit :=
  match ms with [] => m_ret tt | m :: ms' => ring_send m ;;; ring_send_all ms' end.

Section receive.
(** The receiver's world [W]: where its ring buffer is, and what it does with a message
    ([ipc_handlers[code].receive]); that may send messages to this very ring buffer. *)
Context {W : Type} (ring : W → ringbuf) (upd : (ringbuf → ringbuf) → W → W).
Context (receive : Z → Z → M W unit).

(** The loop of [ipc_receive].  A turn that meets [NIL] logs and looks at the same
    index again.  [fuel] bounds the turns; running out of it is no result. *)
Fixpoint receive_loop (fuel : nat) (read_index : Z) : M W unit :=
  w <- m_get ;;
  if read_index <? next_write_release (ring w) then
    match fuel with
    | O => m_abort
    | Datatypes.S fuel' =>
        let i := u8 read_index in
        let code := get_code i (ring w) in
        let ptr := get_ptr i (ring w) in
        if code =? IPC_CMD_NIL then receive_loop fuel' read_index
        else
          m_modify (upd (set_code i IPC_CMD_NIL)) ;;;
          m_modify (upd (λ rb, set_read (s64 (next_read rb + 1)) rb)) ;;;
          receive code ptr ;;;
          receive_loop fuel' (s64 (read_index + 1))
    end
  else m_ret tt.

Definition ipc_receive (fuel : nat) : M W bool :=
  w <- m_get ;;
  let read_index := next_read (ring w) in
  m_assert (0 <=? read_index) ;;;
  receive_loop fuel read_index ;;;
  w <- m_get ;;
  (if rb_full (ring w) then
     m_modify (upd (λ rb, set_reserve (next_read rb) rb)) ;;;
     w <- m_get ;;
     m_assert (next_write_reserve (ring w) =? next_write_release (ring w)) ;;;
     m_modify (upd (set_full false))
   else m_ret tt) ;;;
  m_ret true.
End receive.

(** A receiver that is a ring buffer and a state [S], whose handlers change the
    state and send messages back to the ring buffer. *)
Section process.
Context {S : Type} (handler : Z → Z → S → S * list msg).

(** Lift a ring buffer operation beside the receiver's state. *)
Definition on_ring {A} (m : M ringbuf A) : M (ringbuf * S) A :=
  λ w, match m w.1 with Some (a, rb) => Some (a, (rb, w.2)) | None => None end.

Definition upd_fst (f : ringbuf → ringbuf) (w : ringbuf * S) : ringbuf * S := (f w.1, w.2).

Definition dispatch (code ptr : Z) : M (ringbuf * S) unit :=
  λ w, let '(s, out) := handler code ptr w.2 in on_ring (ring_send_all out) (w.1, s).

Definition proc_loop : nat → Z → M (ringbuf * S) unit := receive_loop fst upd_fst dispatch.
Definition proc_receive : nat → M (ringbuf * S) bool := ipc_receive fst upd_fst dispatch.
End process.

(** ** The specification: a queue of at most 256 messages

    A send to a full queue fails and blocks the queue until it was drained. *)

Record fifo := Fifo { fq : list msg; blocked : bool }.

Definition fifo_send (m : msg) (f : fifo) : bool * fifo :=
  if blocked f then (false, f)
  else if (length (fq f) <? 256)%nat then (true, Fifo (fq f ++ [m]) false)
  else (false, Fifo (fq f) true).

Definition fifo_send_all (ms : list msg) (f : fifo) : fifo :=
  foldl (λ f m, (fifo_send m f).2) f ms.

Section fifo_receive.
Context {S : Type} (handler : Z → Z → S → S * list msg).

(** Deliver the messages in order, those the handlers send meanwhile included. *)
Fixpoint fifo_drain (fuel : nat) (f : fifo) (s : S) : option (fifo * S) :=
  match fq f with
  | [] => Some (f, s)
  | m :: q =>
      match fuel with
      | O => None
      | Datatypes.S fuel' =>
          let '(s', out) := handler m.1 m.2 s in
          fifo_drain fuel' (fifo_send_all out (Fifo q (blocked f))) s'
      end
  end.

(** A drained queue accepts messages again. *)
Definition fifo_receive (fuel : nat) (f : fifo) (s : S) : option (fifo * S) :=
  match fifo_drain fuel f s with
  | Some (f', s') => Some (Fifo (fq f') false, s')
  | None => None
  end.
End fifo_receive.

(** ** How a ring buffer represents a queue *)

Definition msg_ok (m : msg) : Prop := 0 < m.1 < 256.

(** The [k]-th message from the read index on. *)
Definition slot_msg (rb : ringbuf) (i : Z) : msg := (get_code (u8 i) rb, get_ptr (u8 i) rb).

Record represents (rb : ringbuf) (f : fifo) : Prop := Represents {
  rp_code : length (rb_code rb) = 256%nat;
  rp_ptr : length (rb_ptr rb) = 256%nat;
  rp_read : 0 ≤ next_read rb;
  rp_len : next_write_release rb = next_read rb + Z.of_nat (length (fq f));
  rp_cap : (length (fq f) ≤ 256)%nat;
  rp_full : rb_full rb = blocked f;
  rp_reserve : next_write_reserve rb = next_write_release rb + (if blocked f then 1 else 0);
  rp_msgs : ∀ k m, fq f !! k = Some m → slot_msg rb (next_read rb + Z.of_nat k) = m;
  rp_ok : Forall msg_ok (fq f)
}.

(** ** Lemmas *)

Lemma u8_small_nat i : (Z.to_nat (u8 i) < 256)%nat.
Proof. pose proof (u8_range i). lia. Qed.

Lemma u8_inj_window a b : 0 ≤ b - a < 256 → u8 a = u8 b → a = b.
Proof. unfold u8, wrap. change (2 ^ 8) with 256. intros ? ?. Z.div_mod_to_equations. lia. Qed.

Lemma get_set_code_eq i c rb :
  length (rb_code rb) = 256%nat → get_code (u8 i) (set_code (u8 i) c rb) = c.
Proof.
  intros Hl. unfold get_code. simpl. pose proof (u8_small_nat i).
  apply nth_lookup_Some, list_lookup_insert_eq. lia.
Qed.

Lemma get_set_code_ne i j c rb :
  u8 i ≠ u8 j → get_code (u8 j) (set_code (u8 i) c rb) = get_code (u8 j) rb.
Proof.
  intros Hne. unfold get_code. simpl. pose proof (u8_range i). pose proof (u8_range j).
  rewrite !nth_lookup, list_lookup_insert_ne by lia. done.
Qed.

Lemma get_set_ptr_eq i c rb :
  length (rb_ptr rb) = 256%nat → get_ptr (u8 i) (set_ptr (u8 i) c rb) = c.
Proof.
  intros Hl. unfold get_ptr. simpl. pose proof (u8_small_nat i).
  apply nth_lookup_Some, list_lookup_insert_eq. lia.
Qed.

Lemma get_set_ptr_ne i j c rb :
  u8 i ≠ u8 j → get_ptr (u8 j) (set_ptr (u8 i) c rb) = get_ptr (u8 j) rb.
Proof.
  intros Hne. unfold get_ptr. simpl. pose proof (u8_range i). pose proof (u8_range j).
  rewrite !nth_lookup, list_lookup_insert_ne by lia. done.
Qed.

(** The largest read index for which no index of the window overflows. *)
Definition index_ok (rb : ringbuf) : Prop := next_read rb + 257 < 2 ^ 63.

(** A send on the ring buffer is a send on the queue. *)
Lemma ring_send_sim rb f m :
  represents rb f → msg_ok m → index_ok rb →
  ∃ rb', ring_send m rb = Some ((fifo_send m f).1, rb') ∧ represents rb' (fifo_send m f).2
    ∧ next_read rb' = next_read rb.
Proof.
  intros [Hc Hp Hr Hl Hcap Hf Hres Hms Hok] Hm Hbd. unfold index_ok in Hbd.
  unfold ring_send, ipc_reserve_write_index, ipc_release_write_index, fifo_send. m_unfold.
  rewrite Hf. destruct (blocked f) eqn:Hbl; simpl.
  { exists rb. split_and!; [done| |done]. split; try done; rewrite Hbl; done. }
  rewrite Hf, Hres, Z.add_0_r.
  assert (s64 (next_write_release rb + 1) = next_write_release rb + 1) as Hs
    by (apply s64_small; lia).
  rewrite !Hs.
  destruct (Z.ltb_spec 255 (next_write_release rb - next_read rb)).
  { destruct (Nat.ltb_spec (length (fq f)) 256); [lia|]. simpl. rewrite Hf.
    eexists. split; [done|]. split; [|done]. by split; simpl. }
  destruct (Nat.ltb_spec (length (fq f)) 256); [|lia].
  destruct (Z.leb_spec 0 (next_write_release rb)); [|lia]. simpl. rewrite !Hs.
  eexists. split; [done|]. split; [|done].
  split; simpl; rewrite ?length_insert, ?length_app; simpl; try done; try lia.
  - intros k m' Hk. unfold slot_msg, get_code, get_ptr. simpl.
    destruct (decide (k = length (fq f))) as [->|Hne].
    + rewrite lookup_app_r, Nat.sub_diag in Hk by lia. simplify_eq/=.
      rewrite <- Hl. pose proof (u8_small_nat (next_write_release rb)).
      rewrite !nth_lookup, !list_lookup_insert_eq by lia. simpl. by destruct m'.
    + apply lookup_lt_Some in Hk as Hlt. rewrite length_app in Hlt. simpl in Hlt.
      rewrite lookup_app_l in Hk by lia. 
      pose proof (u8_range (next_write_release rb)).
      pose proof (u8_range (next_read rb + Z.of_nat k)).
      assert (Z.to_nat (u8 (next_write_release rb)) ≠
              Z.to_nat (u8 (next_read rb + Z.of_nat k))) as Hu.
      { intros He.
        assert (next_read rb + Z.of_nat k = next_write_release rb); [|lia].
        apply u8_inj_window; lia. }
      rewrite !nth_lookup, !list_lookup_insert_ne, <- !nth_lookup by done.
      apply (Hms _ _ Hk).
  - apply Forall_app. split; [done|]. by constructor.
Qed.

Lemma ring_send_all_sim ms rb f :
  represents rb f → Forall msg_ok ms → index_ok rb →
  ∃ rb', ring_send_all ms rb = Some (tt, rb') ∧ represents rb' (fifo_send_all ms f)
    ∧ next_read rb' = next_read rb.
Proof.
  revert rb f. induction ms as [|m ms IH]; intros rb f Hr Hms Hi; [by eexists|].
  apply Forall_cons in Hms as [Hm Hms].
  destruct (ring_send_sim rb f m) as (rb1 & He & Hr1 & Hn1); [done..|].
  destruct (IH rb1 _ Hr1 Hms) as (rb2 & He2 & Hr2 & Hn2); [unfold index_ok; by rewrite Hn1|].
  exists rb2. split_and!; [|done|congruence].
  simpl. unfold m_bind. by rewrite He.
Qed.

(** Reading the head of the ring: clear the code, advance the index. *)
Definition ring_pop (rb : ringbuf) : ringbuf :=
  set_read (next_read rb + 1) (set_code (u8 (next_read rb)) IPC_CMD_NIL rb).

Lemma ring_pop_sim rb m q b :
  represents rb (Fifo (m :: q) b) → index_ok rb →
  represents (ring_pop rb) (Fifo q b) ∧
  (get_code (u8 (next_read rb)) rb, get_ptr (u8 (next_read rb)) rb) = m.
Proof.
  intros [Hc Hp Hr Hl Hcap Hf Hres Hms Hok] Hi. simpl in *. split.
  - apply Forall_cons in Hok as [Hm Hok].
    split; simpl; rewrite ?length_insert; try done; try lia.
    intros k m' Hk. rewrite <- (Hms (S k) m' Hk). unfold slot_msg.
    apply lookup_lt_Some in Hk.
    replace (next_read rb + Z.of_nat (S k)) with (next_read rb + 1 + Z.of_nat k) by lia.
    unfold ring_pop. f_equal. apply get_set_code_ne. intros He.
    apply u8_inj_window in He; lia.
  - specialize (Hms 0%nat m eq_refl). by rewrite Z.add_0_r in Hms.
Qed.

Section receive_sim.
Context {S : Type} (handler : Z → Z → S → S * list msg).
Context (Hh : ∀ c p s, Forall msg_ok (handler c p s).2).

(** The outcomes of a drain on the queue and on the ring agree. *)
Definition drained (n : Z) (o : option (fifo * S)) (r : option (unit * (ringbuf * S))) : Prop :=
  match o with
  | Some (f, s) => ∃ rb, r = Some (tt, (rb, s)) ∧ represents rb f ∧ next_read rb ≤ n
  | None => r = None
  end.

Lemma receive_loop_sim fuel rb f s :
  represents rb f → next_read rb + Z.of_nat fuel + 257 < 2 ^ 63 →
  drained (next_read rb + Z.of_nat fuel)
    (fifo_drain handler fuel f s) (proc_loop handler fuel (next_read rb) (rb, s)).
Proof.
  revert rb f s. induction fuel as [|fuel IH]; intros rb [q b] s Hr Hi;
    pose proof Hr as [Hc Hp Hr0 Hl Hcap Hf Hres Hms Hok]; simpl in *; m_unfold; simpl;
    (destruct q as [|m q]; simpl in *;
      [replace (next_read rb <? next_write_release rb) with false by lia;
       exists rb; split_and!; [done|done|lia]
      |replace (next_read rb <? next_write_release rb) with true by lia]); [done|].
  destruct (ring_pop_sim _ _ _ _ Hr) as [Hpop Hm]; [unfold index_ok; lia|].
  apply Forall_cons in Hok as [[Hnil _] _].
  replace m.1 with (get_code (u8 (next_read rb)) rb) in * by by rewrite <- Hm.
  replace m.2 with (get_ptr (u8 (next_read rb)) rb) in * by by rewrite <- Hm.
  destruct (Z.eqb_spec (get_code (u8 (next_read rb)) rb) IPC_CMD_NIL) as [He|_];
    [by rewrite He in Hnil|].
  simpl. rewrite !(s64_small (next_read rb + 1)) by lia.
  unfold dispatch. simpl. clear Hnil Hm.
  pose proof (Hh (get_code (u8 (next_read rb)) rb) (get_ptr (u8 (next_read rb)) rb) s) as Hout.
  destruct (handler _ _ s) as [s' out]. simpl in *.
  destruct (ring_send_all_sim out _ _ Hpop Hout) as (rb' & Hsend & Hr' & Hn');
    [unfold index_ok; simpl; lia|].
  unfold on_ring. simpl. rewrite (s64_small (next_read rb + 1)) by lia.
  change (set_read _ (set_code _ _ _)) with (ring_pop rb). rewrite Hsend. simpl in Hn'.
  rewrite <- Hn'.
  replace (next_read rb + Z.of_nat (Datatypes.S fuel)) with (next_read rb' + Z.of_nat fuel) by lia.
  apply IH; [done|]. lia.
Qed.

Lemma fifo_drain_empty fuel f s f' s' :
  fifo_drain handler fuel f s = Some (f', s') → fq f' = [].
Proof.
  revert f s. induction fuel as [|fuel IH]; intros [[|m q] b] s; simpl; try (by intros; simplify_eq).
  destruct (handler _ _ _) as [s1 out]. apply IH.
Qed.

Lemma ipc_receive_sim fuel rb f s :
  represents rb f → next_read rb + Z.of_nat fuel + 257 < 2 ^ 63 →
  match fifo_receive handler fuel f s with
  | Some (f', s') => ∃ rb', proc_receive handler fuel (rb, s) = Some (true, (rb', s'))
                            ∧ represents rb' f' ∧ next_read rb' ≤ next_read rb + Z.of_nat fuel
  | None => proc_receive handler fuel (rb, s) = None
  end.
Proof.
  intros Hr Hi. pose proof (receive_loop_sim fuel rb f s Hr Hi) as Hloop.
  pose proof (rp_read _ _ Hr). unfold fifo_receive, proc_receive, proc_loop, ipc_receive, drained in *. m_unfold.
  simpl. replace (0 <=? next_read rb) with true by lia.
  destruct (fifo_drain handler fuel f s) as [[f' s']|] eqn:Hd; simpl; [|by rewrite Hloop].
  destruct Hloop as (rb' & -> & [Hc Hp Hr0 Hl Hcap Hf Hres Hms Hok] & Hle). simpl.
  rewrite (fifo_drain_empty _ _ _ _ _ Hd) in *. simpl in *. rewrite Hf.
  destruct (blocked f') eqn:Hb.
  - simpl. replace (next_read rb' =? next_write_release rb') with true by lia.
    eexists. split; [done|]. split; [|done]. split; simpl; done || lia.
  - exists rb'. split; [done|]. split; [|done]. split; simpl; rewrite ?Hf; done || lia.
Qed.
End receive_sim.

(** A receiver whose handlers leave its own ring buffer alone delivers exactly what the
    ring buffer holds.  [P l w] says that [w] is a world in which [l] was delivered. *)
Section receive_lens.
Context {W : Type} (ring : W → ringbuf) (upd : (ringbuf → ringbuf) → W → W).
Context (receive : Z → Z → M W unit) (P : list msg → W → Prop).
Context (ring_upd : ∀ f w, ring (upd f w) = f (ring w)).
Context (P_upd : ∀ l f w, P l w → P l (upd f w)).

(** The handlers of the messages to come work. *)
Definition receives (ms : list msg) : Prop :=
  ∀ l m w, m ∈ ms → P l w →
    ∃ w', receive m.1 m.2 w = Some (tt, w') ∧ ring w' = ring w ∧ P (l ++ [m]) w'.

Lemma receive_loop_lens fuel w f l :
  represents (ring w) f → P l w → receives (fq f) → (length (fq f) ≤ fuel)%nat →
  next_read (ring w) + Z.of_nat fuel + 257 < 2 ^ 63 →
  ∃ w', receive_loop ring upd receive fuel (next_read (ring w)) w = Some (tt, w') ∧
    represents (ring w') (Fifo [] (blocked f)) ∧ P (l ++ fq f) w' ∧
    next_read (ring w') = next_read (ring w) + Z.of_nat (length (fq f)).
Proof.
  revert w f l. induction fuel as [|fuel IH]; intros w [q b] l Hr HP Hrc Hfuel Hi;
    pose proof Hr as [Hc Hp Hr0 Hl Hcap Hf Hres Hms Hok]; simpl in *; m_unfold; simpl;
    (destruct q as [|m q]; simpl in *;
      [replace (next_read (ring w) <? next_write_release (ring w)) with false by lia;
       exists w; rewrite app_nil_r; split_and!; [done|done|done|lia]
      |try lia; replace (next_read (ring w) <? next_write_release (ring w)) with true by lia]).
  destruct (ring_pop_sim _ _ _ _ Hr) as [Hpop Hm]; [unfold index_ok; lia|].
  apply Forall_cons in Hok as [[Hnil _] _].
  destruct (Z.eqb_spec (get_code (u8 (next_read (ring w))) (ring w)) IPC_CMD_NIL) as [He|_];
    [rewrite <- Hm in Hnil; by rewrite He in Hnil|].
  set (w1 := upd (λ rb, set_read (s64 (next_read rb + 1)) rb)
               (upd (set_code (u8 (next_read (ring w))) IPC_CMD_NIL) w)).
  assert (ring w1 = ring_pop (ring w)) as Hw1.
  { unfold w1. rewrite !ring_upd. simpl. rewrite s64_small by lia. done. }
  destruct (Hrc l m w1) as (w2 & Hrecv & Hr2 & HP2); [by left|unfold w1; auto|].
  rewrite <- Hm in Hrecv. simpl in Hrecv. rewrite Hrecv.
  rewrite Hw1 in Hr2. rewrite s64_small by lia.
  replace (next_read (ring w) + 1) with (next_read (ring w2)) by by rewrite Hr2.
  destruct (IH w2 (Fifo q b) (l ++ [m])) as (w3 & He3 & Hr3 & HP3 & Hn3).
  - by rewrite Hr2.
  - done.
  - intros l' m' w' Hin. apply Hrc. by right.
  - simpl. lia.
  - rewrite Hr2. simpl. lia.
  - exists w3. simpl in *. rewrite <- app_assoc in HP3. rewrite Hr2 in Hn3. simpl in Hn3.
    split_and!; [done|done|done|lia].
Qed.

Lemma ipc_receive_lens fuel w f l :
  represents (ring w) f → P l w → receives (fq f) → (length (fq f) ≤ fuel)%nat →
  next_read (ring w) + Z.of_nat fuel + 257 < 2 ^ 63 →
  ∃ w', ipc_receive ring upd receive fuel w = Some (true, w') ∧
    represents (ring w') (Fifo [] false) ∧ P (l ++ fq f) w' ∧
    next_read (ring w') = next_read (ring w) + Z.of_nat (length (fq f)).
Proof.
  intros Hr HP Hrc Hfuel Hi. pose proof (rp_read _ _ Hr).
  destruct (receive_loop_lens fuel w f l) as (w1 & He & Hr1 & HP1 & Hn1); try done.
  unfold ipc_receive. m_unfold. replace (0 <=? next_read (ring w)) with true by lia.
  rewrite He. destruct Hr1 as [Hc1 Hp1 Hr01 Hl1 Hcap1 Hf1 Hres1 Hms1 Hok1]. simpl in *.
  rewrite Hf1. destruct (blocked f).
  - rewrite !ring_upd. simpl. replace (next_read (ring w1) =? next_write_release (ring w1)) with true by lia.
    eexists. split; [done|]. rewrite !ring_upd. simpl. split_and!; [|auto|done].
    by split; simpl; try done; try lia.
  - exists w1. split_and!; try done; split; simpl; rewrite ?Hf1; first [done|lia].
Qed.
End receive_lens.

Lemma ringbuf_init_represents : represents ringbuf_init (Fifo [] false).
Proof. split; simpl; try done; lia. Qed.

(** ** Refinement: any sequence of sends and receives *)

Inductive ring_op := OpSend (m : msg) | OpReceive.

Section run.
Context {S : Type} (handler : Z → Z → S → S * list msg) (fuel : nat).

Definition ring_step (o : ring_op) : M (ringbuf * S) bool :=
  match o with
  | OpSend m => on_ring (ring_send m)
  | OpReceive => proc_receive handler fuel
  end.
Fixpoint ring_run (os : list ring_op) : M (ringbuf * S) (list bool) :=
  match os with
  | [] => m_ret []
  | o :: os' => b <- ring_step o ;; bs <- ring_run os' ;; m_ret (b :: bs)
  end.

Definition fifo_step (o : ring_op) : M (fifo * S) bool :=
  λ w, match o with
       | OpSend m => let '(b, f) := fifo_send m w.1 in Some (b, (f, w.2))
       | OpReceive => match fifo_receive handler fuel w.1 w.2 with
                      | Some w' => Some (true, w')
                      | None => None
                      end
       end.
Fixpoint fifo_run (os : list ring_op) : M (fifo * S) (list bool) :=
  match os with
  | [] => m_ret []
  | o :: os' => b <- fifo_step o ;; bs <- fifo_run os' ;; m_ret (b :: bs)
  end.

Definition op_ok (o : ring_op) : Prop :=
  match o with OpSend m => msg_ok m | OpReceive => True end.

(** What a run shows: the results of the sends and the receiver's state. *)
Definition observe {R} (r : option (list bool * (R * S))) : option (list bool * S) :=
  match r with Some (bs, w) => Some (bs, w.2) | None => None end.

Context (Hh : ∀ c p s, Forall msg_ok (handler c p s).2).

Lemma ring_run_sim os rb f s :
  represents rb f → Forall op_ok os →
  next_read rb + Z.of_nat (length os) * Z.of_nat fuel + Z.of_nat fuel + 257 < 2 ^ 63 →
  observe (ring_run os (rb, s)) = observe (fifo_run os (f, s)).
Proof.
  revert rb f s. induction os as [|o os IH]; intros rb f s Hr Hos Hi; [done|].
  apply Forall_cons in Hos as [Ho Hos]. simpl length in Hi.
  simpl. unfold m_bind, m_ret. destruct o as [m|]; simpl.
  - destruct (ring_send_sim rb f m Hr Ho) as (rb' & He & Hr' & Hn); [unfold index_ok; nia|].
    unfold on_ring. simpl. rewrite He. destruct (fifo_send m f) as [b f']. simpl in *.
    specialize (IH rb' f' s Hr' Hos ltac:(nia)).
    destruct (ring_run os _) as [[bs w]|], (fifo_run os _) as [[bs' w']|]; simpl in *; congruence.
  - pose proof (ipc_receive_sim handler Hh fuel rb f s Hr ltac:(nia)) as Hrecv.
    destruct (fifo_receive handler fuel f s) as [[f' s']|]; [|by rewrite Hrecv].
    destruct Hrecv as (rb' & -> & Hr' & Hn).
    specialize (IH rb' f' s' Hr' Hos ltac:(nia)).
    destruct (ring_run os _) as [[bs w]|], (fifo_run os _) as [[bs' w']|]; simpl in *; congruence.
Qed.
End run.

(** C15: the ring buffer is a bounded FIFO queue.  Any sequence of
    sends and receives on a fresh ring buffer gives the results, and the receiver's
    state, that the specification's queue of 256 messages gives, messages
    that the handlers send to their own process included.  (The bound keeps the
    64-bit indices from wrapping; [fuel] bounds the turns of each receive.) *)
Theorem ring_refines_fifo {S} (handler : Z → Z → S → S * list msg) (fuel : nat) os s
    (Hh : ∀ c p s, Forall msg_ok (handler c p s).2)
    (Hos : Forall op_ok os)
    (Hbound : (Z.of_nat (length os) + 1) * Z.of_nat fuel + 257 < 2 ^ 63) :
  observe (ring_run handler fuel os (ringbuf_init, s))
  = observe (fifo_run handler fuel os (Fifo [] false, s)).
Proof.
  apply ring_run_sim; [done|apply ringbuf_init_represents|done|]. simpl. lia.
Qed.

(** A handler that records what it gets, and answers message 7 with message 8. *)
Definition echo_handler (c p : Z) (s : list msg) : list msg * list msg :=
  (s ++ [(c, p)], if c =? 7 then [(8, p)] else []).

Lemma ring_refines_fifo_witness :
  observe (ring_run echo_handler 10 [OpSend (7, 1); OpSend (9, 2); OpReceive; OpSend (3, 4)]
             (ringbuf_init, []))
  = observe (fifo_run echo_handler 10 [OpSend (7, 1); OpSend (9, 2); OpReceive; OpSend (3, 4)]
               (Fifo [] false, [])).
Proof.
  apply ring_refines_fifo.
  - intros c p s. unfold echo_handler. simpl. destruct (c =? 7); repeat constructor; simpl; lia.
  - repeat constructor; simpl; lia.
  - by vm_compute.
Defined.

Example ring_run_echo :
  observe (ring_run echo_handler 10 [OpSend (7, 1); OpSend (9, 2); OpReceive; OpSend (3, 4)]
             (ringbuf_init, []))
  = Some ([true; true; true; true], [(7, 1); (9, 2); (8, 1)]).
Proof. vm_compute. reflexivity. Qed.

(** ** Round trip and termination *)

Lemma fifo_send_all_take ms q :
  (length q ≤ 256)%nat →
  fifo_send_all ms (Fifo q false)
  = Fifo (take 256 (q ++ ms)) (256 <? length (q ++ ms))%nat.
Proof.
  revert q. induction ms as [|m ms IH]; intros q Hq; simpl.
  - rewrite app_nil_r, take_ge by lia. unfold fifo_send_all. simpl. f_equal.
    destruct (Nat.ltb_spec 256 (length q)); lia || done.
  - unfold fifo_send_all. simpl. fold (fifo_send_all ms). unfold fifo_send. simpl.
    destruct (Nat.ltb_spec (length q) 256); simpl.
    + change (foldl _ ?f ms) with (fifo_send_all ms f).
      rewrite IH, <- app_assoc by (rewrite length_app; simpl; lia). done.
    + assert (∀ f, blocked f = true → fifo_send_all ms f = f) as Hb.
      { clear. induction ms as [|m ms IH]; [done|]. intros f Hf. unfold fifo_send_all. simpl.
        unfold fifo_send at 2. rewrite Hf. apply IH, Hf. }
      change (foldl _ ?f ms) with (fifo_send_all ms f). rewrite Hb by done.
      rewrite take_app_le, take_ge by lia. f_equal. rewrite length_app. simpl.
      destruct (Nat.ltb_spec 256 (length q + Datatypes.S (length ms))); lia || done.
Qed.

Lemma fifo_receive_quiet {S} (handler : Z → Z → S → S * list msg) fuel f s :
  (∀ c p s, (handler c p s).2 = []) → (length (fq f) ≤ fuel)%nat →
  fifo_receive handler fuel f s
  = Some (Fifo [] false, foldl (λ s m, (handler m.1 m.2 s).1) s (fq f)).
Proof.
  intros Hq. destruct f as [q b]. revert q s. unfold fifo_receive.
  induction fuel as [|fuel IH]; intros [|m q] s Hl; simpl in *; try done; try lia.
  pose proof (Hq m.1 m.2 s) as Hm. destruct (handler m.1 m.2 s) as [s' out]. simpl in *.
  subst out. apply IH. lia.
Qed.

Lemma ipc_receive_quiet {S} (handler : Z → Z → S → S * list msg) fuel rb f s :
  represents rb f → (∀ c p s, (handler c p s).2 = []) → (length (fq f) ≤ fuel)%nat →
  next_read rb + Z.of_nat fuel + 257 < 2 ^ 63 →
  ∃ rb', proc_receive handler fuel (rb, s)
         = Some (true, (rb', foldl (λ s m, (handler m.1 m.2 s).1) s (fq f)))
         ∧ represents rb' (Fifo [] false).
Proof.
  intros Hr Hq Hfuel Hbound.
  assert (∀ c p s, Forall msg_ok (handler c p s).2) as Hh by (intros; by rewrite Hq).
  pose proof (ipc_receive_sim handler Hh fuel rb f s Hr Hbound) as H.
  rewrite fifo_receive_quiet in H by done. destruct H as (rb' & He & Hr' & _). eauto.
Qed.


(** A handler that only records. *)
Definition record_handler (c p : Z) (s : list msg) : list msg * list msg := (s ++ [(c, p)], []).


(** Messages come out as they went in.  Of any list of messages sent to an
    empty ring buffer exactly the first 256 are accepted; the next receive
    hands them to the handler in the order they were sent, each once, and the ring
    buffer then accepts messages again even if it had overflowed. *)
Theorem ring_roundtrip ms rb
    (Hr : represents rb (Fifo [] false))
    (Hms : Forall msg_ok ms)
    (Hbound : next_read rb + 256 + 257 < 2 ^ 63) :
  ∃ rb1 rb2, ring_send_all ms rb = Some (tt, rb1) ∧
    proc_receive record_handler 256 (rb1, []) = Some (true, (rb2, take 256 ms)) ∧
    represents rb2 (Fifo [] false).
Proof.
  destruct (ring_send_all_sim ms rb _ Hr Hms) as (rb1 & He & Hr1 & Hn); [unfold index_ok; lia|].
  rewrite fifo_send_all_take in Hr1 by (simpl; lia). simpl app in Hr1.
  destruct (ipc_receive_quiet record_handler 256 rb1 _ [] Hr1) as (rb2 & He2 & Hr2);
    [done|simpl; rewrite length_take; lia|lia|].
  exists rb1, rb2. split_and!; [done| |done]. rewrite He2. simpl fq. do 3 f_equal.
  unfold record_handler. simpl. generalize (take 256 ms). intros l.
  rewrite <- (app_nil_l l) at 2. generalize (@nil msg).
  induction l as [|[c p] l IH]; intros acc; simpl; [by rewrite app_nil_r|].
  rewrite IH, <- app_assoc. done.
Qed.

Lemma ring_roundtrip_witness :
  ∃ rb1 rb2, ring_send_all (replicate 300 (5, 9)) ringbuf_init = Some (tt, rb1) ∧
    proc_receive record_handler 256 (rb1, []) = Some (true, (rb2, take 256 (replicate 300 (5, 9)))) ∧
    represents rb2 (Fifo [] false).
Proof.
  apply ring_roundtrip.
  - apply ringbuf_init_represents.
  - apply Forall_replicate. unfold msg_ok. simpl. lia.
  - by vm_compute.
Defined.
