(* ===== verification/RingbufConc.v ===== *)
(** The ring buffer of src/src/ipc.c with its atomic accesses interleaved: any
    number of writers in [ipc_send_direct], one reader in [ipc_receive].  Each
    access to a C11 atomic is one step.  (The accesses are sequentially
    consistent, C11's default, which all of the code's are.) *)

From S2P Require Import Prelude Ringbuf.

(** ** Program points *)

(** A writer inside [ipc_send_direct].  [WCheck] to [WSetFull] are
    [ipc_reserve_write_index]; a send of a full ring returns to [WIdle]. *)
Inductive wpc :=
  | WIdle
  | WCheck (m : msg)              (* if(dstbuf->full) *)
  | WReserve (m : msg)            (* next = next_write_reserve++ *)
  | WLoadRead (m : msg) (next : Z)
  | WDecide (m : msg) (next nread : Z)
  | WSetFull                      (* atomic_compare_exchange_strong *)
  | WPtr (m : msg) (next : Z)
  | WCode (m : msg) (next : Z)
  | WRelease.                     (* ipc_release_write_index *)

(** The reader inside [ipc_receive]. *)
Inductive rpc :=
  | RIdle
  | RLoop (read_index : Z)        (* read_index < next_write_release *)
  | RCode (read_index : Z)
  | RPtr (read_index code : Z)
  | RClear (read_index code ptr : Z)
  | RAdvance (read_index code ptr : Z)  (* next_read++, and the handler runs *)
  | RFull
  | RReset                        (* next_write_reserve = next_read *)
  | RAssert
  | RAssert2 (reserve : Z)
  | RUnblock.

(** [c_hist] lists the messages in the order their index was reserved, [c_log]
    those given to a handler; [c_over] says that a writer found the ring full. *)
Record cstate := CState {
  c_rb : ringbuf;
  c_writers : list wpc;
  c_reader : rpc;
  c_hist : list msg;
  c_log : list msg;
  c_over : bool
}.

Definition conc_init (n : nat) : cstate :=
  CState ringbuf_init (replicate n WIdle) RIdle [] [] false.

(** A writer's next step, from its program point. *)
Definition writer_step (w : nat) (pc : wpc) (s : cstate) : option cstate :=
  let 'CState rb ws r h l o := s in
  let goto pc := <[w := pc]> ws in
  match pc with
  | WIdle => None
  | WCheck m => Some (CState rb (goto (if rb_full rb then WIdle else WReserve m)) r h l o)
  | WReserve m =>
      let next := next_write_reserve rb in
      Some (CState (set_reserve (s64 (next + 1)) rb) (goto (WLoadRead m next)) r (h ++ [m]) l o)
  | WLoadRead m next => Some (CState rb (goto (WDecide m next (next_read rb))) r h l o)
  | WDecide m next nread =>
      if rb_full rb then Some (CState rb (goto WIdle) r h l o)
      else if 255 <? next - nread then Some (CState rb (goto WSetFull) r h l true)
      else if 0 <=? next then Some (CState rb (goto (WPtr m next)) r h l o)
      else None
  | WSetFull =>
      Some (CState (if rb_full rb then rb else set_full true rb) (goto WIdle) r h l o)
  | WPtr m next => Some (CState (set_ptr (u8 next) m.2 rb) (goto (WCode m next)) r h l o)
  | WCode m next => Some (CState (set_code (u8 next) m.1 rb) (goto WRelease) r h l o)
  | WRelease =>
      Some (CState (set_release (s64 (next_write_release rb + 1)) rb) (goto WIdle) r h l o)
  end.

(** The reader's next step.  The reader is the only one that writes [next_read]. *)
Definition reader_step (s : cstate) : option cstate :=
  let 'CState rb ws r h l o := s in
  match r with
  | RIdle =>
      if 0 <=? next_read rb then Some (CState rb ws (RLoop (next_read rb)) h l o) else None
  | RLoop i => Some (CState rb ws (if i <? next_write_release rb then RCode i else RFull) h l o)
  | RCode i => Some (CState rb ws (RPtr i (get_code (u8 i) rb)) h l o)
  | RPtr i c =>
      let p := get_ptr (u8 i) rb in
      Some (CState rb ws (if c =? IPC_CMD_NIL then RLoop i else RClear i c p) h l o)
  | RClear i c p =>
      Some (CState (set_code (u8 i) IPC_CMD_NIL rb) ws (RAdvance i c p) h l o)
  | RAdvance i c p =>
      Some (CState (set_read (s64 (next_read rb + 1)) rb) ws (RLoop (s64 (i + 1))) h
              (l ++ [(c, p)]) o)
  | RFull => Some (CState rb ws (if rb_full rb then RReset else RIdle) h l o)
  | RReset => Some (CState (set_reserve (next_read rb) rb) ws RAssert h l o)
  | RAssert => Some (CState rb ws (RAssert2 (next_write_reserve rb)) h l o)
  | RAssert2 n => if n =? next_write_release rb then Some (CState rb ws RUnblock h l o) else None
  | RUnblock => Some (CState (set_full false rb) ws RIdle h l o)
  end.

(** Who moves next: a writer starts a send, a writer goes on, the reader goes on. *)
Inductive label := LSend (w : nat) (m : msg) | LWriter (w : nat) | LReader.

Definition step (a : label) (s : cstate) : option cstate :=
  match a with
  | LSend w m =>
      match c_writers s !! w with
      | Some WIdle => Some (CState (c_rb s) (<[w := WCheck m]> (c_writers s)) (c_reader s)
                              (c_hist s) (c_log s) (c_over s))
      | _ => None
      end
  | LWriter w =>
      match c_writers s !! w with Some pc => writer_step w pc s | None => None end
  | LReader => reader_step s
  end.

Fixpoint steps (ls : list label) (s : cstate) : option cstate :=
  match ls with
  | [] => Some s
  | a :: ls' => match step a s with Some s' => steps ls' s' | None => None end
  end.

(** ** The invariant, as long as no writer found the ring full *)

(** The index a writer reserved and has not written yet. *)
Definition pending (pc : wpc) : option Z :=
  match pc with
  | WLoadRead _ i | WDecide _ i _ | WPtr _ i | WCode _ i => Some i
  | _ => None
  end.

Definition pending_at (ws : list wpc) (w : nat) (i : Z) : Prop :=
  ∃ pc, ws !! w = Some pc ∧ pending pc = Some i.

(** The index whose code the reader cleared but did not count yet. *)
Definition consumed (r : rpc) (i : Z) : Prop :=
  match r with RAdvance j _ _ => i = j | _ => False end.

(** The message at an index is in the buffer. *)
Definition written (s : cstate) (i : Z) : Prop :=
  i < Z.of_nat (length (c_hist s)) ∧ (∀ w, ¬ pending_at (c_writers s) w i)
  ∧ ¬ consumed (c_reader s) i.

Definition hist_at (s : cstate) (i : Z) (m : msg) : Prop := c_hist s !! Z.to_nat i = Some m.

Definition writer_ok (s : cstate) (pc : wpc) : Prop :=
  let nr := next_read (c_rb s) in
  match pc with
  | WIdle | WRelease => True
  | WSetFull => False
  | WCheck m | WReserve m => msg_ok m
  | WLoadRead m i => nr ≤ i ∧ hist_at s i m ∧ msg_ok m
  | WDecide m i r => nr ≤ i ∧ hist_at s i m ∧ msg_ok m ∧ r ≤ nr
  | WPtr m i => nr ≤ i ≤ nr + 255 ∧ hist_at s i m ∧ msg_ok m
  | WCode m i => nr ≤ i ≤ nr + 255 ∧ hist_at s i m ∧ msg_ok m ∧ get_ptr (u8 i) (c_rb s) = m.2
  end.

Definition reader_ok (s : cstate) : Prop :=
  let nr := next_read (c_rb s) in
  match c_reader s with
  | RIdle | RFull => True
  | RLoop i => i = nr
  | RCode i => i = nr
  | RPtr i c => i = nr ∧ (c ≠ IPC_CMD_NIL → written s i ∧ ∃ p, hist_at s i (c, p))
  | RClear i c p => i = nr ∧ written s i ∧ hist_at s i (c, p)
  | RAdvance i c p => i = nr ∧ hist_at s i (c, p) ∧ ∀ w, ¬ pending_at (c_writers s) w i
  | RReset | RAssert | RAssert2 _ | RUnblock => False
  end.

(** What the buffer holds at an index of the window. *)
Definition slot_ok (s : cstate) (i : Z) : Prop :=
  (written s i → hist_at s i (slot_msg (c_rb s) i)) ∧
  (¬ written s i → get_code (u8 i) (c_rb s) = IPC_CMD_NIL).

(** A writer that holds an index: reserved, not released yet. *)
Definition busy (pc : wpc) : nat :=
  match pc with WRelease => 1 | _ => if pending pc is Some _ then 1 else 0 end.

Record conc_inv (n : nat) (s : cstate) : Prop := ConcInv {
  ci_full : rb_full (c_rb s) = false;
  ci_code : length (rb_code (c_rb s)) = 256%nat;
  ci_ptr : length (rb_ptr (c_rb s)) = 256%nat;
  ci_bound : (length (c_hist s) ≤ n)%nat;
  ci_reserve : next_write_reserve (c_rb s) = Z.of_nat (length (c_hist s));
  ci_released : 0 ≤ next_write_release (c_rb s);
  ci_release : next_write_release (c_rb s) + Z.of_nat (sum_list (busy <$> c_writers s))
               = Z.of_nat (length (c_hist s));
  ci_read : 0 ≤ next_read (c_rb s) ≤ Z.of_nat (length (c_hist s));
  ci_log : c_log s = take (Z.to_nat (next_read (c_rb s))) (c_hist s);
  ci_hist : Forall msg_ok (c_hist s);
  ci_writers : ∀ w pc, c_writers s !! w = Some pc → writer_ok s pc;
  ci_distinct : ∀ w w' i, pending_at (c_writers s) w i → pending_at (c_writers s) w' i → w = w';
  ci_old : ∀ i, i < Z.of_nat (length (c_hist s)) → (∀ w, ¬ pending_at (c_writers s) w i) →
           i < next_read (c_rb s) + 256;
  ci_reader : reader_ok s;
  ci_slots : ∀ i, next_read (c_rb s) ≤ i < next_read (c_rb s) + 256 → slot_ok s i
}.

(** ** Lemmas *)

Lemma pending_at_insert ws w pc w' i :
  pending_at (<[w := pc]> ws) w' i ↔
  (w' = w ∧ (w < length ws)%nat ∧ pending pc = Some i) ∨ (w' ≠ w ∧ pending_at ws w' i).
Proof.
  unfold pending_at. destruct (decide (w' = w)) as [->|Hne].
  - destruct (decide (w < length ws)%nat).
    + rewrite list_lookup_insert_eq by done. split; [|intros [(_ & _ & ?)|[? _]]; eauto; done].
      intros (? & ? & ?). simplify_eq. auto.
    + rewrite list_insert_ge by lia. split; [|tauto].
      intros (pc' & Hpc & _). apply lookup_lt_Some in Hpc. lia.
  - rewrite list_lookup_insert_ne by done. split; [auto|]. by intros [(? & _)|[_ ?]].
Qed.

Lemma sum_list_insert (f : wpc → nat) ws w pc pc' :
  ws !! w = Some pc →
  (sum_list (f <$> <[w := pc']> ws) + f pc = sum_list (f <$> ws) + f pc')%nat.
Proof.
  revert w. induction ws as [|x ws IH]; intros [|w] Hw; simplify_eq/=; [lia|].
  specialize (IH w Hw). lia.
Qed.

Lemma window_inj nr i j :
  nr ≤ i < nr + 256 → nr ≤ j < nr + 256 → u8 i = u8 j → i = j.
Proof.
  intros Hi Hj He. destruct (decide (i ≤ j)).
  - apply u8_inj_window; [lia|done].
  - symmetry. apply u8_inj_window; [lia|done].
Qed.

Lemma pending_same ws w pc pc' w' i :
  ws !! w = Some pc → pending pc' = pending pc →
  pending_at (<[w := pc']> ws) w' i ↔ pending_at ws w' i.
Proof.
  intros Hw Hp. rewrite pending_at_insert. pose proof (lookup_lt_Some _ _ _ Hw).
  destruct (decide (w' = w)) as [->|]; [|tauto]. split.
  - intros [(_ & _ & Hi)|[? _]]; [|done]. exists pc. split; [done|congruence].
  - intros (pc2 & Hpc & Hi). left. split_and!; [done|done|]. simplify_eq. congruence.
Qed.

(** Only what [written] reads matters. *)
Lemma written_ext s s' i :
  length (c_hist s') = length (c_hist s) → c_reader s' = c_reader s →
  (∀ w, pending_at (c_writers s') w i ↔ pending_at (c_writers s) w i) →
  written s' i ↔ written s i.
Proof.
  unfold written. intros -> -> Hp.
  split; intros (? & Hw & ?); split_and!; try done; intros w; specialize (Hw w);
    specialize (Hp w); tauto.
Qed.

(** A writer's step that neither reserves nor publishes an index. *)
Lemma writer_frame n s w pc pc' rb' :
  conc_inv n s → c_writers s !! w = Some pc →
  let s' := CState rb' (<[w := pc']> (c_writers s)) (c_reader s) (c_hist s) (c_log s) false in
  rb_full rb' = false → next_read rb' = next_read (c_rb s) →
  next_write_reserve rb' = next_write_reserve (c_rb s) →
  rb_code rb' = rb_code (c_rb s) → length (rb_ptr rb') = 256%nat →
  0 ≤ next_write_release rb' →
  next_write_release rb' + Z.of_nat (busy pc') = next_write_release (c_rb s) + Z.of_nat (busy pc) →
  pending pc' = pending pc →
  (∀ j, next_read rb' ≤ j < next_read rb' + 256 → pending pc ≠ Some j →
        get_ptr (u8 j) rb' = get_ptr (u8 j) (c_rb s)) →
  writer_ok s' pc' →
  conc_inv n s'.
Proof.
  intros [? ? ? ? ? Hrl Hrel ? ? ? Hwr Hdis Hold Hrd Hsl] Hw s' Hf Hnr Hres Hcode Hptr Hrl' Hbusy Hpend Hp Hok.
  assert (∀ w' i, pending_at (<[w:=pc']> (c_writers s)) w' i ↔ pending_at (c_writers s) w' i)
    as Hpa by (intros; by eapply pending_same).
  assert (∀ i, written s' i ↔ written s i) as Hwi by (intros; by apply written_ext).
  assert (∀ i, get_code i rb' = get_code i (c_rb s)) as Hgc
    by (intros; unfold get_code; by rewrite Hcode).
  split; simpl; rewrite ?Hnr, ?Hcode; try done; try congruence.
  - pose proof (sum_list_insert busy _ _ _ pc' Hw). lia.
  - intros w' p Hp'. destruct (decide (w' = w)) as [->|Hne].
    + rewrite list_lookup_insert_eq in Hp' by (by eapply lookup_lt_Some). by simplify_eq.
    + rewrite list_lookup_insert_ne in Hp' by done. specialize (Hwr w' p Hp').
      destruct p; simpl in *; rewrite ?Hnr; try done.
      destruct Hwr as (? & ? & ? & Hpm). split_and!; try done; try lia.
      rewrite Hp; [done|lia|]. intros He. destruct Hne.
      eapply Hdis; [|exists pc; by rewrite Hw]. by eexists.
  - intros w1 w2 i. rewrite !Hpa. apply Hdis.
  - intros i Hi Hn. apply Hold; [done|]. intros w'. rewrite <- Hpa. apply Hn.
  - unfold reader_ok in *. simpl. rewrite Hnr.
    destruct (c_reader s); try done; rewrite ?Hwi; try done.
    destruct Hrd as (? & ? & Hn). split_and!; try done. intros w'. by rewrite Hpa.
  - intros i Hi. destruct (Hsl i Hi) as [H1 H2]. split; rewrite Hwi.
    + intros Hwt. unfold slot_msg. simpl. rewrite Hgc, Hp; [by apply H1|lia|].
      intros He. destruct Hwt as (_ & Hn & _). apply (Hn w). by exists pc.
    + intros Hnw. simpl. rewrite Hgc. by apply H2.
Qed.

(** Reserving an index appends its message to the history. *)
Lemma writer_reserve n s w m :
  conc_inv n s → c_writers s !! w = Some (WReserve m) →
  let next := next_write_reserve (c_rb s) in
  conc_inv (S n) (CState (set_reserve (next + 1) (c_rb s)) (<[w := WLoadRead m next]> (c_writers s))
                  (c_reader s) (c_hist s ++ [m]) (c_log s) false).
Proof.
  intros [? ? ? Hb Hres Hrl Hrel Hnr Hlog Hh Hwr Hdis Hold Hrd Hsl] Hw next.
  set (s' := CState _ _ _ _ _ _).
  assert (∀ w' i, pending_at (c_writers s) w' i → i < Z.of_nat (length (c_hist s))) as Hlt.
  { intros w' i (pc & Hpc & Hi). specialize (Hwr w' pc Hpc).
    destruct pc; simplify_eq/=;
    match goal with H : _ ∧ hist_at _ _ _ ∧ _ |- _ => destruct H as (? & Hat & _) end;
    apply lookup_lt_Some in Hat; lia. }
  assert (∀ w' i, pending_at (c_writers s') w' i ↔ (w' = w ∧ i = next) ∨ pending_at (c_writers s) w' i)
    as Hpa.
  { intros w' i. simpl. rewrite pending_at_insert. simpl.
    pose proof (lookup_lt_Some _ _ _ Hw) as Hl. split.
    - intros [(? & ? & ?)|[? ?]]; simplify_eq; auto.
    - intros [[-> ->]|(pc & Hpc & Hi)]; [auto|]. right.
      split; [intros ->; by simplify_eq|by exists pc]. }
  assert (∀ i, written s' i ↔ written s i) as Hwi.
  { intros i. unfold written. simpl. rewrite length_app. simpl.
    split; intros (Hl & Hn & Hc).
    - assert (i ≠ next) by (intros ->; apply (Hn w), Hpa; auto).
      split_and!; [lia| |done]. intros w' Hp. apply (Hn w'), Hpa. auto.
    - split_and!; [lia| |done]. intros w' Hp. apply Hpa in Hp as [[-> ->]|Hp]; [lia|by apply (Hn w')]. }
  assert (∀ i x, hist_at s i x → hist_at s' i x) as Hhm.
  { intros i x Hx. unfold hist_at. simpl. by apply lookup_app_l_Some. }
  split; simpl; rewrite ?length_app; simpl; try done; try lia.
  - pose proof (sum_list_insert busy _ _ _ (WLoadRead m next) Hw). simpl in *. lia.
  - rewrite Hlog, take_app_le by lia. done.
  - apply Forall_app. split; [done|]. by apply Forall_singleton, (Hwr _ _ Hw).
  - intros w' pc Hpc. destruct (decide (w' = w)) as [->|Hne].
    + rewrite list_lookup_insert_eq in Hpc by (by eapply lookup_lt_Some). simplify_eq. simpl.
      split_and!; [lia| |by apply (Hwr _ _ Hw)]. unfold hist_at. simpl.
      replace (Z.to_nat next) with (length (c_hist s)) by lia. by apply list_lookup_middle.
    + rewrite list_lookup_insert_ne in Hpc by done. specialize (Hwr w' pc Hpc).
      destruct pc; simpl in *; intuition auto.
  - intros w1 w2 i H1 H2. apply Hpa in H1, H2. destruct H1 as [[-> ->]|H1], H2 as [[-> ?]|H2]; try done.
    + apply Hlt in H2. lia.
    + subst. apply Hlt in H1. lia.
    + by eapply Hdis.
  - intros i Hi Hn. assert (i ≠ next) by (intros ->; apply (Hn w), Hpa; auto).
    apply Hold; [lia|]. intros w' Hp. apply (Hn w'), Hpa. auto.
  - unfold reader_ok in *. simpl. destruct (c_reader s); try done.
    + destruct Hrd as [-> Hc]. split; [done|]. intros Hc'. rewrite Hwi.
      destruct (Hc Hc') as [? [p ?]]. eauto.
    + rewrite Hwi. intuition auto.
    + destruct Hrd as (-> & Hat & Hn). split_and!; auto. intros w' Hp.
      apply Hpa in Hp as [[-> He]|Hp]; [|by apply (Hn w')].
      apply lookup_lt_Some in Hat. lia.
  - intros i Hi. destruct (Hsl i Hi) as [H1 H2]. split; rewrite Hwi; [|done].
    intros Hwt. apply Hhm, H1, Hwt.
Qed.

(** Writing the code publishes the message. *)
Lemma writer_publish n s w m i :
  conc_inv n s → c_writers s !! w = Some (WCode m i) →
  conc_inv n (CState (set_code (u8 i) m.1 (c_rb s)) (<[w := WRelease]> (c_writers s))
                (c_reader s) (c_hist s) (c_log s) false).
Proof.
  intros [? Hcl ? Hb Hres Hrl Hrel Hnr Hlog Hh Hwr Hdis Hold Hrd Hsl] Hw.
  set (s' := CState _ _ _ _ _ _).
  assert (∀ w' j, pending_at (c_writers s') w' j ↔ w' ≠ w ∧ pending_at (c_writers s) w' j) as Hpa.
  { intros w' j. simpl. rewrite pending_at_insert. simpl. split; [|auto].
    intros [(_ & _ & ?)|?]; done. }
  assert (pending_at (c_writers s) w i) as Hpi by by exists (WCode m i).
  destruct (Hwr _ _ Hw) as (Hi & Hat & Hm & Hp). simpl in *.
  assert (∀ j, written s' j ↔ j = i ∨ written s j) as Hwi.
  { intros j. unfold written. simpl. split.
    - intros (Hl & Hn & Hc). destruct (decide (j = i)) as [|Hne]; [auto|]. right.
      split_and!; [lia| |done]. intros w' Hp'. apply (Hn w'), Hpa. split; [|done].
      intros ->. destruct Hp' as (? & ? & ?). by simplify_eq/=.
    - intros [->|(Hl & Hn & Hc)].
      + apply lookup_lt_Some in Hat. split_and!; [lia| |].
        * intros w' [Hne Hp']%Hpa. destruct Hne. by eapply Hdis.
        * unfold reader_ok in Hrd. destruct (c_reader s); simpl; try tauto.
          destruct Hrd as (-> & _ & Hn). intros ->. by apply (Hn w).
      + split_and!; [lia| |done]. intros w' [_ Hp']%Hpa. by apply (Hn w'). }
  assert (∀ j, next_read (c_rb s) ≤ j < next_read (c_rb s) + 256 → j ≠ i → u8 i ≠ u8 j) as Hu.
  { intros j Hj Hne He. destruct Hne. symmetry. eapply window_inj; [|exact Hj|exact He]. lia. }
  split; simpl; rewrite ?length_insert; simpl; try done; try lia.
  - pose proof (sum_list_insert busy _ _ _ WRelease Hw). simpl in *. lia.
  - intros w' pc Hpc. destruct (decide (w' = w)) as [->|Hne].
    + rewrite list_lookup_insert_eq in Hpc by (by eapply lookup_lt_Some). by simplify_eq.
    + rewrite list_lookup_insert_ne in Hpc by done. specialize (Hwr w' pc Hpc).
      by destruct pc.
  - intros w1 w2 j [_ H1]%Hpa [_ H2]%Hpa. by eapply Hdis.
  - intros j Hj Hn. destruct (decide (j = i)) as [->|Hne]; [lia|]. apply Hold; [done|].
    intros w' Hp'. apply (Hn w'), Hpa. split; [|done].
    intros ->. destruct Hp' as (? & ? & ?). by simplify_eq/=.
  - unfold reader_ok in *. simpl. destruct (c_reader s); try done.
    + destruct Hrd as [-> Hc]. split; [done|]. intros Hc'. rewrite Hwi.
      destruct (Hc Hc') as [? [p ?]]. eauto.
    + rewrite Hwi. intuition auto.
    + destruct Hrd as (-> & ? & Hn). split_and!; auto. intros w' [_ Hp']%Hpa. by apply (Hn w').
  - intros j Hj. destruct (Hsl j Hj) as [H1 H2]. split; rewrite Hwi.
    + intros Hwt. unfold slot_msg, hist_at. simpl. destruct (decide (j = i)) as [->|Hne].
      * rewrite get_set_code_eq by done. change (get_ptr _ _) with (get_ptr (u8 i) (c_rb s)).
        rewrite Hp. by destruct m.
      * rewrite get_set_code_ne by auto. destruct Hwt as [?|Hwt]; [done|]. apply H1, Hwt.
    + intros Hn. simpl. rewrite get_set_code_ne; [apply H2; tauto|]. apply Hu; [done|tauto].
Qed.

Lemma written_dec s i : written s i ∨ ¬ written s i.
Proof.
  unfold written.
  destruct (decide (i < Z.of_nat (length (c_hist s)))); [|tauto].
  assert ((∀ w, ¬ pending_at (c_writers s) w i) ∨ ¬ ∀ w, ¬ pending_at (c_writers s) w i) as Hp.
  { destruct (decide (Forall (λ pc, pending pc ≠ Some i) (c_writers s))) as [Hf|Hf].
    - left. intros w (pc & Hpc & Hi). eapply Forall_lookup_1 in Hf; [|exact Hpc]. done.
    - right. intros Hn. apply Hf, Forall_lookup. intros w pc Hpc Hi. apply (Hn w). by exists pc. }
  assert (consumed (c_reader s) i ∨ ¬ consumed (c_reader s) i) as Hc
    by (destruct (c_reader s); simpl; try tauto; destruct (decide (i = read_index)); tauto).
  tauto.
Qed.

(** A reader's step that leaves the ring alone. *)
Lemma reader_move n s r :
  conc_inv n s → (∀ i, ¬ consumed (c_reader s) i) → (∀ i, ¬ consumed r i) →
  let s' := CState (c_rb s) (c_writers s) r (c_hist s) (c_log s) false in
  reader_ok s' → conc_inv n s'.
Proof.
  intros [? ? ? ? ? ? ? ? ? ? ? ? ? Hrd Hsl] Hc Hc' s' Hok.
  assert (∀ i, written s' i ↔ written s i) as Hwi
    by (intros i; unfold written; simpl; specialize (Hc i); specialize (Hc' i); tauto).
  split; try done.
  intros i Hi. destruct (Hsl i Hi) as [H1 H2]. split; by rewrite Hwi.
Qed.

Lemma reader_clear n s i c p :
  conc_inv n s → c_reader s = RClear i c p →
  conc_inv n (CState (set_code (u8 i) IPC_CMD_NIL (c_rb s)) (c_writers s) (RAdvance i c p)
                (c_hist s) (c_log s) false).
Proof.
  intros [? ? ? ? ? ? ? ? ? ? Hwr ? ? Hrd Hsl] Hr. unfold reader_ok in Hrd. rewrite Hr in Hrd.
  destruct Hrd as (-> & (Hl & Hn & _) & Hat).
  split; simpl; rewrite ?length_insert; try done.
  intros j Hj. destruct (Hsl j Hj) as [H1 H2].
  destruct (decide (j = next_read (c_rb s))) as [->|Hne].
  - split; [intros (_ & _ & Hnc); by destruct Hnc|]. intros _. by apply get_set_code_eq.
  - assert (u8 (next_read (c_rb s)) ≠ u8 j) as Hu.
    { intros He. destruct Hne. symmetry. eapply window_inj; [|exact Hj|exact He]. lia. }
    unfold slot_ok, slot_msg, hist_at, written in *. simpl. rewrite Hr in *. simpl in *.
    rewrite !get_set_code_ne by done. split; intros Hw; [apply H1|apply H2]; tauto.
Qed.

Lemma reader_advance n s i c p :
  conc_inv n s → c_reader s = RAdvance i c p →
  conc_inv n (CState (set_read (next_read (c_rb s) + 1) (c_rb s)) (c_writers s) (RLoop (i + 1))
                (c_hist s) (c_log s ++ [(c, p)]) false).
Proof.
  intros [? ? ? ? ? ? ? Hnr Hlog ? Hwr Hdis Hold Hrd Hsl] Hr.
  unfold reader_ok in Hrd. rewrite Hr in Hrd. destruct Hrd as (-> & Hat & Hn).
  pose proof (lookup_lt_Some _ _ _ Hat).
  split; simpl; try done; try lia.
  - rewrite Hlog. replace (Z.to_nat (next_read (c_rb s) + 1)) with (S (Z.to_nat (next_read (c_rb s)))) by lia.
    symmetry. by apply take_S_r.
  - intros w pc Hpc. specialize (Hwr w pc Hpc).
    assert (pending pc ≠ Some (next_read (c_rb s))) as Hne by (intros He; apply (Hn w); by exists pc).
    destruct pc; simpl in *; try done;
      (assert (next ≠ next_read (c_rb s)) by congruence); intuition lia.
  - intros j Hj Hp. specialize (Hold j Hj Hp). lia.
  - intros j Hj. simpl in Hj. destruct (decide (j = next_read (c_rb s) + 256)) as [->|Hne].
    + split.
      * intros (Hl & Hp & _). specialize (Hold _ Hl Hp). lia.
      * intros _. destruct (Hsl (next_read (c_rb s)) ltac:(lia)) as [_ H2].
        assert (u8 (next_read (c_rb s) + 256) = u8 (next_read (c_rb s))) as Hu.
        { unfold u8, wrap. change (2 ^ 8) with 256. by rewrite <- Z.add_mod_idemp_r, Z.add_0_r. }
        rewrite Hu. apply H2. intros (_ & _ & Hc). apply Hc. by rewrite Hr.
    + destruct (Hsl j ltac:(lia)) as [H1 H2]. unfold slot_ok, written in *. rewrite Hr in *.
      simpl in *. split; intros Hw; [apply H1|apply H2]; intuition lia.
Qed.

Lemma reader_step_inv n s s' :
  conc_inv n s → Z.of_nat n + 1 < 2 ^ 63 → c_over s = false → reader_step s = Some s' →
  conc_inv n s' ∧ c_over s' = false.
Proof.
  intros Hinv Hn Ho Hs. pose proof (ci_reader _ _ Hinv) as Hrd.
  pose proof (ci_full _ _ Hinv) as Hf. pose proof (ci_read _ _ Hinv). pose proof (ci_bound _ _ Hinv).
  pose proof (λ i, ci_slots _ _ Hinv i) as Hsl.
  destruct s as [rb ws r h l o]. simpl in *. subst o. unfold reader_ok in Hrd.
  destruct r; simpl in *; try done.
  - destruct (0 <=? next_read rb); simplify_eq. split; [|done].
    apply (reader_move n _ (RLoop _) Hinv); [intros ? []|intros ? []|done].
  - simplify_eq. split; [|done]. destruct (_ <? _).
    + apply (reader_move n _ (RCode _) Hinv); [intros ? []|intros ? []|done].
    + apply (reader_move n _ RFull Hinv); [intros ? []|intros ? []|done].
  - simplify_eq. split; [|done]. apply (reader_move n _ (RPtr _ _) Hinv); [intros ? []|intros ? []|].
    split; [done|]. intros Hc. simpl in *. destruct (Hsl (next_read rb)) as [H1 H2]; [lia|].
    destruct (written_dec (CState rb ws (RCode (next_read rb)) h l false) (next_read rb)) as [Hw|Hw].
    + split; [done|]. eexists. by apply H1.
    + by apply H2 in Hw.
  - destruct Hrd as [-> Hc]. simplify_eq. split; [|done]. destruct (Z.eqb_spec code IPC_CMD_NIL).
    + apply (reader_move n _ (RLoop _) Hinv); [intros ? []|intros ? []|done].
    + apply (reader_move n _ (RClear _ _ _) Hinv); [intros ? []|intros ? []|].
      destruct Hc as (Hw & p & Hat); [done|]. split_and!; [done|done|].
      destruct (Hsl (next_read rb)) as [H1 _]; [lia|]. specialize (H1 Hw).
      unfold hist_at, slot_msg in *. simpl in *. rewrite Hat in H1. simplify_eq. congruence.
  - simplify_eq. split; [|done]. by apply (reader_clear n _ _ _ _ Hinv).
  - simplify_eq. split; [|done]. destruct Hrd as (-> & Hat & _). apply lookup_lt_Some in Hat. simpl in *.
    rewrite s64_small by lia. by apply (reader_advance n _ _ _ _ Hinv).
  - rewrite Hf in Hs. simplify_eq. split; [|done]. apply (reader_move n _ RIdle Hinv); [intros ? []|intros ? []|done].
Qed.

Lemma conc_inv_mono n n' s : conc_inv n s → (n ≤ n')%nat → conc_inv n' s.
Proof. intros [] ?. split; try done. lia. Qed.

Lemma writer_step_inv n w pc s s' :
  conc_inv n s → Z.of_nat n + 1 < 2 ^ 63 → c_writers s !! w = Some pc → c_over s = false →
  writer_step w pc s = Some s' → c_over s' = false → conc_inv (S n) s'.
Proof.
  intros Hinv Hn Hw Ho Hs Ho'.
  pose proof (ci_writers _ _ Hinv w pc Hw) as Hok. pose proof (ci_full _ _ Hinv) as Hf.
  pose proof (ci_bound _ _ Hinv). pose proof (ci_reserve _ _ Hinv). pose proof (ci_read _ _ Hinv).
  pose proof (ci_release _ _ Hinv). pose proof (ci_released _ _ Hinv). pose proof (ci_ptr _ _ Hinv).
  assert (conc_inv (S n) s) as Hinv' by (eapply conc_inv_mono; [done|lia]).
  pose proof (sum_list_insert busy _ _ _ WIdle Hw) as Hbusy.
  destruct s as [rb ws r h l o]. simpl in *. subst o.
  pose proof (λ pc' rb', writer_frame (S n) _ w pc pc' rb' Hinv' Hw) as Hframe. simpl in Hframe.
  destruct pc; simpl in *; simplify_eq/=; rewrite ?Hf in *.
  - apply Hframe; done.
  - rewrite s64_small by lia. by apply (writer_reserve n _ w m Hinv).
  - apply Hframe; try done. simpl. destruct Hok as (? & ? & ?). split_and!; done || lia.
  - destruct (Z.ltb_spec 255 (next - nread)); simplify_eq/=.
    destruct (Z.leb_spec 0 next); simplify_eq/=.
    apply Hframe; try done. simpl. destruct Hok as (? & ? & ? & ?). split_and!; done || lia.
  - done.
  - destruct Hok as (? & ? & ?).
    apply Hframe; try done; simpl; rewrite ?length_insert; try done.
    + intros j Hj Hne. apply get_set_ptr_ne. intros He. destruct Hne. f_equal.
      eapply window_inj; [|exact Hj|exact He]. lia.
    + split_and!; try done; try lia. by apply get_set_ptr_eq.
  - by apply (writer_publish (S n) _ w m next Hinv').
  - rewrite s64_small by lia. apply Hframe; try done; simpl; lia.
Qed.

Lemma step_over a s s' : step a s = Some s' → c_over s' = false → c_over s = false.
Proof.
  destruct s as [rb ws r h l o]. destruct a as [w m|w|]; simpl.
  - destruct (ws !! w) as [[]|]; intros; by simplify_eq.
  - destruct (ws !! w) as [[]|]; simpl; intros; repeat case_match; by simplify_eq.
  - destruct r; intros; repeat case_match; by simplify_eq.
Qed.

Definition label_ok (a : label) : Prop := match a with LSend _ m => msg_ok m | _ => True end.

Lemma step_inv n a s s' :
  conc_inv n s → Z.of_nat n + 1 < 2 ^ 63 → label_ok a → step a s = Some s' → c_over s' = false →
  conc_inv (S n) s'.
Proof.
  intros Hinv Hn Ha Hs Ho'. pose proof (step_over _ _ _ Hs Ho') as Ho.
  assert (conc_inv (S n) s) as Hinv' by (eapply conc_inv_mono; [done|lia]).
  destruct a as [w m|w|]; simpl in Hs.
  - destruct (c_writers s !! w) as [pc|] eqn:Hw; [|done]. destruct pc; simplify_eq.
    destruct s as [rb ws r h l o]. simpl in *. subst o.
    apply (writer_frame (S n) _ w WIdle _ rb Hinv' Hw); try done; apply Hinv'.
  - destruct (c_writers s !! w) as [pc|] eqn:Hw; [|done]. by eapply writer_step_inv.
  - eapply (conc_inv_mono n); [|lia]. by eapply reader_step_inv.
Qed.

Lemma steps_inv ls n s s' :
  conc_inv n s → Z.of_nat n + Z.of_nat (length ls) < 2 ^ 63 → Forall label_ok ls →
  steps ls s = Some s' → c_over s' = false →
  c_over s = false ∧ conc_inv (n + length ls) s'.
Proof.
  revert n s. induction ls as [|a ls IH]; intros n s Hinv Hn Hls Hs Ho; simpl in *.
  - simplify_eq. split; [done|]. by rewrite Nat.add_0_r.
  - apply Forall_cons in Hls as [Ha Hls]. destruct (step a s) as [s1|] eqn:Hs1; [|done].
    assert (c_over s1 = false) as Ho1.
    { clear -Hs Ho. revert s1 Hs. induction ls as [|b ls IH]; intros s1 Hs; simpl in *; [by simplify_eq|].
      destruct (step b s1) as [s2|] eqn:Hs2; [|done]. eapply step_over; [done|]. by apply IH. }
    destruct (IH (S n) s1) as [_ Hinv']; [eapply step_inv; try done; lia|lia|done|done|done|].
    split; [by eapply step_over|]. by rewrite <- Nat.add_succ_comm.
Qed.

Lemma conc_init_inv k : conc_inv 0 (conc_init k).
Proof.
  assert (∀ w i, ¬ pending_at (replicate k WIdle) w i) as Hn.
  { intros w i (pc & Hpc & Hi). apply lookup_replicate_1 in Hpc as [-> _]. done. }
  assert (sum_list (busy <$> replicate k WIdle) = 0%nat) as Hsum by (clear; by induction k).
  split; simpl; try done; try lia.
  - intros w pc Hpc. by apply lookup_replicate_1 in Hpc as [-> _].
  - intros w w' i Hw. by apply Hn in Hw.
  - intros i Hi. simpl in Hi. split.
    + intros (Hl & _). simpl in Hl. lia.
    + intros _. change (nth (Z.to_nat (u8 i)) (replicate 256 0) 0 = 0). pose proof (u8_small_nat i).
      rewrite nth_lookup, (lookup_replicate_2 256 0) by done. done.
Qed.

Lemma reader_step_some n s : conc_inv n s → is_Some (reader_step s).
Proof.
  intros Hinv. pose proof (ci_reader _ _ Hinv) as Hr. pose proof (ci_read _ _ Hinv).
  destruct s as [rb ws r h l o]. unfold reader_ok in Hr. simpl in *.
  destruct r; simpl; try done; eauto. destruct (Z.leb_spec 0 (next_read rb)); [eauto|lia].
Qed.

(** ** Delivery: with the writers at rest the reader takes what there is *)

Definition at_rest (ws : list wpc) : Prop := ∀ w pc, ws !! w = Some pc → pc = WIdle.

Lemma at_rest_pending ws w i : at_rest ws → ¬ pending_at ws w i.
Proof. intros Hw (pc & Hpc & Hi). apply Hw in Hpc as ->. done. Qed.

Lemma at_rest_release n s :
  conc_inv n s → at_rest (c_writers s) →
  next_write_release (c_rb s) = Z.of_nat (length (c_hist s)).
Proof.
  intros Hinv Hw. rewrite <- (ci_release _ _ Hinv).
  assert (sum_list (busy <$> c_writers s) = 0%nat) as ->; [|lia].
  clear -Hw. induction (c_writers s) as [|pc ws IH]; [done|]. csimpl.
  rewrite (Hw 0%nat pc eq_refl), IH; [done|]. intros w pc' Hpc. by apply (Hw (S w)).
Qed.

Lemma steps_app ls1 ls2 s s1 : steps ls1 s = Some s1 → steps (ls1 ++ ls2) s = steps ls2 s1.
Proof.
  revert s. induction ls1 as [|a ls1 IH]; intros s H; simpl in *; [by simplify_eq|].
  destruct (step a s); [by apply IH|done].
Qed.

(** One turn of the reader's loop delivers the next message. *)
Lemma reader_turn n s :
  conc_inv n s → Z.of_nat n + 1 < 2 ^ 63 → c_over s = false → at_rest (c_writers s) →
  c_reader s = RLoop (next_read (c_rb s)) →
  next_read (c_rb s) < Z.of_nat (length (c_hist s)) →
  ∃ s', steps (replicate 5 LReader) s = Some s' ∧ conc_inv n s' ∧ c_over s' = false ∧
    c_writers s' = c_writers s ∧ c_hist s' = c_hist s ∧
    next_read (c_rb s') = next_read (c_rb s) + 1 ∧ c_reader s' = RLoop (next_read (c_rb s')).
Proof.
  intros Hinv Hn Ho Hw Hr Hlt. pose proof (ci_read _ _ Hinv). pose proof (ci_bound _ _ Hinv).
  pose proof (at_rest_release _ _ Hinv Hw) as Hrel.
  assert (get_code (u8 (next_read (c_rb s))) (c_rb s) ≠ IPC_CMD_NIL) as Hc.
  { destruct (ci_slots _ _ Hinv (next_read (c_rb s))) as [Hs _]; [lia|].
    assert (written s (next_read (c_rb s))) as Hwt.
    { split_and!; [done|intros ?; by apply at_rest_pending|rewrite Hr; by intros []]. }
    specialize (Hs Hwt). pose proof (ci_hist _ _ Hinv) as Hh.
    eapply Forall_lookup_1 in Hh; [|exact Hs]. unfold msg_ok in Hh. simpl in Hh.
    unfold IPC_CMD_NIL. lia. }
  assert (∃ s', steps (replicate 5 LReader) s = Some s' ∧ c_writers s' = c_writers s ∧
    c_hist s' = c_hist s ∧
    next_read (c_rb s') = next_read (c_rb s) + 1 ∧ c_reader s' = RLoop (next_read (c_rb s'))) as Hex.
  { destruct s as [rb ws r h l o]. simpl in *. subst r o.
    replace (next_read rb <? next_write_release rb) with true by lia. simpl.
    destruct (Z.eqb_spec (get_code (u8 (next_read rb)) rb) IPC_CMD_NIL) as [|_]; [done|]. simpl.
    eexists. split; [done|]. simpl. rewrite s64_small by lia. done. }
  destruct Hex as (s' & Hs & ? & ? & ? & ?). exists s'. split; [done|].
  assert (conc_inv n s' ∧ c_over s' = false) as [? ?]; [|done].
  clear -Hinv Hn Ho Hs. revert s Hinv Ho Hs. generalize 5%nat.
  intros k. induction k as [|k IH]; intros s Hinv Ho Hs; simpl in Hs; [by simplify_eq|].
  destruct (reader_step s) as [s1|] eqn:Hs1; [|done].
  destruct (reader_step_inv _ _ _ Hinv Hn Ho Hs1). by eapply IH.
Qed.

Lemma reader_drains n d s :
  conc_inv n s → Z.of_nat n + 1 < 2 ^ 63 → c_over s = false → at_rest (c_writers s) →
  c_reader s = RLoop (next_read (c_rb s)) →
  Z.of_nat (length (c_hist s)) = next_read (c_rb s) + Z.of_nat d →
  ∃ s', steps (replicate (5 * d + 2) LReader) s = Some s' ∧ c_reader s' = RIdle ∧
    c_hist s' = c_hist s ∧ c_log s' = c_hist s.
Proof.
  revert s. induction d as [|d IH]; intros s Hinv Hn Ho Hw Hr Hd.
  - pose proof (at_rest_release _ _ Hinv Hw) as Hrel. pose proof (ci_log _ _ Hinv) as Hl.
    pose proof (ci_full _ _ Hinv) as Hf.
    destruct s as [rb ws r h l o]. simpl in *. subst r o l.
    replace (next_read rb <? next_write_release rb) with false by lia. simpl. rewrite Hf.
    eexists. split; [done|]. simpl. split_and!; [done|done|]. apply take_ge. lia.
  - destruct (reader_turn n s) as (s1 & Hs1 & Hinv1 & Ho1 & Hw1 & Hh1 & Hn1 & Hr1); try done; [lia|].
    destruct (IH s1) as (s2 & Hs2 & ? & ? & ?); try done; [by rewrite Hw1|rewrite Hh1; lia|].
    exists s2. rewrite Hh1 in *. split; [|done].
    replace (5 * S d + 2)%nat with (5 + (5 * d + 2))%nat by lia.
    rewrite replicate_add. by rewrite (steps_app _ _ _ _ Hs1).
Qed.

(** ** The theorems *)

(** C11: under any interleaving of any number of writers and the reader,
    as long as no writer found the ring buffer full, the messages handed to the
    handlers are an initial segment of the messages in the order their
    index was reserved: none lost, doubled, reordered or overwritten; and the reader
    never fails an assertion. *)
Theorem ring_conc_fifo k ls s
    (Hls : Forall label_ok ls)
    (Hlen : Z.of_nat (length ls) < 2 ^ 63)
    (Hs : steps ls (conc_init k) = Some s)
    (Ho : c_over s = false) :
  c_log s = take (Z.to_nat (next_read (c_rb s))) (c_hist s) ∧ is_Some (reader_step s).
Proof.
  destruct (steps_inv ls 0 _ s (conc_init_inv k)) as [_ Hinv]; try done; try lia.
  split; [apply Hinv|by eapply reader_step_some].
Qed.

(** A schedule of one whole send, and of the turns of the reader. *)
Definition sched_send (w : nat) (m : msg) : list label := LSend w m :: replicate 7 (LWriter w).

(** Two writers race: the second to reserve is the first to publish. *)
Definition sched_race : list label :=
  [LSend 0 (1, 10); LSend 1 (2, 20); LWriter 0; LWriter 1; LWriter 0; LWriter 1]
  ++ replicate 5 (LWriter 1) ++ replicate 8 LReader ++ replicate 5 (LWriter 0)
  ++ replicate 12 LReader.

Example sched_race_log : c_log <$> steps sched_race (conc_init 2) = Some [(1, 10); (2, 20)].
Proof. by vm_compute. Qed.

Lemma ring_conc_fifo_witness :
  ∃ s, steps sched_race (conc_init 2) = Some s ∧
    c_log s = take (Z.to_nat (next_read (c_rb s))) (c_hist s) ∧ is_Some (reader_step s).
Proof.
  destruct (steps sched_race (conc_init 2)) as [s|] eqn:Hs; [|by vm_compute in Hs].
  exists s. split; [done|]. apply (ring_conc_fifo 2 sched_race s).
  - repeat constructor; simpl; lia.
  - by vm_compute.
  - done.
  - assert (c_over <$> steps sched_race (conc_init 2) = Some false) as He by by vm_compute.
    rewrite Hs in He. by injection He.
Defined.

(** C24: no accepted message is left behind.  When no writer is inside a send and none
    found the ring buffer full, a reader woken up hands over every message: after finitely
    many of its own steps it is idle again and the log is the whole history. *)
Theorem ring_conc_delivers k ls s
    (Hls : Forall label_ok ls)
    (Hlen : Z.of_nat (length ls) + 1 < 2 ^ 63)
    (Hs : steps ls (conc_init k) = Some s)
    (Ho : c_over s = false)
    (Hrest : at_rest (c_writers s))
    (Hidle : c_reader s = RIdle) :
  ∃ t s', steps (replicate t LReader) s = Some s' ∧ c_reader s' = RIdle ∧
    c_hist s' = c_hist s ∧ c_log s' = c_hist s.
Proof.
  destruct (steps_inv ls 0 _ s (conc_init_inv k)) as [_ Hinv]; try done; try lia.
  destruct (reader_step_some _ _ Hinv) as [s1 Hs1].
  destruct (reader_step_inv _ _ _ Hinv ltac:(simpl; lia) Ho Hs1) as [Hinv1 Ho1].
  assert (c_writers s1 = c_writers s ∧ c_hist s1 = c_hist s ∧
          c_reader s1 = RLoop (next_read (c_rb s1))) as (Hw1 & Hh1 & Hr1).
  { clear -Hs1 Hidle. destruct s as [rb ws r h l o]. simpl in *. subst r.
    destruct (0 <=? next_read rb); by simplify_eq. }
  pose proof (ci_read _ _ Hinv1).
  destruct (reader_drains _ (length (c_hist s1) - Z.to_nat (next_read (c_rb s1))) s1 Hinv1)
    as (s2 & Hs2 & Hr2 & Hh2 & Hl2); try done; try lia; [by rewrite Hw1|].
  exists (S (5 * (length (c_hist s1) - Z.to_nat (next_read (c_rb s1))) + 2)), s2.
  rewrite Hh1 in *. split; [|done]. simpl. by rewrite Hs1.
Qed.

Lemma ring_conc_delivers_witness :
  ∃ s t s', steps (sched_send 0 (4, 5)) (conc_init 1) = Some s ∧
    steps (replicate t LReader) s = Some s' ∧ c_reader s' = RIdle ∧
    c_hist s' = c_hist s ∧ c_log s' = c_hist s.
Proof.
  destruct (steps (sched_send 0 (4, 5)) (conc_init 1)) as [s|] eqn:Hs; [|by vm_compute in Hs].
  exists s.
  assert ((λ s, (c_over s, c_writers s, c_reader s)) <$> steps (sched_send 0 (4, 5)) (conc_init 1)
          = Some (false, [WIdle], RIdle)) as He by by vm_compute.
  rewrite Hs in He. injection He as Ho Hw Hr.
  destruct (ring_conc_delivers 1 (sched_send 0 (4, 5)) s) as (t & s' & ?).
  - repeat constructor; simpl; lia.
  - by vm_compute.
  - done.
  - done.
  - rewrite Hw. intros [|w] pc Hpc; by simplify_eq/=.
  - done.
  - by exists t, s'.
Defined.

(** ** What happens when a writer does find the ring full *)

(** 256 messages fill the ring.  Writer 1 reserves index 256 and finds it too far
    ahead; before it sets [full] the reader takes two messages and writer 0 reserves
    index 257, which is near enough.  Index 256 is never written. *)
Definition sched_livelock : list label :=
  concat (replicate 256 (sched_send 0 (1, 1)))
  ++ LSend 1 (2, 2) :: replicate 4 (LWriter 1)
  ++ replicate 11 LReader ++ sched_send 0 (9, 9) ++ [LWriter 1]
  ++ replicate (254 * 5) LReader.

(** The reader looks at index 256 again and again, and [full] turns every writer away. *)
Definition stuck (s : cstate) : Prop :=
  rb_full (c_rb s) = true ∧ next_write_release (c_rb s) = 257 ∧
  get_code 0 (c_rb s) = IPC_CMD_NIL ∧ length (c_log s) = 256%nat ∧
  (∀ w pc, c_writers s !! w = Some pc → match pc with WIdle | WCheck _ => True | _ => False end) ∧
  match c_reader s with
  | RLoop i | RCode i => i = 256
  | RPtr i c => i = 256 ∧ c = IPC_CMD_NIL
  | _ => False
  end.

Lemma stuck_step a s s' : stuck s → step a s = Some s' → stuck s' ∧ c_log s' = c_log s.
Proof.
  intros (Hf & Hrel & Hc & Hlog & Hw & Hr) Hs. destruct s as [rb ws r h l o].
  assert (∀ w p w' pc, (∀ w pc, ws !! w = Some pc → match pc with WIdle | WCheck _ => True | _ => False end) →
    match p with WIdle | WCheck _ => True | _ => False end →
    <[w:=p]> ws !! w' = Some pc → match pc with WIdle | WCheck _ => True | _ => False end) as Hins.
  { intros w p w' pc Ha Hp Hpc. destruct (decide (w' = w)) as [->|].
    - pose proof (lookup_lt_Some _ _ _ Hpc) as Hl. rewrite length_insert in Hl.
      rewrite list_lookup_insert_eq in Hpc by done. by simplify_eq.
    - rewrite list_lookup_insert_ne in Hpc by done. by eapply Ha. }
  unfold stuck. destruct a as [w m|w|]; simpl in *.
  - destruct (ws !! w) as [pc|] eqn:Hpc; [|done]. destruct pc; simplify_eq/=.
    split_and!; try done. intros w' pc Hpc'. by eapply (Hins w (WCheck m)).
  - destruct (ws !! w) as [pc|] eqn:Hpc; [|done]. pose proof (Hw w pc Hpc).
    destruct pc; try done; simplify_eq/=. rewrite Hf. split_and!; try done.
    intros w' pc Hpc'. by eapply (Hins w WIdle).
  - destruct r; simplify_eq/=; try done.
    + rewrite Hrel. by split_and!.
    + destruct Hr as [-> ->]. by split_and!.
Qed.

Lemma stuck_steps ls s s' : stuck s → steps ls s = Some s' → c_log s' = c_log s.
Proof.
  revert s. induction ls as [|a ls IH]; intros s Hst Hs; simpl in Hs; [by simplify_eq|].
  destruct (step a s) as [s1|] eqn:Hs1; [|done].
  destruct (stuck_step _ _ _ Hst Hs1) as [Hst1 <-]. by apply IH.
Qed.

(** C26: a full ring buffer can lose its reader for good.  Two writers and
    the reader can reach a state in which a message was accepted (released), no writer
    is inside a send, and no continuation whatever delivers another message:
    the reader retries an index that was reserved and never written. *)
Theorem ring_livelock :
  ∃ ls s, steps ls (conc_init 2) = Some s ∧ at_rest (c_writers s) ∧
    Z.of_nat (length (c_log s)) < next_write_release (c_rb s) ∧
    ∀ ls' s', steps ls' s = Some s' → c_log s' = c_log s.
Proof.
  exists sched_livelock.
  assert ((λ s, (rb_full (c_rb s), next_write_release (c_rb s), get_code 0 (c_rb s),
                 length (c_log s), c_writers s, c_reader s)) <$> steps sched_livelock (conc_init 2)
          = Some (true, 257, IPC_CMD_NIL, 256%nat, [WIdle; WIdle], RLoop 256)) as He by by vm_compute.
  destruct (steps sched_livelock (conc_init 2)) as [s|]; [|done].
  injection He as Hf Hrel Hc Hl Hw Hr. exists s.
  assert (at_rest (c_writers s)) as Hrest
    by (rewrite Hw; intros [|[|w]] pc Hpc; by simplify_eq/=).
  split_and!; [done|done|lia|]. intros ls' s'. apply stuck_steps.
  split_and!; try done; [|by rewrite Hr]. intros w pc Hpc. by rewrite (Hrest w pc Hpc).
Qed.

(** 256 messages fill the ring.  Writer 1 has seen that it is not full; writer 0 fills it
    and sets [full]; the reader drains it and resets [next_write_reserve]; writer 1 goes on. *)
Definition sched_reset_race : list label :=
  concat (replicate 256 (sched_send 0 (1, 1)))
  ++ [LSend 1 (2, 2); LWriter 1] ++ LSend 0 (3, 3) :: replicate 5 (LWriter 0)
  ++ replicate (1 + 256 * 5 + 3) LReader ++ [LWriter 1; LReader].

(** The reset of a full ring buffer races with the writers.  A writer
    that passed the first test of [full] before it was set can reserve an index between the
    reader's store to [next_write_reserve] and the assertion after it, which then fails. *)
Theorem ring_reset_race :
  ∃ ls s, steps ls (conc_init 2) = Some s ∧ reader_step s = None.
Proof.
  exists sched_reset_race.
  assert ((λ s, match reader_step s with None => true | _ => false end)
          <$> steps sched_reset_race (conc_init 2) = Some true) as He by by vm_compute.
  destruct (steps sched_reset_race (conc_init 2)) as [s|]; [|done]. exists s. split; [done|].
  injection He as He. by destruct (reader_step s).
Qed.
