(* ===== verification/System.v ===== *)
(** The state of a running Shuttlesock: the processes of src/src/shuttlesock.c, the
    memory they share, each process's own [shuso_t], and the error
    state every component reports to.  Ipc.v and Process.v work on it. *)

From Stdlib Require String.
From stdpp Require Import strings pretty.
From S2P Require Import Prelude Heap Ringbuf.

#[local] Open Scope string_scope.
#[local] Open Scope Z_scope.

(** ** Process numbers and run states *)

Definition SHUTTLESOCK_UNKNOWN_PROCESS : Z := -404.
Definition SHUTTLESOCK_NOPROCESS : Z := -3.
Definition SHUTTLESOCK_MASTER : Z := -2.
Definition SHUTTLESOCK_MANAGER : Z := -1.
Definition SHUTTLESOCK_WORKER : Z := 0.
(** The build's default. *)
Definition SHUTTLESOCK_MAX_WORKERS : Z := 256.

Inductive runstate :=
  | STATE_DEAD | STATE_STOPPED | STATE_MISCONFIGURED | STATE_CONFIGURING
  | STATE_CONFIGURED | STATE_NIL | STATE_STARTING | STATE_RUNNING | STATE_STOPPING.

#[export] Instance runstate_eq_dec : EqDecision runstate.
Proof. solve_decision. Defined.

(** The enumeration's values. *)
Definition runstate_val (s : runstate) : Z :=
  match s with
  | STATE_DEAD => -5 | STATE_STOPPED => -4 | STATE_MISCONFIGURED => -3
  | STATE_CONFIGURING => -2 | STATE_CONFIGURED => -1 | STATE_NIL => 0
  | STATE_STARTING => 1 | STATE_RUNNING => 2 | STATE_STOPPING => 3
  end.

Definition shuso_runstate_as_string (s : runstate) : string :=
  match s with
  | STATE_DEAD => "SHUSO_STATE_DEAD"
  | STATE_STOPPED => "SHUSO_STATE_STOPPED"
  | STATE_MISCONFIGURED => "SHUSO_STATE_MISCONFIGURED"
  | STATE_CONFIGURING => "SHUSO_STATE_CONFIGURING"
  | STATE_CONFIGURED => "SHUSO_STATE_CONFIGURED"
  | STATE_NIL => "SHUSO_STATE_NIL"
  | STATE_STARTING => "SHUSO_STATE_STARTING"
  | STATE_RUNNING => "SHUSO_STATE_RUNNING"
  | STATE_STOPPING => "SHUSO_STATE_STOPPING"
  end.

Definition shuso_process_as_string (procnum : Z) : string :=
  if procnum =? SHUTTLESOCK_UNKNOWN_PROCESS then "unknown"
  else if procnum =? SHUTTLESOCK_NOPROCESS then "no_process"
  else if procnum =? SHUTTLESOCK_MASTER then "master"
  else if procnum =? SHUTTLESOCK_MANAGER then "manager"
  else if SHUTTLESOCK_WORKER <=? procnum then "worker"
  else "???".

(** ** The state *)

(** [shuso_t.error].  [e_msg] is the message pointer and the text it points to; a
    text in static memory has address 0. *)
Record err := Err {
  e_msg : option (Z * string);
  e_count : Z;
  e_number : Z;
  e_static : bool;
  e_no_log : bool;
  e_no_publish : bool
}.
Definition err_init : err := Err None 0 0 false false false.

(** A message kept by [ipc_send_outbuf_append]: its code and pointer, and where it goes. *)
Record outmsg := OutMsg { om_code : Z; om_ptr : Z; om_dst : Z }.

(** What a process keeps for itself, in its [shuso_t]: the IPC outbuf and the state of
    its retry timer, the processes it sent a notice to, its errors. *)
Record local := Local {
  l_outbuf : list (Z * outmsg);
  l_retry : bool;
  l_notices : list Z;
  l_err : err
}.
Definition local_init : local := Local [] false [] err_init.

(** The handlers of [shuso_ipc_handler_t.receive]: the built-in ones of
    ipc_commands.c, [do_nothing], and those that modules add. *)
Inductive receive_fn :=
  | signal_handle | shutdown_handle | reconfigure_handle | set_log_fd_handle
  | manager_proxy_message_handle | received_proxied_message_handle
  | worker_started_handle | all_worker_started_handle | worker_stopped_handle
  | do_nothing
  | user_handle (n : Z).

#[export] Instance receive_fn_eq_dec : EqDecision receive_fn.
Proof. solve_decision. Defined.

Record ipc_handler := IpcHandler {
  h_code : Z;
  h_name : string;
  h_receive : receive_fn;
  h_cancel : receive_fn
}.

(** [shuso_sigchild_info_t]; [si_code] is the union of exit code and signal. *)
Inductive child_state := CHILD_RUNNING | CHILD_EXITED | CHILD_KILLED | CHILD_STOPPED.
#[export] Instance child_state_eq_dec : EqDecision child_state.
Proof. solve_decision. Defined.
Record sigchild_info := SigchildInfo {
  si_pid : Z; si_state : child_state; si_code : Z; si_status : Z
}.
#[export] Instance sigchild_info_eq_dec : EqDecision sigchild_info.
Proof. solve_decision. Defined.

(** [shuso_common_t].  After the fork the master has one and the manager and its worker
    threads share another. *)
Record common := Common {
  c_state : runstate;
  c_handlers : list (option ipc_handler);
  c_log_fd : Z;
  c_all_workers_running : bool;
  c_manager_pid : Z;
  c_sig_manager : option sigchild_info;
  c_sig_last : option sigchild_info;
  c_config_workers : Z;
  c_retry_delay : Z
}.

(** [shuso_ipc_manager_proxy_msg_t] *)
Record proxy_msg := ProxyMsg { px_code : Z; px_src : Z; px_dst : Z; px_pd : Z }.

(** A published core event: by which process, its name, code and data. *)
Record event_rec := EventRec { ev_proc : Z; ev_name : string; ev_code : Z; ev_data : Z }.

(** A handler of a module that was called: in which process, the handler, code and pointer. *)
Record call_rec := CallRec { cr_proc : Z; cr_fn : receive_fn; cr_code : Z; cr_ptr : Z }.

(** [w_state], [w_start], [w_end], [w_rings] and [w_shm] are shared memory; a process
    finds its [common] by the address space it is in. *)
Record world := World {
  w_state : Z → runstate;
  w_start : Z;
  w_end : Z;
  w_rings : Z → ringbuf;
  w_shm : heap;
  w_proxies : gmap Z proxy_msg;
  w_common : bool → common;
  w_local : Z → local;
  w_heap : heap;
  w_events : list event_rec;
  w_calls : list call_rec
}.

(** Function update. *)
Definition fupd {A} (f : Z → A) (k : Z) (v : A) : Z → A := λ x, if x =? k then v else f x.

Definition in_master (p : Z) : bool := p =? SHUTTLESOCK_MASTER.
Definition common_of (p : Z) (w : world) : common := w_common w (in_master p).

Definition set_state (p : Z) (s : runstate) (w : world) : world :=
  World (fupd (w_state w) p s) (w_start w) (w_end w) (w_rings w) (w_shm w) (w_proxies w)
    (w_common w) (w_local w) (w_heap w) (w_events w) (w_calls w).
Definition set_workers (a b : Z) (w : world) : world :=
  World (w_state w) a b (w_rings w) (w_shm w) (w_proxies w) (w_common w) (w_local w)
    (w_heap w) (w_events w) (w_calls w).
Definition upd_ring (p : Z) (f : ringbuf → ringbuf) (w : world) : world :=
  World (w_state w) (w_start w) (w_end w) (fupd (w_rings w) p (f (w_rings w p))) (w_shm w)
    (w_proxies w) (w_common w) (w_local w) (w_heap w) (w_events w) (w_calls w).
Definition set_shm (h : heap) (px : gmap Z proxy_msg) (w : world) : world :=
  World (w_state w) (w_start w) (w_end w) (w_rings w) h px (w_common w) (w_local w)
    (w_heap w) (w_events w) (w_calls w).
Definition upd_common (p : Z) (f : common → common) (w : world) : world :=
  World (w_state w) (w_start w) (w_end w) (w_rings w) (w_shm w) (w_proxies w)
    (λ b, if eqb b (in_master p) then f (w_common w b) else w_common w b) (w_local w)
    (w_heap w) (w_events w) (w_calls w).
Definition upd_local (p : Z) (f : local → local) (w : world) : world :=
  World (w_state w) (w_start w) (w_end w) (w_rings w) (w_shm w) (w_proxies w) (w_common w)
    (fupd (w_local w) p (f (w_local w p))) (w_heap w) (w_events w) (w_calls w).
Definition set_heap (h : heap) (w : world) : world :=
  World (w_state w) (w_start w) (w_end w) (w_rings w) (w_shm w) (w_proxies w) (w_common w)
    (w_local w) h (w_events w) (w_calls w).
Definition add_event (e : event_rec) (w : world) : world :=
  World (w_state w) (w_start w) (w_end w) (w_rings w) (w_shm w) (w_proxies w) (w_common w)
    (w_local w) (w_heap w) (w_events w ++ [e])%list (w_calls w).
Definition add_call (c : call_rec) (w : world) : world :=
  World (w_state w) (w_start w) (w_end w) (w_rings w) (w_shm w) (w_proxies w) (w_common w)
    (w_local w) (w_heap w) (w_events w) (w_calls w ++ [c])%list.

Definition set_err (f : err → err) (l : local) : local :=
  Local (l_outbuf l) (l_retry l) (l_notices l) (f (l_err l)).
Definition set_outbuf (o : list (Z * outmsg)) (l : local) : local :=
  Local o (l_retry l) (l_notices l) (l_err l).
Definition set_retry (b : bool) (l : local) : local :=
  Local (l_outbuf l) b (l_notices l) (l_err l).
Definition add_notice (p : Z) (l : local) : local :=
  Local (l_outbuf l) (l_retry l) (l_notices l ++ [p])%list (l_err l).

Definition w_malloc `{Malloc} (n : Z) : M world (option Z) :=
  λ w, match h_malloc n (w_heap w) with
       | Some (r, h) => Some (r, set_heap h w)
       | None => None
       end.
Definition w_free (a : Z) : M world unit :=
  λ w, match h_free a (w_heap w) with
       | Some (_, h) => Some (tt, set_heap h w)
       | None => None
       end.

(** [if(a) free(a)] *)
Definition w_free_if (a : option Z) : M world unit :=
  match a with Some a => w_free a | None => m_ret tt end.

(** ** Core events *)

Definition core_event_names : list string := [
  "configure"; "configure.after"; "master.start"; "manager.start"; "worker.start";
  "worker.start.before.lua_gxcopy"; "worker.start.before"; "master.stop"; "manager.stop";
  "worker.stop"; "master.exit"; "manager.exit"; "worker.exit"; "manager.workers_started";
  "master.workers_started"; "worker.workers_started"; "manager.worker_exited";
  "master.manager_exited"; "error" ].

(** A Shuttlesock that is being configured: the state [shuso_create] leaves. *)
Definition common_init : common :=
  Common STATE_CONFIGURING (replicate 256 None) 1 false 0 None None 0 0.
Definition world_init : world :=
  World (λ _, STATE_NIL) 0 0 (λ _, ringbuf_init) ∅ ∅ (λ _, common_init) (λ _, local_init)
    ∅ [] [].

Section errors.
Context `{Malloc}.

(** ** Errors

    [p] is the process, [S] in the code; the message is the formatted text. *)

Definition get_err (p : Z) : M world err := m_gets (λ w, l_err (w_local w p)).
Definition mod_err (p : Z) (f : err → err) : M world unit := m_modify (upd_local p (set_err f)).

Definition OOM_TEXT : string := "failed to set error: out of memory".

Definition shuso_set_error_internal_vararg (p : Z) (msg : string) : M world unit :=
  e <- get_err p ;;
  let free_oldmsg := match e_msg e with
                     | Some (a, _) => if e_static e then None else Some a
                     | None => None
                     end in
  mod_err p (λ e, Err (e_msg e) (s32 (e_count e + 1)) (e_number e) (e_static e)
                    (e_no_log e) (e_no_publish e)) ;;;
  r <- w_malloc (Z.of_nat (String.length msg) + 1) ;;
  mod_err p (λ e, match r with
    | None => Err (Some (0, OOM_TEXT)) (e_count e) (e_number e) true (e_no_log e) (e_no_publish e)
    | Some a => Err (Some (a, msg)) (e_count e) (e_number e) false (e_no_log e) (e_no_publish e)
    end) ;;;
  w_free_if free_oldmsg ;;;
  w <- m_get ;;
  if negb (e_no_publish (l_err (w_local w p)))
     && (runstate_val STATE_CONFIGURING <? runstate_val (c_state (common_of p w))) then
    let publishing b := mod_err p (λ e, Err (e_msg e) (e_count e) (e_number e) (e_static e)
                                         (e_no_log e) b) in
    publishing true ;;;
    m_modify (add_event (EventRec p "error" 1 0)) ;;;
    publishing false
  else m_ret tt.

Definition set_errno (p n : Z) : M world unit :=
  mod_err p (λ e, Err (e_msg e) (e_count e) n (e_static e) (e_no_log e) (e_no_publish e)).

Definition shuso_set_error (p : Z) (msg : string) : M world bool :=
  set_errno p 0 ;;; shuso_set_error_internal_vararg p msg ;;; m_ret false.

Definition shuso_set_error_errno (p errno : Z) (msg : string) : M world bool :=
  set_errno p errno ;;; shuso_set_error_internal_vararg p msg ;;; m_ret false.

Definition shuso_error_capture_start (p : Z) : M world Z :=
  mod_err p (λ e, Err (e_msg e) (e_count e) (e_number e) (e_static e) true true) ;;;
  e <- get_err p ;;
  m_ret (e_count e).

Definition shuso_last_error (p : Z) : M world (option string) :=
  e <- get_err p ;; m_ret (snd <$> e_msg e).

Definition shuso_error_capture_finish (p prev_errcount : Z) : M world (option string) :=
  mod_err p (λ e, Err (e_msg e) (e_count e) (e_number e) (e_static e) false false) ;;;
  e <- get_err p ;;
  if prev_errcount <? e_count e then shuso_last_error p else m_ret None.

Definition shuso_core_event_publish (p : Z) (name : string) (code data : Z) : M world bool :=
  if bool_decide (name ∈ core_event_names) then
    m_modify (add_event (EventRec p name code data)) ;;; m_ret true
  else shuso_set_error p ("failed to publish core event " ++ name ++ ": no such event").

(** ** The run state check *)

(** [raise(SIGABRT)] in the CONFIGURED case ends the process. *)
Definition shuso_runstate_check (p : Z) (allowed : runstate) (doing : string) : M world bool :=
  w <- m_get ;;
  let st := c_state (common_of p w) in
  if bool_decide (st = allowed) then m_ret true
  else
    let fail msg := shuso_set_error p ("failed to " ++ doing ++ ": " ++ msg) in
    match st with
    | STATE_DEAD => fail "shuttlesock is already dead"
    | STATE_STOPPED => fail "shuttlesock is already stopped"
    | STATE_MISCONFIGURED =>
        last <- shuso_last_error p ;;
        fail (match last with Some m => m | None => "shuttlesock is misconfigured" end)
    | STATE_CONFIGURING => fail "shuttlesock is still being configured"
    | STATE_CONFIGURED => m_abort
    | STATE_NIL => fail "shuttlesock is unset"
    | STATE_STARTING => fail "shuttlesock is starting"
    | STATE_RUNNING => fail "shuttlesock is already running"
    | STATE_STOPPING => fail "shuttlesock is already stopping"
    end.

(** ** Process numbers *)

Definition shuso_is_manager (p : Z) : bool := p =? SHUTTLESOCK_MANAGER.
Definition shuso_is_master (p : Z) : bool := p =? SHUTTLESOCK_MASTER.
Definition shuso_is_worker (p : Z) : bool := SHUTTLESOCK_WORKER <=? p.

Definition shuso_processes_share_heap (procnum1 procnum2 : Z) : bool :=
  negb (((procnum1 =? SHUTTLESOCK_MASTER) && negb (procnum2 =? SHUTTLESOCK_MASTER))
        || ((procnum2 =? SHUTTLESOCK_MASTER) && negb (procnum1 =? SHUTTLESOCK_MASTER))).

(** The error text, when there is one. *)
Definition shuso_procnum_valid (procnum : Z) (w : world) : bool * option string :=
  if procnum <? SHUTTLESOCK_MASTER then (false, Some "invalid procnum")
  else if (SHUTTLESOCK_WORKER <=? procnum)
          && ((procnum <? w_start w) || (w_end w <=? procnum))
  then (false, Some "invalid worker number")
  else (true, None).

(** A [shuso_process_t *] is the index it has relative to [common.process.worker], at which the
    master and manager precede the workers. *)
Definition shuso_process (procnum : Z) : option Z :=
  if (procnum <? SHUTTLESOCK_MASTER) || (SHUTTLESOCK_MAX_WORKERS <? procnum) then None
  else Some procnum.

Definition shuso_process_to_procnum (proc : Z) : Z :=
  if proc =? SHUTTLESOCK_MASTER then SHUTTLESOCK_MASTER
  else if proc =? SHUTTLESOCK_MANAGER then SHUTTLESOCK_MASTER
  else if (0 <=? proc) && (proc <? SHUTTLESOCK_MAX_WORKERS) then proc
  else SHUTTLESOCK_NOPROCESS.

Definition shuso_workers_count (w : world) : Z := w_end w - w_start w.

(** [SHUSO_EACH_WORKER]: the worker numbers from [w_start] to [w_end]. *)
Definition each_worker (w : world) : list Z :=
  (λ i : nat, w_start w + Z.of_nat i) <$> seq 0 (Z.to_nat (w_end w - w_start w)).

End errors.

(** ** Lemmas *)

Lemma fupd_eq {A} (f : Z → A) k v : fupd f k v k = v.
Proof. unfold fupd. by rewrite Z.eqb_refl. Qed.
Lemma fupd_ne {A} (f : Z → A) k v x : x ≠ k → fupd f k v x = f x.
Proof. unfold fupd. intros. by destruct (Z.eqb_spec x k). Qed.

Definition err_of (p : Z) (w : world) : err := l_err (w_local w p).

(** The block a process's error message is in. *)
Definition err_block (e : err) : list block :=
  match e_msg e with
  | Some (a, t) => if e_static e then [] else [(a, Z.of_nat (String.length t) + 1)]
  | None => []
  end.

(** What an error report leaves alone. *)
Record err_frame (p : Z) (w w' : world) : Prop := ErrFrame {
  ef_state : w_state w' = w_state w;
  ef_start : w_start w' = w_start w;
  ef_end : w_end w' = w_end w;
  ef_rings : w_rings w' = w_rings w;
  ef_shm : w_shm w' = w_shm w;
  ef_proxies : w_proxies w' = w_proxies w;
  ef_common : w_common w' = w_common w;
  ef_calls : w_calls w' = w_calls w;
  ef_other : ∀ q, q ≠ p → w_local w' q = w_local w q;
  ef_outbuf : l_outbuf (w_local w' p) = l_outbuf (w_local w p);
  ef_retry : l_retry (w_local w' p) = l_retry (w_local w p);
  ef_notices : l_notices (w_local w' p) = l_notices (w_local w p)
}.

(** The errors are in order: the heap is the message's block and the rest. *)
Record err_inv (p : Z) (base : heap) (w : world) : Prop := ErrInv {
  ei_wf : heap_wf (w_heap w);
  ei_owns : owns (w_heap w) base (err_block (err_of p w))
}.

Definition publishes (p : Z) (w : world) : bool :=
  negb (e_no_publish (err_of p w))
  && (runstate_val STATE_CONFIGURING <? runstate_val (c_state (common_of p w))).

Lemma w_malloc_spec `{Malloc} n base B w :
  0 ≤ n → heap_wf (w_heap w) → owns (w_heap w) base B →
  ∃ r h, w_malloc n w = Some (r, set_heap h w) ∧ heap_wf h ∧
    owns h base (match r with Some a => (a, n) :: B | None => B end).
Proof.
  intros Hn Hwf Ho. unfold w_malloc. destruct (h_malloc n (w_heap w)) as [[r h]|] eqn:Hm;
    [|unfold h_malloc in Hm; by destruct (malloc_fn _ _)].
  pose proof (h_malloc_inv _ _ _ _ Hn Hwf Hm) as Hr. exists r, h. split; [done|].
  destruct r as [a|]; [|by subst h]. destruct Hr as (-> & ? & ? & _). split; [done|].
  by apply owns_insert.
Qed.

Lemma w_free_if_spec (a : option block) base B w :
  heap_wf (w_heap w) →
  owns (w_heap w) base (B ++ match a with Some b => [b] | None => [] end) →
  ∃ h, w_free_if (fst <$> a) w = Some (tt, set_heap h w) ∧ heap_wf h ∧ owns h base B.
Proof.
  intros Hwf Ho. destruct a as [[a n]|]; simpl.
  - rewrite (Permutation_app_comm B) in Ho. simpl in Ho. exists (delete a (w_heap w)).
    unfold w_free. rewrite (h_free_owned _ _ _ _ _ Ho).
    split_and!; [done|by apply heap_wf_delete|by eapply owns_delete].
  - rewrite app_nil_r in Ho. exists (w_heap w). by destruct w.
Qed.

(** The parts of a world an error report goes through. *)
Lemma mod_err_eq p f w :
  mod_err p f w = Some (tt, upd_local p (set_err f) w).
Proof. done. Qed.

Lemma upd_local_err p f w : err_of p (upd_local p (set_err f) w) = f (err_of p w).
Proof. unfold err_of. simpl. by rewrite fupd_eq. Qed.

Lemma err_frame_refl p w : err_frame p w w.
Proof. by split. Qed.
Lemma err_frame_trans p w1 w2 w3 : err_frame p w1 w2 → err_frame p w2 w3 → err_frame p w1 w3.
Proof.
  intros H1 H2. split; intros; (etrans; [by apply H2|by apply H1]).
Qed.
Lemma err_frame_err p f w : err_frame p w (upd_local p (set_err f) w).
Proof.
  split; simpl; try done; rewrite ?fupd_eq; try done. intros. by rewrite fupd_ne.
Qed.
Lemma err_frame_heap p h w : err_frame p w (set_heap h w).
Proof. by split. Qed.
Lemma err_frame_event p e w : err_frame p w (add_event e w).
Proof. by split. Qed.

#[export] Hint Resolve err_frame_refl err_frame_err err_frame_heap err_frame_event : shuso.

(** Undo the steps between two worlds, the last one first. *)
Ltac err_frames :=
  repeat first [ assumption | apply err_frame_refl
               | eapply err_frame_trans; [|solve [auto with shuso]] ].

Lemma set_error_internal_spec `{Malloc} p msg base w :
  err_inv p base w →
  ∃ w' a t st, shuso_set_error_internal_vararg p msg w = Some (tt, w') ∧ err_inv p base w' ∧
    err_of p w' = Err (Some (a, t)) (s32 (e_count (err_of p w) + 1)) (e_number (err_of p w)) st
                    (e_no_log (err_of p w)) (e_no_publish (err_of p w)) ∧
    (t = msg ∨ t = OOM_TEXT) ∧
    w_events w' = (w_events w ++ if publishes p w then [EventRec p "error" 1 0] else [])%list ∧
    err_frame p w w'.
Proof.
  intros [Hwf Ho]. unfold shuso_set_error_internal_vararg, get_err.
  set (f1 := λ e, Err (e_msg e) (s32 (e_count e + 1)) (e_number e) (e_static e)
                    (e_no_log e) (e_no_publish e)).
  set (w1 := upd_local p (set_err f1) w).
  destruct (w_malloc_spec (Z.of_nat (String.length msg) + 1) base (err_block (err_of p w)) w1)
    as (r & h & Hm & Hwfh & Hoh); [lia|done|done|].
  set (f2 := λ e, match r with
    | None => Err (Some (0, OOM_TEXT)) (e_count e) (e_number e) true (e_no_log e) (e_no_publish e)
    | Some a => Err (Some (a, msg)) (e_count e) (e_number e) false (e_no_log e) (e_no_publish e)
    end).
  set (w2 := upd_local p (set_err f2) (set_heap h w1)).
  set (old := match e_msg (err_of p w) with
              | Some (a, t) => if e_static (err_of p w) then None
                               else Some (a, Z.of_nat (String.length t) + 1)
              | None => None end : option block).
  assert (err_of p w2 = f2 (f1 (err_of p w))) as He2
    by (unfold w2, w1; rewrite upd_local_err; unfold err_of; simpl; by rewrite fupd_eq).
  destruct (w_free_if_spec old base (err_block (err_of p w2)) w2) as (h' & Hf & Hwf' & Ho').
  { done. }
  { assert (err_block (err_of p w) = match old with Some b => [b] | None => [] end) as <-.
    { unfold old, err_block. destruct (e_msg (err_of p w)) as [[a t]|]; [|done].
      by destruct (e_static (err_of p w)). }
    rewrite He2. unfold f2. by destruct r. }
  assert (match e_msg (err_of p w) with
          | Some (a, _) => if e_static (err_of p w) then None else Some a
          | None => None end = fst <$> old) as Hold.
  { unfold old. destruct (e_msg (err_of p w)) as [[a t]|]; [|done].
    by destruct (e_static (err_of p w)). }
  set (w3 := set_heap h' w2) in *.
  assert (err_of p w3 = err_of p w2) as He3 by done.
  assert (err_frame p w w3) as Hfr by (unfold w3, w2, w1; err_frames).
  assert (publishes p w3 = publishes p w) as Hpub
    by (unfold publishes; rewrite He3, He2; unfold f2; by destruct r).
  assert (∃ a t st, err_of p w3 = Err (Some (a, t)) (s32 (e_count (err_of p w) + 1))
      (e_number (err_of p w)) st (e_no_log (err_of p w)) (e_no_publish (err_of p w))
      ∧ (t = msg ∨ t = OOM_TEXT)) as (a & t & st & He & Ht).
  { rewrite He3, He2. unfold f2. destruct r; simpl; eauto 10. }
  unfold m_bind, m_gets, m_modify, m_get, m_ret. fold (err_of p w). rewrite mod_err_eq.
  fold f1 w1. rewrite Hm, mod_err_eq. fold f2 w2. rewrite Hold, Hf.
  fold w3 (err_of p w3). change (negb _ && _) with (publishes p w3). rewrite Hpub.
  destruct (publishes p w) eqn:Hp.
  - eexists _, a, t, st. split; [done|].
    assert (e_no_publish (err_of p w) = false) as Hnp
      by (unfold publishes in Hp; by destruct (e_no_publish (err_of p w))).
    rewrite upd_local_err. change (err_of p (add_event ?e ?w)) with (err_of p w).
    rewrite upd_local_err, He. simpl. rewrite Hnp.
    split_and!; try done; [|err_frames].
    split; [done|]. rewrite upd_local_err. change (err_of p (add_event ?e ?w)) with (err_of p w).
    rewrite upd_local_err, He. simpl. unfold err_block in *. simpl.
    rewrite <- He3, He in Ho'. done.
  - exists w3, a, t, st. split_and!; try done. by rewrite app_nil_r.
Qed.

Section error_specs.
Context `{Malloc}.

(** What a reported error does to a process's error state. *)
Record reported (p : Z) (base : heap) (n : Z) (msg : string) (w w' : world) : Prop := Reported {
  rd_inv : err_inv p base w';
  rd_msg : ∃ a t, e_msg (err_of p w') = Some (a, t) ∧ (t = msg ∨ t = OOM_TEXT);
  rd_count : e_count (err_of p w') = s32 (e_count (err_of p w) + 1);
  rd_number : e_number (err_of p w') = n;
  rd_no_log : e_no_log (err_of p w') = e_no_log (err_of p w);
  rd_no_publish : e_no_publish (err_of p w') = e_no_publish (err_of p w);
  rd_events : w_events w'
    = (w_events w ++ if publishes p w then [EventRec p "error" 1 0] else [])%list;
  rd_frame : err_frame p w w'
}.

Lemma set_error_errno_spec p n msg base w :
  err_inv p base w →
  ∃ w', shuso_set_error_errno p n msg w = Some (false, w') ∧ reported p base n msg w w'.
Proof.
  intros [Hwf Ho]. unfold shuso_set_error_errno, set_errno.
  set (f := λ e, Err (e_msg e) (e_count e) n (e_static e) (e_no_log e) (e_no_publish e)).
  set (w0 := upd_local p (set_err f) w).
  assert (err_of p w0 = f (err_of p w)) as He by apply upd_local_err.
  destruct (set_error_internal_spec p msg base w0) as (w' & a & t & st & Hs & Hinv & Hew & Ht & Hev & Hfr).
  { split; [done|]. by rewrite He. }
  unfold m_bind, m_ret. rewrite mod_err_eq. fold w0. rewrite Hs.
  exists w'. split; [done|]. rewrite He in Hew. simpl in Hew.
  split; rewrite ?Hew; try done; [by exists a, t| |eapply err_frame_trans; [apply err_frame_err|exact Hfr]].
  rewrite Hev. unfold publishes. by rewrite He.
Qed.

Lemma set_error_spec p msg base w :
  err_inv p base w →
  ∃ w', shuso_set_error p msg w = Some (false, w') ∧ reported p base 0 msg w w'.
Proof. apply set_error_errno_spec. Qed.

(** ** Programs that report errors *)

Inductive err_op :=
  | OpError (msg : string)
  | OpErrorErrno (n : Z) (msg : string)
  | OpCaptureStart
  | OpCaptureFinish (prev : Z).

Definition err_step (p : Z) (o : err_op) : M world unit :=
  match o with
  | OpError msg => shuso_set_error p msg ;;; m_ret tt
  | OpErrorErrno n msg => shuso_set_error_errno p n msg ;;; m_ret tt
  | OpCaptureStart => shuso_error_capture_start p ;;; m_ret tt
  | OpCaptureFinish n => shuso_error_capture_finish p n ;;; m_ret tt
  end.
Fixpoint err_run (p : Z) (os : list err_op) : M world unit :=
  match os with [] => m_ret tt | o :: os' => err_step p o ;;; err_run p os' end.

Lemma capture_flags_inv p base w b1 b2 :
  err_inv p base w →
  err_inv p base (upd_local p (set_err (λ e, Err (e_msg e) (e_count e) (e_number e) (e_static e) b1 b2)) w).
Proof. intros [Hwf Ho]. split; [done|]. by rewrite upd_local_err. Qed.

Lemma err_step_inv p o base w :
  err_inv p base w → ∃ w', err_step p o w = Some (tt, w') ∧ err_inv p base w' ∧ err_frame p w w'.
Proof.
  intros Hi. destruct o; simpl; unfold m_bind, m_ret.
  - destruct (set_error_spec p msg base w Hi) as (w' & -> & []). eauto.
  - destruct (set_error_errno_spec p n msg base w Hi) as (w' & -> & []). eauto.
  - eexists. split; [done|]. split; [by apply capture_flags_inv|apply err_frame_err].
  - unfold shuso_error_capture_finish. unfold m_bind. rewrite mod_err_eq. unfold get_err, m_gets.
    set (w' := upd_local _ _ _). exists w'.
    split; [|split; [by apply capture_flags_inv|apply err_frame_err]].
    by destruct (prev <? _).
Qed.

(** The error state owns its message.  Whatever errors are
    reported and captured, every report succeeds, the previous message is freed exactly once and the
    heap is the rest of the program's blocks and at most the block of the last message; no
    other part of the system changes. *)
Theorem errors_own_message p os base w
    (Hi : err_inv p base w) :
  ∃ w', err_run p os w = Some (tt, w') ∧ err_inv p base w' ∧ err_frame p w w'.
Proof.
  revert w Hi. induction os as [|o os IH]; intros w Hi; simpl.
  - exists w. split_and!; [done|done|apply err_frame_refl].
  - destruct (err_step_inv p o base w Hi) as (w1 & He & Hi1 & Hf1).
    destruct (IH w1 Hi1) as (w2 & He2 & Hi2 & Hf2).
    exists w2. unfold m_bind. rewrite He. split_and!; [done|done|by eapply err_frame_trans].
Qed.

(** The error flags that a capture sets. *)
Lemma err_run_errors p msgs base w :
  err_inv p base w → e_no_publish (err_of p w) = true →
  0 ≤ e_count (err_of p w) → e_count (err_of p w) + Z.of_nat (length msgs) < 2 ^ 31 →
  ∃ w', err_run p (OpError <$> msgs) w = Some (tt, w') ∧ err_inv p base w' ∧
    e_no_publish (err_of p w') = true ∧ w_events w' = w_events w ∧
    e_count (err_of p w') = e_count (err_of p w) + Z.of_nat (length msgs) ∧
    match last msgs with
    | Some m => ∃ a t, e_msg (err_of p w') = Some (a, t) ∧ (t = m ∨ t = OOM_TEXT)
    | None => e_msg (err_of p w') = e_msg (err_of p w)
    end.
Proof.
  revert w. induction msgs as [|m msgs IH]; intros w Hi Hq Hc Hb; csimpl.
  - exists w. split_and!; try done. simpl. lia.
  - destruct (set_error_spec p m base w Hi) as (w1 & He & [Hi1 Hm1 Hc1 _ _ Hp1 Hev1 _]).
    simpl in Hb. unfold publishes in Hev1. rewrite Hq in Hev1, Hp1. simpl in Hev1.
    rewrite app_nil_r in Hev1.
    unfold s32 in Hc1. rewrite swrap_small in Hc1 by lia.
    destruct (IH w1 Hi1 Hp1) as (w2 & He2 & Hi2 & Hp2 & Hev2 & Hc2 & Hl2); [lia|lia|].
    exists w2. unfold m_bind, m_ret. rewrite He. split_and!; try done; [congruence|simpl; lia|].
    destruct msgs as [|m2 msgs]; [simpl in *; by rewrite Hl2|].
    change (last (m :: m2 :: msgs)) with (last (m2 :: msgs)).
    destruct (last (m2 :: msgs)) eqn:Hl; [exact Hl2|]. by apply last_None in Hl.
Qed.

(** Capturing errors.  Between [shuso_error_capture_start] and
    [shuso_error_capture_finish] no error event is published; the capture returns nothing when
    no error was reported, and otherwise the last error's message (or that memory ran out). *)
Theorem error_capture_correct p msgs base w
    (Hi : err_inv p base w)
    (Hc : 0 ≤ e_count (err_of p w))
    (Hb : e_count (err_of p w) + Z.of_nat (length msgs) < 2 ^ 31) :
  ∃ n w' r, (n <- shuso_error_capture_start p ;; err_run p (OpError <$> msgs) ;;; m_ret n) w
            = Some (n, w') ∧
    (∃ w'', shuso_error_capture_finish p n w' = Some (r, w'') ∧ w_events w'' = w_events w) ∧
    match last msgs with
    | Some m => r = Some m ∨ r = Some OOM_TEXT
    | None => r = None
    end.
Proof.
  set (w0 := upd_local p (set_err (λ e, Err (e_msg e) (e_count e) (e_number e) (e_static e) true true)) w).
  assert (err_of p w0 = Err (e_msg (err_of p w)) (e_count (err_of p w)) (e_number (err_of p w))
            (e_static (err_of p w)) true true) as He0 by apply upd_local_err.
  destruct (err_run_errors p msgs base w0) as (w1 & Hr & Hi1 & Hp1 & Hev1 & Hc1 & Hl1).
  { by apply capture_flags_inv. }
  { by rewrite He0. }
  { by rewrite He0. }
  { by rewrite He0. }
  exists (e_count (err_of p w)), w1. rewrite He0 in Hc1. simpl in Hc1.
  exists (if 0 <? Z.of_nat (length msgs) then snd <$> e_msg (err_of p w1) else None).
  split_and!.
  - unfold m_bind, m_ret, shuso_error_capture_start, get_err, m_gets.
    unfold m_bind. rewrite mod_err_eq. fold w0. fold (err_of p w0). rewrite He0. simpl.
    by rewrite Hr.
  - eexists. split.
    + unfold shuso_error_capture_finish, shuso_last_error, get_err, m_bind, m_gets, m_ret.
      rewrite mod_err_eq. fold (err_of p (upd_local p (set_err (λ e : err, Err (e_msg e) (e_count e)
        (e_number e) (e_static e) false false)) w1)).
      rewrite upd_local_err. simpl. rewrite Hc1.
      replace (e_count (err_of p w) <? e_count (err_of p w) + Z.of_nat (length msgs))
        with (0 <? Z.of_nat (length msgs)) by lia.
      destruct (0 <? Z.of_nat (length msgs)); [|done].
      fold (err_of p (upd_local p (set_err (λ e : err, Err (e_msg e) (e_count e)
        (e_number e) (e_static e) false false)) w1)).
      by rewrite upd_local_err.
    + done.
  - destruct (last msgs) as [m|] eqn:Hl.
    + destruct msgs as [|m0 msgs]; [done|]. simpl.
      destruct Hl1 as (a & t & -> & [-> | ->]); simpl; auto.
    + apply last_None in Hl. by subst msgs.
Qed.

(** The run state check.  It passes exactly in the allowed state and then changes
    nothing; it ends the process exactly when something else is wanted of a configured
    Shuttlesock; otherwise it fails and reports one error. *)
Theorem runstate_check_correct p allowed doing base w
    (Hi : err_inv p base w) :
  let st := c_state (common_of p w) in
  if bool_decide (st = allowed) then shuso_runstate_check p allowed doing w = Some (true, w)
  else if bool_decide (st = STATE_CONFIGURED) then shuso_runstate_check p allowed doing w = None
  else ∃ w' msg, shuso_runstate_check p allowed doing w = Some (false, w')
       ∧ reported p base 0 msg w w'.
Proof.
  simpl. unfold shuso_runstate_check, m_bind, m_get, m_ret.
  destruct (c_state (common_of p w)) eqn:Hs;
    repeat case_bool_decide; try done;
    try (match goal with |- context [shuso_set_error p ?m w] =>
           destruct (set_error_spec p m base w Hi) as (w' & He & Hr); eauto end).
  unfold shuso_last_error, get_err, m_bind, m_gets, m_ret.
  match goal with |- context [shuso_set_error p ?m w] =>
    destruct (set_error_spec p m base w Hi) as (w' & He & Hr); eauto end.
Qed.
End error_specs.

(** Process numbers.  Every process number of the array finds its process and
    is found again, except the manager's, which [shuso_process_to_procnum] turns
    into the master's; and one number past the workers is taken for a process. *)
Theorem procnum_roundtrip n :
  (SHUTTLESOCK_MASTER ≤ n < SHUTTLESOCK_MAX_WORKERS →
     shuso_process n = Some n ∧
     (shuso_process_to_procnum n = n ↔ n ≠ SHUTTLESOCK_MANAGER)) ∧
  shuso_process_to_procnum SHUTTLESOCK_MANAGER = SHUTTLESOCK_MASTER ∧
  (shuso_process n ≠ None ∧ shuso_process_to_procnum n = SHUTTLESOCK_NOPROCESS
   ↔ n = SHUTTLESOCK_MAX_WORKERS).
Proof.
  unfold shuso_process, shuso_process_to_procnum, SHUTTLESOCK_MASTER, SHUTTLESOCK_MANAGER,
    SHUTTLESOCK_MAX_WORKERS, SHUTTLESOCK_NOPROCESS.
  destruct (Z.ltb_spec n (-2)), (Z.ltb_spec 256 n), (Z.eqb_spec n (-2)), (Z.eqb_spec n (-1)),
    (Z.leb_spec 0 n), (Z.ltb_spec n 256); simpl; repeat split; intros; try done; try lia;
    intuition (try congruence; try lia).
Qed.

Lemma world_init_errors p : err_inv p ∅ world_init.
Proof. split; [by intros ???? []|apply owns_nil]. Qed.

Lemma errors_own_message_witness :
  ∃ w', err_run SHUTTLESOCK_MASTER [OpError "no"; OpCaptureStart; OpErrorErrno 2 "gone"; OpCaptureFinish 1]
          world_init = Some (tt, w') ∧ err_inv SHUTTLESOCK_MASTER ∅ w' ∧
        err_frame SHUTTLESOCK_MASTER world_init w'.
Proof. apply errors_own_message. apply world_init_errors. Defined.

Lemma error_capture_correct_witness :
  ∃ n w' r, (n <- shuso_error_capture_start 0 ;; err_run 0 (OpError <$> ["a"; "b"]) ;;; m_ret n)
              world_init = Some (n, w') ∧
    (∃ w'', shuso_error_capture_finish 0 n w' = Some (r, w'') ∧ w_events w'' = w_events world_init) ∧
    match last ["a"; "b"] with
    | Some m => r = Some m ∨ r = Some OOM_TEXT
    | None => r = None
    end.
Proof.
  apply (error_capture_correct 0 ["a"; "b"] ∅ world_init).
  - apply world_init_errors.
  - by vm_compute.
  - by vm_compute.
Defined.

Lemma runstate_check_correct_witness :
  let st := c_state (common_of 0 world_init) in
  if bool_decide (st = STATE_CONFIGURED)
  then shuso_runstate_check 0 STATE_CONFIGURED "run" world_init = Some (true, world_init)
  else if bool_decide (st = STATE_CONFIGURED)
  then shuso_runstate_check 0 STATE_CONFIGURED "run" world_init = None
  else ∃ w' msg, shuso_runstate_check 0 STATE_CONFIGURED "run" world_init = Some (false, w')
       ∧ reported 0 ∅ 0 msg world_init w'.
Proof. apply (runstate_check_correct 0 STATE_CONFIGURED "run" ∅ world_init). apply world_init_errors. Defined.
