(* ===== verification/Ipc.v ===== *)
(** Messages between processes: src/src/ipc.c above the ring buffer (the outbuf and its
    retry timer, routing, the handler table) and the handlers of
    src/src/ipc_commands.c. *)

From stdpp Require Import strings pretty.
From S2P Require Import Prelude Heap Ringbuf System.

#[local] Open Scope string_scope.
#[local] Open Scope Z_scope.

(** ** Command codes *)

Definition CMD_SIGNAL : Z := 1.
Definition CMD_SHUTDOWN : Z := 2.
Definition CMD_RECONFIGURE : Z := 3.
Definition CMD_SET_LOG_FD : Z := 5.
Definition CMD_ALL_WORKERS_STARTED : Z := 8.
Definition CMD_WORKER_STARTED : Z := 9.
Definition CMD_WORKER_STOPPED : Z := 10.
Definition CMD_MANAGER_PROXY_MESSAGE : Z := 11.
Definition CMD_RECEIVE_PROXIED_MESSAGE : Z := 12.
Definition IPC_CODE_AUTOMATIC : Z := 65535.
Definition IPC_CODE_AUTOMATIC_MIN : Z := 20.
Definition IPC_CODE_AUTOMATIC_MAX : Z := 255.

Definition SIZEOF_OUTBUF : Z := 32.
Definition SIZEOF_PROXY_MSG : Z := 24.
Definition SIGINT : Z := 2.
Definition SIGQUIT : Z := 3.
Definition SIGTERM : Z := 15.

Section ipc.
Context `{Malloc}.

(** ** Sending *)

(** Run an operation on process [q]'s ring buffer. *)
Definition ring_op {A} (q : Z) (m : M ringbuf A) : M world A :=
  λ w, match m (w_rings w q) with
       | Some (a, rb) => Some (a, upd_ring q (λ _, rb) w)
       | None => None
       end.

Definition get_local (p : Z) : M world local := m_gets (λ w, w_local w p).
Definition mod_local (p : Z) (f : local → local) : M world unit := m_modify (upd_local p f).

(** The notice goes through [shuso_io_resume]. *)
Definition ipc_send_direct (p dst code ptr : Z) : M world bool :=
  ok <- ring_op dst (ring_send (code, ptr)) ;;
  if ok : bool then mod_local p (add_notice dst) ;;; m_ret true else m_ret false.

(** [ev_timer_again]: a timer without a repeat interval is stopped. *)
Definition retry_timer_again (p : Z) : M world unit :=
  w <- m_get ;;
  mod_local p (set_retry (0 <? c_retry_delay (common_of p w))).

Definition ipc_send_outbuf_append (p dst code ptr : Z) : M world bool :=
  r <- w_malloc SIZEOF_OUTBUF ;;
  match r with
  | None => m_ret false
  | Some a =>
      mod_local p (λ l, set_outbuf (l_outbuf l ++ [(a, OutMsg code ptr dst)])%list l) ;;;
      l <- get_local p ;;
      (if negb (l_retry l) then retry_timer_again p else m_ret tt) ;;;
      m_ret true
  end.

(** [shuso_ipc_send], but for what it does with a message that needs the manager. *)
Definition ipc_send_via (proxy : M world bool) (p dst code ptr : Z) : M world bool :=
  w <- m_get ;;
  let dst_state := w_state w dst in
  if runstate_val dst_state <? runstate_val STATE_STARTING then
    if SHUTTLESOCK_WORKER <=? dst then
      shuso_set_error p ("tried sending IPC message to worker " ++ pretty dst ++ " with state "
                         ++ shuso_runstate_as_string dst_state)
    else
      shuso_set_error p ("tried sending IPC message to " ++ shuso_process_as_string dst
                         ++ " with state " ++ shuso_runstate_as_string dst_state)
  else if ((p =? SHUTTLESOCK_MASTER) && (SHUTTLESOCK_WORKER <=? dst))
          || ((SHUTTLESOCK_WORKER <=? p) && (dst =? SHUTTLESOCK_MASTER)) then proxy
  else
    l <- get_local p ;;
    if bool_decide (l_outbuf l ≠ []) || bool_decide (dst_state = STATE_STARTING) then
      ipc_send_outbuf_append p dst code ptr
    else
      ok <- ipc_send_direct p dst code ptr ;;
      if ok : bool then m_ret true else ipc_send_outbuf_append p dst code ptr.

(** Shared memory for a proxy message. *)
Definition shm_alloc_proxy (d : proxy_msg) : M world (option Z) :=
  λ w, match h_malloc SIZEOF_PROXY_MSG (w_shm w) with
       | Some (Some a, h) => Some (Some a, set_shm h (<[a := d]> (w_proxies w)) w)
       | Some (None, h) => Some (None, set_shm h (w_proxies w) w)
       | None => None
       end.
Definition shm_free_proxy (a : Z) : M world unit :=
  λ w, match h_free a (w_shm w) with
       | Some (_, h) => Some (tt, set_shm h (delete a (w_proxies w)) w)
       | None => None
       end.

(** The message to the manager needs no proxy itself. *)
Definition shuso_ipc_send_proxy_via_manager (p dst code ptr : Z) : M world bool :=
  r <- shm_alloc_proxy (ProxyMsg code p dst ptr) ;;
  match r with
  | None => shuso_set_error p "unable to allocate shared memory for IPC proxy message"
  | Some d => ipc_send_via m_abort p SHUTTLESOCK_MANAGER CMD_MANAGER_PROXY_MESSAGE d
  end.

Definition shuso_ipc_send (p dst code ptr : Z) : M world bool :=
  ipc_send_via (shuso_ipc_send_proxy_via_manager p dst code ptr) p dst code ptr.

(** [ret = ret && shuso_ipc_send(...)]: nothing is sent after a failure. *)
Fixpoint send_workers_loop (p code ptr : Z) (workers : list Z) (ret : bool) : M world bool :=
  match workers with
  | [] => m_ret ret
  | i :: workers' =>
      ok <- (if ret then shuso_ipc_send p i code ptr else m_ret false) ;;
      send_workers_loop p code ptr workers' ok
  end.
Definition shuso_ipc_send_workers (p code ptr : Z) : M world bool :=
  w <- m_get ;; send_workers_loop p code ptr (each_worker w) true.

(** The retry timer's callback: send what is buffered until a send fails. *)
Fixpoint retry_loop (p : Z) (outbuf : list (Z * outmsg)) : M world unit :=
  match outbuf with
  | [] => m_ret tt
  | (a, cur) :: rest =>
      ok <- ipc_send_direct p (om_dst cur) (om_code cur) (om_ptr cur) ;;
      if ok : bool then
        mod_local p (set_outbuf rest) ;;; w_free a ;;; retry_loop p rest
      else retry_timer_again p
  end.
Definition ipc_send_retry_cb (p : Z) : M world unit :=
  l <- get_local p ;; retry_loop p (l_outbuf l).

(** ** The handler table *)

(** The first automatic code without a handler. *)
Fixpoint find_free_code (handlers : list (option ipc_handler)) (n : nat) (i : Z) : option Z :=
  match n with
  | O => None
  | S n' =>
      match handlers !! Z.to_nat i with
      | Some None => Some i
      | _ => find_free_code handlers n' (i + 1)
      end
  end.

Definition set_handlers (hs : list (option ipc_handler)) (c : common) : common :=
  Common (c_state c) hs (c_log_fd c) (c_all_workers_running c) (c_manager_pid c)
    (c_sig_manager c) (c_sig_last c) (c_config_workers c) (c_retry_delay c).

(** The result is the code of the new handler.  An access past the table is undefined. *)
Definition shuso_ipc_add_handler (p : Z) (name : option string) (code : Z)
    (receive : receive_fn) (cancel : option receive_fn) : M world (option Z) :=
  ok <- shuso_runstate_check p STATE_CONFIGURING "add IPC handler" ;;
  if negb ok then m_ret None
  else
    w <- m_get ;;
    let handlers := c_handlers (common_of p w) in
    let code := if code =? IPC_CODE_AUTOMATIC
                then default IPC_CODE_AUTOMATIC
                       (find_free_code handlers
                          (Z.to_nat (IPC_CODE_AUTOMATIC_MAX - IPC_CODE_AUTOMATIC_MIN + 1))
                          IPC_CODE_AUTOMATIC_MIN)
                else code in
    if code =? IPC_CODE_AUTOMATIC then
      shuso_set_error p ("All " ++ pretty (IPC_CODE_AUTOMATIC_MAX - IPC_CODE_AUTOMATIC_MIN)
                         ++ " automatic IPC codes are already used.") ;;; m_ret None
    else
      match handlers !! Z.to_nat code with
      | None => m_abort
      | Some (Some h) =>
          shuso_set_error p ("IPC code " ++ pretty code ++ " is already in use by " ++ h_name h) ;;;
          m_ret None
      | Some None =>
          let h := IpcHandler (u8 code) (default "(unnamed)" name) receive
                     (default do_nothing cancel) in
          m_modify (upd_common p (set_handlers (<[Z.to_nat code := Some h]> handlers))) ;;;
          m_ret (Some code)
      end.

(** ** The handlers of ipc_commands.c *)

Definition set_log (fd : Z) (c : common) : common :=
  Common (c_state c) (c_handlers c) fd (c_all_workers_running c) (c_manager_pid c)
    (c_sig_manager c) (c_sig_last c) (c_config_workers c) (c_retry_delay c).
Definition set_all_running (c : common) : common :=
  Common (c_state c) (c_handlers c) (c_log_fd c) true (c_manager_pid c)
    (c_sig_manager c) (c_sig_last c) (c_config_workers c) (c_retry_delay c).

Fixpoint send_each (p code ptr : Z) (workers : list Z) : M world unit :=
  match workers with
  | [] => m_ret tt
  | i :: workers' => shuso_ipc_send p i code ptr ;;; send_each p code ptr workers'
  end.

Definition worker_started (p : Z) : M world unit :=
  m_assert (p =? SHUTTLESOCK_MANAGER) ;;;
  w <- m_get ;;
  let all_workers_running := forallb (λ i, bool_decide (w_state w i = STATE_RUNNING)) (each_worker w) in
  if all_workers_running then
    (if negb (c_all_workers_running (common_of p w)) then
       shuso_ipc_send p SHUTTLESOCK_MASTER CMD_ALL_WORKERS_STARTED 0 ;;;
       shuso_core_event_publish p "manager.workers_started" 1 0 ;;;
       send_each p CMD_ALL_WORKERS_STARTED 0 (each_worker w)
     else m_ret tt) ;;;
    m_modify (upd_common p set_all_running)
  else m_ret tt.

Definition all_worker_started (p : Z) : M world unit :=
  if p =? SHUTTLESOCK_MASTER then shuso_core_event_publish p "master.workers_started" 1 0 ;;; m_ret tt
  else if p =? SHUTTLESOCK_MANAGER then
    shuso_core_event_publish p "manager.workers_started" 1 0 ;;; m_ret tt
  else if SHUTTLESOCK_WORKER <=? p then
    shuso_core_event_publish p "worker.workers_started" 1 0 ;;; m_ret tt
  else m_ret tt.

Definition manager_proxy_message (p d : Z) : M world unit :=
  m_assert (p =? SHUTTLESOCK_MANAGER) ;;;
  w <- m_get ;;
  match w_proxies w !! d with
  | None => m_abort
  | Some px =>
      match shuso_process (px_dst px) with
      | None => m_abort
      | Some q =>
          ok <- shuso_ipc_send p q CMD_RECEIVE_PROXIED_MESSAGE d ;;
          if ok : bool then m_ret tt
          else shuso_set_error p "failed to proxy IPC message" ;;; shm_free_proxy d
      end
  end.

Definition signal_received (p sig : Z) : M world unit :=
  if negb (p =? SHUTTLESOCK_MASTER) then m_ret tt
  else if (sig =? SIGINT) || (sig =? SIGQUIT) then
    shuso_ipc_send p SHUTTLESOCK_MANAGER CMD_SHUTDOWN 0 ;;; m_ret tt
  else m_ret tt.

(** Call a handler.  [fuel] bounds the nesting of proxied messages.  A shutdown is
    left to a timer, and the handlers of modules are not in this repository's
    core: their calls are recorded in [w_calls]. *)
Fixpoint run_handler (fuel : nat) (p : Z) (f : receive_fn) (code ptr : Z) : M world unit :=
  match f with
  | signal_handle => signal_received p ptr
  | shutdown_handle => m_modify (add_call (CallRec p shutdown_handle code ptr))
  | reconfigure_handle => m_ret tt
  | set_log_fd_handle => m_modify (upd_common p (set_log (s32 ptr)))
  | manager_proxy_message_handle => manager_proxy_message p ptr
  | received_proxied_message_handle =>
      w <- m_get ;;
      match w_proxies w !! ptr with
      | None => m_abort
      | Some d =>
          match fuel, c_handlers (common_of p w) !! Z.to_nat (px_code d) with
          | S fuel', Some (Some h) => run_handler fuel' p (h_receive h) (px_code d) (px_pd d)
          | _, _ => m_abort
          end
      end
  | worker_started_handle => worker_started p
  | all_worker_started_handle => all_worker_started p
  | worker_stopped_handle => m_assert (p =? SHUTTLESOCK_MANAGER)
  | do_nothing => m_ret tt
  | user_handle n => m_modify (add_call (CallRec p (user_handle n) code ptr))
  end.

(** [S->common->ipc_handlers[code].receive(S, code, ptr)]: an entry without a handler is a
    null pointer. *)
Definition world_dispatch (p code ptr : Z) : M world unit :=
  w <- m_get ;;
  match c_handlers (common_of p w) !! Z.to_nat code with
  | Some (Some h) => run_handler 2 p (h_receive h) code ptr
  | _ => m_abort
  end.

(** [ipc_receive] in process [p]. *)
Definition world_receive (fuel : nat) (p : Z) : M world bool :=
  ipc_receive (λ w, w_rings w p) (upd_ring p) (world_dispatch p) fuel.

(** The outbuf part of [shuso_ipc_channel_local_stop]: cancel and free what is buffered. *)
Fixpoint cancel_outbuf (p : Z) (outbuf : list (Z * outmsg)) : M world unit :=
  match outbuf with
  | [] => m_ret tt
  | (a, cur) :: next =>
      w <- m_get ;;
      match c_handlers (common_of p w) !! Z.to_nat (om_code cur) with
      | Some (Some h) => run_handler 2 p (h_cancel h) (om_code cur) (om_ptr cur)
      | _ => m_abort
      end ;;;
      w_free a ;;;
      cancel_outbuf p next
  end.
Definition shuso_ipc_channel_local_stop (p : Z) : M world bool :=
  l <- get_local p ;;
  cancel_outbuf p (l_outbuf l) ;;;
  mod_local p (λ l, set_retry false (set_outbuf [] l)) ;;;
  m_ret true.

(** [shuso_ipc_commands_init]: each handler is added if the ones before it were. *)
Fixpoint add_handlers (p : Z) (hs : list (string * Z * receive_fn)) : M world bool :=
  match hs with
  | [] => m_ret true
  | (name, code, f) :: hs' =>
      r <- shuso_ipc_add_handler p (Some name) code f None ;;
      match r with None => m_ret false | Some _ => add_handlers p hs' end
  end.
Definition builtin_handlers : list (string * Z * receive_fn) := [
  ("signal", CMD_SIGNAL, signal_handle);
  ("shutdown", CMD_SHUTDOWN, shutdown_handle);
  ("reconfigure", CMD_RECONFIGURE, reconfigure_handle);
  ("set_log_fd", CMD_SET_LOG_FD, set_log_fd_handle);
  ("manager_proxy_message", CMD_MANAGER_PROXY_MESSAGE, manager_proxy_message_handle);
  ("receive_proxied_message", CMD_RECEIVE_PROXIED_MESSAGE, received_proxied_message_handle);
  ("worker_started", CMD_WORKER_STARTED, worker_started_handle);
  ("all_workers_started", CMD_ALL_WORKERS_STARTED, all_worker_started_handle);
  ("worker_stopped", CMD_WORKER_STOPPED, worker_stopped_handle) ].
Definition shuso_ipc_commands_init (p : Z) : M world bool := add_handlers p builtin_handlers.

End ipc.

(** ** Messages arrive in the order they were sent *)

(** The messages a module sends, and that a module's handler receives. *)
Definition user_msg (m : msg) : Prop := IPC_CODE_AUTOMATIC_MIN ≤ m.1 ≤ IPC_CODE_AUTOMATIC_MAX.
Definition user_handled (c : common) : Prop :=
  ∀ code, IPC_CODE_AUTOMATIC_MIN ≤ code ≤ IPC_CODE_AUTOMATIC_MAX →
    ∃ h, c_handlers c !! Z.to_nat code = Some (Some h) ∧ h_receive h = user_handle code.

Definition om_msg (o : outmsg) : msg := (om_code o, om_ptr o).
Definition out_blocks (o : list (Z * outmsg)) : list block := (λ x, (x.1, SIZEOF_OUTBUF)) <$> o.

(** What of an outbuf, of the calls of handlers, goes to process [q]. *)
Fixpoint out_to (q : Z) (o : list (Z * outmsg)) : list msg :=
  match o with
  | [] => []
  | x :: o' => if om_dst x.2 =? q then om_msg x.2 :: out_to q o' else out_to q o'
  end.
Fixpoint calls_of (q : Z) (cs : list call_rec) : list msg :=
  match cs with
  | [] => []
  | x :: cs' => if cr_proc x =? q then (cr_code x, cr_ptr x) :: calls_of q cs' else calls_of q cs'
  end.

(** All messages from [p] to [q] so far: delivered, in [q]'s ring buffer, in [p]'s outbuf. *)
Definition stream (p q : Z) (w : world) (fs : Z → fifo) : list msg :=
  (calls_of q (w_calls w) ++ fq (fs q) ++ out_to q (l_outbuf (w_local w p)))%list.

(** A world in which [p] sends: the ring buffers are the queues [fs] and have read
    at most [n] messages; [p]'s outbuf is its own memory, and is
    retried as long as it is not empty. *)
Record ipc_ok (p : Z) (base : heap) (fs : Z → fifo) (n : Z) (w : world) : Prop := IpcOk {
  io_rings : ∀ q, represents (w_rings w q) (fs q);
  io_read : ∀ q, next_read (w_rings w q) ≤ n;
  io_user : ∀ q, Forall user_msg (fq (fs q));
  io_state : ∀ q, runstate_val STATE_STARTING ≤ runstate_val (w_state w q);
  io_handlers : ∀ q, user_handled (common_of q w);
  io_delay : 0 < c_retry_delay (common_of p w);
  io_wf : heap_wf (w_heap w);
  io_owns : owns (w_heap w) base (out_blocks (l_outbuf (w_local w p)));
  io_out : Forall (λ x, user_msg (om_msg x.2)) (l_outbuf (w_local w p));
  io_retry : l_outbuf (w_local w p) ≠ [] → l_retry (w_local w p) = true
}.

Definition needs_proxy (p q : Z) : bool :=
  ((p =? SHUTTLESOCK_MASTER) && (SHUTTLESOCK_WORKER <=? q))
  || ((SHUTTLESOCK_WORKER <=? p) && (q =? SHUTTLESOCK_MASTER)).

Lemma user_msg_ok m : user_msg m → msg_ok m.
Proof. unfold user_msg, msg_ok, IPC_CODE_AUTOMATIC_MIN, IPC_CODE_AUTOMATIC_MAX. lia. Qed.

Lemma out_to_app q o1 o2 : out_to q (o1 ++ o2) = (out_to q o1 ++ out_to q o2)%list.
Proof. induction o1 as [|x o1 IH]; simpl; [done|]. rewrite IH. by destruct (_ =? _). Qed.
Lemma calls_of_app q c1 c2 : calls_of q (c1 ++ c2) = (calls_of q c1 ++ calls_of q c2)%list.
Proof. induction c1 as [|x c1 IH]; simpl; [done|]. rewrite IH. by destruct (_ =? _). Qed.

Lemma fifo_send_true m f : (fifo_send m f).1 = true → fq (fifo_send m f).2 = (fq f ++ [m])%list.
Proof. unfold fifo_send. destruct (blocked f); [done|]. by destruct (_ <? _)%nat. Qed.
Lemma fifo_send_false m f : (fifo_send m f).1 = false → fq (fifo_send m f).2 = fq f.
Proof. unfold fifo_send. destruct (blocked f); [done|]. by destruct (_ <? _)%nat. Qed.

Section ipc_specs.
Context `{Malloc}.

Lemma fupd_same {A} (f : Z → A) k x : fupd f k (f k) x = f x.
Proof. unfold fupd. by destruct (Z.eqb_spec x k) as [->|]. Qed.

(** A direct send: the ring buffer of [q] does what its queue does. *)
Lemma ipc_send_direct_spec p q m base fs n w :
  ipc_ok p base fs n w → user_msg m → n + 257 < 2 ^ 63 →
  let r := fifo_send m (fs q) in
  ∃ w', ipc_send_direct p q m.1 m.2 w = Some (r.1, w') ∧
    ipc_ok p base (fupd fs q r.2) n w' ∧
    w_calls w' = w_calls w ∧ l_outbuf (w_local w' p) = l_outbuf (w_local w p) ∧
    w_heap w' = w_heap w.
Proof.
  intros [Hr Hn Hu Hst Hh Hd Hwf Ho Hout Hre] Hm Hb r.
  destruct (ring_send_sim _ _ m (Hr q)) as (rb & He & Hr' & Hn').
  { by apply user_msg_ok. }
  { unfold index_ok. specialize (Hn q). lia. }
  assert (Forall user_msg (fq r.2)) as Hu'.
  { destruct r.1 eqn:E; unfold r in *; [rewrite fifo_send_true|rewrite fifo_send_false]; auto.
    apply Forall_app. by rewrite Forall_singleton. }
  set (w1 := upd_ring q (λ _, rb) w).
  assert (ipc_ok p base (fupd fs q r.2) n w1) as Hok1.
  { split; simpl; try done; intros q'; unfold fupd; destruct (Z.eqb_spec q' q) as [->|]; auto.
    rewrite Hn'. apply Hn. }
  unfold ipc_send_direct, ring_op, m_bind, m_ret. destruct m as [c x]. simpl in *.
  rewrite He. fold w1. fold r. destruct r.1.
  - exists (upd_local p (add_notice q) w1). split_and!; try done; [|simpl; by rewrite fupd_eq].
    destruct Hok1. split; simpl; rewrite ?fupd_eq; done.
  - by exists w1.
Qed.

(** Appending to the outbuf. *)
Lemma ipc_append_spec p q m base fs n w :
  ipc_ok p base fs n w → user_msg m →
  ∃ b w', ipc_send_outbuf_append p q m.1 m.2 w = Some (b, w') ∧ ipc_ok p base fs n w' ∧
    w_calls w' = w_calls w ∧
    out_to q (l_outbuf (w_local w' p))
      = (out_to q (l_outbuf (w_local w p)) ++ if b then [m] else [])%list ∧
    ∀ q', q' ≠ q → out_to q' (l_outbuf (w_local w' p)) = out_to q' (l_outbuf (w_local w p)).
Proof.
  intros [Hr Hn Hu Hst Hh Hd Hwf Ho Hout Hre] Hm.
  destruct (w_malloc_spec SIZEOF_OUTBUF base (out_blocks (l_outbuf (w_local w p))) w)
    as (r & h & Hma & Hwfh & Hoh); [done..|].
  unfold ipc_send_outbuf_append, m_bind, m_ret. rewrite Hma. destruct r as [a|].
  - unfold get_local, m_gets, mod_local, m_modify, retry_timer_again, m_bind, m_get, m_ret.
    set (w1 := upd_local p _ (set_heap h w)).
    assert (common_of p w1 = common_of p w) as Hc1 by done.
    assert (w_local w1 p = set_outbuf (l_outbuf (w_local w p) ++ [(a, OutMsg m.1 m.2 q)])%list (w_local w p))
      as Hl1 by (unfold w1; simpl; by rewrite fupd_eq).
    set (w2 := if negb (l_retry (w_local w1 p))
               then upd_local p (set_retry (0 <? c_retry_delay (common_of p w1))) w1 else w1).
    assert (l_outbuf (w_local w2 p) = (l_outbuf (w_local w p) ++ [(a, OutMsg m.1 m.2 q)])%list ∧
            l_retry (w_local w2 p) = true ∧ w_rings w2 = w_rings w ∧ w_state w2 = w_state w ∧
            w_common w2 = w_common w ∧ w_heap w2 = h ∧ w_calls w2 = w_calls w)
      as (Hl2 & Hre2 & Hrg2 & Hst2 & Hcm2 & Hh2 & Hca2).
    { unfold w2. rewrite Hc1. replace (0 <? c_retry_delay (common_of p w)) with true by lia.
      destruct (l_retry (w_local w1 p)) eqn:Hrt; simpl.
      - rewrite Hl1 in Hrt. by rewrite fupd_eq.
      - by rewrite !fupd_eq. }
    exists true, w2. split.
    { unfold w2. by destruct (l_retry (w_local w1 p)). }
    assert (∀ q', out_to q' (l_outbuf (w_local w2 p))
      = (out_to q' (l_outbuf (w_local w p)) ++ if (q =? q')%Z then [m] else [])%list) as Ht.
    { intros q'. rewrite Hl2, out_to_app. simpl. destruct (q =? q'); [|done]. by destruct m. }
    split; [|split_and!; [done|by rewrite Ht, Z.eqb_refl|]].
    + unfold common_of in *.
      split; unfold common_of; rewrite ?Hrg2, ?Hst2, ?Hcm2, ?Hh2, ?Hl2, ?Hre2; try done.
      * unfold out_blocks. rewrite fmap_app, Permutation_app_comm. done.
      * apply Forall_app. rewrite Forall_singleton. destruct m. done.
    + intros q' Hq'. rewrite Ht. destruct (Z.eqb_spec q q'); [done|]. by rewrite app_nil_r.
  - exists false, (set_heap h w). split; [done|]. rewrite app_nil_r. done.
Qed.

(** How an operation changes the streams: it appends [m] to [q]'s if it accepted it. *)
Definition streams_grow (p q : Z) (new : list msg) (w : world) fs (w' : world) fs' : Prop :=
  ∀ q', stream p q' w' fs' = (stream p q' w fs ++ if (q' =? q)%Z then new else [])%list.

(** A send that needs no proxy. *)
Lemma shuso_ipc_send_spec p q m base fs n w :
  ipc_ok p base fs n w → user_msg m → needs_proxy p q = false → n + 257 < 2 ^ 63 →
  ∃ b w' fs', shuso_ipc_send p q m.1 m.2 w = Some (b, w') ∧ ipc_ok p base fs' n w' ∧
    streams_grow p q (if b then [m] else []) w fs w' fs'.
Proof.
  intros Hok Hm Hnp Hb. pose proof (io_state _ _ _ _ _ Hok q) as Hst.
  unfold shuso_ipc_send, ipc_send_via, m_bind, m_get.
  replace (_ <? _) with false by (symmetry; apply Z.ltb_ge; done).
  fold (needs_proxy p q). rewrite Hnp. unfold get_local, m_gets.
  destruct (bool_decide (l_outbuf (w_local w p) ≠ []) || bool_decide (w_state w q = STATE_STARTING)) eqn:Hbuf.
  - destruct (ipc_append_spec p q m base fs n w Hok Hm) as (b & w' & He & Hok' & Hc & Ho & Ho').
    exists b, w', fs. split_and!; [done|done|]. intros q'. unfold stream. rewrite Hc.
    destruct (Z.eqb_spec q' q) as [->|Hne]; [by rewrite Ho, !app_assoc|].
    rewrite (Ho' q' Hne). by rewrite app_nil_r.
  - apply orb_false_iff in Hbuf as [Hempty%bool_decide_eq_false _].
    assert (l_outbuf (w_local w p) = []) as Hnil by (destruct (l_outbuf _); [done|by destruct Hempty]).
    destruct (ipc_send_direct_spec p q m base fs n w Hok Hm Hb) as (w1 & He & Hok1 & Hc1 & Ho1 & _).
    rewrite He. destruct (fifo_send m (fs q)).1 eqn:Hf; unfold m_ret.
    + exists true, w1, (fupd fs q (fifo_send m (fs q)).2). split_and!; [done|done|].
      intros q'. unfold stream. rewrite Hc1, Ho1, Hnil. simpl. unfold fupd.
      destruct (Z.eqb_spec q' q) as [->|]; [by rewrite fifo_send_true, !app_nil_r, app_assoc|].
      by rewrite !app_nil_r.
    + destruct (ipc_append_spec p q m base _ n w1 Hok1 Hm) as (b & w' & He' & Hok' & Hc' & Ho & Ho').
      exists b, w', (fupd fs q (fifo_send m (fs q)).2). split_and!; [done|done|].
      intros q'. unfold stream. rewrite Hc', Hc1. unfold fupd.
      destruct (Z.eqb_spec q' q) as [->|Hne].
      * by rewrite Ho, Ho1, fifo_send_false, !app_assoc.
      * rewrite (Ho' q' Hne), Ho1. by rewrite app_nil_r.
Qed.

(** The retry sends a part of the outbuf, from its front, and keeps the rest. *)
Lemma retry_loop_spec p base n o fs w :
  ipc_ok p base fs n w → l_outbuf (w_local w p) = o → n + 257 < 2 ^ 63 →
  ∃ w' fs', retry_loop p o w = Some (tt, w') ∧ ipc_ok p base fs' n w' ∧
    ∀ q, stream p q w' fs' = stream p q w fs.
Proof.
  revert fs w. induction o as [|[a cur] rest IH]; intros fs w Hok Ho Hb; simpl.
  { by exists w, fs. }
  pose proof (io_out _ _ _ _ _ Hok) as Hout. rewrite Ho in Hout.
  apply Forall_cons in Hout as [Hcur Hout].
  destruct (ipc_send_direct_spec p (om_dst cur) (om_msg cur) base fs n w Hok Hcur Hb)
    as (w1 & He & Hok1 & Hc1 & Ho1 & Hh1).
  unfold m_bind. simpl in He. rewrite He. rewrite Ho in Ho1.
  destruct (fifo_send (om_msg cur) (fs (om_dst cur))).1 eqn:Hf; unfold m_ret.
  - set (fs1 := fupd fs (om_dst cur) (fifo_send (om_msg cur) (fs (om_dst cur))).2) in *.
    set (w2 := upd_local p (set_outbuf rest) w1).
    pose proof (io_owns _ _ _ _ _ Hok1) as Hown. rewrite Ho1 in Hown. simpl in Hown.
    set (w3 := set_heap (delete a (w_heap w1)) w2).
    assert (w_free a w2 = Some (tt, w3)) as Hfree
      by (unfold w_free; simpl; by rewrite (h_free_owned _ _ _ _ _ Hown)).
    assert (l_outbuf (w_local w3 p) = rest) as Ho3 by (simpl; by rewrite fupd_eq).
    assert (l_retry (w_local w1 p) = true) as Hre
      by (apply Hok1; by rewrite Ho1).
    assert (ipc_ok p base fs1 n w3) as Hok3.
    { destruct Hok1 as [Hr Hn Hu Hst Hh Hd Hwf _ _ _].
      split; rewrite ?Ho3; simpl; rewrite ?fupd_eq; simpl; try done.
      - by apply heap_wf_delete.
      - by eapply owns_delete. }
    destruct (IH fs1 w3 Hok3 Ho3 Hb) as (w' & fs' & He' & Hok' & Hs').
    exists w', fs'. unfold mod_local, m_modify. fold w2. rewrite Hfree.
    split_and!; [done|done|]. intros q. rewrite Hs'. unfold stream. rewrite Ho3, Ho.
    change (w_calls w3) with (w_calls w1). rewrite Hc1. simpl. unfold fs1, fupd.
    rewrite (Z.eqb_sym q). destruct (Z.eqb_spec (om_dst cur) q) as [<-|]; [|done].
    by rewrite fifo_send_true, <- !app_assoc.
  - set (fs1 := fupd fs (om_dst cur) (fifo_send (om_msg cur) (fs (om_dst cur))).2) in *.
    unfold retry_timer_again, m_bind, m_get, mod_local, m_modify.
    replace (0 <? _) with true by (pose proof (io_delay _ _ _ _ _ Hok1); lia).
    eexists _, fs1. split; [done|]. split.
    + destruct Hok1. split; simpl; rewrite ?fupd_eq; done.
    + intros q. unfold stream. simpl. rewrite fupd_eq. simpl. rewrite Hc1, Ho1, Ho.
      unfold fs1, fupd. destruct (Z.eqb_spec q (om_dst cur)) as [->|]; [|done].
      by rewrite fifo_send_false.
Qed.

(** Receiving moves messages from the ring buffer to the handlers. *)
Lemma world_receive_spec p q base fs n w :
  ipc_ok p base fs n w → n + 256 + 257 < 2 ^ 63 →
  ∃ w', world_receive 256 q w = Some (true, w') ∧
    ipc_ok p base (fupd fs q (Fifo [] false)) (n + 256) w' ∧
    ∀ q', stream p q' w' (fupd fs q (Fifo [] false)) = stream p q' w fs.
Proof.
  intros [Hr Hn Hu Hst Hh Hd Hwf Ho Hout Hre] Hb.
  set (P := λ (l : list msg) w1,
    w_state w1 = w_state w ∧ w_common w1 = w_common w ∧ w_heap w1 = w_heap w ∧
    w_local w1 = w_local w ∧ (∀ q', q' ≠ q → w_rings w1 q' = w_rings w q') ∧
    ∀ q', calls_of q' (w_calls w1) = (calls_of q' (w_calls w) ++ if (q =? q')%Z then l else [])%list).
  assert (length (fq (fs q)) ≤ 256)%nat as Hlen by apply (rp_cap _ _ (Hr q)).
  destruct (ipc_receive_lens (λ w, w_rings w q) (upd_ring q) (world_dispatch q) P) with
    (fuel := 256%nat) (w := w) (f := fs q) (l := @nil msg) as (w' & He & Hr' & HP & Hn'); try done.
  - intros f w1. simpl. by rewrite fupd_eq.
  - intros l f w1 (? & ? & ? & ? & Hrg & ?). split_and!; try done.
    intros q' Hq'. simpl. rewrite fupd_ne by done. by apply Hrg.
  - split_and!; try done. intros q'. destruct (q =? q'); by rewrite app_nil_r.
  - intros l m w1 Hin (Hs & Hc & Hhp & Hlc & Hrg & Hcl).
    specialize (Hu q). rewrite Forall_forall in Hu. apply Hu in Hin.
    destruct (Hh q m.1 Hin) as (h & Hlk & Hrv).
    exists (add_call (CallRec q (user_handle m.1) m.1 m.2) w1). split_and!; [|done|].
    { unfold world_dispatch, m_bind, m_get. unfold common_of in *. rewrite Hc, Hlk, Hrv. done. }
    split_and!; try done. intros q'. simpl. rewrite calls_of_app, Hcl. simpl.
    destruct (q =? q'); [|by rewrite !app_nil_r]. by destruct m; rewrite app_assoc.
  - specialize (Hn q). lia.
  - destruct HP as (Hs & Hc & Hhp & Hlc & Hrg & Hcl). exists w'. split; [done|].
    assert (∀ q', represents (w_rings w' q') (fupd fs q (Fifo [] false) q') ∧
                  next_read (w_rings w' q') ≤ n + 256) as Hrr.
    { intros q'. unfold fupd. destruct (Z.eqb_spec q' q) as [->|Hne].
      - split; [done|]. specialize (Hn q). lia.
      - rewrite Hrg by done. split; [done|]. specialize (Hn q'). lia. }
    split.
    + unfold common_of in *. split; unfold common_of; rewrite ?Hs, ?Hc, ?Hhp, ?Hlc; try done.
      * intros q'. apply Hrr.
      * intros q'. apply Hrr.
      * intros q'. unfold fupd. destruct (q' =? q); [constructor|apply Hu].
    + intros q'. unfold stream. rewrite Hcl, Hlc. unfold fupd. rewrite (Z.eqb_sym q' q).
      destruct (Z.eqb_spec q q') as [->|]; simpl; [by rewrite <- app_assoc|by rewrite app_nil_r].
Qed.

(** ** Runs of a sender, its retry timer and the receivers *)

Inductive ipc_op := OpIpcSend (q : Z) (m : msg) | OpIpcRetry | OpIpcReceive (q : Z).

Definition ipc_step (p : Z) (o : ipc_op) : M world bool :=
  match o with
  | OpIpcSend q m => shuso_ipc_send p q m.1 m.2
  | OpIpcRetry => ipc_send_retry_cb p ;;; m_ret true
  | OpIpcReceive q => world_receive 256 q
  end.
Fixpoint ipc_run (p : Z) (os : list ipc_op) : M world (list bool) :=
  match os with
  | [] => m_ret []
  | o :: os' => b <- ipc_step p o ;; bs <- ipc_run p os' ;; m_ret (b :: bs)
  end.

Definition ipc_op_ok (p : Z) (o : ipc_op) : Prop :=
  match o with
  | OpIpcSend q m => user_msg m ∧ needs_proxy p q = false
  | _ => True
  end.

(** The messages to [q] that were accepted, in order. *)
Fixpoint accepted (q : Z) (os : list ipc_op) (bs : list bool) : list msg :=
  match os, bs with
  | OpIpcSend q' m :: os', b :: bs' =>
      if (q =? q') && b then m :: accepted q os' bs' else accepted q os' bs'
  | _ :: os', _ :: bs' => accepted q os' bs'
  | _, _ => []
  end.

Lemma ipc_step_spec p o base fs n w :
  ipc_ok p base fs n w → ipc_op_ok p o → n + 256 + 257 < 2 ^ 63 →
  ∃ b w' fs', ipc_step p o w = Some (b, w') ∧ ipc_ok p base fs' (n + 256) w' ∧
    ∀ q, stream p q w' fs' = (stream p q w fs ++ accepted q [o] [b])%list.
Proof.
  intros Hok Ho Hb.
  assert (∀ fs w, ipc_ok p base fs n w → ipc_ok p base fs (n + 256) w) as Hmono.
  { intros fs' w' []. split; try done. intros q. specialize (io_read0 q). lia. }
  destruct o as [q m| |q]; simpl in *.
  - destruct Ho as [Hm Hnp].
    destruct (shuso_ipc_send_spec p q m base fs n w Hok Hm Hnp) as (b & w' & fs' & He & Hok' & Hg); [lia|].
    exists b, w', fs'. split_and!; [done|auto|]. intros q'. rewrite Hg.
    destruct (q' =? q), b; done.
  - destruct (retry_loop_spec p base n _ fs w Hok eq_refl) as (w' & fs' & He & Hok' & Hs); [lia|].
    exists true, w', fs'. unfold ipc_send_retry_cb, get_local, m_gets, m_bind, m_ret. rewrite He.
    split_and!; [done|auto|]. intros q. by rewrite app_nil_r.
  - destruct (world_receive_spec p q base fs n w Hok Hb) as (w' & He & Hok' & Hs).
    exists true, w', (fupd fs q (Fifo [] false)). split_and!; [done|done|].
    intros q'. by rewrite app_nil_r.
Qed.

(** C6: messages between processes arrive in order, none lost or doubled.
    For any sequence of sends by a process, firings of its retry timer and receives by the other
    processes: every operation succeeds, and for every destination the messages
    delivered there, then those in its ring buffer, then those in the sender's outbuf are
    exactly the accepted messages in the order they were sent.  A send is refused
    only for want of memory; the outbuf's memory is freed exactly once; and while a message
    waits in the outbuf the retry timer runs. *)
Theorem ipc_messages_in_order p os base fs n w
    (Hok : ipc_ok p base fs n w)
    (Hos : Forall (ipc_op_ok p) os)
    (Hb : n + 256 * (Z.of_nat (length os) + 1) + 257 < 2 ^ 63) :
  ∃ bs w' fs', ipc_run p os w = Some (bs, w') ∧
    ipc_ok p base fs' (n + 256 * Z.of_nat (length os)) w' ∧
    ∀ q, stream p q w' fs' = (stream p q w fs ++ accepted q os bs)%list.
Proof.
  revert fs n w Hok Hb. induction Hos as [|o os Ho Hos IH]; intros fs n w Hok Hb.
  - exists [], w, fs. simpl. rewrite Z.add_0_r. split_and!; [done|done|].
    intros q. by rewrite app_nil_r.
  - simpl length in Hb.
    destruct (ipc_step_spec p o base fs n w Hok Ho) as (b & w1 & fs1 & He1 & Hok1 & Hs1); [lia|].
    destruct (IH fs1 (n + 256) w1 Hok1) as (bs & w2 & fs2 & He2 & Hok2 & Hs2); [lia|].
    exists (b :: bs), w2, fs2. simpl. unfold m_bind, m_ret. rewrite He1, He2.
    split_and!; [done| |].
    + replace (n + 256 * Z.of_nat (S (length os))) with (n + 256 + 256 * Z.of_nat (length os)) by lia.
      done.
    + intros q. rewrite Hs2, Hs1, <- app_assoc. f_equal. destruct o; simpl; try done.
      by destruct ((q =? q0) && b).
Qed.

(** ** Messages between the master and a worker *)

(** What the two ends of a proxied message need: the manager and the worker run, nothing waits
    in the outbufs, the ring buffers are empty, and the handlers are there. *)
Record proxy_ready (k code u : Z) (w : world) : Prop := ProxyReady {
  py_state : runstate_val STATE_STARTING < runstate_val (w_state w SHUTTLESOCK_MANAGER);
  py_worker_state : runstate_val STATE_STARTING < runstate_val (w_state w k);
  py_out : l_outbuf (w_local w SHUTTLESOCK_MASTER) = [];
  py_manager_out : l_outbuf (w_local w SHUTTLESOCK_MANAGER) = [];
  py_ring : represents (w_rings w SHUTTLESOCK_MANAGER) (Fifo [] false);
  py_worker_ring : represents (w_rings w k) (Fifo [] false);
  py_index : next_read (w_rings w SHUTTLESOCK_MANAGER) + 300 < 2 ^ 63;
  py_worker_index : next_read (w_rings w k) + 300 < 2 ^ 63;
  py_proxy : ∃ h, c_handlers (w_common w false) !! Z.to_nat CMD_MANAGER_PROXY_MESSAGE = Some (Some h)
                  ∧ h_receive h = manager_proxy_message_handle;
  py_proxied : ∃ h, c_handlers (w_common w false) !! Z.to_nat CMD_RECEIVE_PROXIED_MESSAGE = Some (Some h)
                  ∧ h_receive h = received_proxied_message_handle;
  py_handler : ∃ h, c_handlers (w_common w false) !! Z.to_nat code = Some (Some h)
                  ∧ h_receive h = user_handle u
}.

Lemma ring_send_empty rb m :
  represents rb (Fifo [] false) → msg_ok m → next_read rb + 257 < 2 ^ 63 →
  ∃ rb', ring_send m rb = Some (true, rb') ∧ represents rb' (Fifo [m] false) ∧
    next_read rb' = next_read rb.
Proof. intros Hr Hm Hi. by apply (ring_send_sim rb (Fifo [] false)). Qed.

(** A send to a running process whose way is clear goes into its ring buffer. *)
Lemma ipc_send_via_clear proxy p q m w :
  runstate_val STATE_STARTING < runstate_val (w_state w q) → needs_proxy p q = false →
  l_outbuf (w_local w p) = [] → represents (w_rings w q) (Fifo [] false) → msg_ok m →
  next_read (w_rings w q) + 257 < 2 ^ 63 →
  ∃ rb, ipc_send_via proxy p q m.1 m.2 w
        = Some (true, upd_local p (add_notice q) (upd_ring q (λ _, rb) w)) ∧
    represents rb (Fifo [m] false) ∧ next_read rb = next_read (w_rings w q).
Proof.
  intros Hst Hnp Ho Hr Hm Hi. destruct (ring_send_empty _ _ Hr Hm Hi) as (rb & He & Hr' & Hn).
  exists rb. split; [|done]. unfold ipc_send_via, get_local, m_gets, m_bind, m_get.
  replace (_ <? _) with false by (symmetry; apply Z.ltb_ge; simpl in *; lia).
  fold (needs_proxy p q). rewrite Hnp, Ho.
  rewrite (bool_decide_eq_false_2 ([] ≠ [])) by (by intros []).
  rewrite bool_decide_eq_false_2 by (intros Hs; rewrite Hs in Hst; lia). simpl.
  unfold ipc_send_direct, ring_op, m_bind, mod_local, m_modify, m_ret.
  destruct m as [c x]. simpl in *. by rewrite He.
Qed.

(** A receive of one message is the call of its handler, on a world whose
    ring buffer was read. *)
Lemma world_receive_one q m w :
  represents (w_rings w q) (Fifo [m] false) → next_read (w_rings w q) + 300 < 2 ^ 63 →
  ∃ w0, (w0 = upd_ring q (λ rb, set_read (s64 (next_read rb + 1)) rb)
              (upd_ring q (set_code (u8 (next_read (w_rings w q))) IPC_CMD_NIL) w)) ∧
    w_rings w0 q = ring_pop (w_rings w q) ∧
    ∀ w', world_dispatch q m.1 m.2 w0 = Some (tt, w') → w_rings w' q = w_rings w0 q →
      world_receive 1 q w = Some (true, w').
Proof.
  intros Hr Hi. destruct (ring_pop_sim _ _ _ _ Hr) as [Hpop Hm]; [unfold index_ok; lia|].
  pose proof Hr as [Hc Hp Hr0 Hl Hcap Hf Hres Hms Hok]. simpl in *.
  apply Forall_cons in Hok as [[Hnil _] _].
  eexists. split; [done|]. split.
  { simpl. rewrite !fupd_eq. rewrite s64_small by (simpl; lia). done. }
  intros w' Hd Hw'. unfold world_receive, ipc_receive. m_unfold.
  replace (0 <=? next_read (w_rings w q)) with true by lia. simpl. m_unfold.
  replace (next_read (w_rings w q) <? next_write_release (w_rings w q)) with true by lia.
  destruct (Z.eqb_spec (get_code (u8 (next_read (w_rings w q))) (w_rings w q)) IPC_CMD_NIL) as [He|_].
  { rewrite <- Hm in Hnil. simpl in Hnil. by rewrite He in Hnil. }
  rewrite <- Hm in Hd. simpl in Hd. rewrite Hd. rewrite Hw'. simpl. rewrite !fupd_eq. simpl.
  rewrite !s64_small by lia.
  replace (next_read (w_rings w q) + 1 <? next_write_release (w_rings w q)) with false by lia.
  by rewrite Hw'; simpl; rewrite !fupd_eq; simpl; rewrite Hf.
Qed.

(** C32: a message from the master to a worker reaches the worker's handler: sent
    by the master it goes to the manager, the manager's receive passes it on, and the
    worker's receive calls the handler of its code with its pointer, once.  The
    shared memory it travelled in is not freed by anyone. *)
Theorem ipc_proxied_delivery k code ptr u a w
    (Hk : 0 ≤ k < SHUTTLESOCK_MAX_WORKERS)
    (Hr : proxy_ready k code u w)
    (Ha : malloc_fn (w_shm w) SIZEOF_PROXY_MSG = Some a) :
  ∃ w1 w2 w3, shuso_ipc_send SHUTTLESOCK_MASTER k code ptr w = Some (true, w1) ∧
    world_receive 1 SHUTTLESOCK_MANAGER w1 = Some (true, w2) ∧
    world_receive 1 k w2 = Some (true, w3) ∧
    w_calls w3 = (w_calls w ++ [CallRec k (user_handle u) code ptr])%list ∧
    w_shm w3 !! a = Some SIZEOF_PROXY_MSG.
Proof.
  destruct Hr as [Hst Hwst Hmo Hmgo Hrm Hrk Him Hik [hp [Hhp Hhpr]] [hr [Hhr Hhrr]] [hu [Hhu Hhur]]].
  set (d := ProxyMsg code SHUTTLESOCK_MASTER k ptr).
  set (w0 := set_shm (<[a := SIZEOF_PROXY_MSG]> (w_shm w)) (<[a := d]> (w_proxies w)) w).
  assert (k ≠ SHUTTLESOCK_MANAGER) as Hkm by (unfold SHUTTLESOCK_MANAGER; lia).
  assert (in_master k = false) as Hkc by (unfold in_master, SHUTTLESOCK_MASTER; lia).
  (* the master's send *)
  destruct (ipc_send_via_clear m_abort SHUTTLESOCK_MASTER SHUTTLESOCK_MANAGER
              (CMD_MANAGER_PROXY_MESSAGE, a) w0) as (rb1 & He1 & Hrb1 & Hn1);
    [done|done|done|done|done|simpl; lia|].
  set (w1 := upd_local SHUTTLESOCK_MASTER (add_notice SHUTTLESOCK_MANAGER)
               (upd_ring SHUTTLESOCK_MANAGER (λ _, rb1) w0)) in *.
  assert (shuso_ipc_send SHUTTLESOCK_MASTER k code ptr w = Some (true, w1)) as Hsend.
  { unfold shuso_ipc_send, ipc_send_via at 1, m_bind, m_get.
    replace (_ <? _) with false by (symmetry; apply Z.ltb_ge; simpl in *; lia).
    fold (needs_proxy SHUTTLESOCK_MASTER k).
    replace (needs_proxy SHUTTLESOCK_MASTER k) with true
      by (unfold needs_proxy; replace (SHUTTLESOCK_WORKER <=? k) with true
            by (unfold SHUTTLESOCK_WORKER; lia); done).
    unfold shuso_ipc_send_proxy_via_manager, shm_alloc_proxy, m_bind, h_malloc. rewrite Ha. done. }
  (* the manager's receive *)
  destruct (world_receive_one SHUTTLESOCK_MANAGER (CMD_MANAGER_PROXY_MESSAGE, a) w1)
    as (w1' & Hw1' & Hpop1 & Hrecv1); [exact Hrb1|change (next_read rb1 + 300 < 2 ^ 63); rewrite Hn1; exact Him|].
  destruct (ipc_send_via_clear (shuso_ipc_send_proxy_via_manager SHUTTLESOCK_MANAGER k
              CMD_RECEIVE_PROXIED_MESSAGE a) SHUTTLESOCK_MANAGER k
              (CMD_RECEIVE_PROXIED_MESSAGE, a) w1') as (rb2 & He2 & Hrb2 & Hn2).
  { by rewrite Hw1'. }
  { unfold needs_proxy. simpl. done. }
  { by rewrite Hw1'. }
  { rewrite Hw1'. simpl. by rewrite !fupd_ne. }
  { done. }
  { rewrite Hw1'. simpl. rewrite !fupd_ne by done. lia. }
  set (w2 := upd_local SHUTTLESOCK_MANAGER (add_notice k) (upd_ring k (λ _, rb2) w1')) in *.
  assert (world_receive 1 SHUTTLESOCK_MANAGER w1 = Some (true, w2)) as Hmgr.
  { apply Hrecv1.
    - assert (w_common w1' = w_common w) as Hcm by by rewrite Hw1'.
      unfold world_dispatch, common_of, m_bind, m_get. rewrite Hcm. cbn [fst snd].
      change (in_master SHUTTLESOCK_MANAGER) with false. rewrite Hhp, Hhpr. simpl. unfold manager_proxy_message, m_assert, m_bind, m_ret, m_get. simpl.
      replace (w_proxies w1' !! a) with (Some d) by (rewrite Hw1'; simpl; by rewrite lookup_insert_eq).
      unfold shuso_process. cbn [px_dst d].
      replace ((k <? SHUTTLESOCK_MASTER) || (SHUTTLESOCK_MAX_WORKERS <? k)) with false
        by (unfold SHUTTLESOCK_MASTER, SHUTTLESOCK_MAX_WORKERS in *; lia).
      unfold shuso_ipc_send. simpl in He2. by rewrite He2.
    - unfold w2. simpl. by rewrite fupd_ne. }
  (* the worker's receive *)
  destruct (world_receive_one k (CMD_RECEIVE_PROXIED_MESSAGE, a) w2)
    as (w2' & Hw2' & Hpop2 & Hrecv2).
  { unfold w2. simpl. by rewrite fupd_eq. }
  { unfold w2. simpl. rewrite fupd_eq, Hn2, Hw1'. simpl. rewrite !fupd_ne by done. lia. }
  exists w1, w2, (add_call (CallRec k (user_handle u) code ptr) w2').
  split_and!; [done|done| | |].
  - apply Hrecv2; [|done].
    assert (w_common w2' = w_common w) as Hcm by (rewrite Hw2'; unfold w2; by rewrite Hw1').
    assert (w_proxies w2' !! a = Some d) as Hpx
      by (rewrite Hw2'; unfold w2; rewrite Hw1'; simpl; by rewrite lookup_insert_eq).
    unfold world_dispatch, common_of, m_bind, m_get. rewrite Hkc, Hcm. cbn [fst snd].
    rewrite Hhr, Hhrr. unfold run_handler, common_of, m_bind, m_get. cbn [fst snd].
    rewrite Hpx, Hkc, Hcm. cbn [px_code d]. by rewrite Hhu, Hhur.
  - rewrite Hw2'. unfold w2. by rewrite Hw1'.
  - rewrite Hw2'. unfold w2. rewrite Hw1'. simpl. by rewrite lookup_insert_eq.
Qed.

(** ** The handler table *)

Lemma find_free_code_spec hs n i :
  0 ≤ i → i + Z.of_nat n ≤ Z.of_nat (length hs) →
  match find_free_code hs n i with
  | Some c => i ≤ c < i + Z.of_nat n ∧ hs !! Z.to_nat c = Some None ∧
              ∀ j, i ≤ j < c → ∃ h, hs !! Z.to_nat j = Some (Some h)
  | None => ∀ j, i ≤ j < i + Z.of_nat n → ∃ h, hs !! Z.to_nat j = Some (Some h)
  end.
Proof.
  revert i. induction n as [|n IH]; intros i Hi Hl; simpl; [lia|].
  destruct (lookup_lt_is_Some_2 hs (Z.to_nat i)) as [o Ho]; [lia|]. rewrite Ho.
  destruct o as [h|]; [|split_and!; [lia|lia|done|lia]].
  specialize (IH (i + 1) ltac:(lia) ltac:(lia)). destruct (find_free_code hs n (i + 1)) as [c|].
  - destruct IH as (? & ? & Hj). split_and!; [lia|lia|done|]. intros j Hj'.
    destruct (decide (j = i)) as [->|]; [eauto|]. apply Hj. lia.
  - intros j Hj. destruct (decide (j = i)) as [->|]; [eauto|]. apply IH. lia.
Qed.

(** The table after the call differs in one entry at most, and that one was free. *)
Lemma shuso_ipc_add_handler_spec p name code receive cancel base w :
  err_inv p base w → c_state (common_of p w) = STATE_CONFIGURING →
  length (c_handlers (common_of p w)) = 256%nat →
  (0 ≤ code ≤ 255 ∨ code = IPC_CODE_AUTOMATIC) →
  let hs := c_handlers (common_of p w) in
  ∃ r w', shuso_ipc_add_handler p name code receive cancel w = Some (r, w') ∧
    err_inv p base w' ∧
    match r with
    | Some c =>
        hs !! Z.to_nat c = Some None ∧ 0 ≤ c ≤ 255 ∧
        common_of p w' = set_handlers (<[Z.to_nat c := Some (IpcHandler c (default "(unnamed)" name) receive
                            (default do_nothing cancel))]> hs) (common_of p w) ∧
        (code = c ∨ code = IPC_CODE_AUTOMATIC ∧ IPC_CODE_AUTOMATIC_MIN ≤ c ∧
           ∀ j, IPC_CODE_AUTOMATIC_MIN ≤ j < c → ∃ h, hs !! Z.to_nat j = Some (Some h))
    | None =>
        common_of p w' = common_of p w ∧
        ((∃ h, hs !! Z.to_nat code = Some (Some h)) ∨
         code = IPC_CODE_AUTOMATIC ∧
           ∀ j, IPC_CODE_AUTOMATIC_MIN ≤ j ≤ IPC_CODE_AUTOMATIC_MAX → ∃ h, hs !! Z.to_nat j = Some (Some h))
    end.
Proof.
  intros Hi Hst Hlen Hcode hs. unfold shuso_ipc_add_handler, shuso_runstate_check.
  assert (∀ msg, ∃ w', shuso_set_error p msg w = Some (false, w') ∧ err_inv p base w' ∧
            common_of p w' = common_of p w) as Herr.
  { intros msg. destruct (set_error_spec p msg base w Hi) as (w' & He & Hr).
    exists w'. split_and!; [done|by apply Hr|]. unfold common_of. by rewrite (ef_common _ _ _ (rd_frame _ _ _ _ _ _ Hr)). }
  unfold m_bind, m_get, m_ret, m_modify. rewrite Hst, bool_decide_eq_true_2 by done. cbn [negb]. fold hs.
  pose proof (find_free_code_spec hs 236 20 ltac:(lia) ltac:(unfold hs in *; lia)) as Hfind.
  change (Z.to_nat (IPC_CODE_AUTOMATIC_MAX - IPC_CODE_AUTOMATIC_MIN + 1)) with 236%nat.
  change IPC_CODE_AUTOMATIC_MIN with 20 in *.
  assert (∀ c, 0 ≤ c ≤ 255 → hs !! Z.to_nat c = Some None →
    (code = c ∨ code = IPC_CODE_AUTOMATIC ∧ 20 ≤ c ∧ ∀ j, 20 ≤ j < c → ∃ h, hs !! Z.to_nat j = Some (Some h)) →
    let h := IpcHandler (u8 c) (default "(unnamed)" name) receive (default do_nothing cancel) in
    let w' := upd_common p (set_handlers (<[Z.to_nat c := Some h]> hs)) w in
    err_inv p base w' ∧ hs !! Z.to_nat c = Some None ∧ 0 ≤ c ≤ 255 ∧
    common_of p w' = set_handlers (<[Z.to_nat c := Some (IpcHandler c (default "(unnamed)" name) receive
                            (default do_nothing cancel))]> hs) (common_of p w) ∧
    (code = c ∨ code = IPC_CODE_AUTOMATIC ∧ 20 ≤ c ∧
       ∀ j, 20 ≤ j < c → ∃ h, hs !! Z.to_nat j = Some (Some h))) as Hadd.
  { intros c Hc Hfree Hwhich h w'. unfold w', h. rewrite u8_small by lia.
    split_and!; try done; try lia; [by split; apply Hi|].
    unfold common_of. simpl. by destruct (in_master p). }
  destruct (Z.eqb_spec code IPC_CODE_AUTOMATIC) as [->|Hna].
  - destruct (find_free_code hs 236 20) as [c|] eqn:Hff; simpl.
    + destruct Hfind as (Hc & Hfree & Hj).
      destruct (Z.eqb_spec c IPC_CODE_AUTOMATIC) as [->|_]; [unfold IPC_CODE_AUTOMATIC in Hc; lia|].
      rewrite Hfree. eexists (Some c), _. split; [done|]. apply Hadd; [lia|done|].
      right. split_and!; [done|lia|done].
    + match goal with |- context [shuso_set_error p ?m w] => destruct (Herr m) as (w' & He & ? & ?) end.
      rewrite He. exists None, w'. split_and!; try done. right. split; [done|].
      unfold IPC_CODE_AUTOMATIC_MAX. intros j Hj. apply Hfind. lia.
  - destruct Hcode as [Hcode|]; [|done].
    destruct (Z.eqb_spec code IPC_CODE_AUTOMATIC) as [->|_]; [done|].
    destruct (lookup_lt_is_Some_2 hs (Z.to_nat code)) as [o Ho]; [unfold hs; lia|]. rewrite Ho.
    destruct o as [h|].
    + match goal with |- context [shuso_set_error p ?m w] => destruct (Herr m) as (w' & He & ? & ?) end.
      rewrite He. exists None, w'. split_and!; try done. left. eauto.
    + eexists (Some code), _. split; [done|]. apply Hadd; [lia|done|by left].
Qed.

(** Handlers added one after another. *)
Record handler_req := HandlerReq {
  rq_name : option string; rq_code : Z; rq_receive : receive_fn; rq_cancel : option receive_fn
}.
Fixpoint add_all (p : Z) (rs : list handler_req) : M world (list (option Z)) :=
  match rs with
  | [] => m_ret []
  | r :: rs' =>
      x <- shuso_ipc_add_handler p (rq_name r) (rq_code r) (rq_receive r) (rq_cancel r) ;;
      xs <- add_all p rs' ;;
      m_ret (x :: xs)
  end.

Definition req_ok (r : handler_req) : Prop := 0 ≤ rq_code r ≤ 255 ∨ rq_code r = IPC_CODE_AUTOMATIC.

Definition bound_to (hs : list (option ipc_handler)) (r : handler_req) (x : option Z) : Prop :=
  match x with
  | Some c => ∃ h, hs !! Z.to_nat c = Some (Some h) ∧ h_code h = c ∧ h_receive h = rq_receive r ∧
                   (rq_code r = c ∨ rq_code r = IPC_CODE_AUTOMATIC ∧ IPC_CODE_AUTOMATIC_MIN ≤ c ≤ IPC_CODE_AUTOMATIC_MAX)
  | None => True
  end.

(** The handler table.  While Shuttlesock is being configured any sequence of
    additions keeps every handler that was there; every code that was handed out lies in the
    table, is bound to the handler it was handed out for (an automatic code is one of
    20..255), was free before, and no code is handed out twice. *)
Theorem ipc_handlers_kept p rs base w
    (Hi : err_inv p base w)
    (Hst : c_state (common_of p w) = STATE_CONFIGURING)
    (Hlen : length (c_handlers (common_of p w)) = 256%nat)
    (Hrs : Forall req_ok rs) :
  ∃ xs w', add_all p rs w = Some (xs, w') ∧
    (∀ i h, c_handlers (common_of p w) !! i = Some (Some h) →
            c_handlers (common_of p w') !! i = Some (Some h)) ∧
    Forall2 (bound_to (c_handlers (common_of p w'))) rs xs ∧
    NoDup (omap id xs) ∧
    Forall (λ c, c_handlers (common_of p w) !! Z.to_nat c = Some None ∧ 0 ≤ c ≤ 255) (omap id xs).
Proof.
  revert w Hi Hst Hlen. induction Hrs as [|r rs Hr Hrs IH]; intros w Hi Hst Hlen.
  - exists [], w. simpl. split_and!; [done|done|constructor|constructor|constructor].
  - destruct (shuso_ipc_add_handler_spec p (rq_name r) (rq_code r) (rq_receive r) (rq_cancel r)
                base w Hi Hst Hlen Hr) as (x & w1 & He & Hi1 & Hx).
    assert (c_state (common_of p w1) = STATE_CONFIGURING ∧
            length (c_handlers (common_of p w1)) = 256%nat ∧
            (∀ i h, c_handlers (common_of p w) !! i = Some (Some h) →
                    c_handlers (common_of p w1) !! i = Some (Some h)) ∧
            (∀ i, c_handlers (common_of p w1) !! i = Some None →
                  c_handlers (common_of p w) !! i = Some None)) as (Hst1 & Hlen1 & Hkeep & Hfree).
    { destruct x as [c|].
      - destruct Hx as (Hn & _ & -> & _). simpl. split_and!; [done|by rewrite length_insert| |].
        + intros i h Hl. rewrite list_lookup_insert_ne; [done|]. intros <-. by rewrite Hn in Hl.
        + intros i Hl. destruct (decide (Z.to_nat c = i)) as [<-|]; [done|].
          by rewrite list_lookup_insert_ne in Hl.
      - by destruct Hx as [-> _]. }
    destruct (IH w1 Hi1 Hst1 Hlen1) as (xs & w2 & He2 & Hkeep2 & Hb & Hnd & Hall).
    exists (x :: xs), w2. simpl. unfold m_bind, m_ret. rewrite He, He2.
    assert (Forall (λ c, c_handlers (common_of p w) !! Z.to_nat c = Some None ∧ 0 ≤ c ≤ 255) (omap id xs)) as Hall'.
    { eapply Forall_impl; [exact Hall|]. simpl. intros c [Hc ?]. split; [by apply Hfree|done]. }
    split_and!; [done|eauto| | |].
    + constructor; [|done]. destruct x as [c|]; [|done]. destruct Hx as (Hn & Hc & Hcm & Hw).
      eexists. split; [apply Hkeep2; rewrite Hcm; simpl; apply list_lookup_insert_eq;
                       by eapply lookup_lt_Some|]. split_and!; [done|done|].
      destruct Hw as [|(? & ? & _)]; [by left|right]. unfold IPC_CODE_AUTOMATIC_MAX. lia.
    + destruct x as [c|]; [|done]. simpl. constructor; [|done]. intros Hin.
      rewrite Forall_forall in Hall. destruct (Hall c Hin) as [Hc _].
      destruct Hx as (Hn & _ & Hcm & _). rewrite Hcm in Hc. simpl in Hc.
      rewrite list_lookup_insert_eq in Hc; [done|]. by eapply lookup_lt_Some.
    + destruct x as [c|]; [|done]. simpl. constructor; [|done].
      by destruct Hx as (Hn & ? & _).
Qed.
End ipc_specs.

(** ** Witnesses *)

(** The table after [shuso_ipc_commands_init], and with a handler for each automatic code. *)
Definition demo_reqs : list handler_req :=
  (λ x : string * Z * receive_fn, HandlerReq (Some x.1.1) x.1.2 x.2 None) <$> builtin_handlers.

Lemma ipc_handlers_kept_witness :
  ∃ xs w', add_all 0 (demo_reqs ++ [HandlerReq None IPC_CODE_AUTOMATIC (user_handle 5) None]) world_init
           = Some (xs, w') ∧
    (∀ i h, c_handlers (common_of 0 world_init) !! i = Some (Some h) →
            c_handlers (common_of 0 w') !! i = Some (Some h)) ∧
    Forall2 (bound_to (c_handlers (common_of 0 w')))
      (demo_reqs ++ [HandlerReq None IPC_CODE_AUTOMATIC (user_handle 5) None]) xs ∧
    NoDup (omap id xs) ∧
    Forall (λ c, c_handlers (common_of 0 world_init) !! Z.to_nat c = Some None ∧ 0 ≤ c ≤ 255) (omap id xs).
Proof.
  apply (ipc_handlers_kept 0 _ ∅ world_init).
  - apply world_init_errors.
  - done.
  - done.
  - unfold demo_reqs, builtin_handlers. simpl.
    repeat (constructor; [first [left; simpl; by vm_compute|by right]|]). constructor.
Defined.

Example commands_init_ok :
  (λ r, r.1) <$> shuso_ipc_commands_init 0 world_init = Some true.
Proof. by vm_compute. Qed.

(** A running system: handlers for all codes, every process running. *)
Definition demo_handlers : list (option ipc_handler) :=
  (λ i : nat, let c := Z.of_nat i in
     Some (IpcHandler c "demo"
       (if c =? CMD_MANAGER_PROXY_MESSAGE then manager_proxy_message_handle
        else if c =? CMD_RECEIVE_PROXIED_MESSAGE then received_proxied_message_handle
        else user_handle c) do_nothing)) <$> seq 0 256.
Definition demo_common : common :=
  Common STATE_RUNNING demo_handlers 1 false 0 None None 2 50.
Definition demo_world : world :=
  World (λ _, STATE_RUNNING) 0 2 (λ _, ringbuf_init) ∅ ∅ (λ _, demo_common) (λ _, local_init)
    ∅ [] [].

Lemma demo_user_handled : user_handled demo_common.
Proof.
  intros c Hc. unfold IPC_CODE_AUTOMATIC_MIN, IPC_CODE_AUTOMATIC_MAX in Hc.
  eexists. split.
  - unfold demo_common, c_handlers, demo_handlers. rewrite list_lookup_fmap, lookup_seq_lt by lia.
    simpl. rewrite Z2Nat.id by lia. done.
  - simpl. unfold CMD_MANAGER_PROXY_MESSAGE, CMD_RECEIVE_PROXIED_MESSAGE.
    destruct (Z.eqb_spec c 11); [lia|]. by destruct (Z.eqb_spec c 12); [lia|].
Qed.

Lemma demo_ipc_ok p : ipc_ok p ∅ (λ _, Fifo [] false) 0 demo_world.
Proof.
  split; try done.
  - intros q. apply ringbuf_init_represents.
  - intros q. unfold common_of. simpl. apply demo_user_handled.
  - apply owns_nil.
Qed.

(** 260 messages to worker 1: 256 fill its ring buffer, the rest wait in the outbuf. *)
Definition demo_ops : list ipc_op :=
  (replicate 260 (OpIpcSend 1 (20, 7)) ++ [OpIpcReceive 1; OpIpcRetry; OpIpcReceive 1])%list.

Lemma ipc_messages_in_order_witness :
  ∃ bs w' fs', ipc_run 0 demo_ops demo_world = Some (bs, w') ∧
    ipc_ok 0 ∅ fs' (0 + 256 * Z.of_nat (length demo_ops)) w' ∧
    ∀ q, stream 0 q w' fs' = (stream 0 q demo_world (λ _, Fifo [] false) ++ accepted q demo_ops bs)%list.
Proof.
  apply ipc_messages_in_order.
  - apply demo_ipc_ok.
  - unfold demo_ops. apply Forall_app. split.
    + apply Forall_replicate. split; [|done]. by vm_compute.
    + by repeat constructor.
  - by vm_compute.
Defined.

Example ipc_run_delivers :
  (λ r, (length (w_calls r.2), length (l_outbuf (w_local r.2 0)))) <$> ipc_run 0 demo_ops demo_world
  = Some (260%nat, 0%nat).
Proof. by vm_compute. Qed.

Lemma ipc_proxied_delivery_witness :
  ∃ w1 w2 w3, shuso_ipc_send SHUTTLESOCK_MASTER 1 30 99 demo_world = Some (true, w1) ∧
    world_receive 1 SHUTTLESOCK_MANAGER w1 = Some (true, w2) ∧
    world_receive 1 1 w2 = Some (true, w3) ∧
    w_calls w3 = (w_calls demo_world ++ [CallRec 1 (user_handle 30) 30 99])%list ∧
    w_shm w3 !! 16 = Some SIZEOF_PROXY_MSG.
Proof.
  apply (ipc_proxied_delivery 1 30 99 30 16 demo_world).
  - by vm_compute.
  - split; try done; try apply ringbuf_init_represents; by eexists.
  - by vm_compute.
Defined.
