(* ===== verification/Process.v ===== *)
(** Starting and stopping: the process functions of src/src/shuttlesock.c, the stop
    listeners of src/src/modules/core/core.c, and the shutdown protocol they form with the
    IPC messages, as a step relation. *)

From stdpp Require Import strings pretty.
From S2P Require Import Prelude Heap Ringbuf System Ipc.

#[local] Open Scope string_scope.
#[local] Open Scope Z_scope.

Definition SHUSO_OK : Z := 1.

(** [shuso_stop_t] *)
Inductive stop_force := STOP_ASK | STOP_INSIST | STOP_DEMAND | STOP_COMMAND | STOP_FORCE.
Definition stop_val (f : stop_force) : Z :=
  match f with
  | STOP_ASK => 1 | STOP_INSIST => 2 | STOP_DEMAND => 3 | STOP_COMMAND => 4 | STOP_FORCE => 5
  end.

Section process.
Context `{Malloc}.

Definition get_state (p : Z) : M world runstate := m_gets (λ w, w_state w p).
Definition put_state (p : Z) (s : runstate) : M world unit := m_modify (set_state p s).

(** ** Starting *)

(** [shuso_fork_manager] in the child: what it does with the shared state. *)
Definition manager_start : M world unit :=
  let p := SHUTTLESOCK_MANAGER in
  put_state p STATE_STARTING ;;;
  put_state p STATE_RUNNING ;;;
  m_modify (λ w, set_workers 0 (u16 (c_config_workers (common_of p w))) w).

(** What [shuso_initialize_worker] sets up for a worker, in order.  The set-up functions belong to
    other components; [init_ok] says which succeed. *)
Inductive init_step := InitAlloc | InitIpc | InitPool | InitResolver | InitLua | InitLuaLibs | InitModules.
#[local] Instance init_step_eq_dec : EqDecision init_step.
Proof. solve_decision. Defined.
Definition init_steps : list init_step :=
  [InitAlloc; InitIpc; InitPool; InitResolver; InitLua; InitLuaLibs; InitModules].

(** The steps done before the first that fails; [true] when none does. *)
Fixpoint run_init_steps (init_ok : init_step → bool) (steps : list init_step) : bool * list init_step :=
  match steps with
  | [] => (true, [])
  | st :: steps' =>
      if init_ok st then let '(ok, done) := run_init_steps init_ok steps' in (ok, st :: done)
      else (false, [])
  end.

(** What the failure path takes down again: the channel, the resolver, the pool and the worker's
    memory, if they were set up. *)
Definition init_released (st : init_step) : bool :=
  match st with InitAlloc | InitIpc | InitPool | InitResolver => true | _ => false end.

(** The worker's number, or [None] for [NULL]; and what stays set up. *)
Definition shuso_initialize_worker (init_ok : init_step → bool) (i : Z)
    : M world (option Z * list init_step) :=
  let procnum := shuso_process_to_procnum i in
  m_assert (SHUTTLESOCK_WORKER <=? procnum) ;;;
  s <- get_state i ;;
  m_assert (bool_decide (s = STATE_NIL)) ;;;
  let '(ok, done) := run_init_steps init_ok init_steps in
  (if bool_decide (InitIpc ∈ done) then put_state i STATE_NIL else m_ret tt) ;;;
  (if bool_decide (InitLuaLibs ∈ done) then
     shuso_core_event_publish i "worker.start.before.lua_gxcopy" SHUSO_OK 0 ;;; m_ret tt
   else m_ret tt) ;;;
  if ok then
    shuso_core_event_publish i "worker.start.before" SHUSO_OK 0 ;;;
    m_ret (Some procnum, done)
  else
    shuso_set_error SHUTTLESOCK_MANAGER ("failed to initialize worker " ++ pretty procnum) ;;;
    m_ret (None, filter (λ st, init_released st = false) done).

Fixpoint initialize_workers_loop (init_ok : Z → init_step → bool) (workers : list Z)
    : M world (list (option Z)) :=
  match workers with
  | [] => m_ret []
  | i :: workers' =>
      r <- shuso_initialize_worker (init_ok i) i ;;
      (match r.1 with
       | None => shuso_set_error SHUTTLESOCK_MANAGER ("failed to spawn worker " ++ pretty i) ;;; m_ret tt
       | Some _ => m_ret tt
       end) ;;;
      rs <- initialize_workers_loop init_ok workers' ;;
      m_ret (r.1 :: rs)
  end.
Definition shuso_initialize_workers (init_ok : Z → init_step → bool) : M world (list (option Z)) :=
  w <- m_get ;; initialize_workers_loop init_ok (each_worker w).

(** [pthread_create] is the C library's: [thread_ok] is its outcome. *)
Definition shuso_spawn_worker (thread_ok : bool) (i : Z) : M world bool :=
  s <- get_state i ;;
  m_assert (bool_decide (s = STATE_NIL)) ;;;
  put_state i STATE_STARTING ;;;
  if thread_ok then m_ret true
  else shuso_set_error SHUTTLESOCK_MANAGER ("failed to start worker " ++ pretty i).

Fixpoint spawn_workers_loop (thread_ok : Z → bool) (ws : list (option Z)) (failed : Z) : M world Z :=
  match ws with
  | [] => m_ret failed
  | None :: ws' => spawn_workers_loop thread_ok ws' failed
  | Some i :: ws' =>
      ok <- shuso_spawn_worker (thread_ok i) i ;;
      spawn_workers_loop thread_ok ws' (if ok : bool then failed else failed + 1)
  end.
Definition shuso_spawn_workers (thread_ok : Z → bool) (ws : list (option Z)) : M world bool :=
  failed <- spawn_workers_loop thread_ok ws 0 ;;
  m_modify (λ w, set_workers (w_start w) (u16 (w_end w - failed)) w) ;;;
  m_ret (failed =? 0).

(** [shuso_run_worker], up to its event loop. *)
Definition shuso_run_worker (i : Z) : M world unit :=
  put_state i STATE_RUNNING ;;;
  shuso_core_event_publish i "worker.start" SHUSO_OK 0 ;;;
  shuso_ipc_send i SHUTTLESOCK_MANAGER CMD_WORKER_STARTED i ;;;
  m_ret tt.

(** ** Stopping *)

Definition shuso_stop_manager (p : Z) (f : Z) : M world bool :=
  if shuso_is_master p then
    ok <- shuso_ipc_send p SHUTTLESOCK_MANAGER CMD_SHUTDOWN f ;;
    if negb ok then m_ret false else m_ret true
  else if shuso_is_worker p then shuso_set_error p "cannot stop manager from worker"
  else
    m_assert (shuso_is_manager p) ;;;
    s <- get_state p ;;
    if bool_decide (s = STATE_RUNNING)
    then shuso_core_event_publish p "manager.stop" SHUSO_OK f
    else m_ret false.

Definition shuso_stop_worker (p proc f : Z) : M world bool :=
  if p =? proc then
    s <- get_state p ;;
    (if bool_decide (s = STATE_RUNNING) then
       put_state p STATE_STOPPING ;;;
       shuso_core_event_publish p "worker.stop" SHUSO_OK 0 ;;; m_ret tt
     else m_ret tt) ;;;
    m_ret true
  else shuso_ipc_send p proc CMD_SHUTDOWN f.

Definition shuso_stop (p f : Z) : M world bool :=
  s <- get_state p ;;
  if bool_decide (s ≠ STATE_RUNNING) && bool_decide (s ≠ STATE_STOPPING) then m_ret false
  else if negb (p =? SHUTTLESOCK_MASTER) then
    shuso_ipc_send p SHUTTLESOCK_MASTER CMD_SHUTDOWN f
  else if bool_decide (s ≠ STATE_RUNNING) then m_ret false
  else shuso_core_event_publish p "master.stop" SHUSO_OK 0 ;;; m_ret true.

(** The timer callback that [shutdown_handle] leaves the work to. *)
Definition shutdown_handle_cb (p f : Z) : M world unit :=
  s <- get_state p ;;
  if bool_decide (s = STATE_STOPPING) then m_ret tt
  else if p =? SHUTTLESOCK_MASTER then shuso_stop p f ;;; m_ret tt
  else if p =? SHUTTLESOCK_MANAGER then shuso_stop_manager p f ;;; m_ret tt
  else if SHUTTLESOCK_WORKER <=? p then shuso_stop_worker p p f ;;; m_ret tt
  else m_ret tt.

(** The end of a worker's thread. *)
Definition shuso_worker_shutdown (i : Z) : M world unit :=
  shuso_ipc_channel_local_stop i ;;;
  s <- get_state i ;;
  m_assert (bool_decide (s = STATE_STOPPING)) ;;;
  put_state i STATE_STOPPED.

(** The loop over the workers in [core_manager_try_stop]. *)
Fixpoint reap_workers (workers : list Z) (all_dead : bool) : M world bool :=
  match workers with
  | [] => m_ret all_dead
  | i :: workers' =>
      s <- get_state i ;;
      (if bool_decide (s = STATE_STOPPED) then put_state i STATE_DEAD else m_ret tt) ;;;
      s <- get_state i ;;
      reap_workers workers' (if bool_decide (s ≠ STATE_DEAD) then false else all_dead)
  end.

(** The first listener of "manager.stop": [false] when it delays the event (to be
    called again 0.1 s later), [true] when it lets the event go on to
    [core_manager_stop], which ends the event loop. *)
Definition core_manager_try_stop (p f : Z) : M world bool :=
  m_assert (p =? SHUTTLESOCK_MANAGER) ;;;
  s <- get_state p ;;
  (if bool_decide (s = STATE_RUNNING) then
     put_state p STATE_STOPPING ;;;
     shuso_ipc_send_workers p CMD_SHUTDOWN f ;;; m_ret tt
   else m_ret tt) ;;;
  s <- get_state p ;;
  m_assert (bool_decide (s = STATE_STOPPING)) ;;;
  w <- m_get ;;
  reap_workers (each_worker w) true.

(** The first listener of "master.stop". *)
Definition core_master_try_stop (p : Z) : M world bool :=
  s <- get_state p ;;
  (if bool_decide (s = STATE_RUNNING) then put_state p STATE_STOPPING else m_ret tt) ;;;
  m <- get_state SHUTTLESOCK_MANAGER ;;
  (if bool_decide (m = STATE_RUNNING) then
     shuso_stop_manager p (stop_val STOP_INSIST) ;;; m_ret tt
   else m_ret tt) ;;;
  m <- get_state SHUTTLESOCK_MANAGER ;;
  m_ret (bool_decide (m = STATE_DEAD)).

(** [stop_event_interrupt_handler]: stop events may be delayed, by a second at most.
    Times are in milliseconds. *)
Definition stop_event_interrupt_handler (is_delay : bool) (delay : option Z) : bool * option Z :=
  if negb is_delay then (false, delay)
  else match delay with
       | None => (false, None)
       | Some ms => (true, Some (if 1000 <? ms then 1000 else ms))
       end.

(** ** Signals and child processes *)

Definition signal_watcher_cb (p signum : Z) : M world unit :=
  if negb (p =? SHUTTLESOCK_MASTER) then
    shuso_ipc_send p SHUTTLESOCK_MASTER CMD_SIGNAL signum ;;; m_ret tt
  else if (signum =? SIGINT) || (signum =? SIGTERM) then
    shuso_stop p (stop_val STOP_ASK) ;;; m_ret tt
  else m_ret tt.

(** The wait status macros of <sys/wait.h> on Linux. *)
Definition WTERMSIG (st : Z) : Z := Z.land st 127.
Definition WIFEXITED (st : Z) : bool := WTERMSIG st =? 0.
Definition WEXITSTATUS (st : Z) : Z := Z.land (Z.shiftr st 8) 255.
Definition WIFSTOPPED (st : Z) : bool := Z.land st 255 =? 127.
Definition WSTOPSIG (st : Z) : Z := WEXITSTATUS st.
Definition WIFCONTINUED (st : Z) : bool := st =? 65535.
(** [((signed char) ((status & 0x7f) + 1) >> 1) > 0] *)
Definition WIFSIGNALED (st : Z) : bool := 0 <? Z.shiftr (swrap 8 (WTERMSIG st + 1)) 1.

Definition sigchild_info_of (pid st : Z) : option sigchild_info :=
  if WIFEXITED st then Some (SigchildInfo pid CHILD_EXITED (WEXITSTATUS st) st)
  else if WIFSIGNALED st then Some (SigchildInfo pid CHILD_KILLED (WTERMSIG st) st)
  else if WIFSTOPPED st then Some (SigchildInfo pid CHILD_STOPPED (WSTOPSIG st) st)
  else if WIFCONTINUED st then Some (SigchildInfo pid CHILD_RUNNING 0 st)
  else None.

Definition set_sig_last (i : sigchild_info) (c : common) : common :=
  Common (c_state c) (c_handlers c) (c_log_fd c) (c_all_workers_running c) (c_manager_pid c)
    (c_sig_manager c) (Some i) (c_config_workers c) (c_retry_delay c).
Definition set_sig_manager (i : sigchild_info) (c : common) : common :=
  Common (c_state c) (c_handlers c) (c_log_fd c) (c_all_workers_running c) (c_manager_pid c)
    (Some i) (c_sig_last c) (c_config_workers c) (c_retry_delay c).

Definition shuso_handle_sigchild (p pid status : Z) : M world unit :=
  match sigchild_info_of pid status with
  | None => shuso_set_error p ("got weird waitpid status " ++ pretty status
                               ++ ", don't know what it is") ;;; m_ret tt
  | Some info =>
      m_modify (upd_common p (set_sig_last info)) ;;;
      w <- m_get ;;
      if c_manager_pid (common_of p w) =? pid then
        m_modify (upd_common p (set_sig_manager info)) ;;;
        if bool_decide (si_state info ≠ CHILD_RUNNING) && bool_decide (si_state info ≠ CHILD_STOPPED) then
          before <- get_state SHUTTLESOCK_MANAGER ;;
          put_state SHUTTLESOCK_MANAGER STATE_DEAD ;;;
          if (p =? SHUTTLESOCK_MASTER) && bool_decide (before ≠ STATE_DEAD) then
            shuso_core_event_publish p "master.manager_exited" pid 0 ;;;
            s <- get_state p ;;
            if bool_decide (s = STATE_STOPPING) then shuso_stop p (stop_val STOP_ASK) ;;; m_ret tt
            else m_ret tt
          else m_ret tt
        else m_ret tt
      else m_ret tt
  end.

Definition shuso_set_log_fd (p fd : Z) : M world bool :=
  w <- m_get ;;
  (if runstate_val (c_state (common_of p w)) <? runstate_val STATE_RUNNING then m_ret tt
   else if (p =? SHUTTLESOCK_MASTER)
           && (runstate_val STATE_RUNNING <=? runstate_val (w_state w SHUTTLESOCK_MANAGER)) then
     shuso_ipc_send p SHUTTLESOCK_MANAGER CMD_SET_LOG_FD fd ;;; m_ret tt
   else if runstate_val STATE_RUNNING <=? runstate_val (w_state w SHUTTLESOCK_MASTER) then
     shuso_ipc_send p SHUTTLESOCK_MASTER CMD_SET_LOG_FD fd ;;; m_ret tt
   else m_ret tt) ;;;
  m_modify (upd_common p (set_log fd)) ;;;
  m_ret true.
End process.

(** ** Operations that leave the run states alone *)

Definition keeps {A} (m : M world A) : Prop :=
  ∀ w r w', m w = Some (r, w') →
    w_state w' = w_state w ∧ w_start w' = w_start w ∧ w_end w' = w_end w.

Section keeps.
Context `{Malloc}.

Lemma keeps_ret {A} (a : A) : keeps (m_ret a).
Proof. intros w r w' [= _ <-]. done. Qed.
Lemma keeps_abort {A} : keeps (@m_abort world A).
Proof. by intros w r w'. Qed.
Lemma keeps_get : keeps m_get.
Proof. intros w r w' [= _ <-]. done. Qed.
Lemma keeps_gets {A} (f : world → A) : keeps (m_gets f).
Proof. intros w r w' [= _ <-]. done. Qed.
Lemma keeps_assert b : keeps (m_assert b).
Proof. destruct b; [apply keeps_ret|apply keeps_abort]. Qed.
Lemma keeps_bind {A B} (m : M world A) (k : A → M world B) :
  keeps m → (∀ a, keeps (k a)) → keeps (m_bind m k).
Proof.
  intros Hm Hk w r w'. unfold m_bind. destruct (m w) as [[a w1]|] eqn:He; [|done].
  intros He'. destruct (Hk _ _ _ _ He') as (-> & -> & ->). by eapply Hm.
Qed.
Lemma keeps_local p f : keeps (m_modify (upd_local p f)).
Proof. intros w r w' [= _ <-]. done. Qed.
Lemma keeps_common p f : keeps (m_modify (upd_common p f)).
Proof. intros w r w' [= _ <-]. done. Qed.
Lemma keeps_ring p f : keeps (m_modify (upd_ring p f)).
Proof. intros w r w' [= _ <-]. done. Qed.
Lemma keeps_event e : keeps (m_modify (add_event e)).
Proof. intros w r w' [= _ <-]. done. Qed.
Lemma keeps_call e : keeps (m_modify (add_call e)).
Proof. intros w r w' [= _ <-]. done. Qed.
Lemma keeps_malloc n : keeps (w_malloc n).
Proof.
  intros w r w'. unfold w_malloc. destruct (h_malloc _ _) as [[? ?]|]; intros; by simplify_eq.
Qed.
Lemma keeps_free a : keeps (w_free a).
Proof.
  intros w r w'. unfold w_free. destruct (h_free _ _) as [[? ?]|]; intros; by simplify_eq.
Qed.
Lemma keeps_ring_op {A} q (m : M ringbuf A) : keeps (ring_op q m).
Proof. intros w r w'. unfold ring_op. destruct (m _) as [[? ?]|]; intros; by simplify_eq. Qed.
Lemma keeps_shm_alloc d : keeps (shm_alloc_proxy d).
Proof.
  intros w r w'. unfold shm_alloc_proxy.
  destruct (h_malloc _ _) as [[[?|] ?]|]; intros; by simplify_eq.
Qed.
Lemma keeps_shm_free a : keeps (shm_free_proxy a).
Proof.
  intros w r w'. unfold shm_free_proxy. destruct (h_free _ _) as [[? ?]|]; intros; by simplify_eq.
Qed.
End keeps.

#[export] Hint Resolve keeps_ret keeps_abort keeps_get keeps_gets keeps_assert keeps_local
  keeps_common keeps_ring keeps_event keeps_call keeps_malloc keeps_free keeps_ring_op
  keeps_shm_alloc keeps_shm_free : keeps.

(** Go through a computation, its branches included. *)
Ltac keeps :=
  repeat first
    [ solve [auto with keeps]
    | apply keeps_bind; [|intros ?]
    | match goal with
      | |- keeps (if ?b then _ else _) => destruct b
      | |- keeps (match ?x with _ => _ end) => destruct x
      end ].

Section keeps_system.
Context `{Malloc}.

Lemma keeps_set_error_errno p n msg : keeps (shuso_set_error_errno p n msg).
Proof.
  unfold shuso_set_error_errno, shuso_set_error_internal_vararg, set_errno, mod_err, get_err, w_free_if.
  keeps.
Qed.
Lemma keeps_set_error p msg : keeps (shuso_set_error p msg).
Proof. apply keeps_set_error_errno. Qed.
Hint Resolve keeps_set_error : keeps.

Lemma keeps_publish p name c d : keeps (shuso_core_event_publish p name c d).
Proof. unfold shuso_core_event_publish. keeps. Qed.
Lemma keeps_append p q c x : keeps (ipc_send_outbuf_append p q c x).
Proof. unfold ipc_send_outbuf_append, mod_local, get_local, retry_timer_again, mod_local. keeps. Qed.
Lemma keeps_direct p q c x : keeps (ipc_send_direct p q c x).
Proof. unfold ipc_send_direct, mod_local. keeps. Qed.
Hint Resolve keeps_publish keeps_append keeps_direct : keeps.
Lemma keeps_send_via m p q c x : keeps m → keeps (ipc_send_via m p q c x).
Proof. intros Hm. unfold ipc_send_via, get_local. keeps. Qed.
Hint Resolve keeps_send_via : keeps.
Lemma keeps_send p q c x : keeps (shuso_ipc_send p q c x).
Proof.
  unfold shuso_ipc_send, shuso_ipc_send_proxy_via_manager. apply keeps_send_via. keeps.
Qed.
Hint Resolve keeps_send : keeps.
Lemma keeps_send_workers p c x : keeps (shuso_ipc_send_workers p c x).
Proof.
  unfold shuso_ipc_send_workers. apply keeps_bind; [auto with keeps|]. intros w.
  generalize true. induction (each_worker w); intros b; simpl; keeps.
Qed.
Lemma keeps_send_each p c x l : keeps (send_each p c x l).
Proof. induction l; simpl; keeps. Qed.
Hint Resolve keeps_send_workers keeps_send_each : keeps.
Lemma keeps_retry p : keeps (ipc_send_retry_cb p).
Proof.
  unfold ipc_send_retry_cb, get_local. apply keeps_bind; [auto with keeps|]. intros l.
  induction (l_outbuf l) as [|[a o] r IH]; simpl; unfold mod_local, retry_timer_again, mod_local; keeps.
Qed.
Lemma keeps_run_handler n p f c x : keeps (run_handler n p f c x).
Proof.
  revert f c x. induction n as [|n IH]; intros f c x; destruct f; simpl;
    unfold signal_received, manager_proxy_message, worker_started, all_worker_started; keeps.
Qed.
Hint Resolve keeps_run_handler : keeps.
Lemma keeps_receive n p : keeps (world_receive n p).
Proof.
  unfold world_receive, ipc_receive. apply keeps_bind; [auto with keeps|]. intros w.
  apply keeps_bind; [auto with keeps|]. intros _. apply keeps_bind; [|intros _; keeps].
  generalize (next_read (w_rings w p)). induction n as [|n IH]; intros i; simpl; [keeps|].
  apply keeps_bind; [auto with keeps|]. intros w1. destruct (_ <? _); [|keeps].
  destruct (_ =? _); [apply IH|]. unfold world_dispatch. keeps.
Qed.
Lemma keeps_cancel p l : keeps (cancel_outbuf p l).
Proof. induction l as [|[a o] l IH]; cbn [cancel_outbuf]; keeps. Qed.
Lemma keeps_local_stop p : keeps (shuso_ipc_channel_local_stop p).
Proof.
  unfold shuso_ipc_channel_local_stop, get_local, mod_local.
  pose proof (keeps_cancel p). keeps.
Qed.
End keeps_system.
#[export] Hint Resolve keeps_set_error keeps_publish keeps_send keeps_send_workers keeps_send_each
  keeps_retry keeps_receive keeps_local_stop : keeps.

(** ** The manager's stop *)

Definition gone (s : runstate) : bool := bool_decide (s = STATE_STOPPED) || bool_decide (s = STATE_DEAD).
(** A stopped worker is joined and then dead. *)
Definition reaped (s : runstate) : runstate := if bool_decide (s = STATE_STOPPED) then STATE_DEAD else s.

Lemma reap_workers_spec l b w :
  ∃ w', reap_workers l b w = Some (b && forallb (λ i, gone (w_state w i)) l, w') ∧
    (∀ i, w_state w' i = if bool_decide (i ∈ l) then reaped (w_state w i) else w_state w i) ∧
    w_start w' = w_start w ∧ w_end w' = w_end w ∧ w_rings w' = w_rings w ∧ w_local w' = w_local w.
Proof.
  revert b w. induction l as [|i l IH]; intros b w.
  { exists w. simpl. rewrite andb_true_r. split_and!; try done. }
  simpl. unfold m_bind at 1, get_state, m_gets at 1.
  set (w1 := if bool_decide (w_state w i = STATE_STOPPED) then set_state i STATE_DEAD w else w).
  assert ((if bool_decide (w_state w i = STATE_STOPPED) then put_state i STATE_DEAD else m_ret tt) w
          = Some (tt, w1)) as Hput by (unfold w1, put_state, m_modify; by destruct (bool_decide _)).
  unfold m_bind. rewrite Hput. unfold m_gets.
  assert (∀ j, w_state w1 j = if bool_decide (j = i) then reaped (w_state w i) else w_state w j) as Hw1.
  { intros j. unfold w1, reaped. destruct (decide (j = i)) as [->|Hne].
    - rewrite (bool_decide_eq_true_2 (i = i)) by done.
      destruct (bool_decide (w_state w i = STATE_STOPPED)); [|done]. simpl. apply fupd_eq.
    - rewrite (bool_decide_eq_false_2 (j = i)) by done.
      destruct (bool_decide (w_state w i = STATE_STOPPED)); [|done]. simpl. by apply fupd_ne. }
  destruct (IH (if bool_decide (w_state w1 i ≠ STATE_DEAD) then false else b) w1)
    as (w' & He & Hst & Hs & Hend & Hr & Hl).
  exists w'. rewrite He. split_and!.
  - do 2 f_equal. rewrite Hw1, (bool_decide_eq_true_2 (i = i)) by done.
    assert (forallb (λ j, gone (w_state w1 j)) l = forallb (λ j, gone (w_state w j)) l) as ->.
    { clear -Hw1. induction l as [|j l IH]; simpl; [done|]. f_equal; [|done].
      rewrite Hw1. case_bool_decide; [|done]. subst. unfold gone, reaped. by destruct (w_state w i). }
    unfold gone at 2, reaped. by destruct (w_state w i), b.
  - intros j. rewrite Hst, Hw1. destruct (decide (j = i)) as [->|Hne].
    + rewrite (bool_decide_eq_true_2 (i = i)), (bool_decide_eq_true_2 (i ∈ i :: l)) by (done || by left).
      unfold reaped. destruct (bool_decide (i ∈ l)); by destruct (w_state w i).
    + rewrite (bool_decide_eq_false_2 (j = i)) by done.
      rewrite (bool_decide_ext (j ∈ i :: l) (j ∈ l)); [done|]. rewrite elem_of_cons. tauto.
  - rewrite Hs. unfold w1. by destruct (bool_decide _).
  - rewrite Hend. unfold w1. by destruct (bool_decide _).
  - rewrite Hr. unfold w1. by destruct (bool_decide _).
  - rewrite Hl. unfold w1. by destruct (bool_decide _).
Qed.

Lemma each_worker_elem w i : i ∈ each_worker w ↔ w_start w ≤ i < w_end w.
Proof.
  unfold each_worker. rewrite list_elem_of_fmap. split.
  - intros (k & -> & Hk%elem_of_seq). lia.
  - intros Hi. exists (Z.to_nat (i - w_start w)). split; [lia|]. apply elem_of_seq. lia.
Qed.

(** A stopping manager goes on exactly when every worker of the
    range is stopped or dead; the stopped workers then are dead, and no other
    run state changes. *)
Theorem manager_try_stop_correct `{Malloc} f w
    (Hs : w_state w SHUTTLESOCK_MANAGER = STATE_STOPPING)
    (Hr : 0 ≤ w_start w) :
  ∃ w', core_manager_try_stop SHUTTLESOCK_MANAGER f w
        = Some (forallb (λ i, gone (w_state w i)) (each_worker w), w') ∧
    ∀ i, w_state w' i = if bool_decide (w_start w ≤ i < w_end w) then reaped (w_state w i) else w_state w i.
Proof.
  destruct (reap_workers_spec (each_worker w) true w) as (w' & He & Hst & _).
  exists w'. unfold core_manager_try_stop, get_state, m_bind, m_assert, m_gets, m_get, m_ret. simpl.
  rewrite Hs. simpl. rewrite Hs. simpl. rewrite He. split; [done|]. intros i. rewrite Hst.
  by rewrite (bool_decide_ext _ _ (each_worker_elem w i)).
Qed.

(** ** The shutdown protocol *)

(** The system and which of the master and the manager have left their event loop. *)
Record sys := Sys { s_w : world; s_master_out : bool; s_manager_out : bool }.

Inductive sys_op :=
  | SysStop (p f : Z)            (* somebody calls shuso_stop *)
  | SysSignal (p signum : Z)
  | SysReceive (p : Z)           (* a notice arrives: ipc_receive *)
  | SysRetry (p : Z)
  | SysShutdown (p f : Z)        (* the timer that a received SHUTDOWN started *)
  | SysWorkerEnd (i : Z)         (* the end of "worker.stop": the worker's loop ends *)
  | SysManagerTry (f : Z)        (* "manager.stop" is published, or its delay is over *)
  | SysMasterTry                 (* likewise "master.stop" *)
  | SysSigchild (pid status : Z) (* the kernel reports a child of the master *)
  | SysLogFd (p fd : Z).

Definition published (p : Z) (name : string) (w : world) : bool :=
  existsb (λ e, (ev_proc e =? p) && bool_decide (ev_name e = name)) (w_events w).
Definition shutdown_called (p f : Z) (w : world) : bool :=
  existsb (λ c, (cr_proc c =? p) && bool_decide (cr_fn c = shutdown_handle) && (cr_ptr c =? f)) (w_calls w).

Section sys.
Context `{Malloc} (fuel : nat).

Definition on_world {A} (m : M world A) (s : sys) : option sys :=
  match m (s_w s) with
  | Some (_, w) => Some (Sys w (s_master_out s) (s_manager_out s))
  | None => None
  end.

Definition sys_do (o : sys_op) (s : sys) : option sys :=
  let w := s_w s in
  match o with
  | SysStop p f => on_world (shuso_stop p f) s
  | SysSignal p n => on_world (signal_watcher_cb p n) s
  | SysReceive p => on_world (world_receive fuel p) s
  | SysRetry p => on_world (ipc_send_retry_cb p) s
  | SysShutdown p f => if shutdown_called p f w then on_world (shutdown_handle_cb p f) s else None
  | SysWorkerEnd i =>
      if (SHUTTLESOCK_WORKER <=? i) && published i "worker.stop" w
      then on_world (shuso_worker_shutdown i) s else None
  | SysManagerTry f =>
      if published SHUTTLESOCK_MANAGER "manager.stop" w && negb (s_manager_out s) then
        match core_manager_try_stop SHUTTLESOCK_MANAGER f w with
        | Some (true, w') => Some (Sys (set_state SHUTTLESOCK_MANAGER STATE_STOPPED w') (s_master_out s) true)
        | Some (false, w') => Some (Sys w' (s_master_out s) false)
        | None => None
        end
      else None
  | SysMasterTry =>
      if published SHUTTLESOCK_MASTER "master.stop" w && negb (s_master_out s) then
        match core_master_try_stop SHUTTLESOCK_MASTER w with
        | Some (true, w') => Some (Sys (set_state SHUTTLESOCK_MASTER STATE_STOPPED w') true (s_manager_out s))
        | Some (false, w') => Some (Sys w' false (s_manager_out s))
        | None => None
        end
      else None
  | SysSigchild pid st => on_world (shuso_handle_sigchild SHUTTLESOCK_MASTER pid st) s
  | SysLogFd p fd => on_world (shuso_set_log_fd p fd) s
  end.

Fixpoint sys_run (os : list sys_op) (s : sys) : option sys :=
  match os with
  | [] => Some s
  | o :: os' => match sys_do o s with Some s' => sys_run os' s' | None => None end
  end.

Record sys_inv (s : sys) : Prop := SysInv {
  sy_start : 0 ≤ w_start (s_w s);
  sy_manager : s_manager_out s = true →
    ∀ i, w_start (s_w s) ≤ i < w_end (s_w s) → w_state (s_w s) i = STATE_DEAD;
  sy_master : s_master_out s = true → w_state (s_w s) SHUTTLESOCK_MANAGER = STATE_DEAD
}.

(** A computation that neither revives a process nor moves the worker range. *)
Definition no_revival {A} (m : M world A) : Prop :=
  ∀ w r w', m w = Some (r, w') →
    (∀ p, w_state w p = STATE_DEAD → w_state w' p = STATE_DEAD) ∧
    w_start w' = w_start w ∧ w_end w' = w_end w.

Lemma keeps_no_revival {A} (m : M world A) : keeps m → no_revival m.
Proof. intros Hk w r w' He. destruct (Hk _ _ _ He) as (-> & -> & ->). done. Qed.
Lemma no_revival_bind {A B} (m : M world A) (k : A → M world B) :
  no_revival m → (∀ a, no_revival (k a)) → no_revival (m_bind m k).
Proof.
  intros Hm Hk w r w'. unfold m_bind. destruct (m w) as [[a w1]|] eqn:He; [|done].
  intros He'. destruct (Hm _ _ _ He) as (Hd & Hs & Hen).
  destruct (Hk _ _ _ _ He') as (Hd' & -> & ->). split_and!; auto.
Qed.
Lemma on_world_inv {A} (m : M world A) s s' :
  no_revival m → sys_inv s → on_world m s = Some s' → sys_inv s'.
Proof.
  intros Hn [Hst Hmg Hms]. unfold on_world. destruct (m (s_w s)) as [[r w']|] eqn:He; [|done].
  intros [= <-]. destruct (Hn _ _ _ He) as (Hd & Hs & Hen).
  split; simpl; rewrite ?Hs, ?Hen; auto.
Qed.

(** The same from the worlds in which process [p] is in state [st]. *)
Definition no_revival_from {A} (p : Z) (st : runstate) (m : M world A) : Prop :=
  ∀ w r w', w_state w p = st → m w = Some (r, w') →
    (∀ p, w_state w p = STATE_DEAD → w_state w' p = STATE_DEAD) ∧
    w_start w' = w_start w ∧ w_end w' = w_end w.

Lemma no_revival_get {A} p (k : runstate → M world A) :
  (∀ st, no_revival_from p st (k st)) → no_revival (m_bind (get_state p) k).
Proof. intros Hk w r w' He. by eapply Hk. Qed.
Lemma from_no_revival {A} p st (m : M world A) : no_revival m → no_revival_from p st m.
Proof. intros Hm w r w' _. apply Hm. Qed.
Lemma no_revival_from_bind {A B} p st (m : M world A) (k : A → M world B) :
  no_revival_from p st m → (∀ a, no_revival (k a)) → no_revival_from p st (m_bind m k).
Proof.
  intros Hm Hk w r w' Hp. unfold m_bind. destruct (m w) as [[a w1]|] eqn:He; [|done].
  intros He'. destruct (Hm _ _ _ Hp He) as (Hd & Hs & Hen).
  destruct (Hk _ _ _ _ He') as (Hd' & -> & ->). split_and!; auto.
Qed.
Lemma no_revival_put p st st' : st ≠ STATE_DEAD → no_revival_from p st (put_state p st').
Proof.
  intros Hst w r w' Hp [= _ <-]. split_and!; try done. intros q Hq. simpl. unfold fupd.
  destruct (Z.eqb_spec q p) as [->|]; [congruence|done].
Qed.
Lemma no_revival_put_dead p : no_revival (put_state p STATE_DEAD).
Proof.
  intros w r w' [= _ <-]. split_and!; try done. intros q Hq. simpl. unfold fupd.
  by destruct (q =? p).
Qed.

Ltac no_revival :=
  repeat first
    [ solve [auto with no_revival]
    | solve [apply from_no_revival; auto with no_revival]
    | apply no_revival_get; intros ?
    | apply no_revival_bind; [|intros ?]
    | apply no_revival_from_bind; [|intros ?]
    | match goal with
      | |- no_revival_from _ ?st (put_state _ _) => apply no_revival_put
      | |- no_revival_from _ _ (if bool_decide (?s = ?t) then _ else _) =>
          destruct (decide (s = t)); [rewrite bool_decide_eq_true_2 by done; subst
                                     |rewrite bool_decide_eq_false_2 by done]
      | |- no_revival (if ?b then _ else _) => destruct b
      | |- no_revival (match ?x with _ => _ end) => destruct x
      | |- no_revival_from _ _ (if ?b then _ else _) => destruct b
      | |- no_revival_from _ _ (m_ret _) => apply from_no_revival
      end ].

Hint Extern 3 (no_revival _) => apply keeps_no_revival; solve [auto with keeps] : no_revival.
Hint Extern 3 (_ ≠ STATE_DEAD) => discriminate : no_revival.
Hint Resolve no_revival_put_dead : no_revival.

Lemma no_revival_stop p f : no_revival (shuso_stop p f).
Proof. apply keeps_no_revival. unfold shuso_stop, get_state. keeps. Qed.
Lemma no_revival_stop_manager p f : no_revival (shuso_stop_manager p f).
Proof. apply keeps_no_revival. unfold shuso_stop_manager, get_state. keeps. Qed.
Hint Resolve no_revival_stop no_revival_stop_manager : no_revival.
Lemma no_revival_stop_worker p q f : no_revival (shuso_stop_worker p q f).
Proof. unfold shuso_stop_worker. no_revival. Qed.
Hint Resolve no_revival_stop_worker : no_revival.
Lemma no_revival_shutdown_cb p f : no_revival (shutdown_handle_cb p f).
Proof. unfold shutdown_handle_cb. no_revival. Qed.
Lemma no_revival_from_assert {A} p st b (k : unit → M world A) :
  (b = true → no_revival_from p st (k tt)) → no_revival_from p st (m_bind (m_assert b) k).
Proof.
  intros Hk w r w' Hp. unfold m_bind, m_assert, m_ret, m_abort. destruct b; [|done]. by apply Hk.
Qed.
Lemma no_revival_worker_shutdown i : no_revival (shuso_worker_shutdown i).
Proof.
  unfold shuso_worker_shutdown. apply no_revival_bind; [auto with no_revival|]. intros _.
  apply no_revival_get. intros st. apply no_revival_from_assert. intros ->%bool_decide_eq_true.
  no_revival.
Qed.
Lemma no_revival_reap l b : no_revival (reap_workers l b).
Proof.
  intros w r w' He. destruct (reap_workers_spec l b w) as (w1 & He1 & Hst & Hs & Hen & _).
  rewrite He in He1. simplify_eq. split_and!; [|done|done]. intros p Hp. rewrite Hst, Hp.
  by destruct (bool_decide _).
Qed.
Hint Resolve no_revival_worker_shutdown no_revival_reap : no_revival.
Lemma no_revival_manager_try p f : no_revival (core_manager_try_stop p f).
Proof.
  unfold core_manager_try_stop. apply no_revival_bind; [auto with no_revival|]. intros _.
  apply no_revival_get. intros st. apply no_revival_from_bind; [no_revival|]. intros _.
  apply no_revival_get. intros st'. apply no_revival_from_assert. intros _. no_revival.
Qed.
Lemma no_revival_master_try p : no_revival (core_master_try_stop p).
Proof.
  unfold core_master_try_stop. apply no_revival_get. intros st.
  apply no_revival_from_bind; [no_revival|]. intros _. apply no_revival_get. intros m.
  apply from_no_revival. apply no_revival_bind; [no_revival|]. intros _. unfold get_state.
  apply keeps_no_revival. keeps.
Qed.
Lemma no_revival_sigchild p pid st : no_revival (shuso_handle_sigchild p pid st).
Proof.
  unfold shuso_handle_sigchild. destruct (sigchild_info_of pid st); [|apply keeps_no_revival; keeps].
  no_revival; apply keeps_no_revival; unfold get_state; keeps; apply keeps_ret.
Qed.
Lemma no_revival_signal p n : no_revival (signal_watcher_cb p n).
Proof. unfold signal_watcher_cb. no_revival. Qed.
Lemma no_revival_log p fd : no_revival (shuso_set_log_fd p fd).
Proof. apply keeps_no_revival. unfold shuso_set_log_fd. keeps. Qed.
Hint Resolve no_revival_shutdown_cb no_revival_manager_try no_revival_master_try
  no_revival_sigchild no_revival_signal no_revival_log : no_revival.

Lemma manager_try_inv f w b w' :
  core_manager_try_stop SHUTTLESOCK_MANAGER f w = Some (b, w') →
  w_state w SHUTTLESOCK_MANAGER ≠ STATE_DEAD ∧
  (b = true → ∀ i, w_start w' ≤ i < w_end w' → w_state w' i = STATE_DEAD).
Proof.
  unfold core_manager_try_stop. change (SHUTTLESOCK_MANAGER =? SHUTTLESOCK_MANAGER) with true.
  unfold m_assert at 1. unfold m_bind at 1, m_ret at 1. unfold m_bind at 1, get_state at 1, m_gets at 1.
  intros He. split.
  - intros Hd. rewrite Hd in He. simpl in He. unfold m_bind, m_ret, get_state, m_gets in He.
    rewrite Hd in He. done.
  - revert He. unfold m_bind at 1.
    match goal with |- match ?X with _ => _ end = _ → _ => destruct X as [[[] w1]|]; [|done] end.
    unfold m_bind, get_state, m_gets, m_assert, m_get, m_ret, m_abort.
    destruct (bool_decide (w_state w1 SHUTTLESOCK_MANAGER = STATE_STOPPING)); [|done].
    intros He ->. destruct (reap_workers_spec (each_worker w1) true w1) as (w2 & He2 & Hst & Hs & Hen & _).
    rewrite He in He2. injection He2 as Hf <-. simpl in Hf. symmetry in Hf. intros i Hi. rewrite Hs, Hen in Hi.
    apply each_worker_elem in Hi as Hin. rewrite Hst, bool_decide_eq_true_2 by done.
    assert (gone (w_state w1 i) = true) as Hg.
    { rewrite forallb_forall in Hf. by apply Hf, list_elem_of_In. }
    unfold gone, reaped in *. by destruct (w_state w1 i).
Qed.

Lemma master_try_inv w b w' :
  core_master_try_stop SHUTTLESOCK_MASTER w = Some (b, w') →
  b = true → w_state w' SHUTTLESOCK_MANAGER = STATE_DEAD.
Proof.
  unfold core_master_try_stop. unfold m_bind, get_state, m_gets, m_ret.
  repeat match goal with |- match ?X with _ => _ end = _ → _ => destruct X as [[[] ?]|]; [|done] end.
  intros [= <- <-] Hb. by apply bool_decide_eq_true in Hb.
Qed.

Lemma sys_do_inv o s s' : sys_inv s → sys_do o s = Some s' → sys_inv s'.
Proof.
  intros Hi. pose proof Hi as [Hst Hmg Hms]. destruct o; simpl;
    try (apply on_world_inv; [auto with no_revival|done]).
  - destruct (shutdown_called _ _ _); [|done]. apply on_world_inv; [auto with no_revival|done].
  - destruct (_ && _); [|done]. apply on_world_inv; [auto with no_revival|done].
  - destruct (published _ _ _); [|done]. simpl.
    destruct (s_manager_out s) eqn:Ho; [done|]. simpl.
    destruct (core_manager_try_stop _ _ _) as [[b w']|] eqn:He; [|done].
    destruct (no_revival_manager_try _ _ _ _ _ He) as (Hd & Hs & Hen).
    destruct (manager_try_inv _ _ _ _ He) as [Hnd Hb].
    destruct b; intros [= <-]; split; simpl; try done; try (by rewrite Hs); try (by auto).
    + intros _ i Hi'. unfold fupd. destruct (Z.eqb_spec i SHUTTLESOCK_MANAGER) as [->|]; [|by apply Hb].
      unfold SHUTTLESOCK_MANAGER in Hi'. lia.
    + intros Hm. by apply Hms in Hm.
  - destruct (published _ _ _); [|done]. simpl.
    destruct (s_master_out s) eqn:Ho; [done|]. simpl.
    destruct (core_master_try_stop _ _) as [[b w']|] eqn:He; [|done].
    destruct (no_revival_master_try _ _ _ _ He) as (Hd & Hs & Hen).
    pose proof (master_try_inv _ _ _ He) as Hb.
    destruct b; intros [= <-]; split; simpl; rewrite ?Hs, ?Hen; try done.
    + intros Hm i Hi'. unfold fupd. destruct (Z.eqb_spec i SHUTTLESOCK_MASTER) as [->|]; [|auto].
      unfold SHUTTLESOCK_MASTER in Hi'. lia.
    + intros Hm i Hi'. auto.
Qed.

(** C9: the shutdown protocol is in order.  From any system in which the worker range
    starts at 0 or later and nobody has left, whatever is stopped, received, retried, signalled or
    killed, in any order: when the manager has left its event loop every
    worker of the range is dead, and when the master has left its own the manager is dead. *)
Theorem shutdown_order os s0 s
    (Hrun : sys_run os s0 = Some s)
    (Hst : 0 ≤ w_start (s_w s0))
    (Hm : s_master_out s0 = false)
    (Hg : s_manager_out s0 = false) :
  (s_manager_out s = true →
     ∀ i, w_start (s_w s) ≤ i < w_end (s_w s) → w_state (s_w s) i = STATE_DEAD) ∧
  (s_master_out s = true → w_state (s_w s) SHUTTLESOCK_MANAGER = STATE_DEAD).
Proof.
  assert (sys_inv s0) as Hi by (split; [done|by rewrite Hg|by rewrite Hm]).
  clear Hst Hm Hg. revert s0 Hrun Hi. induction os as [|o os IH]; intros s0 Hrun Hi; simpl in Hrun.
  - simplify_eq. split; apply Hi.
  - destruct (sys_do o s0) as [s1|] eqn:He; [|done]. by eapply IH, sys_do_inv.
Qed.
End sys.

Section more.
Context `{Malloc}.

Lemma send_workers_false p c x l w : send_workers_loop p c x l false w = Some (false, w).
Proof. induction l as [|i l IH]; [done|]. simpl. unfold m_bind, m_ret. apply IH. Qed.

(** One worker that never started keeps the shutdown from the others.
    When the first worker of the range has no running state (its initialisation failed), a manager
    that begins to stop reports an error, sends no worker anything and
    delays the stop. *)
Theorem stop_skips_workers base f w
    (Hi : err_inv SHUTTLESOCK_MANAGER base w)
    (Hs : w_state w SHUTTLESOCK_MANAGER = STATE_RUNNING)
    (Hr : 0 ≤ w_start w < w_end w)
    (Hnil : w_state w (w_start w) = STATE_NIL) :
  ∃ w', core_manager_try_stop SHUTTLESOCK_MANAGER f w = Some (false, w') ∧
    w_rings w' = w_rings w ∧ l_outbuf (w_local w' SHUTTLESOCK_MANAGER) = l_outbuf (w_local w SHUTTLESOCK_MANAGER) ∧
    w_state w' SHUTTLESOCK_MANAGER = STATE_STOPPING ∧ w_state w' (w_start w) = STATE_NIL.
Proof.
  set (w1 := set_state SHUTTLESOCK_MANAGER STATE_STOPPING w).
  assert (w_start w ≠ SHUTTLESOCK_MANAGER) as Hne by (unfold SHUTTLESOCK_MANAGER; lia).
  assert (∃ l, each_worker w1 = w_start w :: l) as [l Hl].
  { unfold each_worker. change (w_end w1) with (w_end w). change (w_start w1) with (w_start w).
    replace (Z.to_nat (w_end w - w_start w)) with (S (Z.to_nat (w_end w - w_start w - 1))) by lia.
    simpl. rewrite Z.add_0_r. eauto. }
  assert (∃ w2, shuso_ipc_send_workers SHUTTLESOCK_MANAGER CMD_SHUTDOWN f w1 = Some (false, w2) ∧
            err_frame SHUTTLESOCK_MANAGER w1 w2) as (w2 & He2 & Hf2).
  { unfold shuso_ipc_send_workers, m_bind, m_get. rewrite Hl. simpl.
    unfold shuso_ipc_send, ipc_send_via, m_bind, m_get. simpl.
    rewrite fupd_ne, Hnil by done. simpl.
    destruct (Z.leb_spec SHUTTLESOCK_WORKER (w_start w)); [|unfold SHUTTLESOCK_WORKER in *; lia].
    match goal with |- context [shuso_set_error ?p ?m w1] =>
      destruct (set_error_spec p m base w1) as (w2 & He & Hrep); [by split; apply Hi|] end.
    rewrite He. unfold m_ret. exists w2. rewrite send_workers_false. split; [done|apply Hrep]. }
  assert (w_state w2 SHUTTLESOCK_MANAGER = STATE_STOPPING) as Hm2
    by (rewrite (ef_state _ _ _ Hf2); simpl; apply fupd_eq).
  assert (w_state w2 (w_start w) = STATE_NIL) as Hn2
    by (rewrite (ef_state _ _ _ Hf2); simpl; by rewrite fupd_ne).
  destruct (reap_workers_spec (each_worker w2) true w2) as (w' & He' & Hst' & Hs' & Hen' & Hr' & Hl').
  assert (each_worker w2 = each_worker w1) as Hew
    by (unfold each_worker; by rewrite (ef_start _ _ _ Hf2), (ef_end _ _ _ Hf2)).
  exists w'. split.
  - unfold core_manager_try_stop, get_state, put_state, m_assert, m_bind, m_gets, m_modify, m_get, m_ret.
    simpl. rewrite Hs. simpl. fold w1. rewrite He2. simpl. rewrite Hm2. simpl. rewrite He'.
    rewrite Hew, Hl. simpl. by rewrite Hn2.
  - split_and!.
    + by rewrite Hr', (ef_rings _ _ _ Hf2).
    + by rewrite Hl', (ef_outbuf _ _ _ Hf2).
    + rewrite Hst', Hm2. by destruct (bool_decide _).
    + rewrite Hst', Hn2. by destruct (bool_decide _).
Qed.

(** ** Threads that cannot be created *)

Lemma filter_fmap_none {A B} (P : B → Prop) `{∀ x, Decision (P x)} (f : A → B) l :
  (∀ x, x ∈ l → ¬ P (f x)) → filter P (f <$> l) = [].
Proof.
  induction l as [|x l IH]; intros Hp; [done|]. csimpl. rewrite filter_cons, decide_False.
  - apply IH. intros y Hy. apply Hp. by right.
  - apply Hp. by left.
Qed.

Lemma spawn_workers_loop_spec (thread_ok : Z → bool) l k base w :
  err_inv SHUTTLESOCK_MANAGER base w → NoDup l → (∀ i, i ∈ l → w_state w i = STATE_NIL) →
  ∃ w', spawn_workers_loop thread_ok (Some <$> l) k w
        = Some (k + Z.of_nat (length (filter (λ i, thread_ok i = false) l)), w') ∧
    (∀ i, w_state w' i = if bool_decide (i ∈ l) then STATE_STARTING else w_state w i) ∧
    w_start w' = w_start w ∧ w_end w' = w_end w.
Proof.
  revert k w. induction l as [|i l IH]; intros k w Hi Hnd Hnil; csimpl.
  { exists w. simpl. rewrite Z.add_0_r. split_and!; try done. }
  apply NoDup_cons in Hnd as [Hni Hnd].
  set (w1 := set_state i STATE_STARTING w).
  assert (∃ w2, shuso_spawn_worker (thread_ok i) i w = Some (thread_ok i, w2) ∧
    err_inv SHUTTLESOCK_MANAGER base w2 ∧ w_state w2 = w_state w1 ∧ w_start w2 = w_start w ∧ w_end w2 = w_end w)
    as (w2 & He2 & Hi2 & Hst2 & Hs2 & Hen2).
  { unfold shuso_spawn_worker, get_state, put_state, m_assert, m_bind, m_gets, m_modify, m_ret.
    rewrite Hnil, bool_decide_eq_true_2 by (done || by left). fold w1.
    destruct (thread_ok i); [exists w1; split_and!; try done; by split; apply Hi|].
    match goal with |- context [shuso_set_error ?p ?m w1] =>
      destruct (set_error_spec p m base w1) as (w2 & He & Hrep); [by split; apply Hi|] end.
    exists w2. destruct Hrep as [? ? ? ? ? ? ? Hf]. rewrite He, (ef_state _ _ _ Hf), (ef_start _ _ _ Hf), (ef_end _ _ _ Hf).
    done. }
  unfold m_bind. rewrite He2.
  destruct (IH (if thread_ok i then k else k + 1) w2 Hi2 Hnd) as (w3 & He3 & Hst3 & Hs3 & Hen3).
  { intros j Hj. rewrite Hst2. unfold w1. simpl. rewrite fupd_ne; [apply Hnil; by right|]. by intros ->. }
  exists w3. rewrite He3. split_and!; try congruence.
  - do 2 f_equal. rewrite filter_cons. destruct (thread_ok i); simpl; lia.
  - intros j. rewrite Hst3, Hst2. unfold w1. simpl. unfold fupd. destruct (Z.eqb_spec j i) as [->|Hne].
    + rewrite (bool_decide_eq_true_2 (i ∈ i :: l)) by by left. by destruct (bool_decide _).
    + rewrite (bool_decide_ext (j ∈ i :: l) (j ∈ l)); [done|]. rewrite elem_of_cons. tauto.
Qed.

(** The worker range after a failed start.  The range is shortened by the
    number of threads that could not be created, whichever they were: if only the first
    worker's thread fails, the first worker stays in the range though it never runs
    and the last worker was started but is outside the range. *)
Theorem spawn_range_wrong base n w
    (Hi : err_inv SHUTTLESOCK_MANAGER base w)
    (Hn : 2 ≤ n ≤ SHUTTLESOCK_MAX_WORKERS)
    (Hs : w_start w = 0) (He : w_end w = n)
    (Hnil : ∀ i, w_state w i = STATE_NIL) :
  ∃ w', shuso_spawn_workers (λ i, negb (i =? 0)) (Some <$> each_worker w) w = Some (false, w') ∧
    0 ∈ each_worker w' ∧ w_state w' (n - 1) = STATE_STARTING ∧ n - 1 ∉ each_worker w'.
Proof.
  assert (NoDup (each_worker w)) as Hnd.
  { unfold each_worker. apply NoDup_fmap_2; [intros ???; lia|apply NoDup_seq]. }
  destruct (spawn_workers_loop_spec (λ i, negb (i =? 0)) (each_worker w) 0 base w Hi Hnd)
    as (w' & Hl & Hst & Hs' & Hen'); [auto|].
  assert (length (filter (λ i, negb (i =? 0) = false) (each_worker w)) = 1%nat) as Hlen.
  { unfold each_worker. rewrite Hs, He.
    replace (Z.to_nat (n - 0)) with (S (Z.to_nat (n - 1))) by lia.
    cbn [seq]. rewrite fmap_cons, filter_cons, decide_True by done. cbn [length]. f_equal. rewrite filter_fmap_none; [done|].
    intros k Hk%elem_of_seq. simpl. destruct (Z.eqb_spec (0 + Z.of_nat k) 0); [lia|done]. }
  rewrite Hlen in Hl. change (0 + Z.of_nat 1) with 1 in Hl.
  unfold shuso_spawn_workers, m_bind, m_modify, m_ret. rewrite Hl.
  eexists. split; [done|]. rewrite !each_worker_elem. simpl. rewrite Hs', Hen', Hs, He.
  unfold SHUTTLESOCK_MAX_WORKERS in Hn.
  replace (u16 (n - 1)) with (n - 1) by (symmetry; apply (wrap_small 16); lia).
  split_and!; [lia|lia| |lia]. rewrite Hst, bool_decide_eq_true_2; [done|].
  apply each_worker_elem. lia.
Qed.
End more.

(** ** Wait statuses *)

Lemma sigchild_info_pid pid st :
  sigchild_info_of pid st
  = (λ i, SigchildInfo pid (si_state i) (si_code i) (si_status i)) <$> sigchild_info_of 0 st.
Proof. unfold sigchild_info_of. by repeat case_match. Qed.

(** A statement about the integers of a range, by evaluation. *)
Lemma range_check (P : Z → bool) (n : nat) :
  forallb (λ k, P (Z.of_nat k)) (seq 0 n) = true → ∀ z, 0 ≤ z < Z.of_nat n → P z = true.
Proof.
  intros Hf z Hz. rewrite forallb_forall in Hf.
  rewrite <- (Z2Nat.id z) by lia. apply Hf, list_elem_of_In, elem_of_seq. lia.
Qed.

(** The status word the kernel makes of an exit code, of a fatal signal (with or without a
    core dump), of a stop signal, and of a continuation. *)
Inductive wait_event := WaitExit (c : Z) | WaitKill (sig : Z) (core : bool) | WaitStop (sig : Z) | WaitCont.
Definition wait_status (e : wait_event) : Z :=
  match e with
  | WaitExit c => Z.shiftl c 8
  | WaitKill sig core => sig + (if core then 128 else 0)
  | WaitStop sig => Z.shiftl sig 8 + 127
  | WaitCont => 65535
  end.
Definition wait_event_ok (e : wait_event) : Prop :=
  match e with
  | WaitExit c => 0 ≤ c < 256
  | WaitKill sig _ => 0 < sig < 127
  | WaitStop sig => 0 ≤ sig < 255
  | WaitCont => True
  end.
Definition wait_info (pid : Z) (e : wait_event) : sigchild_info :=
  let st := wait_status e in
  match e with
  | WaitExit c => SigchildInfo pid CHILD_EXITED c st
  | WaitKill sig _ => SigchildInfo pid CHILD_KILLED sig st
  | WaitStop sig => SigchildInfo pid CHILD_STOPPED sig st
  | WaitCont => SigchildInfo pid CHILD_RUNNING 0 st
  end.

(** Wait statuses are decoded.  What [shuso_handle_sigchild] records of a
    child is what happened to it: every exit code, fatal signal, stop signal
    and continuation is told apart, with its code. *)
Theorem sigchild_decodes pid e
    (He : wait_event_ok e) :
  sigchild_info_of pid (wait_status e) = Some (wait_info pid e).
Proof.
  rewrite sigchild_info_pid.
  assert (sigchild_info_of 0 (wait_status e) = Some (wait_info 0 e)) as ->; [|by destruct e].
  destruct e as [c|sig core|sig|]; simpl in He; [| | |by vm_compute].
  - set (P c := bool_decide (sigchild_info_of 0 (wait_status (WaitExit c)) = Some (wait_info 0 (WaitExit c)))).
    pose proof (range_check P 256 ltac:(by vm_compute) c He) as Hr. by apply bool_decide_eq_true in Hr.
  - set (P s := (s =? 0) || bool_decide (sigchild_info_of 0 (wait_status (WaitKill s core))
                                         = Some (wait_info 0 (WaitKill s core)))).
    pose proof (range_check P 127 ltac:(by destruct core; vm_compute) sig ltac:(lia)) as Hr.
    apply orb_true_iff in Hr as [Hr|Hr]; [lia|by apply bool_decide_eq_true in Hr].
  - set (P c := bool_decide (sigchild_info_of 0 (wait_status (WaitStop c)) = Some (wait_info 0 (WaitStop c)))).
    pose proof (range_check P 255 ltac:(by vm_compute) sig He) as Hr. by apply bool_decide_eq_true in Hr.
Qed.

Lemma sigchild_decodes_witness :
  0 < 11 < 127 ∧
  sigchild_info_of 77 (wait_status (WaitKill 11 true)) = Some (wait_info 77 (WaitKill 11 true)).
Proof. split; [lia|]. apply (sigchild_decodes 77 (WaitKill 11 true)). simpl. lia. Defined.

(** ** Witnesses *)

(** The handlers that [shuso_ipc_commands_init] installs. *)
Definition stop_handlers : list (option ipc_handler) :=
  match shuso_ipc_commands_init 0 world_init with
  | Some (_, w) => c_handlers (common_of 0 w)
  | None => []
  end.
Definition stop_common : common :=
  Common STATE_RUNNING stop_handlers 1 false 4242 None None 2 50.
(** Two running workers. *)
Definition running_world : world :=
  World (λ _, STATE_RUNNING) 0 2 (λ _, ringbuf_init) ∅ ∅ (λ _, stop_common) (λ _, local_init)
    ∅ [] [].

(** The master is asked to stop; it tells the manager, the manager tells the workers, the
    workers end, the manager ends, the master hears of it and ends. *)
Definition clean_shutdown : list sys_op := [
  SysSignal SHUTTLESOCK_MASTER SIGINT; SysMasterTry;
  SysReceive SHUTTLESOCK_MANAGER; SysShutdown SHUTTLESOCK_MANAGER 2; SysManagerTry 2;
  SysReceive 0; SysReceive 1; SysShutdown 1 2; SysWorkerEnd 1; SysManagerTry 2;
  SysShutdown 0 2; SysWorkerEnd 0; SysManagerTry 2; SysMasterTry;
  SysSigchild 4242 0; SysMasterTry ].

Example clean_shutdown_ends :
  (λ s, (s_master_out s, s_manager_out s, w_state (s_w s) 0, w_state (s_w s) 1, w_state (s_w s) (-1)))
    <$> sys_run 10 clean_shutdown (Sys running_world false false)
  = Some (true, true, STATE_DEAD, STATE_DEAD, STATE_DEAD).
Proof. by vm_compute. Qed.

Lemma shutdown_order_witness :
  ∃ s, sys_run 10 clean_shutdown (Sys running_world false false) = Some s ∧
    (s_manager_out s = true →
       ∀ i, w_start (s_w s) ≤ i < w_end (s_w s) → w_state (s_w s) i = STATE_DEAD) ∧
    (s_master_out s = true → w_state (s_w s) SHUTTLESOCK_MANAGER = STATE_DEAD).
Proof.
  destruct (sys_run 10 clean_shutdown (Sys running_world false false)) as [s|] eqn:Hs;
    [|by vm_compute in Hs].
  exists s. split; [done|]. by apply (shutdown_order 10 clean_shutdown (Sys running_world false false) s).
Defined.

(** The manager is stopping, worker 0 has stopped, worker 1 has not. *)
Definition stopping_world : world :=
  set_state 0 STATE_STOPPED (set_state SHUTTLESOCK_MANAGER STATE_STOPPING running_world).

Lemma manager_try_stop_correct_witness :
  ∃ w', core_manager_try_stop SHUTTLESOCK_MANAGER 2 stopping_world
        = Some (forallb (λ i, gone (w_state stopping_world i)) (each_worker stopping_world), w') ∧
    ∀ i, w_state w' i = if bool_decide (w_start stopping_world ≤ i < w_end stopping_world)
                        then reaped (w_state stopping_world i) else w_state stopping_world i.
Proof. apply (manager_try_stop_correct 2 stopping_world); by vm_compute. Defined.

(** Worker 0 could not be initialised. *)
Definition broken_world : world := set_state 0 STATE_NIL running_world.

Lemma running_world_errors p : err_inv p ∅ running_world.
Proof. split; [by intros ???? []|apply owns_nil]. Qed.

Lemma stop_skips_workers_witness :
  ∃ w', core_manager_try_stop SHUTTLESOCK_MANAGER 2 broken_world = Some (false, w') ∧
    w_rings w' = w_rings broken_world ∧
    l_outbuf (w_local w' SHUTTLESOCK_MANAGER) = l_outbuf (w_local broken_world SHUTTLESOCK_MANAGER) ∧
    w_state w' SHUTTLESOCK_MANAGER = STATE_STOPPING ∧ w_state w' (w_start broken_world) = STATE_NIL.
Proof.
  apply (stop_skips_workers ∅ 2 broken_world).
  - by split; apply (running_world_errors SHUTTLESOCK_MANAGER).
  - by vm_compute.
  - by vm_compute.
  - by vm_compute.
Defined.

(** Three workers to be started. *)
Definition starting_world : world :=
  World (λ _, STATE_NIL) 0 3 (λ _, ringbuf_init) ∅ ∅ (λ _, stop_common) (λ _, local_init) ∅ [] [].

Lemma spawn_range_wrong_witness :
  ∃ w', shuso_spawn_workers (λ i, negb (i =? 0)) (Some <$> each_worker starting_world) starting_world
        = Some (false, w') ∧
    0 ∈ each_worker w' ∧ w_state w' (3 - 1) = STATE_STARTING ∧ 3 - 1 ∉ each_worker w'.
Proof.
  apply (spawn_range_wrong ∅ 3 starting_world).
  - split; [by intros ???? []|apply owns_nil].
  - by vm_compute.
  - done.
  - done.
  - done.
Defined.
