(* ===== verification/Watchers.v ===== *)
(** The timers of src/src/watchers.c and the doubly linked list macros of
    src/src/include/shuttlesock/llist.h they are kept in, with the clean-up loop of
    src/src/shuttlesock.c.  The event loop is libev's; a timer here is started or
    stopped. *)

From S2P Require Import Prelude Heap.

(** A [shuso_ev_timer_link_t]: the links and whether the timer in it is started. *)
Record tlink := TLink { tl_prev : option Z; tl_next : option Z; tl_active : bool }.
Definition SIZEOF_TIMER_LINK : Z := 64.

(** [S->base_watchers.timer] with the memory of its links. *)
Record timers := Timers {
  t_heap : heap;
  t_links : gmap Z tlink;
  t_head : option Z;
  t_tail : option Z;
  t_count : Z
}.

Section timers.
Context `{Malloc}.

(** Access to a link that is not live memory is undefined. *)
Definition deref (a : Z) : M timers tlink :=
  λ t, match t_links t !! a with Some k => Some (k, t) | None => None end.
Definition assign (a : Z) (f : tlink → tlink) : M timers unit :=
  λ t, match t_links t !! a with
       | Some k => Some (tt, Timers (t_heap t) (<[a := f k]> (t_links t)) (t_head t) (t_tail t) (t_count t))
       | None => None
       end.
Definition set_prev (p : option Z) (k : tlink) : tlink := TLink p (tl_next k) (tl_active k).
Definition set_next (n : option Z) (k : tlink) : tlink := TLink (tl_prev k) n (tl_active k).
Definition set_active (b : bool) (k : tlink) : tlink := TLink (tl_prev k) (tl_next k) b.
Definition set_head (p : option Z) : M timers unit :=
  m_modify (λ t, Timers (t_heap t) (t_links t) p (t_tail t) (t_count t)).
Definition set_tail (p : option Z) : M timers unit :=
  m_modify (λ t, Timers (t_heap t) (t_links t) (t_head t) p (t_count t)).
Definition add_count (d : Z) : M timers unit :=
  m_modify (λ t, Timers (t_heap t) (t_links t) (t_head t) (t_tail t) (u64 (t_count t + d))).

Definition llist_init : M timers unit :=
  m_modify (λ t, Timers (t_heap t) (t_links t) None None 0).

Definition llist_append (el : Z) : M timers unit :=
  t <- m_get ;;
  match t_tail t with
  | None => set_tail (Some el) ;;; set_head (Some el) ;;; assign el (set_prev None)
  | Some last =>
      assign last (set_next (Some el)) ;;;
      assign el (set_prev (Some last)) ;;;
      set_tail (Some el)
  end ;;;
  add_count 1 ;;;
  assign el (set_next None).

Definition llist_prepend (el : Z) : M timers unit :=
  t <- m_get ;;
  match t_head t with
  | None => set_head (Some el) ;;; assign el (set_next None)
  | Some h => assign h (set_prev (Some el)) ;;; assign el (set_next (Some h))
  end ;;;
  t <- m_get ;;
  (match t_tail t with None => set_tail (Some el) | Some _ => m_ret tt end) ;;;
  add_count 1 ;;;
  assign el (set_prev None).

(** [p ? p->next : NULL] and [p ? p->prev : NULL] *)
Definition next_of (p : option Z) : M timers (option Z) :=
  match p with None => m_ret None | Some a => k <- deref a ;; m_ret (tl_next k) end.
Definition prev_of (p : option Z) : M timers (option Z) :=
  match p with None => m_ret None | Some a => k <- deref a ;; m_ret (tl_prev k) end.

Definition llist_remove (el : Z) : M timers unit :=
  t <- m_get ;;
  k <- deref el ;;
  (if bool_decide (t_tail t = Some el) then set_tail (tl_prev k) else m_ret tt) ;;;
  (match t_head t with Some _ => set_head (tl_next k) | None => m_ret tt end) ;;;
  k <- deref el ;;
  (match tl_next k with
   | Some n => v <- next_of (tl_prev k) ;; assign n (set_prev v)
   | None => m_ret tt
   end) ;;;
  k <- deref el ;;
  (match tl_prev k with
   | Some p => v <- prev_of (tl_next k) ;; assign p (set_next v)
   | None => m_ret tt
   end) ;;;
  add_count (-1) ;;;
  assign el (set_next None) ;;;
  assign el (set_prev None).

(** [malloc] of a link, whose contents are then set, and [free] of it. *)
Definition link_malloc : M timers (option Z) :=
  λ t, match h_malloc SIZEOF_TIMER_LINK (t_heap t) with
       | Some (Some a, h) =>
           Some (Some a, Timers h (<[a := TLink None None false]> (t_links t)) (t_head t) (t_tail t) (t_count t))
       | Some (None, h) => Some (None, Timers h (t_links t) (t_head t) (t_tail t) (t_count t))
       | None => None
       end.
Definition link_free (a : Z) : M timers unit :=
  λ t, match h_free a (t_heap t) with
       | Some (_, h) => Some (tt, Timers h (delete a (t_links t)) (t_head t) (t_tail t) (t_count t))
       | None => None
       end.

Definition shuso_add_timer_watcher : M timers (option Z) :=
  r <- link_malloc ;;
  match r with
  | None => m_ret None
  | Some wl =>
      assign wl (set_active true) ;;;
      llist_append wl ;;;
      m_ret (Some wl)
  end.

Definition shuso_remove_timer_watcher (wl : Z) : M timers unit :=
  assign wl (set_active false) ;;;
  llist_remove wl ;;;
  link_free wl.

(** [DELETE_BASE_WATCHERS(S, timer)]; [fuel] bounds the loop. *)
Fixpoint delete_loop (fuel : nat) (cur : option Z) : M timers unit :=
  match cur with
  | None => m_ret tt
  | Some a =>
      match fuel with
      | O => m_abort
      | S fuel' =>
          k <- deref a ;;
          let next := tl_next k in
          assign a (set_active false) ;;;
          link_free a ;;;
          delete_loop fuel' next
      end
  end.
Definition delete_base_watchers (fuel : nat) : M timers unit :=
  t <- m_get ;; delete_loop fuel (t_head t) ;;; llist_init.

(** ** Timers used first in, first out *)

(** The links of a list of started timers. *)
Fixpoint chain (prev : option Z) (l : list Z) : gmap Z tlink :=
  match l with
  | [] => ∅
  | a :: l' => <[a := TLink prev (head l') true]> (chain (Some a) l')
  end.

Definition link_blocks (l : list Z) : list block := (λ a, (a, SIZEOF_TIMER_LINK)) <$> l.

(** The list is what the pointers say, and its memory is what the heap has beside [base]. *)
Record tlist (base : heap) (l : list Z) (t : timers) : Prop := TList {
  tl_wf : heap_wf (t_heap t);
  tl_owns : owns (t_heap t) base (link_blocks l);
  tl_nodup : NoDup l;
  tl_links : t_links t = chain None l;
  tl_head : t_head t = head l;
  tl_tail : t_tail t = last l;
  tl_count : t_count t = Z.of_nat (length l)
}.

Lemma chain_lookup_notin prev l a : a ∉ l → chain prev l !! a = None.
Proof.
  revert prev. induction l as [|b l IH]; intros prev Ha; simpl; [done|].
  apply not_elem_of_cons in Ha as [? ?]. rewrite lookup_insert_ne by done. auto.
Qed.

(** Appending [x] changes the link of the last element and adds one. *)
Lemma chain_snoc prev l y x :
  NoDup (l ++ [y]) → x ∉ l ++ [y] →
  chain prev ((l ++ [y]) ++ [x])
  = <[x := TLink (Some y) None true]>
      (<[y := TLink (match last l with Some z => Some z | None => prev end) (Some x) true]>
         (chain prev (l ++ [y]))).
Proof.
  revert prev. induction l as [|a l IH]; intros prev Hnd Hx; simpl.
  - apply not_elem_of_cons in Hx as [Hx _].
    rewrite insert_insert_eq, insert_insert_ne by done. done.
  - simpl in Hnd, Hx. apply NoDup_cons in Hnd as [Ha Hnd].
    apply not_elem_of_cons in Hx as [Hxa Hx].
    assert (y ≠ a) as Hya by (intros ->; apply Ha; set_solver).
    rewrite IH by done.
    rewrite (insert_insert_ne _ y a), (insert_insert_ne _ x a) by done.
    replace (head ((l ++ [y]) ++ [x])) with (head (l ++ [y])) by by destruct l.
    do 2 f_equal. f_equal. destruct l as [|b l]; [done|]. simpl.
    by destruct (last (b :: l)) eqn:Hl; [|apply last_None in Hl].
Qed.

Lemma link_malloc_spec base l t :
  tlist base l t →
  ∃ r t', link_malloc t = Some (r, t') ∧
    match r with
    | None => tlist base l t'
    | Some a => a ∉ l ∧ heap_wf (t_heap t') ∧ owns (t_heap t') base (link_blocks (l ++ [a])) ∧
                t' = Timers (t_heap t') (<[a := TLink None None false]> (t_links t))
                       (t_head t) (t_tail t) (t_count t)
    end.
Proof.
  intros [Hwf Ho Hnd Hl Hh Ht Hc]. unfold link_malloc.
  destruct (h_malloc SIZEOF_TIMER_LINK (t_heap t)) as [[r h]|] eqn:Hm;
    [|unfold h_malloc in Hm; by destruct (malloc_fn _ _)].
  pose proof (h_malloc_inv SIZEOF_TIMER_LINK _ _ _ ltac:(done) Hwf Hm) as Hr.
  destruct r as [a|].
  - destruct Hr as (-> & Hwf' & Hfresh & _). eexists (Some a), _. split; [done|]. simpl.
    split_and!; [|done| |done].
    + intros Ha. assert (t_heap t !! a = Some SIZEOF_TIMER_LINK) as Hsome; [|congruence].
      eapply owns_lookup; [exact Ho|]. unfold link_blocks. apply list_elem_of_fmap. eauto.
    + unfold link_blocks. rewrite fmap_app, Permutation_app_comm. by apply owns_insert.
  - subst h. eexists None, _. split; [done|]. by split.
Qed.

Lemma add_timer_spec base l t :
  tlist base l t → Z.of_nat (length l) + 1 < 2 ^ 64 →
  ∃ r t', shuso_add_timer_watcher t = Some (r, t') ∧
    match r with Some a => a ∉ l ∧ tlist base (l ++ [a]) t' | None => tlist base l t' end.
Proof.
  intros Htl Hlen. unfold shuso_add_timer_watcher, m_bind, m_ret.
  destruct (link_malloc_spec base l t Htl) as (r & t1 & -> & Hr). destruct r as [a|]; [|by eexists None, _].
  destruct Hr as (Ha & Hwf & Ho & Ht1). destruct Htl as [_ _ Hnd Hl Hh Ht Hc].
  rewrite Ht1. unfold llist_append, assign, set_tail, set_head, add_count, m_get, m_bind, m_modify.
  simpl. rewrite lookup_insert_eq. simpl. rewrite Ht.
  assert (u64 (t_count t + 1) = Z.of_nat (length (l ++ [a]))) as Hcount.
  { rewrite Hc, length_app, u64_small; simpl; lia. }
  assert (NoDup (l ++ [a])) as Hnd' by (apply NoDup_app; split_and!; [done|set_solver|apply NoDup_singleton]).
  destruct l as [|y l _] using rev_ind.
  - repeat (rewrite ?insert_insert_eq, ?lookup_insert_eq; simpl).
    eexists (Some a), _. split; [done|]. split; [done|].
    split; simpl; try done. by rewrite Hl.
  - rewrite last_snoc. simpl.
    apply not_elem_of_app in Ha as [Ha Hay]. rewrite list_elem_of_singleton in Hay.
    assert (chain None (l ++ [y]) !! y = Some (TLink (last l) None true)) as Hy.
    { clear -Hnd. assert (∀ p, chain p (l ++ [y]) !! y = Some (TLink (match last l with Some z => Some z | None => p end) None true)) as Hg.
      { induction l as [|b l IH]; intros p; simpl; [by rewrite lookup_insert_eq|].
        apply NoDup_cons in Hnd as [Hb Hnd]. rewrite lookup_insert_ne by (intros ->; set_solver).
        rewrite IH by done. do 2 f_equal. destruct l as [|c l]; [done|]. simpl.
        by destruct (last (c :: l)) eqn:Hl; [|apply last_None in Hl]. }
      rewrite Hg. by destruct (last l). }
    rewrite Hl. repeat (rewrite ?insert_insert_eq, ?lookup_insert_eq, ?lookup_insert_ne, ?Hy by done; simpl).
    rewrite (insert_insert_ne _ y a), insert_insert_eq by done.
    eexists (Some a), _. split; [done|].
    split; [by apply not_elem_of_app; rewrite list_elem_of_singleton|].
    split; simpl; try done.
    + rewrite chain_snoc; [|done|by apply not_elem_of_app; rewrite list_elem_of_singleton].
      f_equal. f_equal. by destruct (last l).
    + rewrite Hh. by destruct l.
    + by rewrite last_snoc.
Qed.

(** Removing the first timer. *)
Lemma remove_head_spec base a l t :
  tlist base (a :: l) t → Z.of_nat (length l) + 1 < 2 ^ 64 →
  ∃ t', shuso_remove_timer_watcher a t = Some (tt, t') ∧ tlist base l t'.
Proof.
  intros [Hwf Ho Hnd Hl Hh Ht Hc] Hlen.
  apply NoDup_cons in Hnd as [Ha Hnd]. simpl in Hl, Hh, Hc.
  unfold shuso_remove_timer_watcher, llist_remove, assign, deref, set_tail, set_head, add_count,
    next_of, prev_of, link_free, m_get, m_bind, m_modify, m_ret.
  rewrite Hl, Hh, lookup_insert_eq. simpl.
  pose proof (h_free_owned (t_heap t) base (link_blocks l) a SIZEOF_TIMER_LINK Ho) as Hfree.
  rewrite Hc.
  assert (u64 (Z.of_nat (length (a :: l)) + -1) = Z.of_nat (length l)) as Hcount
    by (rewrite u64_small; simpl; lia).
  destruct l as [|b l].
  - rewrite Ht, bool_decide_eq_true_2 by done.
    repeat (rewrite ?insert_insert_eq, ?lookup_insert_eq; simpl). rewrite Hfree.
    eexists. split; [done|]. split; simpl; try done.
    + by apply heap_wf_delete.
    + by apply owns_delete in Ho.
    + by rewrite delete_insert_eq.
  - assert (a ≠ b) as Hab by (intros ->; apply Ha; by left).
    rewrite bool_decide_eq_false_2.
    2:{ rewrite Ht. intros He. apply Ha. apply last_Some_elem_of. by rewrite <- He. }
    repeat (rewrite ?insert_insert_eq, ?lookup_insert_eq, ?lookup_insert_ne by done; simpl).
    rewrite Hfree. eexists. split; [done|]. split; simpl; try done.
    + by apply heap_wf_delete.
    + by apply owns_delete in Ho.
    + rewrite delete_insert_eq, delete_insert_ne, delete_insert_eq, delete_insert_ne, insert_insert_eq by done.
      rewrite delete_id; [done|]. apply chain_lookup_notin.
      by apply not_elem_of_cons in Ha as [_ Ha].
Qed.

Lemma delete_loop_spec base l t prev fuel :
  heap_wf (t_heap t) → owns (t_heap t) base (link_blocks l) → NoDup l → t_links t = chain prev l →
  (length l ≤ fuel)%nat →
  ∃ t', delete_loop fuel (head l) t = Some (tt, t') ∧ heap_wf (t_heap t') ∧ t_heap t' = base ∧
    t_links t' = ∅.
Proof.
  revert t prev fuel. induction l as [|a l IH]; intros t prev fuel Hwf Ho Hnd Hl Hf.
  - destruct Ho as [Heq _ _]. simpl in *. exists t. destruct fuel; simpl; unfold m_ret;
      (split_and!; [done|done| |done]); by rewrite Heq, (left_id_L ∅ (∪)).
  - destruct fuel as [|fuel]; simpl in Hf; [lia|]. apply NoDup_cons in Hnd as [Ha Hnd]. simpl in Hl.
    simpl. unfold deref, assign, link_free, m_bind.
    repeat (rewrite ?Hl, ?insert_insert_eq, ?lookup_insert_eq; simpl).
    rewrite (h_free_owned (t_heap t) base (link_blocks l) a SIZEOF_TIMER_LINK Ho).
    match goal with |- context [delete_loop fuel _ ?t1] => set (t2 := t1) end.
    destruct (IH t2 (Some a) fuel) as (t' & He & Hwf' & Hh & Hl'); simpl.
    + by apply heap_wf_delete.
    + by apply owns_delete in Ho.
    + done.
    + rewrite delete_insert_eq, delete_id; [done|by apply chain_lookup_notin].
    + lia.
    + exists t'. by rewrite He.
Qed.

(** ** Programs *)

Inductive timer_op := TimerAdd | TimerRemoveFirst.

(** [TimerRemoveFirst] removes the timer that is first in the list, the oldest one. *)
Definition timer_step (o : timer_op) : M timers unit :=
  match o with
  | TimerAdd => shuso_add_timer_watcher ;;; m_ret tt
  | TimerRemoveFirst =>
      t <- m_get ;;
      match t_head t with Some a => shuso_remove_timer_watcher a | None => m_ret tt end
  end.
Fixpoint timer_run (os : list timer_op) : M timers unit :=
  match os with [] => m_ret tt | o :: os' => timer_step o ;;; timer_run os' end.

Definition timers_init (h : heap) : timers := Timers h ∅ None None 0.

Lemma timer_run_spec base os l t :
  tlist base l t → Z.of_nat (length l) + Z.of_nat (length os) + 1 < 2 ^ 64 →
  ∃ l' t', timer_run os t = Some (tt, t') ∧ tlist base l' t' ∧
           (length l' ≤ length l + length os)%nat.
Proof.
  revert l t. induction os as [|o os IH]; intros l t Ht Hb; simpl in *.
  { exists l, t. split_and!; [done|done|lia]. }
  assert (∃ l1 t1, timer_step o t = Some (tt, t1) ∧ tlist base l1 t1 ∧ (length l1 ≤ length l + 1)%nat)
    as (l1 & t1 & He & Ht1 & Hlen).
  { destruct o; simpl.
    - destruct (add_timer_spec base l t Ht) as (r & t1 & He & Hr); [lia|].
      unfold m_bind, m_ret. rewrite He. destruct r as [a|].
      + exists (l ++ [a]), t1. rewrite length_app. simpl. split_and!; [done|apply Hr|lia].
      + exists l, t1. split_and!; [done|done|lia].
    - unfold m_bind, m_get, m_ret. rewrite (tl_head _ _ _ Ht). destruct l as [|a l]; simpl.
      + exists [], t. split_and!; [done|done|simpl; lia].
      + destruct (remove_head_spec base a l t Ht) as (t1 & He & Ht1); [simpl in *; lia|].
        exists l, t1. split_and!; [done|done|simpl; lia]. }
  destruct (IH l1 t1 Ht1) as (l2 & t2 & He2 & Ht2 & Hlen2); [lia|].
  exists l2, t2. unfold m_bind. rewrite He. split_and!; [done|done|lia].
Qed.

(** Timers that end in the order they were added.  When every timer that is
    removed is the oldest, any number of additions and removals keeps a well-formed list, and
    the clean-up then stops and frees every timer that is left: the heap is the rest of the
    program's again. *)
Theorem timers_fifo_clean h os
    (Hwf : heap_wf h)
    (Hb : Z.of_nat (length os) + 1 < 2 ^ 64) :
  ∃ t', (timer_run os ;;; delete_base_watchers (length os)) (timers_init h) = Some (tt, t') ∧
    t_heap t' = h ∧ t_links t' = ∅ ∧ t_count t' = 0.
Proof.
  assert (tlist h [] (timers_init h)) as Hi.
  { split; simpl; try done; [apply owns_nil|constructor]. }
  destruct (timer_run_spec h os [] _ Hi) as (l & t1 & He & Ht1 & Hlen); [simpl; lia|].
  destruct Ht1 as [Hwf1 Ho1 Hnd1 Hl1 Hh1 Htl1 Hc1].
  destruct (delete_loop_spec h l t1 None (length os)) as (t2 & He2 & _ & Hh2 & Hl2); try done.
  unfold delete_base_watchers, llist_init, m_bind, m_get, m_modify. rewrite He, Hh1, He2.
  eexists. by split_and!.
Qed.
End timers.

Lemma timers_fifo_clean_witness :
  ∃ t', (timer_run [TimerAdd; TimerAdd; TimerRemoveFirst; TimerAdd] ;;;
         delete_base_watchers (length [TimerAdd; TimerAdd; TimerRemoveFirst; TimerAdd])) (timers_init ∅)
        = Some (tt, t') ∧ t_heap t' = ∅ ∧ t_links t' = ∅ ∧ t_count t' = 0.
Proof.
  apply (timers_fifo_clean ∅ [TimerAdd; TimerAdd; TimerRemoveFirst; TimerAdd]).
  - by intros ???? [].
  - by vm_compute.
Defined.

(** ** Timers that end out of order *)

(** Add timers and remove some of them, by the position they were added in. *)
Fixpoint add_timers `{Malloc} (n : nat) : M timers (list Z) :=
  match n with
  | O => m_ret []
  | S n' =>
      r <- shuso_add_timer_watcher ;;
      match r with
      | Some a => rs <- add_timers n' ;; m_ret (a :: rs)
      | None => m_abort
      end
  end.
Fixpoint remove_timers `{Malloc} (added : list Z) (which : list nat) : M timers unit :=
  match which with
  | [] => m_ret tt
  | i :: which' =>
      match added !! i with
      | Some a => shuso_remove_timer_watcher a ;;; remove_timers added which'
      | None => m_abort
      end
  end.

(** A timer removed out of order loses the others or corrupts the list.
    [llist_remove] moves the head to the successor of whatever it removes.  Of two timers, removing
    the second empties the list from its head although the first is still running: the
    clean-up leaves it started and its memory allocated.  Of three, removing the second leaves its
    neighbours pointing at freed memory: removing the third then accesses it. *)
Theorem timer_remove_out_of_order :
  (∃ a t, (added <- add_timers 2 ;; remove_timers added [1%nat] ;;; delete_base_watchers 5) (timers_init ∅)
          = Some (tt, t) ∧
    t_links t !! a = Some (TLink None None true) ∧ t_heap t !! a = Some SIZEOF_TIMER_LINK) ∧
  (∃ a b c t, (added <- add_timers 3 ;; remove_timers added [1%nat]) (timers_init ∅) = Some (tt, t) ∧
    t_links t !! a = Some (TLink None (Some b) true) ∧
    t_links t !! c = Some (TLink (Some b) None true) ∧ t_heap t !! b = None) ∧
  (added <- add_timers 3 ;; remove_timers added [1%nat; 2%nat]) (timers_init ∅) = None.
Proof.
  split_and!; [|exists 16, 80, 144|by vm_compute].
  - exists 16. match goal with |- context [?m (timers_init ∅)] => set (r := m (timers_init ∅)) end.
    assert ((λ x, (t_links x.2 !! 16, t_heap x.2 !! 16)) <$> r
            = Some (Some (TLink None None true), Some SIZEOF_TIMER_LINK)) as Hr by by vm_compute.
    destruct r as [[[] t]|]; [|done]. exists t. by simplify_eq/=.
  - match goal with |- context [?m (timers_init ∅)] => set (r := m (timers_init ∅)) end.
    assert ((λ x, (t_links x.2 !! 16, t_links x.2 !! 144, t_heap x.2 !! 80)) <$> r
            = Some (Some (TLink None (Some 80) true), Some (TLink (Some 80) None true), None)) as Hr
      by by vm_compute.
    destruct r as [[[] t]|]; [|done]. exists t. by simplify_eq/=.
Qed.
