(* ===== verification/Buffer.v ===== *)
(** The buffers of src/src/buffer.c: a queue of links, each in one block of memory with the data
    it describes, allocated by [malloc], from a pool or from the shared slab.  The memory is
    an interface, [BufMem]; a buffer's theorems hold for all its instances. *)

From S2P Require Import Prelude Heap Pool.

(** ** Data *)

(** [shuso_buffer_data_type_t] and [shuso_buffer_memory_type_t] *)
Inductive data_type := SHUSO_BUF_MSGHDR | SHUSO_BUF_IOVEC | SHUSO_BUF_CHARBUF.
Inductive memory_type :=
  SHUSO_BUF_DEFAULT | SHUSO_BUF_HEAP | SHUSO_BUF_POOL | SHUSO_BUF_FIXED | SHUSO_BUF_SHARED
| SHUSO_BUF_MMAPPED | SHUSO_BUF_EXTERNAL.
#[export] Instance memory_type_eq_dec : EqDecision memory_type.
Proof. solve_decision. Defined.

(** [shuso_buffer_link_t]: the pointer ([msg], [iov] or [buf]), the number ([iovcnt], [len] or
    [flags]), and the rest. *)
Record blink := BLink {
  bl_ptr : Z;
  bl_num : Z;
  bl_data_type : data_type;
  bl_memory_type : memory_type;
  bl_have_cleanup : bool;
  bl_next : option Z
}.

(** [shuso_buffer_link_cleanup_t] *)
Record link_cleanup := LinkCleanup { lc_privdata : Z; lc_cleanup : Z }.

(** The [struct msgblob_s] of a link that carries a file descriptor: the message's one [iovec] and
    its control message. *)
Record msgblob := MsgBlob {
  mb_iov_base : Z;
  mb_iov_len : Z;
  mb_iovlen : Z;
  mb_controllen : Z;
  mb_cmsg_len : Z;
  mb_cmsg_fd : Z
}.

(** Sizes of the structs on LP64 targets. *)
Definition sizeof_buffer_link : Z := 32.
Definition sizeof_link_with_cleanup : Z := 48.
Definition sizeof_iovec : Z := 16.
Definition sizeof_msgblob : Z := 96.
Definition CMSG_SPACE_int : Z := 24.
Definition CMSG_LEN_int : Z := 20.

(** ** The allocators a buffer calls *)

(** [malloc] and [free], [shuso_palloc], [shuso_shared_slab_alloc] and [shuso_shared_slab_free]
    over some memory [A]. *)
Class BufMem (A : Type) := {
  bm_malloc : Z → M A (option Z);
  bm_free : Z → M A unit;
  bm_palloc : Z → M A (option Z);
  bm_slab_alloc : Z → M A (option Z);
  bm_slab_free : Z → M A unit
}.

Definition mem_alloc `{BufMem A} (mt : memory_type) (sz : Z) : M A (option Z) :=
  match mt with
  | SHUSO_BUF_HEAP => bm_malloc sz
  | SHUSO_BUF_POOL => bm_palloc sz
  | SHUSO_BUF_FIXED => m_abort
  | SHUSO_BUF_SHARED => bm_slab_alloc sz
  | SHUSO_BUF_DEFAULT | SHUSO_BUF_EXTERNAL | SHUSO_BUF_MMAPPED => m_abort
  end.

Definition mem_free `{BufMem A} (mt : memory_type) (a : Z) : M A unit :=
  match mt with
  | SHUSO_BUF_HEAP => bm_free a
  | SHUSO_BUF_POOL => m_ret tt
  | SHUSO_BUF_FIXED => m_ret tt
  | SHUSO_BUF_SHARED => bm_slab_free a
  | SHUSO_BUF_DEFAULT | SHUSO_BUF_EXTERNAL | SHUSO_BUF_MMAPPED => m_abort
  end.

(** What a buffer relies on, for the memory type it is set up with: [bm_live a l] says that the
    blocks [l] are in use. *)
Class BufMemOk (A : Type) `{BufMem A} (mt : memory_type) := {
  bm_live : A → list block → Prop;
  bm_live_perm : ∀ a l l', l ≡ₚ l' → bm_live a l → bm_live a l';
  bm_live_disjoint : ∀ a l, bm_live a l → all_disjoint l;
  bm_alloc_ok : ∀ a l sz, bm_live a l → 0 < sz < 2 ^ 63 →
    ∃ r a', mem_alloc mt sz a = Some (r, a') ∧
      match r with Some p => bm_live a' ((p, sz) :: l) | None => bm_live a' l end;
  bm_free_ok : ∀ a l p sz, bm_live a ((p, sz) :: l) →
    ∃ a', mem_free mt p a = Some (tt, a') ∧ bm_live a' l
}.
Arguments bm_live {A _} mt {_} a l.

(** ** Buffers *)

(** [shuso_buffer_t] with the memory of its links, what the links' memory holds, and the cleanups
    that were called: the function, the link and the private data. *)
Record buffer (A : Type) := Buffer {
  b_mem : A;
  b_links : gmap Z blink;
  b_cleanups : gmap Z link_cleanup;
  b_msgs : gmap Z msgblob;
  b_first : option Z;
  b_last : option Z;
  b_memory_type : memory_type;
  b_allocator_data : option Z;
  b_called : list (Z * Z * Z)
}.
Arguments Buffer {A}.
Arguments b_mem {A}.
Arguments b_links {A}.
Arguments b_cleanups {A}.
Arguments b_msgs {A}.
Arguments b_first {A}.
Arguments b_last {A}.
Arguments b_memory_type {A}.
Arguments b_allocator_data {A}.
Arguments b_called {A}.

Section buffer.
Context `{BM : BufMem A}.
Local Abbreviation B := (M (buffer A)).

Definition upd_mem (f : A → A) (b : buffer A) : buffer A :=
  Buffer (f (b_mem b)) (b_links b) (b_cleanups b) (b_msgs b) (b_first b) (b_last b) (b_memory_type b)
    (b_allocator_data b) (b_called b).
Definition upd_links (f : gmap Z blink → gmap Z blink) (b : buffer A) : buffer A :=
  Buffer (b_mem b) (f (b_links b)) (b_cleanups b) (b_msgs b) (b_first b) (b_last b) (b_memory_type b)
    (b_allocator_data b) (b_called b).
Definition upd_cleanups (f : gmap Z link_cleanup → gmap Z link_cleanup) (b : buffer A) : buffer A :=
  Buffer (b_mem b) (b_links b) (f (b_cleanups b)) (b_msgs b) (b_first b) (b_last b) (b_memory_type b)
    (b_allocator_data b) (b_called b).
Definition upd_msgs (f : gmap Z msgblob → gmap Z msgblob) (b : buffer A) : buffer A :=
  Buffer (b_mem b) (b_links b) (b_cleanups b) (f (b_msgs b)) (b_first b) (b_last b) (b_memory_type b)
    (b_allocator_data b) (b_called b).
Definition put_first (p : option Z) (b : buffer A) : buffer A :=
  Buffer (b_mem b) (b_links b) (b_cleanups b) (b_msgs b) p (b_last b) (b_memory_type b)
    (b_allocator_data b) (b_called b).
Definition put_last (p : option Z) (b : buffer A) : buffer A :=
  Buffer (b_mem b) (b_links b) (b_cleanups b) (b_msgs b) (b_first b) p (b_memory_type b)
    (b_allocator_data b) (b_called b).
Definition log_cleanup (c : Z * Z * Z) (b : buffer A) : buffer A :=
  Buffer (b_mem b) (b_links b) (b_cleanups b) (b_msgs b) (b_first b) (b_last b) (b_memory_type b)
    (b_allocator_data b) (b_called b ++ [c]).

(** Run an operation of the memory on the buffer's. *)
Definition lift_mem {X} (m : M A X) : B X :=
  λ b, match m (b_mem b) with Some (x, a) => Some (x, upd_mem (λ _, a) b) | None => None end.
(** Read a link; a link that is not there is not a live one. *)
Definition link_get (a : Z) : B blink :=
  λ b, match b_links b !! a with Some k => Some (k, b) | None => None end.
Definition link_put (a : Z) (k : blink) : B unit := m_modify (upd_links <[a := k]>).
Definition link_set_next (a : Z) (n : option Z) : B unit :=
  k <- link_get a ;;
  link_put a (BLink (bl_ptr k) (bl_num k) (bl_data_type k) (bl_memory_type k) (bl_have_cleanup k) n).

Definition shuso_buffer_init (mtype : memory_type) (allocator_data : option Z) : B unit :=
  m_modify (λ b, Buffer (b_mem b) (b_links b) (b_cleanups b) (b_msgs b) None None mtype allocator_data
                   (b_called b)) ;;;
  match mtype with
  | SHUSO_BUF_HEAP => m_assert (bool_decide (allocator_data = None))
  | SHUSO_BUF_POOL | SHUSO_BUF_FIXED | SHUSO_BUF_SHARED =>
      m_assert (bool_decide (allocator_data ≠ None))
  | SHUSO_BUF_EXTERNAL => m_ret tt
  | SHUSO_BUF_DEFAULT | SHUSO_BUF_MMAPPED => m_abort
  end.

(** Without memory the source also reports an error. *)
Definition shuso_buffer_allocate (sz : Z) : B (option Z) :=
  b <- m_get ;; lift_mem (mem_alloc (b_memory_type b) sz).

Definition shuso_buffer_cleanup (link : Z) : B unit :=
  k <- link_get link ;;
  if negb (bl_have_cleanup k) then m_ret tt else
  b <- m_get ;;
  match b_cleanups b !! link with
  | Some c => m_modify (log_cleanup (lc_cleanup c, link, lc_privdata c))
  | None => m_abort
  end.

(** The block of a link that is freed is gone with all that is in it. *)
Definition block_gone (link msg : Z) (b : buffer A) : buffer A :=
  upd_links (delete link) (upd_cleanups (delete link) (upd_msgs (delete msg) b)).

Definition shuso_buffer_free (link : Z) : B unit :=
  b <- m_get ;;
  m_assert (bool_decide (b_first b ≠ Some link ∧ b_last b ≠ Some link)) ;;;
  shuso_buffer_cleanup link ;;;
  k <- link_get link ;;
  let mtype := match bl_memory_type k with SHUSO_BUF_DEFAULT => b_memory_type b | t => t end in
  lift_mem (mem_free mtype link) ;;;
  match mtype with
  | SHUSO_BUF_HEAP | SHUSO_BUF_SHARED => m_modify (block_gone link (bl_ptr k))
  | _ => m_ret tt
  end.

Definition shuso_buffer_queue (link : Z) : B unit :=
  b <- m_get ;;
  let last := b_last b in
  (match b_first b with None => m_modify (put_first (Some link)) | Some _ => m_ret tt end) ;;;
  (match last with Some l => link_set_next l (Some link) | None => m_ret tt end) ;;;
  m_modify (put_last (Some link)).

Definition shuso_buffer_dequeue : B (option Z) :=
  b <- m_get ;;
  match b_first b with
  | None => m_ret None
  | Some link =>
      k <- link_get link ;;
      m_modify (put_first (bl_next k)) ;;;
      (if bool_decide (b_last b = Some link) then m_modify (put_last None) else m_ret tt) ;;;
      m_ret (Some link)
  end.

Definition shuso_buffer_last : B (option Z) := m_gets b_last.
Definition shuso_buffer_next : B (option Z) := m_gets b_first.

Definition shuso_buffer_add_charbuf (len : Z) : B (option Z) :=
  let sz := u64 (sizeof_buffer_link + len) in
  r <- shuso_buffer_allocate sz ;;
  match r with
  | None => m_ret None
  | Some link =>
      let charbuf := link + sizeof_buffer_link in
      link_put link (BLink charbuf len SHUSO_BUF_CHARBUF SHUSO_BUF_DEFAULT false None) ;;;
      shuso_buffer_queue link ;;;
      m_ret (Some charbuf)
  end.

Definition shuso_buffer_add_iovec (iovcnt : Z) : B (option Z) :=
  let sz := u64 (sizeof_buffer_link + u64 (sizeof_iovec * u64 iovcnt)) in
  r <- shuso_buffer_allocate sz ;;
  match r with
  | None => m_ret None
  | Some link =>
      let iov := link + sizeof_buffer_link in
      link_put link (BLink iov iovcnt SHUSO_BUF_IOVEC SHUSO_BUF_DEFAULT false None) ;;;
      shuso_buffer_queue link ;;;
      m_ret (Some iov)
  end.

(** [cleanup] is a function pointer, 0 for [NULL]. *)
Definition shuso_buffer_add_msg_fd_with_cleanup (fd data_sz cleanup cleanup_pd : Z) : B (option Z) :=
  let head := if bool_decide (cleanup ≠ 0) then sizeof_link_with_cleanup else sizeof_buffer_link in
  r <- shuso_buffer_allocate (u64 (head + sizeof_msgblob + data_sz)) ;;
  match r with
  | None => m_ret None
  | Some link =>
      (if bool_decide (cleanup ≠ 0)
       then m_modify (upd_cleanups <[link := LinkCleanup cleanup_pd cleanup]>) else m_ret tt) ;;;
      let msg := link + head in
      let data := msg + sizeof_msgblob in
      m_modify (upd_msgs <[msg := MsgBlob data data_sz 1 CMSG_SPACE_int CMSG_LEN_int fd]>) ;;;
      link_put link (BLink msg 0 SHUSO_BUF_IOVEC SHUSO_BUF_DEFAULT (bool_decide (cleanup ≠ 0)) None) ;;;
      shuso_buffer_queue link ;;;
      m_ret (Some data)
  end.

Definition shuso_buffer_add_msg_fd (fd data_sz : Z) : B (option Z) :=
  shuso_buffer_add_msg_fd_with_cleanup fd data_sz 0 0.

(** The links of memory that is not the buffer's. *)
Definition shuso_buffer_link_init_msg (link msg flags : Z) : B unit :=
  link_put link (BLink msg flags SHUSO_BUF_MSGHDR SHUSO_BUF_EXTERNAL false None).
Definition shuso_buffer_link_init_charbuf (link charbuf len : Z) : B unit :=
  link_put link (BLink charbuf len SHUSO_BUF_CHARBUF SHUSO_BUF_EXTERNAL false None).
Definition shuso_buffer_link_init_shuso_str (link : Z) (str : block) : B unit :=
  link_put link (BLink str.1 str.2 SHUSO_BUF_CHARBUF SHUSO_BUF_EXTERNAL false None).
Definition shuso_buffer_link_init_iovec (link iov iovcnt : Z) : B unit :=
  link_put link (BLink iov iovcnt SHUSO_BUF_IOVEC SHUSO_BUF_EXTERNAL false None).

(** ** Programs over a buffer *)

(** What can be added to a buffer. *)
Inductive buf_add :=
| AddCharbuf (len : Z)
| AddIovec (iovcnt : Z)
| AddMsgFd (fd data_sz cleanup cleanup_pd : Z).

Inductive buf_op := OpAdd (k : buf_add) | OpPop.

Definition add_to_buffer (k : buf_add) : B (option Z) :=
  match k with
  | AddCharbuf len => shuso_buffer_add_charbuf len
  | AddIovec n => shuso_buffer_add_iovec n
  | AddMsgFd fd sz c pd => shuso_buffer_add_msg_fd_with_cleanup fd sz c pd
  end.

(** One turn of a consumer such as [ipc_send_fd_coroutine]: look at the next link and what it
    points at, then [shuso_buffer_free(S, buf, shuso_buffer_dequeue(S, buf))]. *)
Definition buffer_pop : B (option (data_type * Z * Z * option msgblob)) :=
  next <- shuso_buffer_next ;;
  match next with
  | None => m_ret None
  | Some link =>
      k <- link_get link ;;
      msg <- m_gets (λ b, b_msgs b !! bl_ptr k) ;;
      d <- shuso_buffer_dequeue ;;
      match d with Some l => shuso_buffer_free l | None => m_abort end ;;;
      m_ret (Some (bl_data_type k, bl_ptr k, bl_num k, msg))
  end.

Inductive buf_obs :=
| ObsAdd (data : option Z)
| ObsPop (link : option (data_type * Z * Z * option msgblob)).

Definition buf_step (o : buf_op) : B buf_obs :=
  match o with
  | OpAdd k => r <- add_to_buffer k ;; m_ret (ObsAdd r)
  | OpPop => r <- buffer_pop ;; m_ret (ObsPop r)
  end.
Fixpoint buf_run (ops : list buf_op) : B (list buf_obs) :=
  match ops with
  | [] => m_ret []
  | o :: ops' => r <- buf_step o ;; rs <- buf_run ops' ;; m_ret (r :: rs)
  end.

End buffer.

(** ** The specification: a queue *)

(** What was added and the address of its data. *)
Definition entry : Type := buf_add * Z.

Definition head_size (k : buf_add) : Z :=
  match k with
  | AddMsgFd _ _ c _ =>
      (if bool_decide (c ≠ 0) then sizeof_link_with_cleanup else sizeof_buffer_link) + sizeof_msgblob
  | _ => sizeof_buffer_link
  end.
Definition data_size (k : buf_add) : Z :=
  match k with
  | AddCharbuf len => len
  | AddIovec n => sizeof_iovec * n
  | AddMsgFd _ sz _ _ => sz
  end.
(** The arguments a caller gives: no negative counts, and less than half the address space. *)
Definition add_ok (k : buf_add) : Prop :=
  match k with
  | AddIovec n => 0 ≤ n < 2 ^ 31
  | _ => 0 ≤ data_size k
  end ∧ head_size k + data_size k < 2 ^ 63.
Definition op_ok (o : buf_op) : Prop := match o with OpAdd k => add_ok k | OpPop => True end.

Definition e_addr (e : entry) : Z := e.2 - head_size e.1.
Definition e_blk (e : entry) : block := (e_addr e, head_size e.1 + data_size e.1).
(** The header of the link and the data. *)
Definition e_regions (e : entry) : list block := [(e_addr e, head_size e.1); (e.2, data_size e.1)].

(** The link of an entry, and the cleanup and message in its block. *)
Definition e_link (e : entry) (next : option Z) : blink :=
  match e.1 with
  | AddCharbuf len => BLink e.2 len SHUSO_BUF_CHARBUF SHUSO_BUF_DEFAULT false next
  | AddIovec n => BLink e.2 n SHUSO_BUF_IOVEC SHUSO_BUF_DEFAULT false next
  | AddMsgFd _ _ c _ =>
      BLink (e.2 - sizeof_msgblob) 0 SHUSO_BUF_IOVEC SHUSO_BUF_DEFAULT (bool_decide (c ≠ 0)) next
  end.
Definition e_cleanup (e : entry) : option link_cleanup :=
  match e.1 with
  | AddMsgFd _ _ c pd => if bool_decide (c ≠ 0) then Some (LinkCleanup pd c) else None
  | _ => None
  end.
Definition e_msg (e : entry) : option msgblob :=
  match e.1 with
  | AddMsgFd fd sz _ _ => Some (MsgBlob e.2 sz 1 CMSG_SPACE_int CMSG_LEN_int fd)
  | _ => None
  end.
Definition e_calls (e : entry) : list (Z * Z * Z) :=
  match e_cleanup e with Some c => [(lc_cleanup c, e_addr e, lc_privdata c)] | None => [] end.

(** What a consumer sees of an entry. *)
Definition seen (e : entry) (v : data_type * Z * Z * option msgblob) : Prop :=
  v.1 = (bl_data_type (e_link e None), bl_ptr (e_link e None), bl_num (e_link e None)) ∧
  match e_msg e with Some m => v.2 = Some m | None => True end.

Inductive fifo_step : list entry → buf_op → buf_obs → list (Z * Z * Z) → list entry → Prop :=
| fifo_added q k d : fifo_step q (OpAdd k) (ObsAdd (Some d)) [] (q ++ [(k, d)])
| fifo_no_memory q k : fifo_step q (OpAdd k) (ObsAdd None) [] q
| fifo_empty : fifo_step [] OpPop (ObsPop None) [] []
| fifo_popped q e v : seen e v → fifo_step (e :: q) OpPop (ObsPop (Some v)) (e_calls e) q.

Inductive fifo_run : list entry → list buf_op → list buf_obs → list (Z * Z * Z) → list entry → Prop :=
| fifo_done q : fifo_run q [] [] [] q
| fifo_next q o r c q1 os rs cs q2 :
    fifo_step q o r c q1 → fifo_run q1 os rs cs q2 → fifo_run q (o :: os) (r :: rs) (c ++ cs) q2.

(** ** The invariant *)

Section inv.
Context `{BO : BufMemOk A mt}.

Fixpoint chained (links : gmap Z blink) (q : list entry) : Prop :=
  match q with
  | [] => True
  | e :: q' => links !! e_addr e = Some (e_link e (e_addr <$> head q')) ∧ chained links q'
  end.

Definition extras_ok (b : buffer A) (e : entry) : Prop :=
  add_ok e.1 ∧
  match e_cleanup e with Some c => b_cleanups b !! e_addr e = Some c | None => True end ∧
  match e_msg e with Some m => b_msgs b !! bl_ptr (e_link e None) = Some m | None => True end.

Record buf_inv (q : list entry) (b : buffer A) : Prop := BufInv {
  bi_live : bm_live mt (b_mem b) (e_blk <$> q);
  bi_links : chained (b_links b) q;
  bi_extras : Forall (extras_ok b) q;
  bi_first : b_first b = e_addr <$> head q;
  bi_last : b_last b = e_addr <$> last q;
  bi_type : b_memory_type b = mt
}.

Lemma add_ok_size k : add_ok k → 0 ≤ data_size k ∧ 32 ≤ head_size k ∧ head_size k + data_size k < 2 ^ 63.
Proof.
  unfold add_ok, head_size, data_size, sizeof_iovec, sizeof_link_with_cleanup, sizeof_buffer_link, sizeof_msgblob.
  destruct k; try case_bool_decide; lia.
Qed.

(** Entries in use have their own addresses, and so have the messages in them. *)
Lemma entries_apart q1 e1 q2 e2 :
  all_disjoint (e_blk <$> q1 ++ e1 :: q2) → Forall (λ e, add_ok e.1) (q1 ++ e1 :: q2) → e2 ∈ q1 ++ q2 →
  e_addr e1 ≠ e_addr e2 ∧ (∀ m1 m2, e_msg e1 = m1 → e_msg e2 = Some m2 →
     bl_ptr (e_link e1 None) ≠ bl_ptr (e_link e2 None)).
Proof.
  intros Hd Hok Hin. rewrite fmap_app, fmap_cons in Hd.
  assert (disjoint_blk (e_blk e1) (e_blk e2)) as Hdis.
  { apply all_disjoint_app in Hd as (Hd1 & Hd2 & Hd12). simpl in Hd2. destruct Hd2 as [Hd2 _].
    apply elem_of_app in Hin as [Hin|Hin].
    - apply disjoint_blk_sym. rewrite Forall_forall in Hd12.
      specialize (Hd12 (e_blk e2) ltac:(apply list_elem_of_fmap; eauto)).
      by apply Forall_cons in Hd12 as [? _].
    - rewrite Forall_forall in Hd2. apply Hd2. apply list_elem_of_fmap; eauto. }
  rewrite Forall_forall in Hok.
  assert (add_ok e1.1) as H1%add_ok_size by (apply Hok; set_solver).
  assert (add_ok e2.1) as H2%add_ok_size by (apply Hok; set_solver).
  destruct e1 as [k1 d1], e2 as [k2 d2]. unfold disjoint_blk, e_blk, e_addr in *; simpl in *.
  split; [lia|]. intros m1 m2 _ Hm. destruct k2; try done.
  unfold e_link; simpl. unfold head_size, data_size, sizeof_link_with_cleanup, sizeof_buffer_link, sizeof_msgblob in *.
  destruct k1; simpl; repeat case_bool_decide; lia.
Qed.

Lemma chained_insert links q a k :
  a ∉ (e_addr <$> q) → chained links q → chained (<[a := k]> links) q.
Proof.
  induction q as [|e q IH]; simpl; [done|]. intros Ha [Hl Hc].
  apply not_elem_of_cons in Ha as [? ?]. split; [by rewrite lookup_insert_ne|auto].
Qed.

Lemma chained_delete links q a : a ∉ (e_addr <$> q) → chained links q → chained (delete a links) q.
Proof.
  induction q as [|e q IH]; simpl; [done|]. intros Ha [Hl Hc].
  apply not_elem_of_cons in Ha as [? ?]. split; [by rewrite lookup_delete_ne|auto].
Qed.

(** The last link gets a successor. *)
Lemma chained_snoc links q y e :
  NoDup (e_addr <$> q ++ [y; e]) → chained links (q ++ [y]) → links !! e_addr e = Some (e_link e None) →
  chained (<[e_addr y := e_link y (Some (e_addr e))]> links) (q ++ [y; e]).
Proof.
  induction q as [|x q IH]; simpl.
  - intros Hnd [_ _] He. rewrite lookup_insert_eq.
    apply NoDup_cons in Hnd as [Hy _]. split_and!; [done| |done].
    rewrite lookup_insert_ne; [done|]. intros Heq. apply Hy. rewrite Heq. by left.
  - intros Hnd [Hx Hc] He. apply NoDup_cons in Hnd as [Hx' Hnd]. split.
    + rewrite lookup_insert_ne.
      2:{ intros Heq. apply Hx'. rewrite <- Heq, fmap_app. set_solver. }
      rewrite Hx. f_equal. f_equal. by destruct q.
    + by apply IH.
Qed.

Lemma entries_nodup q :
  all_disjoint (e_blk <$> q) → Forall (λ e, add_ok e.1) q → NoDup (e_addr <$> q).
Proof.
  induction q as [|e q IH]; intros Hd Hok; [constructor|]. csimpl. constructor.
  - intros (e' & Heq & Hin)%list_elem_of_fmap. symmetry in Heq.
    destruct (entries_apart [] e q e' Hd Hok Hin) as [Hne _]. by rewrite Heq in Hne.
  - apply IH; [by destruct Hd|by apply Forall_cons in Hok as [_ ?]].
Qed.

Lemma extras_add_ok b q : Forall (extras_ok b) q → Forall (λ e, add_ok e.1) q.
Proof. intros Hq. eapply Forall_impl; [exact Hq|]. by intros e []. Qed.

(** A link whose contents are in place joins the queue. *)
Lemma queue_spec q e b :
  bm_live mt (b_mem b) (e_blk e :: (e_blk <$> q)) →
  chained (b_links b) q → b_links b !! e_addr e = Some (e_link e None) →
  Forall (extras_ok b) (q ++ [e]) →
  b_first b = e_addr <$> head q → b_last b = e_addr <$> last q → b_memory_type b = mt →
  ∃ b', shuso_buffer_queue (e_addr e) b = Some (tt, b') ∧ buf_inv (q ++ [e]) b' ∧
        b_called b' = b_called b.
Proof.
  intros Hlive Hc He Hex Hf Hl Ht.
  assert (bm_live mt (b_mem b) (e_blk <$> q ++ [e])) as Hlive'.
  { eapply bm_live_perm; [|exact Hlive]. by rewrite fmap_app, Permutation_app_comm. }
  pose proof (entries_nodup _ (bm_live_disjoint _ _ Hlive') (extras_add_ok _ _ Hex)) as Hnd.
  unfold shuso_buffer_queue, link_set_next, link_get, link_put, m_bind, m_get, m_ret, m_modify.
  rewrite Hf, Hl. destruct q as [|y q _] using rev_ind; simpl.
  - eexists. split; [done|]. split; [|done]. by split.
  - assert (b_links b !! e_addr y = Some (e_link y None)) as Hy.
    { clear -Hc. induction q as [|x q IH]; simpl in Hc; [by destruct Hc|by apply IH; destruct Hc]. }
    rewrite last_snoc. simpl. destruct (e_addr <$> head (q ++ [y])) as [a|] eqn:Hh; [|by destruct q].
    simpl. rewrite Hy. eexists. split; [done|]. split; [|done].
    rewrite <- app_assoc in *. simpl in *. split; simpl; try done.
    + replace (BLink _ _ _ _ _ _) with (e_link y (Some (e_addr e))).
      * by apply chained_snoc.
      * by destruct y as [[] ?].
    + rewrite Hf. by destruct q.
    + by rewrite last_app.
Qed.

Lemma alloc_spec q b sz :
  buf_inv q b → 0 < sz < 2 ^ 63 →
  ∃ r a, shuso_buffer_allocate sz b = Some (r, upd_mem (λ _, a) b) ∧
    match r with
    | Some p => bm_live mt a ((p, sz) :: (e_blk <$> q))
    | None => buf_inv q (upd_mem (λ _, a) b)
    end.
Proof.
  intros [Hlive ? ? ? ? Ht] Hsz. unfold shuso_buffer_allocate, lift_mem, m_bind, m_get. rewrite Ht.
  destruct (bm_alloc_ok _ _ sz Hlive Hsz) as (r & a & -> & Hr).
  exists r, a. split; [done|]. by destruct r.
Qed.

(** A new entry's block is not one of those in use. *)
Lemma new_entry_apart a q k p :
  bm_live mt a ((p, head_size k + data_size k) :: (e_blk <$> q)) → add_ok k →
  Forall (λ e, add_ok e.1) q → let e := (k, p + head_size k) in
  e_blk e = (p, head_size k + data_size k) ∧ e_addr e = p ∧ p ∉ (e_addr <$> q) ∧
  Forall (λ e', ∀ m, e_msg e' = Some m → bl_ptr (e_link e None) ≠ bl_ptr (e_link e' None)) q.
Proof.
  intros Hlive Hk Hq e.
  assert (e_addr e = p) as Ha by (unfold e_addr; simpl; lia).
  assert (e_blk e = (p, head_size k + data_size k)) as Hb by (unfold e_blk; by rewrite Ha).
  split_and!; [done|done| |].
  - rewrite <- Hb in Hlive.
    pose proof (entries_nodup (e :: q) (bm_live_disjoint _ _ Hlive) ltac:(by constructor)) as Hnd.
    csimpl in Hnd. apply NoDup_cons in Hnd as [Hnd _]. by rewrite <- Ha.
  - rewrite <- Hb in Hlive. apply Forall_forall. intros e' He' m Hm.
    by eapply (entries_apart [] e q e' (bm_live_disjoint _ _ Hlive) ltac:(by constructor) He').
Qed.

(** The contents of a new block, put in place before the link is queued. *)
Definition fill (a : A) (e : entry) (b : buffer A) : buffer A :=
  Buffer a (<[e_addr e := e_link e None]> (b_links b))
    (match e_cleanup e with Some c => <[e_addr e := c]> (b_cleanups b) | None => b_cleanups b end)
    (match e_msg e with Some m => <[bl_ptr (e_link e None) := m]> (b_msgs b) | None => b_msgs b end)
    (b_first b) (b_last b) (b_memory_type b) (b_allocator_data b) (b_called b).

Lemma fill_spec q k p a b :
  buf_inv q b → add_ok k → bm_live mt a ((p, head_size k + data_size k) :: (e_blk <$> q)) →
  let e := (k, p + head_size k) in
  ∃ b', shuso_buffer_queue p (fill a e b) = Some (tt, b') ∧ buf_inv (q ++ [e]) b' ∧
        b_called b' = b_called b.
Proof.
  intros [_ Hc Hex Hf Hl Ht] Hk Hlive e.
  destruct (new_entry_apart a q k p Hlive Hk (extras_add_ok _ _ Hex)) as (Hb & Ha & Hp & Hm).
  fold e in Hb, Ha, Hm. rewrite <- Ha. apply (queue_spec q e (fill a e b)); simpl; try done.
  - by rewrite Hb.
  - apply chained_insert; [by rewrite Ha|done].
  - by rewrite lookup_insert_eq.
  - apply Forall_app. split.
    + rewrite Forall_forall in Hex, Hm |- *. intros e' He'. destruct (Hex e' He') as (Hk' & Hcl & Hms).
      split; [done|]. assert (e_addr e ≠ e_addr e') as Hne.
      { intros Heq. apply Hp. rewrite <- Ha, Heq. apply list_elem_of_fmap. eauto. }
      simpl. split.
      * destruct (e_cleanup e') as [c|]; [|done]. destruct (e_cleanup e); [|done]. by rewrite lookup_insert_ne.
      * destruct (e_msg e') as [m|] eqn:Hm'; [|done]. specialize (Hm e' He' m Hm').
        destruct (e_msg e); [|done]. by rewrite lookup_insert_ne.
    + apply Forall_singleton. split; [done|]. simpl. split.
      * destruct (e_cleanup e); [|done]. by rewrite lookup_insert_eq.
      * destruct (e_msg e); [|done]. by rewrite lookup_insert_eq.
Qed.

Lemma add_spec q k b :
  buf_inv q b → add_ok k →
  ∃ r b', add_to_buffer k b = Some (r, b') ∧ b_called b' = b_called b ∧
    match r with Some d => buf_inv (q ++ [(k, d)]) b' | None => buf_inv q b' end.
Proof.
  intros Hi Hk. pose proof (add_ok_size k Hk) as Hs.
  destruct (alloc_spec q b (head_size k + data_size k) Hi ltac:(lia)) as (r & a & He & Hr).
  assert (add_to_buffer k b =
          match r with
          | None => Some (None, upd_mem (λ _, a) b)
          | Some p => match shuso_buffer_queue p (fill a (k, p + head_size k) b) with
                      | Some (_, b') => Some (Some (p + head_size k), b')
                      | None => None
                      end
          end) as ->.
  { destruct k as [len|n|fd sz c pd]; simpl in *;
      unfold shuso_buffer_add_charbuf, shuso_buffer_add_iovec, shuso_buffer_add_msg_fd_with_cleanup,
        link_put, m_bind, m_ret, m_modify in *.
    - rewrite u64_small by lia. rewrite He. destruct r as [p|]; [|done].
      unfold fill, e_addr, e_link, upd_links, upd_mem; simpl. by rewrite Z.add_simpl_r.
    - destruct Hk as [Hn _]. rewrite (u64_small n), (u64_small (_ * _)), u64_small by (unfold sizeof_iovec in *; lia).
      rewrite He. destruct r as [p|]; [|done].
      unfold fill, e_addr, e_link, upd_links, upd_mem; simpl. by rewrite Z.add_simpl_r.
    - rewrite u64_small by (case_bool_decide; lia). rewrite He. destruct r as [p|]; [|done].
      unfold fill, e_addr, e_link, e_cleanup, e_msg, upd_links, upd_mem, upd_cleanups, upd_msgs; simpl.
      rewrite Z.add_simpl_r, !Z.add_assoc, Z.add_simpl_r. by case_bool_decide. }
  destruct r as [p|].
  - destruct (fill_spec q k p a b Hi Hk Hr) as (b' & -> & Hi' & Hcl). by eexists (Some _), b'.
  - eexists None, _. by split_and!.
Qed.

Lemma last_not_first e q : e_addr e ∉ (e_addr <$> q) → q ≠ [] → e_addr <$> last q ≠ Some (e_addr e).
Proof.
  intros Hne Hq. destruct (last q) as [y|] eqn:Hl; [|by apply last_None in Hl]. simpl. intros [= Heq].
  apply Hne. rewrite <- Heq. apply list_elem_of_fmap. exists y. split; [done|].
  by apply last_Some_elem_of.
Qed.

Lemma dequeue_spec e q (b : buffer A) :
  b_links b !! e_addr e = Some (e_link e (e_addr <$> head q)) → e_addr e ∉ (e_addr <$> q) →
  b_first b = Some (e_addr e) → b_last b = e_addr <$> last (e :: q) →
  shuso_buffer_dequeue b
  = Some (Some (e_addr e), put_last (e_addr <$> last q) (put_first (e_addr <$> head q) b)).
Proof.
  intros He Hne Hf Hl. unfold shuso_buffer_dequeue, link_get, m_bind, m_get, m_ret, m_modify.
  rewrite Hf, He. simpl. replace (bl_next _) with (e_addr <$> head q) by by destruct e as [[] ?].
  rewrite Hl. destruct q as [|y q].
  - simpl. by rewrite bool_decide_eq_true_2.
  - rewrite bool_decide_eq_false_2.
    2:{ replace (last (e :: y :: q)) with (last (y :: q)) by done. by apply last_not_first. }
    unfold put_last, put_first. simpl in *. by rewrite Hl.
Qed.

(** Freeing a link runs its cleanup, if it has one. *)
Definition call_cleanup (e : entry) (b : buffer A) : buffer A :=
  Buffer (b_mem b) (b_links b) (b_cleanups b) (b_msgs b) (b_first b) (b_last b) (b_memory_type b)
    (b_allocator_data b) (b_called b ++ e_calls e).

Lemma cleanup_spec e n (b : buffer A) :
  b_links b !! e_addr e = Some (e_link e n) →
  match e_cleanup e with Some c => b_cleanups b !! e_addr e = Some c | None => True end →
  shuso_buffer_cleanup (e_addr e) b = Some (tt, call_cleanup e b).
Proof.
  intros He Hcl. unfold shuso_buffer_cleanup, link_get, m_bind, m_get, m_ret, m_modify, call_cleanup, e_calls.
  rewrite He. destruct e as [[len|m|fd sz c pd] d]; simpl.
  - rewrite app_nil_r. by destruct b.
  - rewrite app_nil_r. by destruct b.
  - unfold e_cleanup in *; simpl in *. case_bool_decide; simpl in *.
    + by rewrite Hcl.
    + rewrite app_nil_r. by destruct b.
Qed.

Lemma free_spec e n b a :
  b_links b !! e_addr e = Some (e_link e n) → extras_ok b e → b_memory_type b = mt →
  b_first b ≠ Some (e_addr e) → b_last b ≠ Some (e_addr e) →
  mem_free mt (e_addr e) (b_mem b) = Some (tt, a) →
  ∃ b1, shuso_buffer_free (e_addr e) b = Some (tt, b1) ∧
    b_called b1 = b_called b ++ e_calls e ∧ b_mem b1 = a ∧ b_first b1 = b_first b ∧
    b_last b1 = b_last b ∧ b_memory_type b1 = mt ∧
    (b_links b1 = b_links b ∧ b_cleanups b1 = b_cleanups b ∧ b_msgs b1 = b_msgs b ∨
     b_links b1 = delete (e_addr e) (b_links b) ∧ b_cleanups b1 = delete (e_addr e) (b_cleanups b) ∧
     b_msgs b1 = delete (bl_ptr (e_link e None)) (b_msgs b)).
Proof.
  intros He (_ & Hcl & _) Ht Hf Hl Hfree.
  unfold shuso_buffer_free, m_bind, m_get. rewrite bool_decide_eq_true_2 by done. simpl. unfold m_ret.
  rewrite (cleanup_spec e n b He Hcl). unfold link_get, lift_mem, m_modify. simpl. rewrite He.
  assert (bl_memory_type (e_link e n) = SHUSO_BUF_DEFAULT) as -> by by destruct e as [[] ?].
  assert (bl_ptr (e_link e n) = bl_ptr (e_link e None)) as -> by by destruct e as [[] ?].
  rewrite Ht. simpl. rewrite Hfree. clear -Ht.
  destruct mt; eexists; (split; [done|]); simpl; split_and!; try done; solve [by left|by right].
Qed.

Lemma pop_spec e q b :
  buf_inv (e :: q) b →
  ∃ v b', buffer_pop b = Some (Some v, b') ∧ seen e v ∧ buf_inv q b' ∧
          b_called b' = b_called b ++ e_calls e.
Proof.
  intros [Hlive Hc Hex Hf Hl Ht]. csimpl in *. destruct Hc as [He Hc].
  pose proof (entries_nodup (e :: q) (bm_live_disjoint _ _ Hlive) (extras_add_ok _ _ Hex)) as Hnd.
  csimpl in Hnd. apply NoDup_cons in Hnd as [Hne Hnd].
  assert (Forall (λ e', e_msg e' ≠ None → bl_ptr (e_link e None) ≠ bl_ptr (e_link e' None)) q) as Hmne.
  { apply Forall_forall. intros e' He' Hm. destruct (e_msg e') as [m|] eqn:Hm'; [|done].
    by eapply (entries_apart [] e q e' (bm_live_disjoint _ _ Hlive) (extras_add_ok _ _ Hex) He'). }
  apply Forall_cons in Hex as [Hexe Hex].
  destruct (bm_free_ok _ _ _ _ Hlive) as (a & Hfree & Hlive').
  assert (b_first b = Some (e_addr e)) as Hf1 by done.
  unfold buffer_pop, shuso_buffer_next, link_get, m_bind, m_gets, m_ret. rewrite Hf1, He.
  rewrite (dequeue_spec e q b He Hne Hf1 Hl).
  match goal with |- context [shuso_buffer_free _ ?b0] => set (b1 := b0) end.
  destruct (free_spec e (e_addr <$> head q) b1 a) as (b' & -> & Hcal & Hm' & Hf' & Hl' & Ht' & Hcases); try done.
  { simpl. destruct q as [|y q]; [done|]. simpl. intros [= Heq]. apply Hne. csimpl. rewrite <- Heq. by left. }
  { simpl. destruct q as [|y q]; [done|]. by apply last_not_first. }
  eexists _, b'. split; [done|]. split_and!; [| |done].
  - destruct Hexe as (_ & _ & Hms). unfold seen; simpl. clear -Hms. split; [by destruct e as [[] ?]|].
    destruct (e_msg e) as [m|] eqn:Em; [|done].
    by replace (bl_ptr (e_link e _)) with (bl_ptr (e_link e None)) by by destruct e as [[] ?].
  - split; try congruence; try (by rewrite Hm').
    + destruct Hcases as [(-> & _)|(-> & _)]; [done|]. by apply chained_delete.
    + rewrite Forall_forall in Hex, Hmne |- *. intros e' He'. destruct (Hex e' He') as (? & Hcl & Hms).
      destruct Hcases as [(_ & Hc1 & Hm1)|(_ & Hc1 & Hm1)]; split; try done; rewrite Hc1, Hm1; simpl; [done|].
      split.
      * destruct (e_cleanup e'); [|done]. rewrite lookup_delete_ne; [done|].
        intros Heq. apply Hne. rewrite Heq. apply list_elem_of_fmap. eauto.
      * specialize (Hmne e' He'). destruct (e_msg e'); [|done]. rewrite lookup_delete_ne; [done|]. by apply Hmne.
    + by rewrite Hf'.
    + by rewrite Hl'.
Qed.

Lemma buf_step_spec q o b :
  buf_inv q b → op_ok o →
  ∃ r b' q' c, buf_step o b = Some (r, b') ∧ fifo_step q o r c q' ∧ buf_inv q' b' ∧
               b_called b' = b_called b ++ c.
Proof.
  intros Hi Ho. destruct o as [k|]; simpl; unfold m_bind, m_ret.
  - destruct (add_spec q k b Hi Ho) as (r & b' & -> & Hc & Hr). destruct r as [d|].
    + eexists _, b', _, []. rewrite app_nil_r. split_and!; [done|constructor|done..].
    + eexists _, b', _, []. rewrite app_nil_r. split_and!; [done|constructor|done..].
  - destruct q as [|e q].
    + unfold buffer_pop, shuso_buffer_next, m_bind, m_gets, m_ret. rewrite (bi_first _ _ Hi).
      eexists _, b, _, []. rewrite app_nil_r. split_and!; [done|constructor|done..].
    + destruct (pop_spec e q b Hi) as (v & b' & -> & Hv & Hi' & Hc).
      eexists _, b', q, (e_calls e). split_and!; [done|by constructor|done..].
Qed.

Lemma buf_run_spec q ops b :
  buf_inv q b → Forall op_ok ops →
  ∃ rs b' q' c, buf_run ops b = Some (rs, b') ∧ fifo_run q ops rs c q' ∧ buf_inv q' b' ∧
                b_called b' = b_called b ++ c.
Proof.
  intros Hi Hops. revert q b Hi. induction Hops as [|o ops Ho _ IH]; intros q b Hi; simpl; unfold m_bind, m_ret.
  - eexists _, b, q, []. rewrite app_nil_r. split_and!; [done|constructor|done..].
  - destruct (buf_step_spec q o b Hi Ho) as (r & b1 & q1 & c & -> & Hs & Hi1 & Hc1).
    destruct (IH q1 b1 Hi1) as (rs & b2 & q2 & cs & -> & Hrs & Hi2 & Hc2).
    eexists _, b2, q2, (c ++ cs). split_and!; [done|by econstructor|done|].
    by rewrite Hc2, Hc1, app_assoc.
Qed.

(** The header and the data of a link are in its block, one after the other. *)
Lemma regions_disjoint q :
  Forall (λ e, add_ok e.1) q → all_disjoint (e_blk <$> q) → all_disjoint (q ≫= e_regions).
Proof.
  induction q as [|e q IH]; intros Hok Hd; [done|]. csimpl in *. destruct Hd as [Hd1 Hd2].
  apply Forall_cons in Hok as [He Hq]. pose proof (add_ok_size _ He) as Hs.
  assert (∀ x, x ∈ e_regions e → Forall (disjoint_blk x) (q ≫= e_regions)) as Hx.
  { intros x Hx. apply Forall_forall. intros y Hy. apply list_elem_of_bind in Hy as (e' & Hy & He').
    rewrite Forall_forall in Hd1. rewrite Forall_forall in Hq. specialize (Hd1 (e_blk e') ltac:(apply list_elem_of_fmap; eauto)).
    pose proof (add_ok_size _ (Hq e' He')) as Hs'.
    unfold e_regions, e_blk, disjoint_blk, e_addr in *. simpl in *.
    set_unfold in Hx. set_unfold in Hy. destruct Hx as [->|[->|[]]], Hy as [->|[->|[]]]; simpl; lia. }
  split; [|split; [|by apply IH]].
  - constructor; [unfold disjoint_blk, e_addr; simpl; lia|]. apply Hx. set_solver.
  - apply Hx. set_solver.
Qed.

End inv.

(** [shuso_buffer_init] accepts the memory type with this allocator. *)
Definition init_ok (mt : memory_type) (ad : option Z) : Prop :=
  match mt with
  | SHUSO_BUF_HEAP => ad = None
  | SHUSO_BUF_POOL | SHUSO_BUF_FIXED | SHUSO_BUF_SHARED => ad ≠ None
  | SHUSO_BUF_EXTERNAL => True
  | _ => False
  end.

Section properties.
Context `{BO : BufMemOk A mt}.

Lemma init_inv (b : buffer A) ad :
  init_ok mt ad → bm_live mt (b_mem b) [] →
  ∃ b0, shuso_buffer_init mt ad b = Some (tt, b0) ∧ buf_inv [] b0 ∧ b_called b0 = b_called b.
Proof.
  intros Had Hlive. unfold shuso_buffer_init, m_bind, m_modify, m_assert. clear -Had Hlive.
  eexists. split; [|split].
  - revert Had Hlive. destruct mt; simpl; intros; try done; by rewrite bool_decide_eq_true_2.
  - by split.
  - done.
Qed.

Lemma buffer_fifo (b : buffer A) ad ops :
  init_ok mt ad → bm_live mt (b_mem b) [] → Forall op_ok ops →
  ∃ rs b' q calls,
    (shuso_buffer_init mt ad ;;; buf_run ops) b = Some (rs, b') ∧
    fifo_run [] ops rs calls q ∧
    b_called b' = b_called b ++ calls ∧
    all_disjoint (q ≫= e_regions) ∧
    bm_live mt (b_mem b') (e_blk <$> q).
Proof.
  intros Had Hlive Hops.
  destruct (init_inv b ad Had Hlive) as (b0 & He0 & Hi0 & Hc0).
  destruct (buf_run_spec [] ops b0 Hi0 Hops) as (rs & b' & q & calls & He & Hr & Hi & Hc).
  exists rs, b', q, calls. unfold m_bind. rewrite He0, He. split_and!; [done|done| | |apply Hi].
  - by rewrite Hc, Hc0.
  - apply regions_disjoint; [exact (extras_add_ok _ _ (bi_extras _ _ Hi))|].
    exact (bm_live_disjoint _ _ (bi_live _ _ Hi)).
Qed.

(** C17: a buffer is a queue that owns its memory.  Over any memory that keeps the
    allocator's promises, for any sequence of additions and removals: the consumer sees the links in
    the order they were added, each with its data, its size and, for a file descriptor, the message
    that was prepared; a cleanup runs once, for the link it was given for, when that link is
    freed; the headers and the data of the links in the buffer do not overlap; and the memory in
    use is that of the links in the buffer, so an emptied buffer has freed everything. *)
Theorem buffer_refines_fifo (b : buffer A) ad ops
    (Had : init_ok mt ad)
    (Hlive : bm_live mt (b_mem b) [])
    (Hops : Forall op_ok ops) :
  ∃ rs b' q calls,
    (shuso_buffer_init mt ad ;;; buf_run ops) b = Some (rs, b') ∧
    fifo_run [] ops rs calls q ∧
    b_called b' = b_called b ++ calls ∧
    all_disjoint (q ≫= e_regions) ∧
    bm_live mt (b_mem b') (e_blk <$> q).
Proof. by apply buffer_fifo. Qed.

End properties.

(** ** The memory of a process

    The heap and the pool of src/src/pool.c over it, beside a shared slab [S] with its operations. *)

Section mems.
Context `{Malloc} {S : Type} (slab_alloc : Z → M S (option Z)) (slab_free : Z → M S unit).

Definition on_pool {X} (m : M pw X) : M (pw * S) X :=
  λ w, match m w.1 with Some (x, p) => Some (x, (p, w.2)) | None => None end.
Definition on_slab {X} (m : M S X) : M (pw * S) X :=
  λ w, match m w.2 with Some (x, s) => Some (x, (w.1, s)) | None => None end.

Definition process_mem : BufMem (pw * S) :=
  {| bm_malloc sz := on_pool (w_malloc sz);
     bm_free a := on_pool (w_free a);
     bm_palloc sz := on_pool (shuso_palloc sz);
     bm_slab_alloc sz := on_slab (slab_alloc sz);
     bm_slab_free a := on_slab (slab_free a) |}.

(** [malloc] and [free] keep the promises; [base] is what the rest of the program has allocated. *)
Program Definition heap_mem_ok (base : heap) : @BufMemOk (pw * S) process_mem SHUSO_BUF_HEAP :=
  {| bm_live w l := heap_wf (w_heap w.1) ∧ owns (w_heap w.1) base l |}.
Next Obligation. intros base w l l' Hp [? Ho]. split; [done|]. by rewrite <- Hp. Qed.
Next Obligation. intros base w l [? ?]. by eapply owns_all_disjoint. Qed.
Next Obligation.
  intros base [w s] l sz [Hwf Ho] Hsz. simpl. unfold on_pool, w_malloc. simpl.
  destruct (h_malloc sz (w_heap w)) as [[r h]|] eqn:Hm; [|unfold h_malloc in Hm; by destruct (malloc_fn _ _)].
  pose proof (h_malloc_inv sz _ _ _ ltac:(lia) Hwf Hm) as Hr.
  eexists r, _. split; [done|]. destruct r as [p|]; simpl.
  - destruct Hr as (-> & Hwf' & Hf & _). split; [done|]. by apply owns_insert.
  - by subst h.
Qed.
Next Obligation.
  intros base [w s] l p sz [Hwf Ho]. simpl in *. unfold on_pool, w_free. simpl.
  rewrite (h_free_owned _ _ _ _ _ Ho). eexists. split; [done|]. simpl.
  split; [by apply heap_wf_delete|by eapply owns_delete].
Qed.

(** So does the pool, whose blocks are not given back one by one. *)
Program Definition pool_mem_ok (base : heap) : @BufMemOk (pw * S) process_mem SHUSO_BUF_POOL :=
  {| bm_live w l := ∃ freed, pool_inv base (l ++ freed) w.1 |}.
Next Obligation.
  intros base w l l' Hp [fr Hi]. exists fr. destruct Hi as [? ? Hl Hd]. split; [done|done| |].
  - by rewrite <- Hp.
  - eapply all_disjoint_perm; [|exact Hd]. by rewrite Hp.
Qed.
Next Obligation. intros base w l [fr [_ _ _ Hd]]. by apply all_disjoint_app in Hd as [? _]. Qed.
Next Obligation.
  intros base [w s] l sz [fr Hi] Hsz. simpl in *. unfold on_pool, shuso_palloc. simpl.
  destruct (palloc_with_alignment_spec base _ w sz true Hi ltac:(lia)) as [[-> _]|(a & w' & -> & Hi' & _)].
  - eexists None, _. split; [done|]. by exists fr.
  - eexists (Some a), _. split; [done|]. by exists fr.
Qed.
Next Obligation.
  intros base [w s] l p sz [fr Hi]. simpl in *. eexists. split; [done|]. exists ((p, sz) :: fr).
  destruct Hi as [? ? Hl Hd]. simpl in *. split; [done|done| |].
  - by rewrite <- Permutation_middle.
  - apply (all_disjoint_perm ((p, sz) :: l ++ fr)); [|done]. by rewrite <- Permutation_middle.
Qed.
End mems.

(** A process without a shared slab and with nothing allocated yet. *)
#[local] Instance demo_mem : BufMem (pw * unit) := process_mem (λ _, m_abort) (λ _, m_abort).
#[local] Instance demo_mem_ok : BufMemOk (pw * unit) SHUSO_BUF_HEAP := heap_mem_ok _ _ ∅.
Definition demo_buffer : buffer (pw * unit) :=
  Buffer (PW ∅ zero_pool, tt) ∅ ∅ ∅ None None SHUSO_BUF_DEFAULT None [].
Definition demo_ops : list buf_op :=
  [OpAdd (AddCharbuf 10); OpAdd (AddMsgFd 5 16 1000 2000); OpPop; OpAdd (AddIovec 3); OpPop; OpPop; OpPop].

Lemma buffer_refines_fifo_witness :
  ∃ rs b' q calls,
    (shuso_buffer_init SHUSO_BUF_HEAP None ;;; buf_run demo_ops) demo_buffer = Some (rs, b') ∧
    fifo_run [] demo_ops rs calls q ∧ b_called b' = [] ++ calls ∧
    all_disjoint (q ≫= e_regions) ∧ bm_live SHUSO_BUF_HEAP (b_mem b') (e_blk <$> q).
Proof.
  apply (buffer_refines_fifo demo_buffer None demo_ops).
  - done.
  - split; [by intros ???? []|apply owns_nil].
  - repeat constructor; by vm_compute.
Defined.

(** The run of the witness: the charbuf, the message with its descriptor and the iovecs come out in
    order, the cleanup of the message runs once, and the heap is empty again. *)
Example demo_run :
  (λ r : list buf_obs * buffer (pw * unit), (r.1, b_called r.2, map_to_list (w_heap (b_mem r.2).1))) <$>
    (shuso_buffer_init SHUSO_BUF_HEAP None ;;; buf_run demo_ops) demo_buffer
  = Some ([ObsAdd (Some 48); ObsAdd (Some 208);
           ObsPop (Some (SHUSO_BUF_CHARBUF, 48, 10, None)); ObsAdd (Some 256);
           ObsPop (Some (SHUSO_BUF_IOVEC, 112, 0, Some (MsgBlob 208 16 1 24 20 5)));
           ObsPop (Some (SHUSO_BUF_IOVEC, 256, 3, None)); ObsPop None],
          [(1000, 64, 2000)], []).
Proof. by vm_compute. Qed.
