(* ===== verification/Event.v ===== *)
(** Events, src/src/event.c: publishing an event to its listeners, and the interrupts
    a listener can ask for: to cancel the event, to pause it until it is resumed, or to delay it
    until a timer runs out.  The tables of src/src/event.lua appear as what C asks them:
    whether an event is known. *)

From Stdlib Require Import Sorted.
From stdpp Require Import strings.
From S2P Require Import Prelude.
#[local] Open Scope Z_scope.

(** ** Data *)

(** [shuso_event_interrupt_t] *)
Inductive interrupt := NO_INTERRUPT | PAUSE | CANCEL | DELAY.
#[export] Instance interrupt_eq_dec : EqDecision interrupt.
Proof. solve_decision. Defined.

(** [shuso_event_pause_t]: the event is named by its address. *)
Record event_pause := EventPause {
  ep_reason : string;
  ep_event : Z;
  ep_code : Z;
  ep_data : Z;
  ep_next_listener_index : Z
}.

(** [shuso_event_delay_t], a Lua userdata, with its timer: the delay in milliseconds while the
    timer is running. *)
Record event_delay := EventDelay {
  ed_paused : event_pause;
  ed_timer : option Z;
  ed_ref : Z
}.

(** [shuso_complete_event_state_t], which lives while [fire_event] runs. *)
Record complete_event_state := Cev {
  cev_event : Z;
  cev_module : Z;          (* [state.module] *)
  cev_code : Z;
  cev_data : Z;
  cev_cur : Z;             (* the index of [cur] in the event's listeners *)
  cev_interrupt : interrupt;
  cev_interrupt_reason : option string
}.

(** What events read and write of a process: its active module, the delays' memory, which of it
    the Lua registry refers to, the errors that were reported; [ev_user] is the listeners' own. *)
Record ev_world (U : Type) := EvWorld {
  ev_active : Z;
  ev_delays : gmap Z event_delay;
  ev_registry : gmap Z Z;       (* from a reference to the delay's address *)
  ev_fresh : Z;                 (* what [luaL_ref] and [lua_newuserdata] hand out next *)
  ev_errors : list string;
  ev_user : U
}.
Arguments EvWorld {U}.
Arguments ev_active {U}.
Arguments ev_delays {U}.
Arguments ev_registry {U}.
Arguments ev_fresh {U}.
Arguments ev_errors {U}.
Arguments ev_user {U}.

Section event.
Context {U : Type}.
Local Abbreviation world := (ev_world U).
(** What a listener runs on. *)
Local Abbreviation L := (M (world * complete_event_state)).

(** [shuso_event_listener_t]: the function gets the event's code and data. *)
Record listener := Listener {
  li_module : Z;
  li_fn : Z → Z → L unit
}.
(** [shuso_event_t]: [evt_interrupt_handler] may change the delay. *)
Record event := Event {
  evt_name : string;
  evt_listeners : list listener;
  evt_interrupt_handler : option (interrupt → option Z → L (bool * option Z))
}.

(** The events of the program by address, and those in Lua's [events_by_ptr]. *)
Variable events : Z → event.
Variable known : Z → bool.

Definition put_active (m : Z) (w : world) : world :=
  EvWorld m (ev_delays w) (ev_registry w) (ev_fresh w) (ev_errors w) (ev_user w).
Definition put_delays (d : gmap Z event_delay) (w : world) : world :=
  EvWorld (ev_active w) d (ev_registry w) (ev_fresh w) (ev_errors w) (ev_user w).
Definition put_registry (r : gmap Z Z) (w : world) : world :=
  EvWorld (ev_active w) (ev_delays w) r (ev_fresh w) (ev_errors w) (ev_user w).
Definition put_fresh (n : Z) (w : world) : world :=
  EvWorld (ev_active w) (ev_delays w) (ev_registry w) n (ev_errors w) (ev_user w).
Definition put_user (u : U) (w : world) : world :=
  EvWorld (ev_active w) (ev_delays w) (ev_registry w) (ev_fresh w) (ev_errors w) u.
Definition add_error (e : string) (w : world) : world :=
  EvWorld (ev_active w) (ev_delays w) (ev_registry w) (ev_fresh w) (ev_errors w ++ [e]) (ev_user w).

Definition set_cur (m i : Z) (c : complete_event_state) : complete_event_state :=
  Cev (cev_event c) m (cev_code c) (cev_data c) i (cev_interrupt c) (cev_interrupt_reason c).
Definition set_interrupt (i : interrupt) (r : option string) (c : complete_event_state) : complete_event_state :=
  Cev (cev_event c) (cev_module c) (cev_code c) (cev_data c) (cev_cur c) i r.

Definition on_world {X} (m : M world X) : L X :=
  λ s, match m s.1 with Some (x, w) => Some (x, (w, s.2)) | None => None end.
Definition get_cev : L complete_event_state := m_gets snd.
Definition mod_cev (f : complete_event_state → complete_event_state) : L unit :=
  m_modify (λ s, (s.1, f s.2)).

(** ** Publishing *)

(** The loop of [fire_event] from the listener at index [i] on.  Without an interrupt handler the
    source does not look at [interrupt]; nothing can set it then. *)
Fixpoint fire_loop (has_handler : bool) (i : Z) (ls : list listener) (code data : Z) : L unit :=
  match ls with
  | [] => m_ret tt
  | l :: ls' =>
      c <- get_cev ;;
      if has_handler && bool_decide (cev_interrupt c ≠ NO_INTERRUPT) then m_ret tt else
      mod_cev (set_cur (li_module l) i) ;;;
      on_world (m_modify (put_active (li_module l))) ;;;
      li_fn l code data ;;;
      fire_loop has_handler (i + 1) ls' code data
  end.

(** The listeners end with a sentinel; a start index beyond it is outside the array. *)
Definition fire_event (ev : Z) (listener_start_index : Z) (code data : Z) : M world bool :=
  λ w,
    let e := events ev in
    let start := Z.to_nat listener_start_index in
    if bool_decide (length (evt_listeners e) < start)%nat then None else
    let cev := Cev ev 0 code data listener_start_index NO_INTERRUPT None in
    let has_handler := match evt_interrupt_handler e with Some _ => true | None => false end in
    match fire_loop has_handler listener_start_index (drop start (evt_listeners e)) code data (w, cev) with
    | Some (_, (w', cev')) =>
        Some (bool_decide (cev_interrupt cev' = NO_INTERRUPT), put_active (ev_active w) w')
    | None => None
    end.

Definition shuso_event_publish (ev code data : Z) : M world bool := fire_event ev 0 code data.

(** ** Interrupts *)

(** An event without an interrupt handler cannot be interrupted: [SIGABRT] is raised. *)
Definition try_to_interrupt_event (i : interrupt) (sec : option Z) : L (bool * option Z) :=
  c <- get_cev ;;
  match evt_interrupt_handler (events (cev_event c)) with
  | None => m_abort
  | Some h => h i sec
  end.

Definition shuso_event_cancel : L bool :=
  r <- try_to_interrupt_event CANCEL None ;;
  if negb r.1 then m_ret false else
  c <- get_cev ;;
  mod_cev (set_interrupt CANCEL (cev_interrupt_reason c)) ;;;
  m_ret true.

Definition shuso_event_pause (reason : string) : L (bool * option event_pause) :=
  r <- try_to_interrupt_event PAUSE None ;;
  if negb r.1 then m_ret (false, None) else
  mod_cev (set_interrupt PAUSE (Some reason)) ;;;
  c <- get_cev ;;
  m_ret (true, Some (EventPause reason (cev_event c) (cev_code c) (cev_data c) (u16 (cev_cur c + 1)))).

(** [luaL_ref] of a new userdata holding [d]. *)
Definition lua_ref_new (d : Z → event_delay) : M world Z :=
  λ w, let n := ev_fresh w in
       Some (n, put_fresh (n + 1)
                  (put_registry (<[n := n]> (ev_registry w)) (put_delays (<[n := d n]> (ev_delays w)) w))).

Definition shuso_event_delay (reason : string) (max_delay_sec : Z) : L (bool * option Z) :=
  r <- try_to_interrupt_event DELAY (Some max_delay_sec) ;;
  if negb r.1 then m_ret (false, None) else
  let max_delay_sec := default max_delay_sec r.2 in
  if max_delay_sec <=? 0 then m_ret (false, None) else
  mod_cev (set_interrupt DELAY (Some reason)) ;;;
  c <- get_cev ;;
  if negb (known (cev_event c)) then
    on_world (m_modify (add_error "cannot be delayed")) ;;; m_ret (false, None)
  else
    ref <- on_world (lua_ref_new (EventDelay
              (EventPause reason (cev_event c) (cev_code c) (cev_data c) (u16 (cev_cur c)))
              (Some max_delay_sec))) ;;
    m_ret (true, Some ref).

(** ** Resuming *)

(** The memory of a delay; it is gone once the garbage collector took it. *)
Definition get_delay (addr : Z) : M world event_delay :=
  λ w, match ev_delays w !! addr with Some d => Some (d, w) | None => None end.

Definition clear_delayed_state (addr : Z) (error_out : bool) : M world (option event_pause) :=
  d <- get_delay addr ;;
  if negb (known (ep_event (ed_paused d))) then
    (if error_out then m_modify (add_error "delayed_event_handler couldn't find the event") else m_ret tt) ;;;
    m_ret None
  else
    m_modify (λ w, put_registry (delete (ed_ref d) (ev_registry w)) w) ;;;
    m_ret (Some (ed_paused d)).

(** The timer runs out: libev stops it (it does not repeat) and calls [delayed_event_handler]. *)
Definition stop_timer (addr : Z) : M world unit :=
  d <- get_delay addr ;;
  m_modify (λ w, put_delays (<[addr := EventDelay (ed_paused d) None (ed_ref d)]> (ev_delays w)) w).
Definition delayed_event_handler (addr : Z) : M world bool :=
  stop_timer addr ;;;
  p <- clear_delayed_state addr true ;;
  match p with
  | None => m_ret false
  | Some p => fire_event (ep_event p) (ep_next_listener_index p) (ep_code p) (ep_data p)
  end.

(** A reference that is not a userdata gives a null pointer, which is then used. *)
Definition shuso_event_resume_delayed (delay_id : Z) : M world bool :=
  w <- m_get ;;
  match ev_registry w !! delay_id with
  | None => m_abort
  | Some addr =>
      p <- clear_delayed_state addr false ;;
      match p with
      | None => m_ret false
      | Some p => fire_event (ep_event p) (ep_next_listener_index p) (ep_code p) (ep_data p)
      end
  end.

Definition shuso_event_resume_paused (p : event_pause) : M world bool :=
  fire_event (ep_event p) (ep_next_listener_index p) (ep_code p) (ep_data p).

(** Lua's garbage collector frees the delays nothing refers to. *)
Definition collect_delays : M world unit :=
  m_modify (λ w, put_delays (filter (λ d, ev_registry w !! ed_ref d.2 = Some d.1) (ev_delays w)) w).

End event.
Arguments Listener {U}.
Arguments Event {U}.

(** ** Listeners that follow a script

    What each call of a listener does, for as long as the script lasts; calls after that just
    return. *)

Inductive action := ADone | APause | ADelay (msec : Z) | ACancel.

(** The rest of the script, the indices of the listeners that were called, and what the listener
    kept to resume the event with. *)
Record script := Script {
  sc_actions : list action;
  sc_log : list Z;
  sc_paused : option event_pause;
  sc_delayed : option Z
}.

Section scripts.
Variable events : Z → event (U:=script).
Variable known : Z → bool.
Local Abbreviation world := (ev_world script).
Local Abbreviation L := (M (world * complete_event_state)).

Definition mod_user (f : script → script) : L unit :=
  on_world (m_modify (λ w, put_user (f (ev_user w)) w)).

Definition script_fn (code data : Z) : L unit :=
  c <- get_cev ;;
  s <- on_world (m_gets ev_user) ;;
  mod_user (λ s, Script (tail (sc_actions s)) (sc_log s ++ [cev_cur c]) (sc_paused s) (sc_delayed s)) ;;;
  match sc_actions s with
  | [] | ADone :: _ => m_ret tt
  | APause :: _ =>
      r <- shuso_event_pause events "reason" ;;
      mod_user (λ s, Script (sc_actions s) (sc_log s) r.2 (sc_delayed s))
  | ADelay d :: _ =>
      r <- shuso_event_delay events known "reason" d ;;
      mod_user (λ s, Script (sc_actions s) (sc_log s) (sc_paused s) r.2)
  | ACancel :: _ => shuso_event_cancel events ;;; m_ret tt
  end.

(** What the program does after an event was interrupted: a paused event is resumed, a delayed one
    is waited for; a cancelled one is over.  [fuel] bounds the interrupts. *)
Fixpoint drive (fuel : nat) (finished : bool) : M world bool :=
  if finished then m_ret true else
  w <- m_get ;;
  let s := ev_user w in
  match sc_paused s, sc_delayed s with
  | Some p, _ =>
      m_put (put_user (Script (sc_actions s) (sc_log s) None (sc_delayed s)) w) ;;;
      match fuel with
      | O => m_abort
      | S fuel' => r <- shuso_event_resume_paused events p ;; drive fuel' r
      end
  | None, Some addr =>
      m_put (put_user (Script (sc_actions s) (sc_log s) None None) w) ;;;
      match fuel with
      | O => m_abort
      | S fuel' => r <- delayed_event_handler events known addr ;; drive fuel' r
      end
  | None, None => m_ret false
  end.

(** ** The specification

    The indices of the calls that [script] makes of [k] listeners from [i] on, and whether the event
    got to its end: a paused event goes on with the next listener, a delayed one with the same. *)
Fixpoint expected (acts : list action) (i : Z) (k : nat) : list Z * bool :=
  match k with
  | O => ([], true)
  | S k' =>
      match acts with
      | [] => (seqZ i (Z.of_nat k), true)
      | ADone :: acts' | APause :: acts' => let e := expected acts' (i + 1) k' in (i :: e.1, e.2)
      | ADelay _ :: acts' => let e := expected acts' i k in (i :: e.1, e.2)
      | ACancel :: _ => ([i], false)
      end
  end.

Definition handler_allows (h : interrupt → option Z → L (bool * option Z)) : Prop :=
  ∀ i sec s, ∃ sec', h i sec s = Some ((true, sec'), s) ∧
    ∀ d, sec = Some d → 0 < d → ∃ d', sec' = Some d' ∧ 0 < d'.
Definition action_ok (a : action) : Prop := match a with ADelay d => 0 < d | _ => True end.

(** References and delays from [ev_fresh] on are free. *)
Definition fresh_ok (w : world) : Prop :=
  ∀ a, ev_fresh w ≤ a → ev_registry w !! a = None ∧ ev_delays w !! a = None.

(** [w'] is [w] but for the delays in between, whose timers are over, and the listeners' own. *)
Record same_but_delays (w w' : world) : Prop := SameBut {
  sb_active : ev_active w' = ev_active w;
  sb_registry : ev_registry w' = ev_registry w;
  sb_errors : ev_errors w' = ev_errors w;
  sb_fresh : ev_fresh w ≤ ev_fresh w';
  sb_delays : ∀ a d, ev_delays w' !! a = Some d → ev_delays w !! a = Some d ∨ ed_timer d = None
}.

Lemma same_trans w1 w2 w3 : same_but_delays w1 w2 → same_but_delays w2 w3 → same_but_delays w1 w3.
Proof.
  intros [? ? ? ? H1] [? ? ? ? H2]. split; try congruence; [lia|].
  intros a d [Hd|Hd]%H2; [by apply H1|by right].
Qed.

Section one_event.
Context (ev : Z) (name : string) (modules : list Z) (h : interrupt → option Z → L (bool * option Z)).
Hypothesis Hev : events ev = Event name ((λ m, Listener m (script_fn)) <$> modules) (Some h).
Hypothesis Hknown : known ev = true.
Hypothesis Hh : handler_allows h.
Hypothesis Hlen : Z.of_nat (length modules) < 2 ^ 16.

Local Abbreviation lst := ((λ m, Listener m script_fn) <$> modules).

(** The rest of a run: the loop of [fire_event] from where it is, and what follows. *)
Definition finish (active : Z) (fuel : nat) (r : option (unit * (world * complete_event_state)))
    : option (bool * world) :=
  match r with
  | Some (_, (w', cev')) => drive fuel (bool_decide (cev_interrupt cev' = NO_INTERRUPT)) (put_active active w')
  | None => None
  end.

Lemma fire_finish i code data fuel w :
  0 ≤ i ≤ Z.of_nat (length modules) →
  (r <- fire_event events ev i code data ;; drive fuel r) w
  = finish (ev_active w) fuel
      (fire_loop true i (drop (Z.to_nat i) lst) code data (w, Cev ev 0 code data i NO_INTERRUPT None)).
Proof.
  intros Hi. unfold fire_event, m_bind. rewrite Hev. simpl.
  rewrite bool_decide_eq_false_2 by (rewrite length_fmap; lia).
  by destruct (fire_loop _ _ _ _ _ _) as [[[] [w' cev']]|].
Qed.

(** The state after the log entry that each call makes. *)
Definition called (i : Z) (w : world) : world :=
  let s := ev_user w in
  put_user (Script (tail (sc_actions s)) (sc_log s ++ [i]) (sc_paused s) (sc_delayed s)) w.

(** What the call of a listener does. *)
Lemma script_fn_spec code data w c :
  cev_event c = ev →
  script_fn code data (w, c) =
  match sc_actions (ev_user w) with
  | [] | ADone :: _ => Some (tt, (called (cev_cur c) w, c))
  | APause :: _ =>
      let p := EventPause "reason" ev (cev_code c) (cev_data c) (u16 (cev_cur c + 1)) in
      let w1 := called (cev_cur c) w in let s := ev_user w1 in
      Some (tt, (put_user (Script (sc_actions s) (sc_log s) (Some p) (sc_delayed s)) w1,
                 set_interrupt PAUSE (Some "reason"%string) c))
  | ADelay d :: _ =>
      if bool_decide (0 < d) then
        match h DELAY (Some d) (called (cev_cur c) w, c) with
        | Some ((_, Some d'), _) =>
            let p := EventPause "reason" ev (cev_code c) (cev_data c) (u16 (cev_cur c)) in
            let w1 := called (cev_cur c) w in let n := ev_fresh w1 in
            let w2 := put_fresh (n + 1) (put_registry (<[n := n]> (ev_registry w1))
                        (put_delays (<[n := EventDelay p (Some d') n]> (ev_delays w1)) w1)) in
            let s := ev_user w2 in
            Some (tt, (put_user (Script (sc_actions s) (sc_log s) (sc_paused s) (Some n)) w2,
                       set_interrupt DELAY (Some "reason"%string) c))
        | _ => None
        end
      else script_fn code data (w, c)
  | ACancel :: _ => Some (tt, (called (cev_cur c) w, set_interrupt CANCEL (cev_interrupt_reason c) c))
  end.
Proof.
  intros Hc. destruct (sc_actions (ev_user w)) as [|[| |d|] acts] eqn:Ha.
  - unfold script_fn, mod_user, on_world, m_bind, m_modify, m_gets, m_ret. simpl. rewrite Ha. simpl.
    by unfold called; rewrite Ha.
  - unfold script_fn, mod_user, on_world, m_bind, m_modify, m_gets, m_ret. simpl. rewrite Ha. simpl.
    by unfold called; rewrite Ha.
  - unfold script_fn, shuso_event_pause, try_to_interrupt_event, mod_user, mod_cev, get_cev, on_world,
      m_bind, m_modify, m_gets, m_ret. simpl. rewrite Ha. simpl. rewrite Hc, Hev. simpl.
    match goal with |- context [h PAUSE None ?s] => destruct (Hh PAUSE None s) as (sec' & -> & _) end.
    simpl. rewrite Hc. unfold called. by rewrite Ha.
  - case_bool_decide; [|done].
    unfold script_fn, shuso_event_delay, try_to_interrupt_event, lua_ref_new, mod_user, mod_cev, get_cev, on_world,
      m_bind, m_modify, m_gets, m_ret. simpl. rewrite Ha. simpl. rewrite Hc, Hev. simpl.
    unfold called; rewrite Ha; simpl.
    match goal with |- context [h DELAY (Some d) ?s] =>
      destruct (Hh DELAY (Some d) s) as (sec' & -> & Hs); destruct (Hs d) as (d' & -> & ?); [done..|] end.
    simpl. destruct (Z.leb_spec d' 0); [lia|]. simpl. by rewrite Hc, Hknown.
  - unfold script_fn, shuso_event_cancel, try_to_interrupt_event, mod_user, mod_cev, get_cev, on_world,
      m_bind, m_modify, m_gets, m_ret. simpl. rewrite Ha. simpl. rewrite Hc, Hev. simpl.
    match goal with |- context [h CANCEL None ?s] => destruct (Hh CANCEL None s) as (sec' & -> & _) end.
    simpl. unfold called. by rewrite Ha.
Qed.

Lemma loop_interrupted i ls code data w c :
  cev_interrupt c ≠ NO_INTERRUPT →
  fire_loop (U:=script) true i ls code data (w, c) = Some (tt, (w, c)).
Proof.
  intros Hc. destruct ls; [done|]. simpl. unfold get_cev, m_bind, m_gets. simpl.
  by rewrite bool_decide_eq_true_2.
Qed.

Lemma loop_step i code data w c :
  0 ≤ i < Z.of_nat (length modules) → cev_interrupt c = NO_INTERRUPT →
  ∃ m, fire_loop true i (drop (Z.to_nat i) lst) code data (w, c)
       = match script_fn code data (put_active m w, set_cur m i c) with
         | Some (_, s) => fire_loop true (i + 1) (drop (Z.to_nat (i + 1)) lst) code data s
         | None => None
         end.
Proof.
  intros Hi Hc. destruct (lookup_lt_is_Some_2 modules (Z.to_nat i)) as [m Hm]; [lia|].
  exists m. rewrite (drop_S lst (Listener m script_fn) (Z.to_nat i)) by by rewrite list_lookup_fmap, Hm.
  replace (S (Z.to_nat i)) with (Z.to_nat (i + 1)) by lia.
  simpl. unfold get_cev, mod_cev, on_world, m_bind, m_gets, m_modify. simpl.
  rewrite bool_decide_eq_false_2 by (intros Hn; by apply Hn).
  done.
Qed.

(** Between two calls, nothing is kept to be resumed. *)
Record ready (acts : list action) (w : world) : Prop := Ready {
  rd_actions : sc_actions (ev_user w) = acts;
  rd_paused : sc_paused (ev_user w) = None;
  rd_delayed : sc_delayed (ev_user w) = None;
  rd_fresh : fresh_ok w
}.

Definition completes (acts : list action) (i : Z) (k : nat) (active : Z) (w : world)
    (r : option (bool * world)) : Prop :=
  ∃ w', r = Some ((expected acts i k).2, w') ∧
    sc_log (ev_user w') = sc_log (ev_user w) ++ (expected acts i k).1 ∧
    same_but_delays (put_active active w) w'.

Lemma same_but_refl w : same_but_delays w w.
Proof. split; try done. by left. Qed.

(** The listeners after the script's end. *)
Lemma finish_rest k i active fuel code data w c :
  0 ≤ i → i + Z.of_nat k = Z.of_nat (length modules) →
  cev_event c = ev → cev_interrupt c = NO_INTERRUPT → ready [] w →
  completes [] i k active w (finish active fuel (fire_loop true i (drop (Z.to_nat i) lst) code data (w, c))).
Proof.
  revert i w c. induction k as [|k IH]; intros i w c Hi Hk Hc Hn Hr.
  - rewrite drop_ge by (rewrite length_fmap; lia). simpl. exists (put_active active w).
    rewrite bool_decide_eq_true_2 by done. rewrite app_nil_r.
    split_and!; [by destruct fuel|done|apply same_but_refl].
  - destruct (loop_step i code data w c ltac:(lia) Hn) as [m ->].
    rewrite script_fn_spec by done. simpl. destruct Hr as [Ha Hp Hd Hf]. rewrite Ha. simpl.
    assert (ready [] (called i (put_active m w))) as Hr' by (split; simpl; try done; by rewrite Ha).
    destruct (IH (i + 1) (called i (put_active m w)) (set_cur m i c)) as (w' & He & Hl & Hs);
      [lia|lia|done|done|done|].
    exists w'. rewrite He. simpl in *. split_and!; [by destruct k| |].
    + rewrite Hl, <- app_assoc. f_equal. simpl. rewrite (seqZ_cons i) by lia. f_equal.
      replace (Z.succ i) with (i + 1) by lia. replace (Z.pred (Z.of_nat (S k))) with (Z.of_nat k) by lia.
      by destruct k.
    + destruct Hs. by split.
Qed.

(** An interrupted loop ends [fire_event], and the program takes over. *)
Lemma finish_interrupted active fuel i code data w c :
  cev_interrupt c ≠ NO_INTERRUPT →
  finish active fuel (fire_loop true (i + 1) (drop (Z.to_nat (i + 1)) lst) code data (w, c))
  = drive fuel false (put_active active w).
Proof. intros Hc. rewrite loop_interrupted by done. simpl. by rewrite bool_decide_eq_false_2. Qed.

Lemma drive_paused fuel w p :
  sc_paused (ev_user w) = Some p →
  drive (S fuel) false w
  = (r <- shuso_event_resume_paused events p ;; drive fuel r)
      (put_user (Script (sc_actions (ev_user w)) (sc_log (ev_user w)) None (sc_delayed (ev_user w))) w).
Proof. intros Hp. simpl. unfold m_bind, m_get, m_put. by rewrite Hp. Qed.

(** The timer of a delay runs out. *)
Lemma drive_delayed fuel w a p t :
  sc_paused (ev_user w) = None → sc_delayed (ev_user w) = Some a →
  ev_delays w !! a = Some (EventDelay p t a) → ep_event p = ev →
  drive (S fuel) false w
  = (r <- fire_event events ev (ep_next_listener_index p) (ep_code p) (ep_data p) ;; drive fuel r)
      (put_registry (delete a (ev_registry w))
        (put_delays (<[a := EventDelay p None a]> (ev_delays w))
          (put_user (Script (sc_actions (ev_user w)) (sc_log (ev_user w)) None None) w))).
Proof.
  intros Hp Hd Ha He. simpl. unfold m_bind, m_get, m_put. rewrite Hp, Hd.
  unfold delayed_event_handler, stop_timer, clear_delayed_state, get_delay, m_bind, m_modify, m_ret. simpl.
  rewrite Ha. simpl. rewrite lookup_insert_eq. simpl. rewrite He, Hknown. simpl. by rewrite He.
Qed.

Lemma completes_step a acts i k j k' active w w1 r :
  completes acts j k' active w1 r →
  sc_log (ev_user w1) = sc_log (ev_user w) ++ [i] →
  same_but_delays (put_active active w) (put_active active w1) →
  expected (a :: acts) i (S k) = (i :: (expected acts j k').1, (expected acts j k').2) →
  completes (a :: acts) i (S k) active w r.
Proof.
  intros (w' & Hr & Hl & Hs) Hlog Hsame He. exists w'. rewrite He. simpl. split_and!; [done| |].
  - by rewrite Hl, Hlog, <- app_assoc.
  - by eapply same_trans.
Qed.

Lemma run_spec acts i k active fuel code data w c :
  Forall action_ok acts → (length acts ≤ fuel)%nat →
  0 ≤ i → i + Z.of_nat k = Z.of_nat (length modules) →
  cev_event c = ev → cev_code c = code → cev_data c = data → cev_interrupt c = NO_INTERRUPT →
  ready acts w →
  completes acts i k active w (finish active fuel (fire_loop true i (drop (Z.to_nat i) lst) code data (w, c))).
Proof.
  intros Hok. revert i k fuel w c.
  induction Hok as [|a acts Ha Hok IH]; intros i k fuel w c Hf Hi Hk Hc Hcc Hcd Hn Hr;
    [by apply finish_rest|].
  destruct k as [|k].
  { rewrite drop_ge by (rewrite length_fmap; lia). simpl. exists (put_active active w).
    rewrite bool_decide_eq_true_2 by done. rewrite app_nil_r.
    split_and!; [by destruct fuel|done|apply same_but_refl]. }
  destruct (loop_step i code data w c ltac:(lia) Hn) as [m ->].
  rewrite script_fn_spec by done. simpl in Hf. destruct Hr as [Hac Hp Hd Hfr]. simpl. rewrite Hac. simpl.
  destruct fuel as [|fuel]; [lia|]. destruct a as [| |d|].
  - eapply completes_step; [apply (IH (i + 1) k (S fuel) (called i (put_active m w)) (set_cur m i c)); try done| | |done];
      [lia|lia|lia| | |].
    + split; simpl; try done. by rewrite Hac.
    + done.
    + by split; [..|left].
  - rewrite finish_interrupted by done.
    erewrite drive_paused by done. unfold shuso_event_resume_paused. rewrite fire_finish; simpl.
    2:{ rewrite u16_small by lia. lia. }
    rewrite u16_small by lia. rewrite Hcc, Hcd.
    eapply completes_step; [eapply (IH (i + 1) k fuel); try done; try lia| | |done].
    + done.
    + by split; [..|left].
  - rewrite bool_decide_eq_true_2 by done.
    match goal with |- context [h DELAY (Some d) ?s] =>
      destruct (Hh DELAY (Some d) s) as (sec' & -> & Hs); destruct (Hs d) as (d' & -> & ?); [done..|] end.
    rewrite finish_interrupted by done.
    destruct (Hfr (ev_fresh w) ltac:(lia)) as [Hfr1 Hfr2].
    erewrite drive_delayed; [|done|done|simpl; by rewrite lookup_insert_eq|done].
    rewrite fire_finish; simpl.
    2:{ rewrite u16_small by lia. lia. }
    rewrite u16_small by lia. rewrite Hcc, Hcd, insert_insert_eq, delete_insert_id by done.
    eapply completes_step; [eapply (IH i (S k) fuel); try done; try lia| | |done].
    + split; simpl; try done. intros a Hle; simpl in *.
      rewrite lookup_insert_ne by lia. apply Hfr. lia.
    + done.
    + split; simpl; try done; [lia|]. intros a e He.
      destruct (decide (a = ev_fresh w)) as [->|?].
      * rewrite lookup_insert_eq in He. simplify_eq. by right.
      * rewrite lookup_insert_ne in He by done. by left.
  - rewrite finish_interrupted by done. simpl. unfold m_bind, m_get, m_ret. simpl. rewrite Hp, Hd.
    eexists. split; [done|]. split; [done|]. by split; [..|left].
Qed.

Lemma expected_order acts i k :
  StronglySorted Z.le (expected acts i k).1 ∧ Forall (Z.le i) (expected acts i k).1 ∧
  ((expected acts i k).2 = true → ∀ j, i ≤ j < i + Z.of_nat k → j ∈ (expected acts i k).1).
Proof.
  revert i k. induction acts as [|a acts IH]; intros i [|k].
  1, 3: simpl; split_and!; [constructor|constructor|intros; lia].
  - cbn [expected fst snd]. split_and!.
    + generalize (S k). intros n. revert i. induction n as [|n IHn]; intros i; [constructor|].
      rewrite seqZ_cons by lia. constructor.
      * replace (Z.pred (Z.of_nat (S n))) with (Z.of_nat n) by lia. apply IHn.
      * apply Forall_forall. intros j ?%elem_of_seqZ. lia.
    + apply Forall_forall. intros j ?%elem_of_seqZ. lia.
    + intros _ j Hj. apply elem_of_seqZ. lia.
  - assert (∀ j k', i ≤ j → let e := expected acts j k' in
              StronglySorted Z.le (i :: e.1) ∧ Forall (Z.le i) (i :: e.1)) as Hcons.
    { intros j k' Hj e. destruct (IH j k') as (Hs & Hf & _).
      assert (Forall (Z.le i) e.1) by (eapply Forall_impl; [exact Hf|]; simpl; lia).
      split; constructor; (done || lia). }
    destruct a; simpl.
    + destruct (Hcons (i + 1) k ltac:(lia)) as [? ?]. split_and!; [done|done|].
      intros He j Hj. destruct (decide (j = i)) as [->|]; [by left|right]. apply IH; [done|lia].
    + destruct (Hcons (i + 1) k ltac:(lia)) as [? ?]. split_and!; [done|done|].
      intros He j Hj. destruct (decide (j = i)) as [->|]; [by left|right]. apply IH; [done|lia].
    + destruct (Hcons i (S k) ltac:(lia)) as [? ?]. split_and!; [done|done|].
      intros He j Hj. right. apply IH; [done|lia].
    + split_and!; [repeat constructor|repeat constructor; lia|done].
Qed.

(** C13: an event gets to its listeners in order.  Whatever its listeners do, pause, delay
    or cancel it, or nothing, a program that resumes paused events and waits for delayed ones calls
    the listeners as specified: each in its turn, a pausing one once, a delaying one again until it
    lets go, none after a cancelling one; when the event got to its end, every listener was
    called.  The active module is what it was, and every delay is released again with its timer
    over. *)
Theorem event_runs_in_order acts fuel code data w
    (Hok : Forall action_ok acts)
    (Hfuel : (length acts ≤ fuel)%nat)
    (Hr : ready acts w) :
  let calls := expected acts 0 (length modules) in
  (∃ w', (r <- shuso_event_publish events ev code data ;; drive fuel r) w = Some (calls.2, w') ∧
     sc_log (ev_user w') = sc_log (ev_user w) ++ calls.1 ∧
     same_but_delays w w') ∧
  StronglySorted Z.le calls.1 ∧
  (calls.2 = true → ∀ j, 0 ≤ j < Z.of_nat (length modules) → j ∈ calls.1).
Proof.
  intros calls. split; [|split; apply expected_order].
  unfold shuso_event_publish. rewrite fire_finish by lia.
  destruct (run_spec acts 0 (length modules) (ev_active w) fuel code data w
              (Cev ev 0 code data 0 NO_INTERRUPT None)) as (w' & He & Hl & Hs); try done.
  exists w'. split_and!; [done|done|]. by destruct w.
Qed.

End one_event.
End scripts.

(** An event with three listeners and a handler that allows everything. *)
Definition demo_handler (i : interrupt) (sec : option Z) :
    M (ev_world script * complete_event_state) (bool * option Z) := m_ret (true, sec).
Definition demo_table (a : Z) : event (U:=script) := Event "demo" [] (Some demo_handler).
Definition demo_events (a : Z) : event (U:=script) :=
  Event "demo" ((λ m, Listener m (script_fn demo_table (λ _, true))) <$> [1; 2; 3]) (Some demo_handler).
Definition demo_world (acts : list action) : ev_world script :=
  EvWorld 7 ∅ ∅ 1 [] (Script acts [] None None).

(** The second listener pauses the event, the third delays it twice. *)
Definition demo_actions : list action := [ADone; APause; ADelay 100; ADelay 100; ADone].

Lemma event_runs_in_order_witness :
  let calls := expected demo_actions 0 (length [1; 2; 3]) in
  (∃ w', (r <- shuso_event_publish demo_events 5 10 20 ;; drive demo_events (λ _, true) 5 r)
           (demo_world demo_actions) = Some (calls.2, w') ∧
     sc_log (ev_user w') = [] ++ calls.1 ∧ same_but_delays (demo_world demo_actions) w') ∧
  StronglySorted Z.le calls.1 ∧
  (calls.2 = true → ∀ j, 0 ≤ j < Z.of_nat (length [1; 2; 3]) → j ∈ calls.1).
Proof.
  apply (event_runs_in_order demo_events (λ _, true) 5 "demo" [1; 2; 3] demo_handler).
  - reflexivity.
  - reflexivity.
  - intros i sec s. exists sec. split; [done|]. intros d ->. eauto.
  - by vm_compute.
  - repeat constructor.
  - simpl; lia.
  - by split.
Defined.

Example demo_calls : expected demo_actions 0 3 = ([0; 1; 2; 2; 2], true).
Proof. done. Qed.

(** Resuming a delayed event does not stop its timer.  After the program resumed an event
    that its first listener had delayed, the timer still runs, and when it runs out the listeners
    are called a second time; or, if the garbage collector came first, the handler uses
    the memory of a delay that is gone. *)
Theorem resume_delayed_fires_again :
  let delayed := shuso_event_publish demo_events 5 10 20 in
  let resume := shuso_event_resume_delayed demo_events (λ _, true) 1 in
  let timer := delayed_event_handler demo_events (λ _, true) 1 in
  (λ r, (r.1, sc_log (ev_user r.2), ed_timer <$> ev_delays r.2 !! 1)) <$>
    (delayed ;;; resume) (demo_world [ADelay 100]) = Some (true, [0; 0; 1; 2], Some (Some 100)) ∧
  (λ r, (r.1, sc_log (ev_user r.2))) <$>
    (delayed ;;; resume ;;; timer) (demo_world [ADelay 100]) = Some (true, [0; 0; 1; 2; 0; 1; 2]) ∧
  (delayed ;;; resume ;;; collect_delays ;;; timer) (demo_world [ADelay 100]) = None.
Proof. by vm_compute. Qed.
