(* ===== verification/Io.v ===== *)
(** Input and output: the operations of src/src/io/io.c on their libev backend,
    src/src/io/io_libev.c, and the coroutines of src/src/include/shuttlesock/io.h that issue them.
    The kernel is a list of system call results; a call that finds none left would block. *)

From S2P Require Import Prelude Heap.

(** ** Constants *)

Definition SHUSO_IO_READ : Z := 1.
Definition SHUSO_IO_WRITE : Z := 2.
(** libev's event flags *)
Definition EV_READ : Z := 1.
Definition EV_WRITE : Z := 2.
Definition EINTR : Z := 4.
Definition EBADF : Z := 9.
Definition EAGAIN : Z := 11.
Definition ENOMEM : Z := 12.
Definition EINPROGRESS : Z := 115.
Definition ECANCELED : Z := 125.
Definition SHUT_RD : Z := 0.
Definition SHUT_WR : Z := 1.
Definition SHUT_RDWR : Z := 2.
Definition SIZEOF_SOCKADDR : Z := 112.
Definition SIZEOF_IOVEC : Z := 16.
Definition AF_UNIX : Z := 1.
Definition AF_INET : Z := 2.
Definition AF_INET6 : Z := 10.

(** [shuso_io_opcode_t] and [shuso_io_watch_type_t] *)
Inductive io_opcode :=
  OP_NONE | OP_READV | OP_WRITEV | OP_READ | OP_WRITE | OP_SENDMSG | OP_SENDTO | OP_SEND
| OP_RECVMSG | OP_RECVFROM | OP_RECV | OP_ACCEPT | OP_CONNECT | OP_CLOSE | OP_SHUTDOWN.
Inductive io_watch_type :=
  WATCH_NONE | WATCH_OP_FINISH | WATCH_OP_RETRY | WATCH_POLL_READ | WATCH_POLL_WRITE | WATCH_POLL_READWRITE.
#[export] Instance io_opcode_eq_dec : EqDecision io_opcode.
Proof. solve_decision. Defined.
#[export] Instance io_watch_type_eq_dec : EqDecision io_watch_type.
Proof. solve_decision. Defined.

(** ** State *)

(** [shuso_io_t].  A union is its 64 bits: [io_data] is [msg], [iov], [buf] or [result_data],
    [io_addr] is [sockaddr] or [incomplete_original_iovec], [io_num] is [iovcnt], [len] or
    [intdata], [io_aux] is [flags] or [incomplete_temporary_iovec]. *)
Record io_t := Io {
  io_fd : Z;
  io_data : Z;
  io_addr : Z;
  io_num : Z;
  io_aux : Z;
  io_result : Z;
  io_error : Z;
  io_error_handler : bool;
  io_handler_stage : nat;
  io_closed : Z;
  io_opcode_ : io_opcode;
  io_watch : io_watch_type;
  io_readwrite : Z;
  io_repeat : bool        (* [op_repeat_to_completion] *)
}.

Definition io_len (io : io_t) : Z := s64 (io_num io).
Definition io_iovcnt (io : io_t) : Z := u64 (io_num io).
Definition io_flags (io : io_t) : Z := s32 (io_aux io).

(** What a system call answers: a count, a descriptor or 0; or an error number.  [SysSoError] is
    what [getsockopt(SO_ERROR)] finds. *)
Inductive sysres := SysOk (n : Z) | SysErr (e : Z) | SysSoError (e : Z).

(** A system call that was made: its operation, the memory it was given and its flags, and how
    many bytes it moved. *)
Record syscall := Syscall {
  sc_op : io_opcode;
  sc_fd : Z;
  sc_mem : list (Z * Z);
  sc_flags : Z;
  sc_moved : Z
}.

(** What a handler was called with: the result and the error of the operation before. *)
Inductive handler_call := CallHandler (result error : Z) | CallErrorHandler (result error : Z) | CoroEnd.

(** An operation of a coroutine, [SHUSO_IO_CORO_YIELD(...)]. *)
Inductive request :=
| Write (buf len : Z) (partial : bool)
| Read (buf len : Z) (partial : bool)
| Send (buf len flags : Z) (partial : bool)
| Recv (buf len flags : Z) (partial : bool)
| Sendto (buf len to flags : Z) (partial : bool)
| Recvfrom (buf len from flags : Z) (partial : bool)
| Writev (iov iovcnt : Z) (partial : bool)
| Readv (iov iovcnt : Z) (partial : bool)
| Sendmsg (msg flags : Z)
| Recvmsg (msg flags : Z)
| Connect
| Accept (sockaddr len : Z)
| Close
| Shutdown (rw : Z)
| Wait (evflags : Z)
| Suspend.

Record iow := IoW {
  w_io : io_t;
  w_heap : heap;
  w_iovs : gmap Z (Z * Z);       (* every [struct iovec] in memory: base and length *)
  w_msgs : gmap Z (Z * Z);       (* every [struct msghdr]: its [msg_iov] and [msg_iovlen] *)
  w_watcher : bool;              (* the libev watcher is active *)
  w_sys : list sysres;           (* what the kernel will answer *)
  w_calls : list syscall;
  w_handled : list handler_call
}.

Section io.
Context `{Malloc}.
(** The coroutine's operations; [sockaddr]s by family. *)
Variable prog : list request.
Variable family : Z → Z.

Definition put_io (io : io_t) (w : iow) : iow :=
  IoW io (w_heap w) (w_iovs w) (w_msgs w) (w_watcher w) (w_sys w) (w_calls w) (w_handled w).
Definition put_mem (h : heap) (iovs : gmap Z (Z * Z)) (w : iow) : iow :=
  IoW (w_io w) h iovs (w_msgs w) (w_watcher w) (w_sys w) (w_calls w) (w_handled w).
Definition put_msgs (m : gmap Z (Z * Z)) (w : iow) : iow :=
  IoW (w_io w) (w_heap w) (w_iovs w) m (w_watcher w) (w_sys w) (w_calls w) (w_handled w).
Definition put_watcher (b : bool) (w : iow) : iow :=
  IoW (w_io w) (w_heap w) (w_iovs w) (w_msgs w) b (w_sys w) (w_calls w) (w_handled w).
Definition put_sys (s : list sysres) (w : iow) : iow :=
  IoW (w_io w) (w_heap w) (w_iovs w) (w_msgs w) (w_watcher w) s (w_calls w) (w_handled w).
Definition log_call (c : syscall) (w : iow) : iow :=
  IoW (w_io w) (w_heap w) (w_iovs w) (w_msgs w) (w_watcher w) (w_sys w) (w_calls w ++ [c]) (w_handled w).
Definition log_handled (c : handler_call) (w : iow) : iow :=
  IoW (w_io w) (w_heap w) (w_iovs w) (w_msgs w) (w_watcher w) (w_sys w) (w_calls w) (w_handled w ++ [c]).

Definition mod_io (f : io_t → io_t) : M iow unit := m_modify (λ w, put_io (f (w_io w)) w).
Definition get_io : M iow io_t := m_gets w_io.

Definition set_data (p : Z) (io : io_t) : io_t :=
  Io (io_fd io) p (io_addr io) (io_num io) (io_aux io) (io_result io) (io_error io) (io_error_handler io)
    (io_handler_stage io) (io_closed io) (io_opcode_ io) (io_watch io) (io_readwrite io) (io_repeat io).
Definition set_addr (p : Z) (io : io_t) : io_t :=
  Io (io_fd io) (io_data io) p (io_num io) (io_aux io) (io_result io) (io_error io) (io_error_handler io)
    (io_handler_stage io) (io_closed io) (io_opcode_ io) (io_watch io) (io_readwrite io) (io_repeat io).
Definition set_num (n : Z) (io : io_t) : io_t :=
  Io (io_fd io) (io_data io) (io_addr io) (u64 n) (io_aux io) (io_result io) (io_error io) (io_error_handler io)
    (io_handler_stage io) (io_closed io) (io_opcode_ io) (io_watch io) (io_readwrite io) (io_repeat io).
Definition set_aux (x : Z) (io : io_t) : io_t :=
  Io (io_fd io) (io_data io) (io_addr io) (io_num io) x (io_result io) (io_error io) (io_error_handler io)
    (io_handler_stage io) (io_closed io) (io_opcode_ io) (io_watch io) (io_readwrite io) (io_repeat io).
(** [flags] is the low half of its union. *)
Definition set_flags (f : Z) (io : io_t) : io_t :=
  set_aux (Z.lor (Z.land (io_aux io) (Z.shiftl (Z.ones 32) 32)) (u32 f)) io.
Definition set_result (r e : Z) (io : io_t) : io_t :=
  Io (io_fd io) (io_data io) (io_addr io) (io_num io) (io_aux io) r e (io_error_handler io)
    (io_handler_stage io) (io_closed io) (io_opcode_ io) (io_watch io) (io_readwrite io) (io_repeat io).
Definition set_stage (s : nat) (io : io_t) : io_t :=
  Io (io_fd io) (io_data io) (io_addr io) (io_num io) (io_aux io) (io_result io) (io_error io) (io_error_handler io)
    s (io_closed io) (io_opcode_ io) (io_watch io) (io_readwrite io) (io_repeat io).
Definition set_closed (c : Z) (io : io_t) : io_t :=
  Io (io_fd io) (io_data io) (io_addr io) (io_num io) (io_aux io) (io_result io) (io_error io) (io_error_handler io)
    (io_handler_stage io) c (io_opcode_ io) (io_watch io) (io_readwrite io) (io_repeat io).
Definition set_opcode (o : io_opcode) (io : io_t) : io_t :=
  Io (io_fd io) (io_data io) (io_addr io) (io_num io) (io_aux io) (io_result io) (io_error io) (io_error_handler io)
    (io_handler_stage io) (io_closed io) o (io_watch io) (io_readwrite io) (io_repeat io).
Definition set_watch (t : io_watch_type) (io : io_t) : io_t :=
  Io (io_fd io) (io_data io) (io_addr io) (io_num io) (io_aux io) (io_result io) (io_error io) (io_error_handler io)
    (io_handler_stage io) (io_closed io) (io_opcode_ io) t (io_readwrite io) (io_repeat io).
Definition set_repeat (b : bool) (io : io_t) : io_t :=
  Io (io_fd io) (io_data io) (io_addr io) (io_num io) (io_aux io) (io_result io) (io_error io) (io_error_handler io)
    (io_handler_stage io) (io_closed io) (io_opcode_ io) (io_watch io) (io_readwrite io) b.

(** [__shuso_io_init_socket] and [shuso_io_ev_init_socket], for the descriptor of a socket and
    without io_uring: the events that are watched are those of [readwrite]. *)
Definition shuso_io_ev_init_socket (io : io_t) : Z :=
  let events := if bool_decide (Z.land (io_readwrite io) SHUSO_IO_READ ≠ 0) then SHUSO_IO_READ else 0 in
  if bool_decide (Z.land (io_readwrite io) SHUSO_IO_WRITE ≠ 0) then Z.lor events SHUSO_IO_WRITE else events.
Definition shuso_io_init_socket (fd : Z) (readwrite : Z) : option (io_t * Z) :=
  if (readwrite =? SHUSO_IO_READ) || (readwrite =? SHUSO_IO_WRITE)
     || (readwrite =? Z.lor SHUSO_IO_READ SHUSO_IO_WRITE) then
    let io := Io fd 0 0 0 0 0 0 false 0 0 OP_NONE WATCH_NONE readwrite false in
    Some (io, shuso_io_ev_init_socket io)
  else None.
Definition shuso_io_init_fd (fd : Z) (readwrite : Z) : option (io_t * Z) := shuso_io_init_socket fd readwrite.
(** A [hostinfo] has no descriptor yet. *)
Definition shuso_io_init_hostinfo (readwrite : Z) : option (io_t * Z) := shuso_io_init_socket (-1) readwrite.

(** ** The watcher *)

Definition shuso_io_ev_watch_update : M iow unit :=
  w <- m_get ;;
  let ev_watcher_active := w_watcher w in
  if bool_decide (io_watch (w_io w) = WATCH_NONE) && ev_watcher_active then m_modify (put_watcher false)
  else if bool_decide (io_watch (w_io w) ≠ WATCH_NONE) && negb ev_watcher_active then m_modify (put_watcher true)
  else m_ret tt.
(** Without io_uring. *)
Definition shuso_io_watch_update : M iow unit := shuso_io_ev_watch_update.

Definition ev_opcode_finish_match_event_type (op : io_opcode) (evflags : Z) : M iow bool :=
  match op with
  | OP_CONNECT => m_ret (bool_decide (Z.land evflags EV_WRITE ≠ 0))
  | _ => m_abort
  end.

Definition ev_opcode_retry_match_event_type (op : io_opcode) (evflags : Z) : M iow bool :=
  match op with
  | OP_NONE => m_abort
  | OP_READV | OP_READ | OP_RECVFROM | OP_RECVMSG | OP_RECV => m_ret (bool_decide (Z.land evflags EV_READ ≠ 0))
  | OP_WRITEV | OP_WRITE | OP_SENDTO | OP_SENDMSG | OP_SEND => m_ret (bool_decide (Z.land evflags EV_WRITE ≠ 0))
  | OP_ACCEPT | OP_CONNECT | OP_CLOSE | OP_SHUTDOWN => m_ret true
  end.

Definition ev_watch_poll_match_event_type (t : io_watch_type) (evflags : Z) : bool :=
  if bool_decide (Z.land evflags EV_READ ≠ 0) then
    bool_decide (t = WATCH_POLL_READ) || bool_decide (t = WATCH_POLL_READWRITE)
  else if bool_decide (Z.land evflags EV_WRITE ≠ 0) then
    bool_decide (t = WATCH_POLL_WRITE) || bool_decide (t = WATCH_POLL_READWRITE)
  else false.

(** ** Arrays of [struct iovec] *)

(** Only memory that holds an [iovec] can be read or written as one. *)
Definition read_iov (a : Z) : M iow (Z * Z) :=
  λ w, match w_iovs w !! a with Some v => Some (v, w) | None => None end.
Definition write_iov (a : Z) (v : Z * Z) : M iow unit :=
  λ w, match w_iovs w !! a with
       | Some _ => Some (tt, put_mem (w_heap w) (<[a := v]> (w_iovs w)) w)
       | None => None
       end.
Definition iov_at (iov i : Z) : Z := iov + SIZEOF_IOVEC * i.
(** The addresses of an array of [n] and its cells. *)
Definition iov_cells (a : Z) (n : nat) : gmap Z (Z * Z) :=
  list_to_map ((λ i, (iov_at a (Z.of_nat i), (0, 0))) <$> seq 0 n).
Definition malloc_iovs (n : Z) : M iow (option Z) :=
  λ w, match h_malloc (u64 (SIZEOF_IOVEC * n)) (w_heap w) with
       | Some (Some a, h) => Some (Some a, put_mem h (iov_cells a (Z.to_nat n) ∪ w_iovs w) w)
       | Some (None, h) => Some (None, put_mem h (w_iovs w) w)
       | None => None
       end.
Definition free_iovs (a : Z) : M iow unit :=
  λ w, match w_heap w !! a, h_free a (w_heap w) with
       | Some sz, Some (_, h) =>
           Some (tt, put_mem h (w_iovs w ∖ iov_cells a (Z.to_nat (sz / SIZEOF_IOVEC))) w)
       | _, _ => None
       end.

(** The loop that fills [tmp_iov]: [n] elements from index [i] on. *)
Fixpoint copy_iovs (n : nat) (tmp_iov iov off i : Z) : M iow unit :=
  match n with
  | O => m_ret tt
  | S n' =>
      v <- read_iov (iov_at iov (i + off)) ;;
      write_iov (iov_at tmp_iov i) v ;;;
      copy_iovs n' tmp_iov iov off (i + 1)
  end.

(** Returns whether it succeeded, and what [*iovptr] and [*iovcnt_ptr] are then. *)
Definition io_iovec_update_on_incomplete_op (iov iovcnt off start : Z) : M iow (bool * Z * Z) :=
  if start =? 0 then
    io <- get_io ;;
    (if io_addr io =? 0 then mod_io (set_addr iov) else m_ret tt) ;;;
    m_assert (off <? iovcnt) ;;;
    m_ret (true, iov_at iov off, u64 (iovcnt - off))
  else
    io <- get_io ;;
    if io_aux io =? 0 then
      let new_iovcnt := s64 (s64 iovcnt - off) in
      m_assert (0 <? s64 iovcnt) ;;;
      m_assert (0 <? new_iovcnt) ;;;
      m_assert (0 <? u64 (iovcnt + off)) ;;;
      r <- malloc_iovs new_iovcnt ;;
      match r with
      | None => mod_io (set_result (-1) ENOMEM) ;;; m_ret (false, iov, iovcnt)
      | Some tmp_iov =>
          copy_iovs (Z.to_nat (u64 (iovcnt + off))) tmp_iov iov off 0 ;;;
          v <- read_iov tmp_iov ;;
          m_assert (start <? v.2) ;;;
          write_iov tmp_iov (v.1 + start, v.2 - start) ;;;
          mod_io (set_aux tmp_iov) ;;;
          (if io_addr io =? 0 then mod_io (set_addr iov) else m_ret tt) ;;;
          m_assert (off <? iovcnt) ;;;
          m_ret (true, tmp_iov, u64 (iovcnt - off))
      end
    else
      m_assert (negb (io_addr io =? 0)) ;;;
      v <- read_iov (iov_at iov off) ;;
      m_assert (start <? v.2) ;;;
      m_assert (off <? iovcnt) ;;;
      m_ret (true, iov_at iov off, u64 (iovcnt - off)).

(** The scan of [io_iovec_op_update_and_check_completion], for [n] more elements from index [i] on:
    where it stopped, what is then left of [written], and whether that ended in the middle of
    an iovec. *)
Fixpoint scan_iovs (n : nat) (iov i written : Z) : M iow (Z * Z * bool) :=
  match n with
  | O => m_ret (i, written, false)
  | S n' =>
      if 0 <? written then
        v <- read_iov (iov_at iov i) ;;
        if written <? v.2 then m_ret (i, written, true)
        else scan_iovs n' iov (i + 1) (written - v.2)
      else m_ret (i, written, false)
  end.

(** [true] when the operation is complete; with the new [*iov_ptr] and [*iovcnt_ptr]. *)
Definition io_iovec_op_update_and_check_completion (iov iovcnt written : Z) : M iow (bool * Z * Z) :=
  r <- scan_iovs (Z.to_nat iovcnt) iov 0 (u64 written) ;;
  let '(i, rest, middle) := r in
  if middle || (0 <? rest) then
    u <- io_iovec_update_on_incomplete_op iov iovcnt i (if middle then rest else 0) ;;
    let '(ok, iov', iovcnt') := u in
    io <- get_io ;;
    (if ok then m_ret tt else m_assert (negb (io_error io =? 0))) ;;;
    m_ret (negb ok, iov', iovcnt')
  else m_ret (true, iov, iovcnt).

Definition shuso_io_op_update_and_check_completion (result_sz : Z) : M iow bool :=
  io <- get_io ;;
  match io_opcode_ io with
  | OP_NONE | OP_CONNECT | OP_ACCEPT | OP_CLOSE | OP_SHUTDOWN => m_ret true
  | OP_READ | OP_WRITE | OP_SENDTO | OP_RECVFROM | OP_SEND | OP_RECV =>
      mod_io (λ io, set_num (io_len io - result_sz) (set_data (io_data io + result_sz) io)) ;;;
      io <- get_io ;;
      m_assert (0 <=? io_len io) ;;;
      m_ret (io_len io =? 0)
  | OP_READV | OP_WRITEV =>
      r <- io_iovec_op_update_and_check_completion (io_data io) (io_iovcnt io) result_sz ;;
      let '(ret, iov, iovcnt) := r in
      mod_io (λ io, set_num iovcnt (set_data iov io)) ;;;
      m_ret ret
  | OP_RECVMSG | OP_SENDMSG =>
      w <- m_get ;;
      match w_msgs w !! io_data io with
      | None => m_abort
      | Some (msg_iov, msg_iovlen) =>
          r <- io_iovec_op_update_and_check_completion msg_iov msg_iovlen result_sz ;;
          let '(ret, iov, iovcnt) := r in
          m_modify (λ w, put_msgs (<[io_data io := (iov, iovcnt)]> (w_msgs w)) w) ;;;
          m_ret ret
      end
  end.

Definition shuso_io_af_sockaddrlen (fam : Z) : Z :=
  if fam =? AF_INET then 16 else if fam =? AF_INET6 then 28 else if fam =? AF_UNIX then 110 else 0.

Definition shuso_io_update_fd_closed_status_from_op_result (op : io_opcode) (result : Z) : M iow unit :=
  match op with
  | OP_READ | OP_READV | OP_RECVFROM | OP_RECV | OP_RECVMSG =>
      mod_io (λ io, set_closed (if result =? 0 then Z.lor (io_closed io) SHUSO_IO_READ
                                else Z.land (io_closed io) (Z.lnot SHUSO_IO_READ)) io)
  | OP_WRITE | OP_WRITEV | OP_SENDMSG | OP_SENDTO | OP_SEND =>
      mod_io (λ io, set_closed (if result =? 0 then Z.lor (io_closed io) SHUSO_IO_WRITE
                                else Z.land (io_closed io) (Z.lnot SHUSO_IO_WRITE)) io)
  | _ => m_ret tt
  end.

Definition shuso_io_op_cleanup : M iow unit :=
  io <- get_io ;;
  match io_opcode_ io with
  | OP_READV | OP_WRITEV | OP_SENDMSG | OP_RECVMSG =>
      if io_aux io =? 0 then m_ret tt
      else free_iovs (io_aux io) ;;; mod_io (set_aux 0)
  | _ => m_ret tt
  end.

(** ** System calls *)

(** The memory of a data operation: its one buffer, or the iovecs. *)
Fixpoint read_iovs (n : nat) (iov : Z) : M iow (list (Z * Z)) :=
  match n with
  | O => m_ret []
  | S n' => v <- read_iov iov ;; vs <- read_iovs n' (iov_at iov 1) ;; m_ret (v :: vs)
  end.
Definition op_memory (io : io_t) : M iow (list (Z * Z)) :=
  match io_opcode_ io with
  | OP_READ | OP_WRITE | OP_SENDTO | OP_RECVFROM | OP_SEND | OP_RECV => m_ret [(io_data io, io_len io)]
  | OP_READV | OP_WRITEV => read_iovs (Z.to_nat (io_iovcnt io)) (io_data io)
  | OP_SENDMSG | OP_RECVMSG =>
      w <- m_get ;;
      match w_msgs w !! io_data io with
      | None => m_abort
      | Some (msg_iov, msg_iovlen) => read_iovs (Z.to_nat msg_iovlen) msg_iov
      end
  | _ => m_ret []
  end.
Definition op_moves_data (op : io_opcode) : bool :=
  match op with OP_NONE | OP_ACCEPT | OP_CONNECT | OP_CLOSE | OP_SHUTDOWN => false | _ => true end.
Definition mem_size (mem : list (Z * Z)) : Z := foldr (λ v n, v.2 + n) 0 mem.

(** The system call [op]: the kernel moves no more bytes than it was given memory for; when it has
    no answer left the call would block. *)
Definition run_syscall (op : io_opcode) (flags : Z) : M iow sysres :=
  io <- get_io ;;
  mem <- op_memory io ;;
  w <- m_get ;;
  let r := match w_sys w with
           | [] => SysErr EAGAIN
           | SysOk n :: _ => SysOk (if op_moves_data op then Z.max 0 (Z.min n (mem_size mem)) else n)
           | SysErr e :: _ => SysErr e
           | SysSoError e :: _ => SysErr e
           end in
  m_put (put_sys (tail (w_sys w)) w) ;;;
  m_modify (log_call (Syscall op (io_fd io) mem flags
                        (match r with SysOk n => if op_moves_data op then n else 0 | _ => 0 end))) ;;;
  m_ret r.

(** [shuso_io_ev_connect]: while a connection is pending, its outcome is asked for instead. *)
Definition shuso_io_ev_connect : M iow sysres :=
  io <- get_io ;;
  if io_fd io =? -1 then m_ret (SysErr EBADF)
  else if bool_decide (io_watch io = WATCH_OP_FINISH) then
    w <- m_get ;;
    m_put (put_sys (tail (w_sys w)) w) ;;;
    mod_io (set_watch WATCH_NONE) ;;;
    shuso_io_ev_watch_update ;;;
    m_ret (match w_sys w with
           | SysSoError e :: _ => if e =? 0 then SysOk 0 else SysErr e
           | SysErr e :: _ => SysErr e
           | _ => SysOk 0
           end)
  else run_syscall OP_CONNECT 0.

(** ** Operations

    A handler may issue operations that complete at once and call it again; [run_handler] is what
    an operation does when it is over. *)

Section open_recursion.
Variable run_handler : M iow unit.

(** [switch(op)], and again while the call was interrupted; [n] bounds the repetitions by the
    kernel's answers. *)
Fixpoint call_until_uninterrupted (n : nat) (op : io_opcode) : M iow sysres :=
  io <- get_io ;;
  r <- (match op with
        | OP_NONE => m_abort
        | OP_WRITE => m_assert (0 <? io_len io) ;;; run_syscall op 0
        | OP_READ | OP_READV | OP_WRITEV | OP_CLOSE => run_syscall op 0
        | OP_SENDMSG | OP_RECVMSG | OP_RECV | OP_SEND => run_syscall op (io_flags io)
        | OP_RECVFROM | OP_SENDTO => m_assert (negb (io_addr io =? 0)) ;;; run_syscall op (io_flags io)
        | OP_CONNECT => shuso_io_ev_connect
        | OP_ACCEPT =>
            m_assert (u32 (io_num io) =? SIZEOF_SOCKADDR) ;;;
            m_assert (negb (io_addr io =? 0)) ;;;
            r <- run_syscall op 0 ;;
            mod_io (λ io, set_num (u32 (io_num io)) io) ;;;
            m_ret r
        | OP_SHUTDOWN => run_syscall op (io_flags io)
        end) ;;
  match r, n with
  | SysErr e, S n' => if e =? EINTR then call_until_uninterrupted n' op else m_ret r
  | _, _ => m_ret r
  end.

Definition shuso_io_ev_operation : M iow unit :=
  io <- get_io ;;
  let op := io_opcode_ io in
  n <- m_gets (λ w, length (w_sys w)) ;;
  r <- call_until_uninterrupted n op ;;
  let result := match r with SysOk n => n | _ => -1 end in
  let errno := match r with SysOk _ => 0 | SysErr e => e | SysSoError e => e end in
  shuso_io_update_fd_closed_status_from_op_result op result ;;;
  if result =? -1 then
    if bool_decide (op = OP_CONNECT) && ((errno =? EAGAIN) || (errno =? EINPROGRESS)) then
      mod_io (set_watch WATCH_OP_FINISH) ;;; shuso_io_ev_watch_update
    else if errno =? EAGAIN then
      mod_io (set_watch WATCH_OP_RETRY) ;;; shuso_io_ev_watch_update
    else
      mod_io (set_result (-1) errno) ;;;
      shuso_io_op_cleanup ;;;
      run_handler
  else
    io <- get_io ;;
    complete <- (if negb (result =? 0) && io_repeat io
                 then shuso_io_op_update_and_check_completion result else m_ret true) ;;
    if negb complete then
      mod_io (set_watch WATCH_OP_RETRY) ;;;
      mod_io (λ io, set_result (s64 (io_result io + result)) (io_error io) io) ;;;
      shuso_io_ev_watch_update
    else
      shuso_io_op_cleanup ;;;
      mod_io (λ io, set_result (s64 (io_result io + result)) (io_error io) io) ;;;
      run_handler.

Definition io_op_run_new (opcode : io_opcode) (init_ptr init_len : Z) (partial : bool) : M iow unit :=
  mod_io (set_result 0 0) ;;;
  mod_io (set_opcode opcode) ;;;
  match opcode with
  | OP_READV | OP_WRITEV | OP_SENDMSG | OP_RECVMSG =>
      mod_io (λ io, set_aux 0 (set_addr 0 (set_num init_len (set_data init_ptr io))))
  | OP_ACCEPT =>
      mod_io (λ io, set_num init_len (set_addr init_ptr io)) ;;;
      m_assert (init_len =? SIZEOF_SOCKADDR)
  | _ => mod_io (λ io, set_num init_len (set_data init_ptr io))
  end ;;;
  mod_io (set_repeat (negb partial)) ;;;
  shuso_io_ev_operation.

Definition shuso_io_connect : M iow unit := io_op_run_new OP_CONNECT 0 0 false.
Definition shuso_io_shutdown (rw : Z) : M iow unit :=
  let how := if rw =? Z.lor SHUSO_IO_READ SHUSO_IO_WRITE then SHUT_RDWR
             else if rw =? SHUSO_IO_READ then SHUT_RD
             else if rw =? SHUSO_IO_WRITE then SHUT_WR
             else 0 in
  io_op_run_new OP_CLOSE 0 how false.
Definition shuso_io_close : M iow unit := io_op_run_new OP_CLOSE 0 0 false.
Definition shuso_io_accept (sockaddr_buffer len : Z) : M iow unit :=
  m_assert (len =? SIZEOF_SOCKADDR) ;;; io_op_run_new OP_ACCEPT sockaddr_buffer len false.
Definition shuso_io_writev_partial (iov iovcnt : Z) : M iow unit := io_op_run_new OP_WRITEV iov iovcnt true.
Definition shuso_io_writev (iov iovcnt : Z) : M iow unit := io_op_run_new OP_WRITEV iov iovcnt false.
Definition shuso_io_readv_partial (iov iovcnt : Z) : M iow unit := io_op_run_new OP_READV iov iovcnt true.
Definition shuso_io_readv (iov iovcnt : Z) : M iow unit := io_op_run_new OP_READV iov iovcnt false.
Definition shuso_io_sendto_partial (buf len to flags : Z) : M iow unit :=
  mod_io (set_flags flags) ;;; mod_io (set_addr to) ;;; io_op_run_new OP_SENDTO buf len true.
Definition shuso_io_sendto (buf len to flags : Z) : M iow unit :=
  mod_io (set_flags flags) ;;; mod_io (set_addr to) ;;; io_op_run_new OP_SENDTO buf len false.
Definition shuso_io_recvfrom_partial (buf len from flags : Z) : M iow unit :=
  mod_io (set_flags flags) ;;; mod_io (set_addr from) ;;; io_op_run_new OP_RECVFROM buf len true.
Definition shuso_io_recvfrom (buf len from flags : Z) : M iow unit :=
  mod_io (set_flags flags) ;;; mod_io (set_addr from) ;;; io_op_run_new OP_RECVFROM buf len false.
Definition shuso_io_send_partial (buf len flags : Z) : M iow unit :=
  mod_io (set_flags flags) ;;; io_op_run_new OP_SEND buf len true.
Definition shuso_io_send (buf len flags : Z) : M iow unit :=
  mod_io (set_flags flags) ;;; io_op_run_new OP_SEND buf len false.
Definition shuso_io_recv_partial (buf len flags : Z) : M iow unit :=
  mod_io (set_flags flags) ;;; io_op_run_new OP_RECV buf len true.
Definition shuso_io_recv (buf len flags : Z) : M iow unit :=
  mod_io (set_flags flags) ;;; io_op_run_new OP_RECV buf len false.
Definition shuso_io_write_partial (buf len : Z) : M iow unit := io_op_run_new OP_WRITE buf len true.
Definition shuso_io_write (buf len : Z) : M iow unit := io_op_run_new OP_WRITE buf len false.
Definition shuso_io_read_partial (buf len : Z) : M iow unit := io_op_run_new OP_READ buf len true.
Definition shuso_io_read (buf len : Z) : M iow unit := io_op_run_new OP_READ buf len false.
Definition shuso_io_sendmsg (msg flags : Z) : M iow unit :=
  mod_io (set_flags flags) ;;; io_op_run_new OP_SENDMSG msg 0 false.
Definition shuso_io_recvmsg (msg flags : Z) : M iow unit :=
  mod_io (set_flags flags) ;;; io_op_run_new OP_RECVMSG msg 0 false.

Definition shuso_io_suspend : M iow unit :=
  mod_io (set_opcode OP_NONE) ;;; mod_io (set_watch WATCH_NONE) ;;; shuso_io_watch_update.

Definition shuso_io_wait (evflags : Z) : M iow unit :=
  (if evflags =? Z.lor SHUSO_IO_READ SHUSO_IO_WRITE then mod_io (set_watch WATCH_POLL_READWRITE)
   else if evflags =? SHUSO_IO_READ then mod_io (set_watch WATCH_POLL_READ)
   else if evflags =? SHUSO_IO_WRITE then mod_io (set_watch WATCH_POLL_WRITE)
   else m_ret tt) ;;;
  mod_io (set_result 0 0) ;;;
  shuso_io_watch_update.

Definition issue (r : request) : M iow unit :=
  match r with
  | Write buf len true => shuso_io_write_partial buf len
  | Write buf len false => shuso_io_write buf len
  | Read buf len true => shuso_io_read_partial buf len
  | Read buf len false => shuso_io_read buf len
  | Send buf len flags true => shuso_io_send_partial buf len flags
  | Send buf len flags false => shuso_io_send buf len flags
  | Recv buf len flags true => shuso_io_recv_partial buf len flags
  | Recv buf len flags false => shuso_io_recv buf len flags
  | Sendto buf len to flags true => shuso_io_sendto_partial buf len to flags
  | Sendto buf len to flags false => shuso_io_sendto buf len to flags
  | Recvfrom buf len from flags true => shuso_io_recvfrom_partial buf len from flags
  | Recvfrom buf len from flags false => shuso_io_recvfrom buf len from flags
  | Writev iov n true => shuso_io_writev_partial iov n
  | Writev iov n false => shuso_io_writev iov n
  | Readv iov n true => shuso_io_readv_partial iov n
  | Readv iov n false => shuso_io_readv iov n
  | Sendmsg msg flags => shuso_io_sendmsg msg flags
  | Recvmsg msg flags => shuso_io_recvmsg msg flags
  | Connect => shuso_io_connect
  | Accept sa len => shuso_io_accept sa len
  | Close => shuso_io_close
  | Shutdown rw => shuso_io_shutdown rw
  | Wait evflags => shuso_io_wait evflags
  | Suspend => shuso_io_suspend
  end.
(** [shuso_io_ev_watcher_handler]: what libev calls. *)
Definition ev_watcher_handler (evflags : Z) : M iow unit :=
  io <- get_io ;;
  match io_watch io with
  | WATCH_NONE => m_abort
  | WATCH_OP_FINISH =>
      b <- ev_opcode_finish_match_event_type (io_opcode_ io) evflags ;;
      if b then shuso_io_ev_operation else m_ret tt
  | WATCH_OP_RETRY =>
      b <- ev_opcode_retry_match_event_type (io_opcode_ io) evflags ;;
      if b then
        mod_io (set_watch WATCH_NONE) ;;;
        m_assert (bool_decide (io_opcode_ io ≠ OP_NONE)) ;;;
        shuso_io_ev_operation
      else m_ret tt
  | WATCH_POLL_READ | WATCH_POLL_WRITE | WATCH_POLL_READWRITE =>
      if ev_watch_poll_match_event_type (io_watch io) evflags then
        mod_io (set_watch WATCH_NONE) ;;;
        run_handler
      else m_ret tt
  end.
End open_recursion.

(** ** Coroutines

    [SHUSO_IO_CORO_BEGIN], a [YIELD] for each request, [SHUSO_IO_CORO_END]: the stage counts the
    yields passed, 0 before the first one and after the end. *)
Definition coroutine (run_handler : M iow unit) : M iow unit :=
  io <- get_io ;;
  match prog !! io_handler_stage io with
  | Some r => mod_io (set_stage (S (io_handler_stage io))) ;;; issue run_handler r
  | None => m_modify (log_handled CoroEnd) ;;; mod_io (set_stage 0)
  end.

(** The coroutine is told of the result of the operation before; [fuel] bounds the operations that
    complete one inside the other. *)
Fixpoint shuso_io_run_handler (fuel : nat) : M iow unit :=
  match fuel with
  | O => m_abort
  | S fuel' =>
      io <- get_io ;;
      if io_error_handler io && (io_result io =? -1) then
        mod_io (set_stage 0) ;;;
        m_modify (log_handled (CallErrorHandler (io_result io) (io_error io)))
      else
        (match io_handler_stage io with
         | O => m_ret tt
         | S _ => m_modify (log_handled (CallHandler (io_result io) (io_error io)))
         end) ;;;
        coroutine (shuso_io_run_handler fuel') ;;;
        shuso_io_watch_update
  end.

Definition shuso_io_resume_buf (fuel : nat) (buf len : Z) : M iow unit :=
  mod_io (λ io, set_num len (set_data buf io)) ;;; shuso_io_run_handler fuel.
Definition shuso_io_resume_iovec (fuel : nat) (iov iovcnt : Z) : M iow unit :=
  mod_io (λ io, set_num iovcnt (set_data iov io)) ;;; shuso_io_run_handler fuel.
Definition shuso_io_resume_msg (fuel : nat) (msg flags : Z) : M iow unit :=
  mod_io (λ io, set_flags flags (set_data msg io)) ;;; shuso_io_run_handler fuel.
(** [intdata] is the low half of its union. *)
Definition shuso_io_resume_data (fuel : nat) (data intdata : Z) : M iow unit :=
  mod_io (λ io, set_num (Z.lor (Z.land (io_num io) (Z.shiftl (Z.ones 32) 32)) (u32 intdata))
                  (set_data data io)) ;;;
  shuso_io_run_handler fuel.

(** [shuso_io_start(io)] *)
Definition shuso_io_start (fuel : nat) : M iow unit :=
  io <- get_io ;;
  m_assert (bool_decide (io_handler_stage io = O)) ;;;
  shuso_io_resume_buf fuel 0 0.

Definition shuso_io_abort : M iow unit :=
  shuso_io_op_cleanup ;;;
  mod_io (set_watch WATCH_NONE) ;;;
  mod_io (set_result (-1) ECANCELED) ;;;
  shuso_io_watch_update.

(** Unlike other ends of an operation this one calls the handler itself. *)
Definition shuso_io_stop (fuel : nat) : M iow unit :=
  io <- get_io ;;
  (if bool_decide (io_watch io = WATCH_NONE) then m_ret tt
   else
     mod_io (set_watch WATCH_NONE) ;;;
     mod_io (set_result (-1) ECANCELED) ;;;
     m_modify (log_handled (CallHandler (-1) ECANCELED)) ;;;
     coroutine (shuso_io_run_handler fuel)) ;;;
  shuso_io_abort.

(** ** The event loop *)

Definition shuso_io_ev_watcher_handler (fuel : nat) : Z → M iow unit := ev_watcher_handler (shuso_io_run_handler fuel).

(** libev calls the watcher while it is active and the kernel has something new. *)
Fixpoint io_loop (turns fuel : nat) (evflags : Z) : M iow unit :=
  w <- m_get ;;
  match turns, w_watcher w, w_sys w with
  | S turns', true, _ :: _ => shuso_io_ev_watcher_handler fuel evflags ;;; io_loop turns' fuel evflags
  | _, _, _ => m_ret tt
  end.
End io.

(** ** The specification: blocking calls

    A request on one buffer: its operation, the buffer and its length, whether a partial transfer is
    enough. *)
Definition buffer_request (r : request) : option (io_opcode * Z * Z * bool) :=
  match r with
  | Write buf len p => Some (OP_WRITE, buf, len, p)
  | Read buf len p => Some (OP_READ, buf, len, p)
  | Send buf len _ p => Some (OP_SEND, buf, len, p)
  | Recv buf len _ p => Some (OP_RECV, buf, len, p)
  | Sendto buf len _ _ p => Some (OP_SENDTO, buf, len, p)
  | Recvfrom buf len _ _ p => Some (OP_RECVFROM, buf, len, p)
  | _ => None
  end.
Definition request_addr (r : request) : Z :=
  match r with Sendto _ _ to _ _ => to | Recvfrom _ _ from _ _ => from | _ => 1 end.
Definition request_ok (r : request) : Prop :=
  match buffer_request r with
  | Some (_, _, len, _) => 0 < len < 2 ^ 63 ∧ request_addr r ≠ 0
  | None => False
  end.

(** What a call that waits moves of [buf], and its result and error; [None] while it waits for the
    kernel.  [acc] bytes were moved before.  What is left of the kernel's answers comes last. *)
Fixpoint blocking (sys : list sysres) (buf len acc : Z) (partial : bool)
    : list Z * option (Z * Z) * list sysres :=
  match sys with
  | [] => ([], None, [])
  | SysOk n :: sys' =>
      let m := Z.max 0 (Z.min n len) in
      if (m =? 0) || partial || (m =? len) then (seqZ buf m, Some (acc + m, 0), sys')
      else let '(b, r, s) := blocking sys' (buf + m) (len - m) (acc + m) partial in (seqZ buf m ++ b, r, s)
  | SysErr e :: sys' | SysSoError e :: sys' =>
      if (e =? EINTR) || (e =? EAGAIN) then blocking sys' buf len acc partial
      else ([], Some (-1, e), sys')
  end.

(** The calls of the coroutine, the bytes that are moved and the answers left, for requests made one
    after the other. *)
Definition outcome : Type := list handler_call * list Z * list sysres.
Definition and_then (k : list sysres → outcome) (r : list Z * option (Z * Z) * list sysres) : outcome :=
  match r with
  | (b, Some (res, e), s) => let '(h, b', s') := k s in (CallHandler res e :: h, b ++ b', s')
  | (b, None, s) => ([], b, s)
  end.
Fixpoint blocking_coroutine (reqs : list request) (sys : list sysres) : outcome :=
  match reqs with
  | [] => ([CoroEnd], [], sys)
  | r :: reqs' =>
      match buffer_request r with
      | Some (_, buf, len, partial) =>
          and_then (blocking_coroutine reqs') (blocking sys buf len 0 partial)
      | None => ([], [], sys)
      end
  end.

(** The addresses of the bytes the system calls moved, in order. *)
Fixpoint first_bytes (mem : list (Z * Z)) (n : Z) : list Z :=
  match mem with
  | [] => []
  | (b, len) :: mem' => seqZ b (Z.min n len) ++ first_bytes mem' (n - Z.min n len)
  end.
Definition call_bytes (c : syscall) : list Z := first_bytes (sc_mem c) (sc_moved c).
Definition bytes_moved (w : iow) : list Z := w_calls w ≫= call_bytes.

(** ** The state machine implements it *)

Section refinement.
Context `{Malloc}.
Variable prog : list request.
Local Abbreviation handler := (shuso_io_run_handler prog).

(** The kernel's next answer that is not an interruption. *)
Fixpoint answer (sys : list sysres) : sysres * list sysres :=
  match sys with
  | [] => (SysErr EAGAIN, [])
  | SysOk n :: sys' => (SysOk n, sys')
  | SysErr e :: sys' | SysSoError e :: sys' => if e =? EINTR then answer sys' else (SysErr e, sys')
  end.

Lemma blocking_answer sys buf len acc partial :
  blocking sys buf len acc partial =
  match answer sys with
  | (SysOk n, s) => blocking (SysOk n :: s) buf len acc partial
  | (SysErr e, s) | (SysSoError e, s) =>
      if e =? EAGAIN then blocking s buf len acc partial else ([], Some (-1, e), s)
  end.
Proof.
  induction sys as [|[n|e|e] sys IH]; simpl; [done|done| |];
    (destruct (Z.eqb_spec e EINTR); simpl; [done|]; by destruct (Z.eqb_spec e EAGAIN)).
Qed.

Lemma answer_shorter sys : (length (answer sys).2 < length sys)%nat ∨ sys = [] ∧ (answer sys).2 = [].
Proof.
  induction sys as [|[n|e|e] sys IH]; simpl; [by right|left; simpl; lia| |];
    (destruct (e =? EINTR); simpl; left; destruct IH as [?|[-> _]]; simpl; lia).
Qed.

Definition is_buffer_op (op : io_opcode) : bool :=
  match op with OP_READ | OP_WRITE | OP_SENDTO | OP_RECVFROM | OP_SEND | OP_RECV => true | _ => false end.

(** An operation on a buffer with [len] bytes to go after [acc], issued by the yield before stage
    [k]. *)
Record op_state (op : io_opcode) (buf len acc : Z) (partial : bool) (k : nat) (io : io_t) : Prop := OpState {
  os_op : is_buffer_op op = true;
  os_opcode : io_opcode_ io = op;
  os_data : io_data io = buf;
  os_num : io_num io = len;
  os_len : 0 < len;
  os_acc : 0 ≤ acc;
  os_sum : acc + len < 2 ^ 63;
  os_addr : op = OP_SENDTO ∨ op = OP_RECVFROM → io_addr io ≠ 0;
  os_result : io_result io = acc;
  os_error : io_error io = 0;
  os_stage : io_handler_stage io = k;
  os_repeat : io_repeat io = negb partial;
  os_no_handler : io_error_handler io = false
}.

Lemma op_state_len op buf len acc partial k io : op_state op buf len acc partial k io → io_len io = len.
Proof. intros []. unfold io_len. subst. apply s64_small. lia. Qed.

Definition with_calls (s : list sysres) (calls : list syscall) (w : iow) : iow :=
  IoW (w_io w) (w_heap w) (w_iovs w) (w_msgs w) (w_watcher w) s (w_calls w ++ calls) (w_handled w).

(** One system call on the buffer. *)
Definition one_answer (sys : list sysres) : sysres :=
  match sys with [] => SysErr EAGAIN | SysOk n :: _ => SysOk n | SysErr e :: _ | SysSoError e :: _ => SysErr e end.
Definition moved (len : Z) (r : sysres) : Z :=
  match r with SysOk n => Z.max 0 (Z.min n len) | _ => 0 end.
Definition clamped (len : Z) (r : sysres) : sysres :=
  match r with SysOk n => SysOk (moved len r) | SysErr e | SysSoError e => SysErr e end.

Lemma call_once n op buf len acc partial k w :
  op_state op buf len acc partial k (w_io w) →
  ∃ c, call_bytes c = seqZ buf (moved len (one_answer (w_sys w))) ∧
    let r := clamped len (one_answer (w_sys w)) in
    let w' := with_calls (tail (w_sys w)) [c] w in
    call_until_uninterrupted n op w =
    match r, n with
    | SysErr e, S n' => if e =? EINTR then call_until_uninterrupted n' op w' else Some (r, w')
    | _, _ => Some (r, w')
    end.
Proof.
  intros Hop. pose proof (op_state_len _ _ _ _ _ _ _ Hop) as Hlen.
  set (fl := match op with OP_READ | OP_WRITE => 0 | _ => io_flags (w_io w) end).
  set (c := Syscall op (io_fd (w_io w)) [(buf, len)] fl (moved len (one_answer (w_sys w)))).
  assert (run_syscall op fl w = Some (clamped len (one_answer (w_sys w)), with_calls (tail (w_sys w)) [c] w)) as Hrun.
  { unfold run_syscall, op_memory, get_io, m_bind, m_gets, m_get, m_put, m_modify, m_ret.
    rewrite (os_opcode _ _ _ _ _ _ _ Hop). subst c.
    destruct Hop as [Ho Hopc Hd Hn Hl Ha Hs Had Hr He Hst Hrp Hnh].
    destruct op; try done; simpl; rewrite Hd, Hlen; simpl; rewrite ?Z.add_0_r;
      (destruct (w_sys w) as [|[]]; simpl; rewrite ?Z.add_0_r; done). }
  exists c. split.
  { subst c. unfold call_bytes; simpl. rewrite app_nil_r. f_equal. apply Z.min_l.
    destruct Hop. destruct (one_answer _); simpl; lia. }
  simpl.
  assert (0 <? io_len (w_io w) = true) as Hpos by (rewrite Hlen; apply Z.ltb_lt; apply Hop).
  assert (op = OP_SENDTO ∨ op = OP_RECVFROM → negb (io_addr (w_io w) =? 0) = true) as Haddr.
  { intros Ho. apply negb_true_iff, Z.eqb_neq. by apply Hop. }
  assert (call_until_uninterrupted n op w =
          match run_syscall op fl w with
          | Some (r, w') => (match r, n with
                             | SysErr e, S n' => if e =? EINTR then call_until_uninterrupted n' op else m_ret r
                             | _, _ => m_ret r end) w'
          | None => None end) as ->.
  { subst fl. destruct n; destruct op; try (destruct Hop; done); simpl; unfold get_io, m_bind, m_gets, m_assert;
      rewrite ?Hpos, ?Haddr by auto; done. }
  rewrite Hrun. destruct (one_answer (w_sys w)) as [?|e|e]; simpl; [by destruct n| |];
    (destruct n; [done|]; by destruct (e =? EINTR)).
Qed.

(** The system call, until it is not interrupted. *)
Lemma call_spec n op buf len acc partial k w :
  op_state op buf len acc partial k (w_io w) → (length (w_sys w) ≤ n)%nat →
  ∃ calls, let r := (answer (w_sys w)).1 in
    call_until_uninterrupted n op w = Some (clamped len r, with_calls (answer (w_sys w)).2 calls w) ∧
    calls ≫= call_bytes = seqZ buf (moved len r).
Proof.
  revert w. induction n as [|n IH]; intros w Hop Hn.
  - destruct (call_once 0 _ _ _ _ _ _ w Hop) as (c & Hc & He). exists [c]. rewrite He. simpl in *.
    rewrite app_nil_r, Hc. destruct (w_sys w); [done|simpl in Hn; lia].
  - destruct (call_once (S n) _ _ _ _ _ _ w Hop) as (c & Hc & He). rewrite He.
    destruct (w_sys w) as [|x sys] eqn:Hsys; [|destruct x as [m|e|e]; simpl in *].
    + exists [c]. simpl in *. by rewrite app_nil_r, Hc.
    + exists [c]. simpl. by rewrite app_nil_r, Hc.
    + destruct (Z.eqb_spec e EINTR) as [->|]; simpl.
      * destruct (IH (with_calls sys [c] w) Hop) as (calls & He' & Hc'); [simpl; lia|].
        exists (c :: calls). split.
        { rewrite He'. unfold with_calls; simpl. by rewrite <- app_assoc. }
        rewrite bind_cons, Hc'. simpl in Hc. by rewrite Hc.
      * exists [c]. simpl. by rewrite app_nil_r, Hc.
    + destruct (Z.eqb_spec e EINTR) as [->|]; simpl.
      * destruct (IH (with_calls sys [c] w) Hop) as (calls & He' & Hc'); [simpl; lia|].
        exists (c :: calls). split.
        { rewrite He'. unfold with_calls; simpl. by rewrite <- app_assoc. }
        rewrite bind_cons, Hc'. simpl in Hc. by rewrite Hc.
      * exists [c]. simpl. by rewrite app_nil_r, Hc.
Qed.

(** ** Steps of the state machine *)

Definition waiting (rs : list request) (buf len acc : Z) (partial : bool) (sys : list sysres) : outcome :=
  and_then (blocking_coroutine rs) (blocking sys buf len acc partial).

(** What is still to happen in a state between events: the rest of the operation that waits and of
    the coroutine after it; nothing when the coroutine ended. *)
Inductive todo (w : iow) : outcome → Prop :=
| todo_waiting op buf len acc partial k :
    op_state op buf len acc partial k (w_io w) → io_watch (w_io w) = WATCH_OP_RETRY →
    (0 < k ≤ length prog)%nat →
    todo w (waiting (drop k prog) buf len acc partial (w_sys w))
| todo_done : io_watch (w_io w) = WATCH_NONE → todo w ([], [], w_sys w).

(** The watcher is active when something is watched for. *)
Definition settled (w : iow) : Prop := w_watcher w = bool_decide (io_watch (w_io w) ≠ WATCH_NONE).

(** [r] is a state from which what is left of [t] is to happen, after some of it did, and at most
    [n] of the kernel's answers are left. *)
Definition reaches (n : nat) (w : iow) (t : outcome) (r : option (unit * iow)) : Prop :=
  ∃ w' h b t', r = Some (tt, w') ∧ w_handled w' = w_handled w ++ h ∧
    bytes_moved w' = bytes_moved w ++ b ∧ settled w' ∧ (length (w_sys w') ≤ n)%nat ∧
    todo w' t' ∧ t = (h ++ t'.1.1, b ++ t'.1.2, t'.2).

Lemma watch_update_settled w : settled w → shuso_io_watch_update w = Some (tt, w).
Proof.
  unfold settled, shuso_io_watch_update, shuso_io_ev_watch_update, m_bind, m_get, m_ret. intros ->.
  by destruct (io_watch (w_io w)).
Qed.

Lemma watch_update_settles w :
  shuso_io_watch_update w
  = Some (tt, put_watcher (bool_decide (io_watch (w_io w) ≠ WATCH_NONE)) w).
Proof.
  unfold shuso_io_watch_update, shuso_io_ev_watch_update, m_bind, m_get, m_ret, m_modify.
  destruct w as [io h iv ms [] s c hd]; by destruct (io_watch io) eqn:E; simpl; rewrite E.
Qed.

Lemma bytes_moved_calls s calls w : bytes_moved (with_calls s calls w) = bytes_moved w ++ (calls ≫= call_bytes).
Proof. unfold bytes_moved; simpl. apply bind_app. Qed.

(** The handler is told the result and goes on with the requests left. *)
Definition handler_total (w : iow) (k : nat) : outcome :=
  let '(h, b, s) := blocking_coroutine (drop k prog) (w_sys w) in
  (CallHandler (io_result (w_io w)) (io_error (w_io w)) :: h, b, s).
Definition handler_ready (k : nat) (w : iow) : Prop :=
  io_watch (w_io w) = WATCH_NONE ∧ io_error_handler (w_io w) = false ∧ io_handler_stage (w_io w) = k.

Lemma reaches_after n w w1 t r calls s h :
  reaches n w1 t r → w_handled w1 = w_handled w ++ h → bytes_moved w1 = bytes_moved w ++ calls →
  s = (h ++ t.1.1, calls ++ t.1.2, t.2) → reaches n w s r.
Proof.
  intros (w' & h' & b' & t' & Hr & Hh & Hb & Hs & Hl & Ht & Heq) Hh1 Hb1 ->. subst t. simpl.
  exists w', (h ++ h'), (calls ++ b'), t'. split_and!; try done.
  - by rewrite Hh, Hh1, app_assoc.
  - by rewrite Hb, Hb1, app_assoc.
  - by rewrite !app_assoc.
Qed.

Lemma answer_length sys : (length (answer sys).2 ≤ length sys)%nat.
Proof. destruct (answer_shorter sys) as [?|[-> ?]]; simpl; lia. Qed.

Lemma closed_spec op result w :
  is_buffer_op op = true →
  ∃ c, shuso_io_update_fd_closed_status_from_op_result op result w = Some (tt, put_io (set_closed c (w_io w)) w).
Proof. by destruct op; try done; eexists. Qed.

Lemma cleanup_buffer w : is_buffer_op (io_opcode_ (w_io w)) = true → shuso_io_op_cleanup w = Some (tt, w).
Proof.
  unfold shuso_io_op_cleanup, get_io, m_bind, m_gets, m_ret. by destruct (io_opcode_ (w_io w)).
Qed.

Lemma op_state_fields op buf len acc partial k io io' :
  op_state op buf len acc partial k io →
  io_opcode_ io' = io_opcode_ io → io_data io' = io_data io → io_num io' = io_num io →
  io_addr io' = io_addr io → io_result io' = io_result io → io_error io' = io_error io →
  io_handler_stage io' = io_handler_stage io → io_repeat io' = io_repeat io →
  io_error_handler io' = io_error_handler io → op_state op buf len acc partial k io'.
Proof.
  intros [] Ho Hd Hn Ha Hr He Hst Hrp Hh. rewrite <- Ha in *. split; try assumption; congruence.
Qed.

Lemma moved_range len r : 0 ≤ len → 0 ≤ moved len r ≤ len.
Proof. intros. destruct r; simpl; lia. Qed.

(** What [shuso_io_op_update_and_check_completion] does to an operation on a buffer. *)
Lemma update_buffer op buf len acc partial k w m :
  op_state op buf len acc partial k (w_io w) → 0 ≤ m ≤ len →
  shuso_io_op_update_and_check_completion m w
  = Some (m =? len, put_io (set_num (len - m) (set_data (buf + m) (w_io w))) w).
Proof.
  intros Hop Hm. pose proof (op_state_len _ _ _ _ _ _ _ Hop) as Hlen.
  assert (io_len (set_num (len - m) (set_data (buf + m) (w_io w))) = len - m) as Hl.
  { unfold io_len; simpl. destruct Hop. rewrite u64_small by lia. apply s64_small. lia. }
  unfold shuso_io_op_update_and_check_completion, get_io, mod_io, m_bind, m_gets, m_modify, m_assert, m_ret.
  assert (∀ X (a b : X), match io_opcode_ (w_io w) with
            | OP_READ | OP_WRITE | OP_SENDTO | OP_RECVFROM | OP_SEND | OP_RECV => a | _ => b end = a) as Hsel.
  { intros. destruct Hop as [Ho Hoc]. rewrite Hoc. by destruct op. }
  rewrite (os_opcode _ _ _ _ _ _ _ Hop), (os_data _ _ _ _ _ _ _ Hop) in *.
  pose proof (os_op _ _ _ _ _ _ _ Hop) as Hbuf.
  destruct op; try done; simpl; rewrite Hlen, (os_data _ _ _ _ _ _ _ Hop), Hl;
    (destruct (Z.leb_spec 0 (len - m)); [|lia]); simpl;
    destruct (Z.eqb_spec (len - m) 0), (Z.eqb_spec m len); done || lia.
Qed.

(** The operation is over: the handler goes on from [w2]. *)
Lemma operation_over k fuel w w2 b res e s :
  (∀ w1, handler_ready k w1 → reaches (length (w_sys w1)) w1 (handler_total w1 k) (handler fuel w1)) →
  handler_ready k w2 → io_result (w_io w2) = res → io_error (w_io w2) = e →
  w_handled w2 = w_handled w → bytes_moved w2 = bytes_moved w ++ b → w_sys w2 = s →
  reaches (length s) w (and_then (blocking_coroutine (drop k prog)) (b, Some (res, e), s)) (handler fuel w2).
Proof.
  intros Hh Hr Hres He Hhd Hb Hs. eapply (reaches_after _ w w2 _ _ b _ []).
  - subst s. by apply Hh.
  - by rewrite app_nil_r.
  - done.
  - unfold handler_total. rewrite Hs, Hres, He. simpl. by destruct (blocking_coroutine _ s) as [[h b'] s'].
Qed.

(** The operation waits to be tried again. *)
Lemma operation_waits op buf len acc partial k w w2 b s :
  op_state op buf len acc partial k (w_io w2) →
  w_handled w2 = w_handled w → bytes_moved w2 = bytes_moved w ++ b → w_sys w2 = s →
  io_watch (w_io w2) = WATCH_OP_RETRY → (0 < k ≤ length prog)%nat →
  reaches (length s) w (and_then (blocking_coroutine (drop k prog))
               (let '(b', r, s') := blocking s buf len acc partial in (b ++ b', r, s')))
    (shuso_io_ev_watch_update w2).
Proof.
  intros Hop Hhd Hb Hs Hw Hk. change shuso_io_ev_watch_update with shuso_io_watch_update.
  rewrite watch_update_settles, Hw. rewrite bool_decide_eq_true_2 by done.
  eexists _, [], b, _. split; [done|]. simpl. split_and!; [by rewrite app_nil_r|exact Hb| |by rewrite Hs| |].
  - unfold settled; simpl. by rewrite Hw, bool_decide_eq_true_2.
  - by apply (todo_waiting (put_watcher true w2) op buf len acc partial k).
  - simpl. rewrite Hs. unfold waiting. destruct (blocking s buf len acc partial) as [[b' [[r e]|]] s']; simpl; [|done].
    destruct (blocking_coroutine _ s') as [[h b2] s2]; simpl. by rewrite app_assoc.
Qed.

Lemma op_spec op buf len acc partial k w fuel :
  op_state op buf len acc partial k (w_io w) → io_watch (w_io w) = WATCH_NONE → (0 < k ≤ length prog)%nat →
  (∀ w1, handler_ready k w1 → reaches (length (w_sys w1)) w1 (handler_total w1 k) (handler fuel w1)) →
  reaches (length (answer (w_sys w)).2) w (waiting (drop k prog) buf len acc partial (w_sys w))
    (shuso_io_ev_operation (handler fuel) w).
Proof.
  intros Hop Hw Hk Hh. unfold shuso_io_ev_operation, get_io, m_bind, m_gets. rewrite (os_opcode _ _ _ _ _ _ _ Hop).
  destruct (call_spec (length (w_sys w)) _ _ _ _ _ _ w Hop ltac:(done)) as (calls & He & Hc).
  rewrite He.
  unfold waiting. rewrite blocking_answer. destruct (answer (w_sys w)) as [r s] eqn:Ha. simpl in Hc.
  change ((r, s).1) with r. change ((r, s).2) with s. clear He Ha.
  destruct (closed_spec op (match clamped len r with SysOk n => n | _ => -1 end) (with_calls s calls w)
              (os_op _ _ _ _ _ _ _ Hop)) as [cl ->].
  set (w1 := put_io _ _).
  assert (op_state op buf len acc partial k (w_io w1)) as Hop1 by (by eapply op_state_fields).
  assert (bytes_moved w1 = bytes_moved w ++ seqZ buf (moved len r)) as Hb1.
  { rewrite <- Hc. apply (bytes_moved_calls s calls w). }
  assert (bool_decide (op = OP_CONNECT) = false) as -> by (destruct Hop; by destruct op).
  assert (∀ w2, io_opcode_ (w_io w2) = io_opcode_ (w_io w) → shuso_io_op_cleanup w2 = Some (tt, w2)) as Hclean.
  { intros w2 Ho. apply cleanup_buffer. rewrite Ho, (os_opcode _ _ _ _ _ _ _ Hop). apply Hop. }
  assert (∀ e, moved len r = 0 →
    reaches (length s) w (if e =? EAGAIN then and_then (blocking_coroutine (drop k prog)) (blocking s buf len acc partial)
               else and_then (blocking_coroutine (drop k prog)) ([], Some (-1, e), s))
      ((if e =? EAGAIN then (mod_io (set_watch WATCH_OP_RETRY) ;;; shuso_io_ev_watch_update)
        else mod_io (set_result (-1) e) ;;; shuso_io_op_cleanup ;;; handler fuel) w1)) as Herr.
  { intros e Hm. rewrite Hm in Hb1. simpl in Hb1. unfold m_bind, mod_io, m_modify.
    destruct (e =? EAGAIN).
    - pose proof (operation_waits op buf len acc partial k w (put_io (set_watch WATCH_OP_RETRY (w_io w1)) w1) [] s) as Hg.
      destruct (blocking s buf len acc partial) as [[b' r'] s'] eqn:Hbl. apply Hg; try done. by eapply op_state_fields.
    - rewrite Hclean by done. apply (operation_over k); try done. split_and!; [done|apply Hop1|apply Hop1]. }
  destruct r as [n|e|e].
  - pose proof (moved_range len (SysOk n) ltac:(destruct Hop; lia)) as Hm.
    change (clamped len (SysOk n)) with (SysOk (moved len (SysOk n))).
    assert (blocking (SysOk n :: s) buf len acc partial =
            if (moved len (SysOk n) =? 0) || partial || (moved len (SysOk n) =? len)
            then (seqZ buf (moved len (SysOk n)), Some (acc + moved len (SysOk n), 0), s)
            else let '(b, r, s') := blocking s (buf + moved len (SysOk n)) (len - moved len (SysOk n))
                                      (acc + moved len (SysOk n)) partial in
                 (seqZ buf (moved len (SysOk n)) ++ b, r, s')) as -> by done.
    set (m := moved len (SysOk n)) in *. clearbody m. clear Herr. cbv iota beta.
    destruct (Z.eqb_spec m (-1)); [lia|]. rewrite (os_repeat _ _ _ _ _ _ _ Hop1).
    assert (s64 (acc + m) = acc + m) as Hacc by (apply s64_small; destruct Hop; lia).
    assert (∀ w2, w_handled w2 = w_handled w → bytes_moved w2 = bytes_moved w1 → w_sys w2 = s →
              io_opcode_ (w_io w2) = io_opcode_ (w_io w) →
              io_watch (w_io w2) = WATCH_NONE → io_error_handler (w_io w2) = false →
              io_handler_stage (w_io w2) = k → io_result (w_io w2) = acc → io_error (w_io w2) = 0 →
              reaches (length s) w (and_then (blocking_coroutine (drop k prog)) (seqZ buf m, Some (acc + m, 0), s))
                ((shuso_io_op_cleanup ;;;
                  mod_io (λ io, set_result (s64 (io_result io + m)) (io_error io) io) ;;; handler fuel) w2)) as Hover.
    { intros w2 H1 H2 H3 H4 H5 H6 H7 H8 H9. unfold m_bind, mod_io, m_modify. rewrite Hclean by done.
      apply (operation_over k); simpl; try done; [by rewrite H8, Hacc|]. by rewrite <- Hb1, <- H2. }
    destruct (Z.eqb_spec m 0) as [->|Hm0]; simpl orb; simpl andb.
    { apply Hover; try done; apply Hop1. }
    destruct partial; simpl negb; cbv iota; simpl orb.
    { apply Hover; try done; apply Hop1. }
    change (negb false && negb false) with true. cbv iota.
    rewrite (update_buffer _ _ _ _ _ _ w1 m Hop1 Hm).
    destruct (Z.eqb_spec m len) as [Hml|Hml]; simpl negb; cbv iota.
    { apply Hover; try done; apply Hop1. }
    unfold mod_io, m_modify, m_bind. change (negb false) with true. cbv iota.
    eapply (operation_waits op (buf + m) (len - m) (acc + m) false k w _ (seqZ buf m) s); try done.
    destruct Hop1 as [? ? ? Hn' ? ? ? ? Hr' ? ? ? ?]. simpl in *. split; simpl; try done; try lia.
    + apply u64_small. lia.
    + by rewrite Hr'.
  - specialize (Herr e eq_refl). simpl. by destruct (e =? EAGAIN).
  - specialize (Herr e eq_refl). simpl. by destruct (e =? EAGAIN).
Qed.

Lemma issue_spec rh r op buf len partial k w :
  buffer_request r = Some (op, buf, len, partial) → request_ok r →
  io_handler_stage (w_io w) = k → io_error_handler (w_io w) = false →
  ∃ io', issue rh r w = shuso_io_ev_operation rh (put_io io' w) ∧
    op_state op buf len 0 partial k io' ∧ io_watch io' = io_watch (w_io w).
Proof.
  intros Hb Hok Hk Hh. unfold request_ok in Hok. rewrite Hb in Hok. destruct Hok as [Hlen Haddr].
  assert (u64 len = len) as Hu by (apply u64_small; lia).
  destruct r; simplify_eq/=; eexists; (split;
    [destruct partial; unfold issue, shuso_io_write, shuso_io_write_partial, shuso_io_read,
       shuso_io_read_partial, shuso_io_send, shuso_io_send_partial, shuso_io_recv, shuso_io_recv_partial,
       shuso_io_sendto, shuso_io_sendto_partial, shuso_io_recvfrom, shuso_io_recvfrom_partial,
       io_op_run_new, mod_io, m_bind, m_modify, m_ret; reflexivity
    |split; [|done]; split; simpl; done || lia || idtac]);
    intros [?|?]; done.
Qed.

Lemma reaches_weaken n m w t r : reaches n w t r → (n ≤ m)%nat → reaches m w t r.
Proof.
  intros (w' & h & b & t' & Hr & Hh & Hb & Hs & Hl & Ht & Heq) Hle. exists w', h, b, t'.
  split_and!; try done. lia.
Qed.

Lemma reaches_watch_update n w t r :
  reaches n w t r → reaches n w t (match r with Some (_, w') => shuso_io_watch_update w' | None => None end).
Proof.
  intros (w' & h & b & t' & -> & Hh & Hb & Hs & Hl & Ht & Heq). rewrite watch_update_settled by done.
  by exists w', h, b, t'.
Qed.

(** The coroutine at a stage does what is left of it. *)
Lemma coroutine_spec fuel k w :
  Forall request_ok prog → handler_ready k w →
  (∀ w1, handler_ready (S k) w1 → (S k ≤ length prog)%nat →
     reaches (length (w_sys w1)) w1 (handler_total w1 (S k)) (handler fuel w1)) →
  reaches (length (w_sys w)) w (blocking_coroutine (drop k prog) (w_sys w))
    ((coroutine prog (handler fuel) ;;; shuso_io_watch_update) w).
Proof.
  intros Hok (Hw & Hnh & Hk) Hh.
  unfold coroutine, get_io, m_bind, m_gets. rewrite Hk. destruct (prog !! k) as [r|] eqn:Hr.
  - assert (request_ok r) as Hrok by (rewrite Forall_forall in Hok; apply Hok; by eapply list_elem_of_lookup_2).
    destruct (buffer_request r) as [[[[op buf] len] partial]|] eqn:Hb.
    2:{ unfold request_ok in Hrok. by rewrite Hb in Hrok. }
    rewrite (drop_S prog r k Hr). simpl. rewrite Hb. unfold mod_io, m_modify.
    destruct (issue_spec (handler fuel) r op buf len partial (S k) (put_io (set_stage (S k) (w_io w)) w)
                Hb Hrok eq_refl Hnh) as (io' & -> & Hop & Hw').
    apply reaches_watch_update. pose proof (lookup_lt_Some _ _ _ Hr) as Hlt.
    pose proof (op_spec op buf len 0 partial (S k) (put_io io' w) fuel Hop ltac:(simpl; by rewrite Hw')
                  ltac:(lia)
                  ltac:(intros; apply Hh; [done|lia])) as Hg.
    eapply (reaches_after _ w _ _ _ [] _ []); [exact (reaches_weaken _ _ _ _ _ Hg (answer_length _))|..];
      simpl; [by rewrite app_nil_r|by rewrite app_nil_r|].
    unfold waiting. by destruct (and_then _ _) as [[? ?] ?].
  - apply lookup_ge_None in Hr. rewrite drop_ge by done. unfold mod_io, m_modify. simpl.
    rewrite watch_update_settles. eexists _, [CoroEnd], [], _. split; [done|]. simpl.
    split_and!; [done|by rewrite app_nil_r|done|done|by apply todo_done|done].
Qed.

Lemma handler_spec fuel k w :
  Forall request_ok prog → (length (drop k prog) < fuel)%nat → handler_ready k w → (0 < k ≤ length prog)%nat →
  reaches (length (w_sys w)) w (handler_total w k) (handler fuel w).
Proof.
  intros Hok. revert k w. induction fuel as [|fuel IH]; intros k w Hf (Hw & Hnh & Hk) Hpos; [lia|].
  cbn [shuso_io_run_handler]. unfold get_io, m_bind at 1, m_gets. rewrite Hnh. simpl andb. cbv iota.
  rewrite Hk. destruct k as [|k]; [lia|]. rewrite length_drop in Hf.
  set (w1 := log_handled (CallHandler (io_result (w_io w)) (io_error (w_io w))) w).
  pose proof (coroutine_spec fuel (S k) w1 Hok ltac:(done)
    ltac:(intros; apply IH; [rewrite length_drop; lia|done|lia])) as Hg.
  eapply (reaches_after _ w w1 _ _ [] _ [_] Hg); simpl; try done; [by rewrite app_nil_r|].
  unfold handler_total. by destruct (blocking_coroutine _ _) as [[? ?] ?].
Qed.

(** libev's loop, with the answers the kernel has. *)
Lemma loop_spec turns fuel w t :
  Forall request_ok prog → (length prog < fuel)%nat → settled w → todo w t →
  (length (w_sys w) ≤ turns)%nat →
  ∃ w', io_loop prog turns fuel (Z.lor EV_READ EV_WRITE) w = Some (tt, w') ∧
    w_handled w' = w_handled w ++ t.1.1 ∧ bytes_moved w' = bytes_moved w ++ t.1.2 ∧ w_sys w' = t.2 ∧
    settled w'.
Proof.
  intros Hok Hfuel. revert w t. induction turns as [|turns IH]; intros w t Hs Ht Hlen.
  - destruct (w_sys w) eqn:Hsys; [|simpl in Hlen; lia].
    exists w. simpl. unfold m_bind, m_get, m_ret. split; [done|].
    destruct Ht; rewrite ?Hsys; simpl; by rewrite !app_nil_r.
  - destruct (w_watcher w) eqn:Hwa.
    2:{ exists w. simpl. unfold m_bind, m_get, m_ret. rewrite Hwa. split; [done|].
        destruct Ht as [? ? ? ? ? ? ? Hw|]; simpl; [|by rewrite !app_nil_r].
        unfold settled in Hs. by rewrite Hwa, Hw in Hs. }
    destruct Ht as [op buf len acc partial k Hop Hw Hk|Hw].
    2:{ unfold settled in Hs. by rewrite Hwa, Hw in Hs. }
    destruct (w_sys w) as [|x sys] eqn:Hsys.
    { exists w. simpl. unfold m_bind, m_get, m_ret. rewrite Hwa, Hsys. split; [done|].
      simpl. by rewrite !app_nil_r. }
    set (w1 := put_io (set_watch WATCH_NONE (w_io w)) w).
    assert (shuso_io_ev_watcher_handler prog fuel (Z.lor EV_READ EV_WRITE) w
            = shuso_io_ev_operation (handler fuel) w1) as Hev.
    { unfold shuso_io_ev_watcher_handler, ev_watcher_handler, get_io, mod_io, m_bind, m_gets, m_modify, m_assert.
      rewrite Hw, (os_opcode _ _ _ _ _ _ _ Hop). destruct Hop. by destruct op. }
    pose proof (op_spec op buf len acc partial k w1 fuel ltac:(by eapply op_state_fields) eq_refl Hk
                  ltac:(intros; apply handler_spec; [done|rewrite length_drop; lia|done|lia]))
      as (w2 & h & b & t' & He & Hh & Hb & Hs2 & Hl2 & Ht2 & Heq).
    assert (length (w_sys w2) ≤ turns)%nat as Hl3.
    { destruct (answer_shorter (w_sys w1)) as [Hlt|[Hnil _]]; simpl in *; rewrite Hsys in *; simpl in *; [lia|done]. }
    destruct (IH w2 t' Hs2 Ht2 Hl3) as (w' & He' & Hh' & Hb' & Hs' & Hst).
    exists w'. cbn [io_loop]. unfold m_bind at 1, m_get. rewrite Hwa, Hsys. unfold m_bind.
    rewrite Hev, He, He'. split; [done|]. simpl in Heq. rewrite Hsys in Heq. rewrite Heq. simpl.
    rewrite Hh', Hb', Hh, Hb, <- !app_assoc. by split_and!.
Qed.

End refinement.

(** C4: the non-blocking state machine does what blocking calls do.  A coroutine that reads,
    writes, sends and receives buffers runs, however the kernel interrupts, delays, shortens
    or fails its system calls, as if each operation were one blocking call made after the other: the
    handler is called once per operation, with the number of bytes of a completed one, a smaller
    one at the end of the stream, or the error; the bytes are moved in order, each exactly once; and
    the watcher is active exactly while something is waited for. *)
Theorem coroutine_refines_blocking `{Malloc} prog turns fuel w
    (Hok : Forall request_ok prog)
    (Hfuel : (length prog < fuel)%nat)
    (Hturns : (length (w_sys w) ≤ turns)%nat)
    (Hidle : io_watch (w_io w) = WATCH_NONE ∧ io_error_handler (w_io w) = false ∧
             io_handler_stage (w_io w) = 0%nat) :
  ∃ w', (shuso_io_start prog fuel ;;; io_loop prog turns fuel (Z.lor EV_READ EV_WRITE)) w = Some (tt, w') ∧
    let '(calls, bytes, answers) := blocking_coroutine prog (w_sys w) in
    w_handled w' = w_handled w ++ calls ∧ bytes_moved w' = bytes_moved w ++ bytes ∧
    w_sys w' = answers ∧
    w_watcher w' = bool_decide (io_watch (w_io w') ≠ WATCH_NONE).
Proof.
  destruct Hidle as (Hw & Hnh & Hst). destruct fuel as [|fuel]; [lia|].
  set (w1 := put_io (set_num 0 (set_data 0 (w_io w))) w).
  assert (shuso_io_start prog (S fuel) w
          = (coroutine prog (shuso_io_run_handler prog fuel) ;;; shuso_io_watch_update) w1) as Hstart.
  { unfold shuso_io_start, shuso_io_resume_buf. cbn [shuso_io_run_handler].
    unfold get_io, mod_io, m_bind, m_gets, m_modify, m_assert.
    rewrite Hst, bool_decide_eq_true_2 by done. simpl. by rewrite Hst, Hnh. }
  destruct (coroutine_spec prog fuel 0 w1 Hok ltac:(done)
    ltac:(intros; apply handler_spec; [done|rewrite length_drop; lia|done|lia]))
    as (w2 & h & b & t' & He & Hh & Hb & Hs2 & Hl2 & Ht2 & Heq).
  destruct (loop_spec prog turns (S fuel) w2 t' Hok Hfuel Hs2 Ht2) as (w' & He' & Hh' & Hb' & Hs' & Hsw);
    [simpl in *; lia|].
  exists w'. unfold m_bind at 1. rewrite Hstart, He, He'. split; [done|].
  change (drop 0 prog) with prog in Heq. simpl in Heq. rewrite Heq.
  rewrite Hh', Hb', Hh, Hb, <- !app_assoc. by split_and!.
Qed.

(** What a blocking call moves is the beginning of its buffer. *)
Lemma blocking_prefix sys buf len acc partial b r s :
  0 ≤ len → blocking sys buf len acc partial = (b, r, s) →
  ∃ n, 0 ≤ n ≤ len ∧ b = seqZ buf n ∧
       match r with Some (res, e) => (res = acc + n ∧ e = 0) ∨ res = -1 | None => True end.
Proof.
  revert buf len acc b r s. induction sys as [|[n|e|e] sys IH]; intros buf len acc b r s Hlen; simpl.
  - intros [= <- <- <-]. exists 0. split_and!; [lia|lia|done|done].
  - set (m := Z.max 0 (Z.min n len)). assert (0 ≤ m ≤ len) as Hm by lia. clearbody m.
    destruct ((m =? 0) || partial || (m =? len)) eqn:Hc.
    + intros [= <- <- <-]. exists m. split_and!; [lia|lia|done|by left].
    + destruct (blocking sys (buf + m) (len - m) (acc + m) partial) as [[b1 r1] s1] eqn:Hb.
      intros [= <- <- <-]. destruct (IH (buf + m) (len - m) (acc + m) b1 r1 s1 ltac:(lia) Hb) as (k & Hk & -> & Hr).
      exists (m + k). split_and!; [lia|lia| |].
      * by rewrite seqZ_app by lia.
      * destruct r1 as [[res e]|]; [|done]. destruct Hr as [[? ?]|?]; [left; lia|by right].
  - destruct ((e =? EINTR) || (e =? EAGAIN)); [by apply IH|].
    intros [= <- <- <-]. exists 0. split_and!; [lia|lia|done|by right].
  - destruct ((e =? EINTR) || (e =? EAGAIN)); [by apply IH|].
    intros [= <- <- <-]. exists 0. split_and!; [lia|lia|done|by right].
Qed.

(** ** Examples *)

Definition demo_io (error_handler : bool) : io_t :=
  Io 7 0 0 0 0 0 0 error_handler 0 0 OP_NONE WATCH_NONE (Z.lor SHUSO_IO_READ SHUSO_IO_WRITE) false.
(** Two iovecs at 160, with more memory behind them, and the message at 500 that sends them. *)
Definition demo_iow (error_handler : bool) (sys : list sysres) : iow :=
  IoW (demo_io error_handler) {[ 160 := 64 ]}
    (<[160 := (1000, 10)]> (<[176 := (2000, 10)]> (<[192 := (0, 0)]> (<[208 := (0, 0)]> ∅))))
    {[ 500 := (160, 2) ]} false sys [] [].
Definition run_io (prog : list request) (w : iow) : option (unit * iow) :=
  (shuso_io_start prog 10 ;;; io_loop prog 10 10 (Z.lor EV_READ EV_WRITE)) w.

Definition demo_prog : list request := [Write 1000 10 false; Read 3000 8 true; Write 2000 5 false].
(** Interrupted, short, delayed, the rest; a short read; a failed write. *)
Definition demo_sys : list sysres :=
  [SysErr EINTR; SysOk 4; SysErr EAGAIN; SysOk 6; SysOk 3; SysErr 104].

Definition demo_start : iow := demo_iow false demo_sys.

Lemma coroutine_refines_blocking_witness :
  ∃ w', (shuso_io_start demo_prog 10 ;;; io_loop demo_prog 10 10 (Z.lor EV_READ EV_WRITE)) demo_start
        = Some (tt, w') ∧
    let '(calls, bytes, answers) := blocking_coroutine demo_prog (w_sys demo_start) in
    w_handled w' = w_handled demo_start ++ calls ∧ bytes_moved w' = bytes_moved demo_start ++ bytes ∧
    w_sys w' = answers ∧ w_watcher w' = bool_decide (io_watch (w_io w') ≠ WATCH_NONE).
Proof.
  apply (coroutine_refines_blocking demo_prog 10 10 demo_start).
  - repeat constructor; done.
  - simpl; lia.
  - simpl; lia.
  - by split_and!.
Defined.

Example demo_outcome :
  blocking_coroutine demo_prog demo_sys
  = ([CallHandler 10 0; CallHandler 3 0; CallHandler (-1) 104; CoroEnd], seqZ 1000 10 ++ seqZ 3000 3, []).
Proof. by vm_compute. Qed.

(** Short [writev]s lose, corrupt or repeat data.  Of two iovecs of 10 bytes: a
    transfer that ends between the two is taken for a complete one; one that ends inside the
    second writes beyond the temporary array it allocates; and after a transfer that ended
    inside the first one, the next short one sends its own bytes again. *)
Theorem writev_short_transfers :
  (λ r, (w_handled r.2, bytes_moved r.2)) <$> run_io [Writev 160 2 false] (demo_iow false [SysOk 10])
    = Some ([CallHandler 10 0; CoroEnd], seqZ 1000 10) ∧
  run_io [Writev 160 2 false] (demo_iow false [SysOk 15]) = None ∧
  (λ r, (w_handled r.2, bytes_moved r.2)) <$>
      run_io [Writev 160 2 false] (demo_iow false [SysOk 4; SysOk 3; SysOk 16])
    = Some ([CallHandler 23 0; CoroEnd], seqZ 1000 4 ++ seqZ 1004 3 ++ seqZ 1004 6 ++ seqZ 2000 10).
Proof. split_and!; by vm_compute. Qed.

(** An error handler is called without updating the watcher.  After an operation that had
    to wait fails, the watcher is active although nothing is watched for, and the next event aborts
    the process. *)
Theorem error_handler_leaves_watcher :
  (λ r, (w_handled r.2, io_watch (w_io r.2), w_watcher r.2)) <$>
      run_io [Read 3000 8 false] (demo_iow true [SysErr EAGAIN; SysErr 104])
    = Some ([CallErrorHandler (-1) 104], WATCH_NONE, true) ∧
  run_io [Read 3000 8 false] (demo_iow true [SysErr EAGAIN; SysErr 104; SysOk 1]) = None.
Proof. split; by vm_compute. Qed.

(** The flags of a message and the way of a shutdown do not reach the kernel.
    [shuso_io_sendmsg] with the flags 64 sends with none, and after a short transfer with the low
    half of a pointer; [shuso_io_shutdown] closes the descriptor. *)
Theorem sendmsg_flags_and_shutdown :
  (λ r, sc_flags <$> w_calls r.2) <$> run_io [Sendmsg 500 64] (demo_iow false [SysOk 4; SysOk 16])
    = Some [0; 224] ∧
  (λ r, sc_op <$> w_calls r.2) <$> run_io [Shutdown SHUSO_IO_WRITE] (demo_iow false [SysOk 0])
    = Some [OP_CLOSE].
Proof. split; by vm_compute. Qed.
