(* ===== verification/Slab.v ===== *)
(** The allocator of the shared memory, src/src/shared_slab.c (an adaptation of nginx's slab
    allocator): pages, chunks of a power of two within a page with their bitmaps, the
    free list of page runs and the lists of partly used pages.  The lock around each operation
    makes it one step. *)

From S2P Require Import Prelude.

(** ** Constants

    Pages of 4 KiB; [min_shift] is set by [shuso_shared_slab_create]. *)

Definition pagesize_shift : Z := 12.
Definition pagesize : Z := 2 ^ pagesize_shift.
Definition min_shift : Z := 3.
Definition min_size : Z := 2 ^ min_shift.
(** [shuso_shared_slab_sizes_init] *)
Definition slab_max_size : Z := pagesize / 2.
Definition slab_exact_size : Z := pagesize / 64.
Fixpoint exact_shift_loop (fuel : nat) (n shift : Z) : Z :=
  match fuel with
  | O => shift
  | S f => let n' := Z.shiftr n 1 in if n' =? 0 then shift else exact_shift_loop f n' (shift + 1)
  end.
Definition slab_exact_shift : Z := exact_shift_loop 64 slab_exact_size 0.

Definition SLAB_PAGE : Z := 0.
Definition SLAB_BIG : Z := 1.
Definition SLAB_EXACT : Z := 2.
Definition SLAB_SMALL : Z := 3.
Definition SLAB_PAGE_FREE : Z := 0.
Definition SLAB_PAGE_BUSY : Z := Z.ones 64.
Definition SLAB_PAGE_START : Z := 2 ^ 63.
Definition SLAB_SHIFT_MASK : Z := 15.
Definition SLAB_MAP_MASK : Z := Z.shiftl (Z.ones 32) 32.
Definition SLAB_MAP_SHIFT : Z := 32.
Definition SLAB_BUSY : Z := Z.ones 64.
Definition sizeof_slab_page : Z := 24.
Definition sizeof_slab_stat : Z := 16.
Definition sizeof_slab_pool : Z := 152.
Definition DEFAULT_SIZE : Z := 16777216.

(** ** State *)

(** A [shuso_slab_page_t *] that is not null: the pool's [free], a slot's list head, an element of
    [pool->pages]. *)
Inductive pgptr := PFree | PSlot (i : Z) | PPage (i : Z).
#[export] Instance pgptr_eq_dec : EqDecision pgptr.
Proof. solve_decision. Defined.

(** [shuso_slab_page_t]; [prev] is a pointer with the page's type in its two lowest bits. *)
Record spage := SPage {
  pg_slab : Z;
  pg_next : option pgptr;
  pg_prev : option pgptr;
  pg_type : Z
}.
Definition zero_page : spage := SPage 0 None None 0.

(** [shuso_slab_stat_t] *)
Record sstat := SStat { st_total : Z; st_used : Z; st_reqs : Z; st_fails : Z }.

(** [shuso_slab_pool_t]: the [shuso_slab_page_t]s it points at, the number of its pages
    ([last - pages]), and the words of the bitmaps by page and index.  The errors reported come
    last. *)
Record spool := SPool {
  sl_nodes : pgptr → spage;
  sl_words : Z → Z → Z;
  sl_stats : Z → sstat;
  sl_npages : Z;
  sl_pfree : Z;
  sl_start : Z;
  sl_end : Z;
  sl_errors : nat
}.

(** Where a [shuso_slab_page_t *] can be used. *)
Definition valid_ptr (w : spool) (p : pgptr) : bool :=
  match p with
  | PFree => true
  | PSlot i => (0 <=? i) && (i <? pagesize_shift - min_shift)
  | PPage i => (0 <=? i) && (i <? sl_npages w)
  end.

Definition upd_node (p : pgptr) (f : spage → spage) (w : spool) : spool :=
  SPool (λ q, if bool_decide (q = p) then f (sl_nodes w q) else sl_nodes w q)
    (sl_words w) (sl_stats w) (sl_npages w) (sl_pfree w) (sl_start w) (sl_end w) (sl_errors w).
Definition upd_word (i n : Z) (v : Z) (w : spool) : spool :=
  SPool (sl_nodes w)
    (λ j, if bool_decide (j = i) then λ m, if bool_decide (m = n) then v else sl_words w i m else sl_words w j)
    (sl_stats w) (sl_npages w) (sl_pfree w) (sl_start w) (sl_end w) (sl_errors w).
Definition upd_stat (slot : Z) (f : sstat → sstat) (w : spool) : spool :=
  SPool (sl_nodes w) (sl_words w) (λ s, if bool_decide (s = slot) then f (sl_stats w s) else sl_stats w s)
    (sl_npages w) (sl_pfree w) (sl_start w) (sl_end w) (sl_errors w).
Definition upd_pfree (n : Z) (w : spool) : spool :=
  SPool (sl_nodes w) (sl_words w) (sl_stats w) (sl_npages w) (u32 n) (sl_start w) (sl_end w) (sl_errors w).
Definition log_error (w : spool) : spool :=
  SPool (sl_nodes w) (sl_words w) (sl_stats w) (sl_npages w) (sl_pfree w) (sl_start w) (sl_end w)
    (S (sl_errors w)).

Definition deref (p : pgptr) : M spool spage :=
  λ w, if valid_ptr w p then Some (sl_nodes w p, w) else None.
Definition upd (p : pgptr) (f : spage → spage) : M spool unit :=
  λ w, if valid_ptr w p then Some (tt, upd_node p f w) else None.
(** Access through a pointer that may be null. *)
Definition upd_opt (p : option pgptr) (f : spage → spage) : M spool unit :=
  match p with Some p => upd p f | None => m_abort end.

Definition set_slab (x : Z) (p : spage) : spage := SPage x (pg_next p) (pg_prev p) (pg_type p).
Definition set_next (x : option pgptr) (p : spage) : spage := SPage (pg_slab p) x (pg_prev p) (pg_type p).
Definition set_prev (x : option pgptr) (t : Z) (p : spage) : spage := SPage (pg_slab p) (pg_next p) x t.
(** [page[k]] *)
Definition page_at (p : pgptr) (k : Z) : pgptr := match p with PPage i => PPage (i + k) | q => q end.

(** [ngx_slab_page_addr] *)
Definition page_addr (w : spool) (p : pgptr) : Z :=
  match p with PPage i => sl_start w + Z.shiftl i pagesize_shift | _ => 0 end.
Definition get_word (p : pgptr) (n : Z) : M spool Z :=
  λ w, match p with
       | PPage i => if (0 <=? n) && (n <? pagesize / 8) && valid_ptr w p then Some (sl_words w i n, w) else None
       | _ => None
       end.
Definition put_word (p : pgptr) (n v : Z) : M spool unit :=
  λ w, match p with
       | PPage i => if (0 <=? n) && (n <? pagesize / 8) && valid_ptr w p then Some (tt, upd_word i n v w) else None
       | _ => None
       end.

Definition stat_reqs (s : sstat) : sstat := SStat (st_total s) (st_used s) (u32 (st_reqs s + 1)) (st_fails s).
Definition stat_used (d : Z) (s : sstat) : sstat := SStat (st_total s) (u32 (st_used s + d)) (st_reqs s) (st_fails s).
Definition stat_total (d : Z) (s : sstat) : sstat := SStat (u32 (st_total s + d)) (st_used s) (st_reqs s) (st_fails s).
Definition stat_fails (s : sstat) : sstat := SStat (st_total s) (st_used s) (st_reqs s) (u32 (st_fails s + 1)).
Definition mod_stat (slot : Z) (f : sstat → sstat) : M spool unit := m_modify (upd_stat slot f).

(** ** Pages *)

(** Take a page out of the list it is in. *)
Definition unlink (page : pgptr) : M spool unit :=
  pg <- deref page ;;
  upd_opt (pg_prev pg) (set_next (pg_next pg)) ;;;
  pg <- deref page ;;
  upd_opt (pg_next pg) (set_prev (pg_prev pg) (pg_type pg)).

(** Write the same descriptor to [n] pages. *)
Fixpoint fill_pages (v : spage) (n : nat) (p : pgptr) : M spool unit :=
  match n with
  | O => m_ret tt
  | S n' => upd p (λ _, v) ;;; fill_pages v n' (page_at p 1)
  end.
(** Take [pages] pages from the beginning of the free run at [page]. *)
Definition mark_busy : nat → pgptr → M spool unit :=
  fill_pages (SPage SLAB_PAGE_BUSY None None SLAB_PAGE).
(** The rest of a run from which the first [pages] pages are taken replaces it in the free list. *)
Definition split_run (page : pgptr) (pages : Z) : M spool unit :=
  pg <- deref page ;;
  upd (page_at page (pg_slab pg - 1)) (set_prev (Some (page_at page pages)) 0) ;;;
  let rest := page_at page pages in
  pg <- deref page ;;
  upd rest (set_slab (pg_slab pg - pages)) ;;;
  upd rest (set_next (pg_next pg)) ;;;
  upd rest (set_prev (pg_prev pg) (pg_type pg)) ;;;
  upd_opt (pg_prev pg) (set_next (Some rest)) ;;;
  pg <- deref page ;;
  upd_opt (pg_next pg) (set_prev (Some rest) 0).
Definition take_pages (page : pgptr) (pages : Z) : M spool unit :=
  pg <- deref page ;;
  (if pages <? pg_slab pg then split_run page pages else unlink page) ;;;
  upd page (λ _, SPage (Z.lor pages SLAB_PAGE_START) None None SLAB_PAGE) ;;;
  m_modify (λ w, upd_pfree (sl_pfree w - pages) w) ;;;
  mark_busy (Z.to_nat (pages - 1)) (page_at page 1).

(** The search of [ngx_slab_alloc_pages] along the free list. *)
Fixpoint alloc_pages_loop (fuel : nat) (page : option pgptr) (pages : Z) : M spool (option pgptr) :=
  match page with
  | None => m_abort
  | Some PFree => m_ret None
  | Some page =>
      match fuel with
      | O => m_abort
      | S fuel' =>
          pg <- deref page ;;
          if pages <=? pg_slab pg then take_pages page pages ;;; m_ret (Some page)
          else alloc_pages_loop fuel' (pg_next pg) pages
      end
  end.
(** [log_nomem] is never set. *)
Definition ngx_slab_alloc_pages (pages : Z) : M spool (option pgptr) :=
  f <- deref PFree ;;
  n <- m_gets sl_npages ;;
  alloc_pages_loop (S (Z.to_nat n)) (pg_next f) pages.

(** [memzero(&page[1], n * sizeof(page))] *)
Definition zero_pages : nat → pgptr → M spool unit := fill_pages zero_page.

(** Join the run of [page] with the free run behind it; [pages] counts its pages but one. *)
Definition join_next (page : pgptr) (pages : Z) : M spool Z :=
  pg <- deref page ;;
  let join := page_at page (pg_slab pg) in
  w <- m_get ;;
  if valid_ptr w join then
    j <- deref join ;;
    if (pg_type j =? SLAB_PAGE) && bool_decide (pg_next j ≠ None) then
      upd page (λ p, set_slab (pg_slab p + pg_slab j) p) ;;;
      unlink join ;;;
      upd join (λ _, SPage SLAB_PAGE_FREE None None SLAB_PAGE) ;;;
      m_ret (pages + pg_slab j)
    else m_ret pages
  else m_ret pages.

(** Join the free run before [page] with its run; returns where the run begins then. *)
Definition join_prev (page : pgptr) (pages : Z) : M spool (pgptr * Z) :=
  if bool_decide (page = PPage 0) then m_ret (page, pages) else
  let join := page_at page (-1) in
  j <- deref join ;;
  if negb (pg_type j =? SLAB_PAGE) then m_ret (page, pages) else
  let join := if pg_slab j =? SLAB_PAGE_FREE then pg_prev j else Some join in
  match join with
  | None => m_abort
  | Some join =>
      j <- deref join ;;
      if bool_decide (pg_next j ≠ None) then
        pg <- deref page ;;
        upd join (set_slab (pg_slab j + pg_slab pg)) ;;;
        unlink join ;;;
        upd page (λ _, SPage SLAB_PAGE_FREE None None SLAB_PAGE) ;;;
        m_ret (join, pages + pg_slab j)
      else m_ret (page, pages)
  end.

(** Put a free run at the beginning of the free list. *)
Definition link_free (page : pgptr) (pages : Z) : M spool unit :=
  (if pages =? 0 then m_ret tt else upd (page_at page pages) (set_prev (Some page) 0)) ;;;
  upd page (set_prev (Some PFree) 0) ;;;
  f <- deref PFree ;;
  upd page (set_next (pg_next f)) ;;;
  pg <- deref page ;;
  upd_opt (pg_next pg) (set_prev (Some page) 0) ;;;
  upd PFree (set_next (Some page)).

(** The run's descriptors say that it is free; a page of chunks leaves the list of its slot. *)
Definition release_pages (page : pgptr) (pages : Z) : M spool unit :=
  m_modify (λ w, upd_pfree (sl_pfree w + pages) w) ;;;
  upd page (set_slab pages) ;;;
  zero_pages (Z.to_nat (pages - 1)) (page_at page 1) ;;;
  pg <- deref page ;;
  match pg_next pg with Some _ => unlink page | None => m_ret tt end.

Definition ngx_slab_free_pages (page : pgptr) (pages : Z) : M spool unit :=
  release_pages page pages ;;;
  let pages := pages - 1 in
  pages <- join_next page pages ;;
  r <- join_prev page pages ;;
  let '(page, pages) := r in
  link_free page pages.

(** ** Chunks *)

(** [for(s = size - 1; s >>= 1; shift++)] *)
Fixpoint shift_loop (fuel : nat) (s shift : Z) : Z :=
  match fuel with
  | O => shift
  | S f => let s' := Z.shiftr s 1 in if s' =? 0 then shift else shift_loop f s' (shift + 1)
  end.
(** The shift and the slot of a size that is not more than half a page. *)
Definition size_slot (size : Z) : Z * Z :=
  if min_size <? size then let shift := shift_loop 64 (size - 1) 1 in (shift, shift - min_shift)
  else (min_shift, 0).

(** The words of the bitmap of a page of small chunks. *)
Definition map_words (shift : Z) : Z := Z.shiftr pagesize shift / 64.
(** The chunks its bitmap takes. *)
Definition bitmap_chunks (shift : Z) : Z :=
  let n := Z.shiftr pagesize shift / (Z.shiftl 1 shift * 8) in if n =? 0 then 1 else n.

(** The first bit of [x] from [i] on that is clear, among [n]. *)
Fixpoint first_clear (n : nat) (i x : Z) : option Z :=
  match n with
  | O => None
  | S n' => if Z.testbit x i then first_clear n' (i + 1) x else Some i
  end.

(** Are the words of the bitmap from [n] on all busy? *)
Fixpoint words_busy (k : nat) (p : pgptr) (n : Z) : M spool bool :=
  match k with
  | O => m_ret true
  | S k' => x <- get_word p n ;; if x =? SLAB_BUSY then words_busy k' p (n + 1) else m_ret false
  end.

(** A page without free chunks leaves its slot's list. *)
Definition page_full (page : pgptr) (type : Z) : M spool unit :=
  unlink page ;;;
  upd page (λ p, set_prev None type (set_next None p)).

(** The search of the bitmap of a page of small chunks; [k] words are left, from [n] on. *)
Fixpoint find_small (k : nat) (page : pgptr) (n shift slot : Z) : M spool (option Z) :=
  match k with
  | O => m_ret None
  | S k' =>
      x <- get_word page n ;;
      if x =? SLAB_BUSY then find_small k' page (n + 1) shift slot else
      match first_clear 64 0 x with
      | None => find_small k' page (n + 1) shift slot
      | Some i =>
          put_word page n (Z.lor x (Z.shiftl 1 i)) ;;;
          a <- m_gets (λ w, page_addr w page) ;;
          mod_stat slot (stat_used 1) ;;;
          (if Z.lor x (Z.shiftl 1 i) =? SLAB_BUSY then
             full <- words_busy k' page (n + 1) ;;
             if full : bool then page_full page SLAB_SMALL else m_ret tt
           else m_ret tt) ;;;
          m_ret (Some (a + Z.shiftl (n * 64 + i) shift))
      end
  end.

(** The bitmap of a page of exact chunks is its [slab]. *)
Definition find_exact (page : pgptr) (shift slot : Z) : M spool (option Z) :=
  pg <- deref page ;;
  match first_clear 64 0 (pg_slab pg) with
  | None => m_ret None
  | Some i =>
      let x := Z.lor (pg_slab pg) (Z.shiftl 1 i) in
      upd page (set_slab x) ;;;
      (if x =? SLAB_BUSY then page_full page SLAB_EXACT else m_ret tt) ;;;
      a <- m_gets (λ w, page_addr w page) ;;
      mod_stat slot (stat_used 1) ;;;
      m_ret (Some (a + Z.shiftl i shift))
  end.

(** That of a page of big chunks is in the high half of [slab], as many bits as there are chunks. *)
Definition big_mask (shift : Z) : Z :=
  Z.shiftl (Z.shiftl 1 (Z.shiftr pagesize shift) - 1) SLAB_MAP_SHIFT.
Definition find_big (page : pgptr) (shift slot : Z) : M spool (option Z) :=
  pg <- deref page ;;
  match first_clear (Z.to_nat (Z.shiftr pagesize shift)) 32 (pg_slab pg) with
  | None => m_ret None
  | Some b =>
      let x := Z.lor (pg_slab pg) (Z.shiftl 1 b) in
      upd page (set_slab x) ;;;
      (if Z.land x SLAB_MAP_MASK =? big_mask shift then page_full page SLAB_BIG else m_ret tt) ;;;
      a <- m_gets (λ w, page_addr w page) ;;
      mod_stat slot (stat_used 1) ;;;
      m_ret (Some (a + Z.shiftl (b - 32) shift))
  end.

Definition find_chunk (page : pgptr) (shift slot : Z) : M spool (option Z) :=
  if shift <? slab_exact_shift then find_small (Z.to_nat (map_words shift)) page 0 shift slot
  else if shift =? slab_exact_shift then find_exact page shift slot
  else find_big page shift slot.

(** Set the bitmap words from [i] on to [v]. *)
Fixpoint fill_words (k : nat) (p : pgptr) (i v : Z) : M spool unit :=
  match k with
  | O => m_ret tt
  | S k' => put_word p i v ;;; fill_words k' p (i + 1) v
  end.

(** A new page becomes the first of its slot's list. *)
Definition link_first (page : pgptr) (slot type slab : Z) : M spool unit :=
  upd page (λ _, SPage slab (Some (PSlot slot)) (Some (PSlot slot)) type) ;;;
  upd (PSlot slot) (set_next (Some page)).

(** The first chunk of a new page. *)
Definition new_chunk_page (page : pgptr) (shift slot : Z) : M spool Z :=
  a <- m_gets (λ w, page_addr w page) ;;
  if shift <? slab_exact_shift then
    let n := bitmap_chunks shift in
    let i := (n + 1) / 64 in
    fill_words (Z.to_nat i) page 0 SLAB_BUSY ;;;
    put_word page i (Z.shiftl 1 ((n + 1) mod 64) - 1) ;;;
    fill_words (Z.to_nat (map_words shift - (i + 1))) page (i + 1) 0 ;;;
    link_first page slot SLAB_SMALL shift ;;;
    mod_stat slot (stat_total (Z.shiftr pagesize shift - n)) ;;;
    mod_stat slot (stat_used 1) ;;;
    m_ret (a + Z.shiftl n shift)
  else if shift =? slab_exact_shift then
    link_first page slot SLAB_EXACT 1 ;;;
    mod_stat slot (stat_total 64) ;;;
    mod_stat slot (stat_used 1) ;;;
    m_ret a
  else
    link_first page slot SLAB_BIG (Z.lor (Z.shiftl 1 SLAB_MAP_SHIFT) shift) ;;;
    mod_stat slot (stat_total (Z.shiftr pagesize shift)) ;;;
    mod_stat slot (stat_used 1) ;;;
    m_ret a.

(** ** Allocation *)

(** Null is [None]. *)
Definition ngx_slab_alloc_locked (size : Z) : M spool (option Z) :=
  if slab_max_size <? size then
    page <- ngx_slab_alloc_pages (Z.shiftr size pagesize_shift + (if size mod pagesize =? 0 then 0 else 1)) ;;
    match page with
    | Some page => a <- m_gets (λ w, page_addr w page) ;; m_ret (Some a)
    | None => m_ret None
    end
  else
    let '(shift, slot) := size_slot size in
    mod_stat slot stat_reqs ;;;
    s <- deref (PSlot slot) ;;
    match pg_next s with
    | None => m_abort
    | Some page =>
        pg <- deref page ;;
        r <- (if bool_decide (pg_next pg ≠ Some page) then
                r <- find_chunk page shift slot ;;
                match r with
                | Some p => m_ret (Some p)
                | None => m_modify log_error ;;; m_ret None
                end
              else m_ret None) ;;
        match r with
        | Some p => m_ret (Some p)
        | None =>
            page <- ngx_slab_alloc_pages 1 ;;
            match page with
            | Some page => p <- new_chunk_page page shift slot ;; m_ret (Some p)
            | None => mod_stat slot stat_fails ;;; m_ret None
            end
        end
    end.

Definition ngx_slab_alloc (size : Z) : M spool (option Z) := ngx_slab_alloc_locked size.
(** The memory that is returned is cleared; what blocks hold is not modelled. *)
Definition ngx_slab_calloc_locked (size : Z) : M spool (option Z) := ngx_slab_alloc_locked size.
Definition ngx_slab_calloc (size : Z) : M spool (option Z) := ngx_slab_calloc_locked size.

(** ** Release *)

(** A page that was full joins its slot's list again. *)
Definition relink (page : pgptr) (slot type : Z) : M spool unit :=
  s <- deref (PSlot slot) ;;
  upd page (set_next (pg_next s)) ;;;
  upd (PSlot slot) (set_next (Some page)) ;;;
  upd page (set_prev (Some (PSlot slot)) type) ;;;
  pg <- deref page ;;
  upd_opt (pg_next pg) (set_prev (Some page) type).

(** Is a bit set in the words of the bitmap from [i] on? *)
Fixpoint words_used (k : nat) (p : pgptr) (i : Z) : M spool bool :=
  match k with
  | O => m_ret false
  | S k' => x <- get_word p i ;; if x =? 0 then words_used k' p (i + 1) else m_ret true
  end.

Definition slab_fail : M spool unit := m_modify log_error.

Definition free_small (page : pgptr) (p : Z) : M spool unit :=
  pg <- deref page ;;
  let shift := Z.land (pg_slab pg) SLAB_SHIFT_MASK in
  let size := Z.shiftl 1 shift in
  if negb (Z.land p (size - 1) =? 0) then slab_fail else
  let chunk := Z.shiftr (Z.land p (pagesize - 1)) shift in
  let m := Z.shiftl 1 (chunk mod 64) in
  let n := chunk / 64 in
  x <- get_word page n ;;
  if Z.land x m =? 0 then slab_fail else
  let slot := shift - min_shift in
  (match pg_next pg with None => relink page slot SLAB_SMALL | Some _ => m_ret tt end) ;;;
  x <- get_word page n ;;
  put_word page n (Z.ldiff x m) ;;;
  let n := bitmap_chunks shift in
  let i := n / 64 in
  let m := Z.shiftl 1 (n mod 64) - 1 in
  x <- get_word page i ;;
  used <- (if negb (Z.ldiff x m =? 0) then m_ret true
           else words_used (Z.to_nat (map_words shift - (i + 1))) page (i + 1)) ;;
  (if used : bool then m_ret tt
   else
     ngx_slab_free_pages page 1 ;;;
     mod_stat slot (stat_total (- (Z.shiftr pagesize shift - n)))) ;;;
  mod_stat slot (stat_used (-1)).

Definition free_exact (page : pgptr) (p : Z) : M spool unit :=
  pg <- deref page ;;
  let m := Z.shiftl 1 (Z.shiftr (Z.land p (pagesize - 1)) slab_exact_shift) in
  let size := slab_exact_size in
  if negb (Z.land p (size - 1) =? 0) then slab_fail else
  if Z.land (pg_slab pg) m =? 0 then slab_fail else
  let slot := slab_exact_shift - min_shift in
  (if pg_slab pg =? SLAB_BUSY then relink page slot SLAB_EXACT else m_ret tt) ;;;
  upd page (λ pg, set_slab (Z.ldiff (pg_slab pg) m) pg) ;;;
  pg <- deref page ;;
  (if negb (pg_slab pg =? 0) then m_ret tt
   else
     ngx_slab_free_pages page 1 ;;;
     mod_stat slot (stat_total (-64))) ;;;
  mod_stat slot (stat_used (-1)).

Definition free_big (page : pgptr) (p : Z) : M spool unit :=
  pg <- deref page ;;
  let shift := Z.land (pg_slab pg) SLAB_SHIFT_MASK in
  let size := Z.shiftl 1 shift in
  if negb (Z.land p (size - 1) =? 0) then slab_fail else
  let m := Z.shiftl 1 (Z.shiftr (Z.land p (pagesize - 1)) shift + SLAB_MAP_SHIFT) in
  if Z.land (pg_slab pg) m =? 0 then slab_fail else
  let slot := shift - min_shift in
  (match pg_next pg with None => relink page slot SLAB_BIG | Some _ => m_ret tt end) ;;;
  upd page (λ pg, set_slab (Z.ldiff (pg_slab pg) m) pg) ;;;
  pg <- deref page ;;
  (if negb (Z.land (pg_slab pg) SLAB_MAP_MASK =? 0) then m_ret tt
   else
     ngx_slab_free_pages page 1 ;;;
     mod_stat slot (stat_total (- Z.shiftr pagesize shift))) ;;;
  mod_stat slot (stat_used (-1)).

Definition free_page_run (page : pgptr) (p : Z) : M spool unit :=
  pg <- deref page ;;
  if negb (Z.land p (pagesize - 1) =? 0) then slab_fail
  else if Z.land (pg_slab pg) SLAB_PAGE_START =? 0 then slab_fail
  else if pg_slab pg =? SLAB_PAGE_BUSY then slab_fail
  else ngx_slab_free_pages page (Z.ldiff (pg_slab pg) SLAB_PAGE_START).

Definition ngx_slab_free_locked (p : Z) : M spool unit :=
  w <- m_get ;;
  if (p <? sl_start w) || (sl_end w <? p) then slab_fail else
  let page := PPage (Z.shiftr (p - sl_start w) pagesize_shift) in
  pg <- deref page ;;
  if pg_type pg =? SLAB_SMALL then free_small page p
  else if pg_type pg =? SLAB_EXACT then free_exact page p
  else if pg_type pg =? SLAB_BIG then free_big page p
  else free_page_run page p.
Definition ngx_slab_free (p : Z) : M spool unit := ngx_slab_free_locked p.

(** ** Initialisation *)

(** [ngx_align_ptr(p, pagesize)] *)
Definition align_page (p : Z) : Z := Z.land (p + (pagesize - 1)) (Z.lnot (pagesize - 1)).

(** The descriptors that [ngx_slab_init] leaves: every slot's list is empty, and the pages are one free
    run. *)
Definition new_pool (pages start pend : Z) : spool :=
  SPool (λ q, match q with
              | PFree => SPage 0 (Some (PPage 0)) None 0
              | PSlot i => SPage 0 (Some (PSlot i)) None 0
              | PPage i => if i =? 0 then SPage pages (Some PFree) (Some PFree) 0 else zero_page
              end)
    (λ _ _, 0) (λ _, SStat 0 0 0 0) pages (u32 pages) start pend 0.

(** [ngx_slab_init] of the [size] bytes at [base]. *)
Definition ngx_slab_init (base size : Z) : spool :=
  let pend := base + size in
  let p := base + sizeof_slab_pool in
  let n := pagesize_shift - min_shift in
  let size := pend - p - n * (sizeof_slab_page + sizeof_slab_stat) in
  let p := p + n * sizeof_slab_page + n * sizeof_slab_stat in
  let pages := size / (pagesize + sizeof_slab_page) in
  let start := align_page (p + pages * sizeof_slab_page) in
  let m := pages - (pend - start) / pagesize in
  let pages := if 0 <? m then pages - m else pages in
  new_pool pages start pend.

(** [shuso_shared_slab_create], with what [mmap] and the mutex functions answer; the memory
    that was mapped is unmapped when a later step fails. *)
Definition region_size (sz : Z) : Z := if sz =? 0 then DEFAULT_SIZE else sz.
Definition shuso_shared_slab_create (sz : Z) (mmap : option Z) (mutex_ok : bool) : option spool :=
  let sz := region_size sz in
  match mmap with
  | None => None
  | Some base => if mutex_ok then Some (ngx_slab_init base sz) else None
  end.
Definition shuso_shared_slab_alloc (size : Z) : M spool (option Z) := ngx_slab_alloc size.
Definition shuso_shared_slab_calloc (size : Z) : M spool (option Z) := ngx_slab_calloc size.
Definition shuso_shared_slab_free (p : Z) : M spool unit := ngx_slab_free p.
