(* ===== verification/SlabLists.v ===== *)
(** The lists of page descriptors of the slab allocator (Slab.v): circular, doubly linked, with a
    head of which only [next] counts; and what the allocator's steps do to them. *)

From S2P Require Import Prelude Slab.

(** The memory of the page descriptors. *)
Abbreviation nodes := (pgptr → spage).

Definition upd_at (p : pgptr) (f : spage → spage) (N : nodes) : nodes :=
  λ q, if bool_decide (q = p) then f (N q) else N q.

Lemma sl_nodes_upd p f w : sl_nodes (upd_node p f w) = upd_at p f (sl_nodes w).
Proof. done. Qed.

Lemma upd_at_eq p f N : upd_at p f N p = f (N p).
Proof. unfold upd_at. by rewrite bool_decide_eq_true_2. Qed.
Lemma upd_at_ne p f N q : q ≠ p → upd_at p f N q = N q.
Proof. intros. unfold upd_at. by rewrite bool_decide_eq_false_2. Qed.

(** The list from [prev] on has the elements [l] and ends at the head [h]. *)
Fixpoint dll (N : nodes) (h prev : pgptr) (l : list pgptr) : Prop :=
  match l with
  | [] => pg_next (N prev) = Some h
  | a :: l' => pg_next (N prev) = Some a ∧ pg_prev (N a) = Some prev ∧ dll N h a l'
  end.

(** What comes before the element after [l1], and after the one before [l2]. *)
Definition before (h : pgptr) (l1 : list pgptr) : pgptr := default h (last l1).
Definition after (h : pgptr) (l2 : list pgptr) : pgptr := default h (head l2).

Lemma before_cons h a l : before h (a :: l) = before a l.
Proof. unfold before. by destruct l as [|b l]; [|destruct (last (b :: l)) eqn:E; [|apply last_None in E]]; simpl in *; rewrite ?E. Qed.

Lemma dll_next N h prev l : dll N h prev l → pg_next (N prev) = Some (after h l).
Proof. destruct l; simpl; [done|by intros [? _]]. Qed.

Lemma dll_split N h prev l1 a l2 :
  dll N h prev (l1 ++ a :: l2) ↔
  dll N a prev l1 ∧ pg_prev (N a) = Some (before prev l1) ∧ dll N h a l2.
Proof.
  revert prev. induction l1 as [|b l1 IH]; intros prev; simpl.
  - tauto.
  - rewrite IH, before_cons. tauto.
Qed.

Lemma dll_frame N N' h prev l :
  (∀ q, q ∈ prev :: l → pg_next (N' q) = pg_next (N q)) →
  (∀ q, q ∈ l → pg_prev (N' q) = pg_prev (N q)) →
  dll N h prev l → dll N' h prev l.
Proof.
  revert prev. induction l as [|a l IH]; intros prev Hn Hp; simpl.
  - intros Hd. by rewrite Hn by left.
  - intros (H1 & H2 & H3). rewrite Hn, Hp by left. split_and!; [done|done|].
    apply IH; [intros; apply Hn; by right|intros; apply Hp; by right|done].
Qed.

(** Every element's successor and predecessor are in the list or are its head. *)
Lemma before_elem h l : before h l ∈ h :: l.
Proof.
  unfold before. destruct (last l) as [x|] eqn:E; [|by left]. right. by apply last_Some_elem_of.
Qed.
Lemma after_elem h l : after h l ∈ h :: l.
Proof. destruct l; [by left|right; by left]. Qed.

(** ** Removing an element *)

(** The writes of [unlink]: the predecessor's [next], the successor's [prev] and type. *)
Definition unlinked (p b : pgptr) (t : Z) (N : nodes) : nodes :=
  upd_at b (set_prev (Some p) t) (upd_at p (set_next (Some b)) N).

Lemma unlinked_next p b t N q :
  pg_next (unlinked p b t N q) = if bool_decide (q = p) then Some b else pg_next (N q).
Proof. unfold unlinked, upd_at. by repeat case_bool_decide. Qed.
Lemma unlinked_prev p b t N q :
  pg_prev (unlinked p b t N q) = if bool_decide (q = b) then Some p else pg_prev (N q).
Proof. unfold unlinked, upd_at. by repeat case_bool_decide. Qed.
Lemma unlinked_slab p b t N q : pg_slab (unlinked p b t N q) = pg_slab (N q).
Proof. unfold unlinked, upd_at. by repeat case_bool_decide. Qed.
Lemma unlinked_type p b t N q :
  pg_type (unlinked p b t N q) = if bool_decide (q = b) then t else pg_type (N q).
Proof. unfold unlinked, upd_at. by repeat case_bool_decide. Qed.

Lemma dll_end N h prev l x :
  dll N h prev l → pg_next (N (before prev l)) = Some h ∧
  dll (upd_at (before prev l) (set_next (Some x)) N) x prev l ∨ ¬ NoDup (prev :: l).
Proof.
  revert prev. induction l as [|a l IH]; intros prev; simpl.
  - intros Hn. left. split; [done|]. unfold before; simpl. by rewrite upd_at_eq.
  - intros (Hn & Hp & Hd). rewrite before_cons. destruct (IH a Hd) as [[He Hd']|Hnd].
    + destruct (decide (prev ∈ a :: l)) as [Hin|Hin].
      { right. intros Hnd. apply NoDup_cons in Hnd as [? _]. done. }
      left. split; [done|]. assert (prev ≠ before a l) as Hne.
      { intros ->. apply Hin. apply before_elem. }
      rewrite upd_at_ne by done. split_and!; [done| |done].
      destruct (decide (a = before a l)) as [Ha|Ha].
      * rewrite <- Ha. by rewrite upd_at_eq.
      * by rewrite upd_at_ne.
    + right. intros Hnd'. apply NoDup_cons in Hnd' as [_ ?]. done.
Qed.

Lemma dll_unlink N h l1 a l2 t :
  NoDup (h :: l1 ++ a :: l2) → dll N h h (l1 ++ a :: l2) →
  dll (unlinked (before h l1) (after h l2) t N) h h (l1 ++ l2).
Proof.
  intros Hnd Hd. apply dll_split in Hd as (Hd1 & Ha & Hd2).
  assert (NoDup (h :: l1)) as Hnd1.
  { eapply sublist_NoDup; [exact Hnd|]. apply sublist_skip. by apply sublist_inserts_r. }
  assert (a ∉ h :: l1 ∧ a ∉ l2 ∧ NoDup l2 ∧ (∀ q, q ∈ l2 → q ∉ h :: l1)) as (Ha1 & Ha2 & Hnd2 & H12).
  { change (h :: l1 ++ a :: l2) with ((h :: l1) ++ a :: l2) in Hnd.
    apply NoDup_app in Hnd as (_ & Hdis & Hnd2). apply NoDup_cons in Hnd2 as [? ?].
    split_and!; [intros Hin; by apply (Hdis a Hin); left|done|done|].
    intros q Hq Hin. by apply (Hdis q Hin); right. }
  set (p := before h l1). assert (p ∈ h :: l1) as Hp by apply before_elem.
  destruct (dll_end _ _ _ _ (after h l2) Hd1) as [[_ Hd1']|]; [|done]. fold p in Hd1'.
  destruct l2 as [|b l2].
  - rewrite app_nil_r. unfold after; simpl.
    eapply dll_frame; [..|exact Hd1']; intros q Hq.
    + rewrite unlinked_next. unfold upd_at. by case_bool_decide.
    + rewrite unlinked_prev. unfold upd_at. apply NoDup_cons in Hnd1 as [Hh _].
      rewrite bool_decide_eq_false_2 by (intros ->; done). by case_bool_decide.
  - apply dll_split. unfold after; simpl. assert (b ∉ h :: l1) as Hb by (apply H12; by left).
    split_and!.
    + eapply dll_frame; [..|exact Hd1']; intros q Hq.
      * rewrite unlinked_next. unfold upd_at. by case_bool_decide.
      * rewrite unlinked_prev. unfold upd_at.
        rewrite bool_decide_eq_false_2 by (intros ->; apply Hb; by right). by case_bool_decide.
    + rewrite unlinked_prev. by rewrite bool_decide_eq_true_2.
    + simpl in Hd2. destruct Hd2 as (_ & _ & Hd2). apply NoDup_cons in Hnd2 as [Hbl _].
      eapply dll_frame; [..|exact Hd2]; intros q Hq.
      * rewrite unlinked_next. case_bool_decide; [|done]. subst q. exfalso. by apply (H12 p).
      * rewrite unlinked_prev. case_bool_decide; [|done]. by subst q.
Qed.

(** ** Adding an element in front *)

Lemma dll_push N N' h a l :
  a ∉ h :: l → NoDup (h :: l) → dll N h h l →
  pg_next (N' h) = Some a → pg_prev (N' a) = Some h → pg_next (N' a) = pg_next (N h) →
  (∀ q, q ∈ l → pg_next (N' q) = pg_next (N q)) →
  (∀ q, q ∈ l → pg_prev (N' q) = if bool_decide (q = after h l) then Some a else pg_prev (N q)) →
  dll N' h h (a :: l).
Proof.
  intros Ha Hnd Hd Hh Hp Hn Hnx Hpv. simpl. split_and!; [done|done|].
  destruct l as [|b l]; simpl in *; [by rewrite Hn|].
  destruct Hd as (H1 & H2 & H3). unfold after in Hpv; simpl in Hpv. split_and!.
  - by rewrite Hn.
  - rewrite Hpv by left. by rewrite bool_decide_eq_true_2.
  - apply NoDup_cons in Hnd as [_ Hnd]. apply NoDup_cons in Hnd as [Hb _].
    eapply dll_frame; [..|exact H3]; intros q Hq.
    + apply Hnx. done.
    + rewrite Hpv by (by right). rewrite bool_decide_eq_false_2; [done|]. by intros ->.
Qed.

(** ** Replacing an element *)

Lemma dll_replace N N' h l1 a l2 r :
  NoDup (h :: l1 ++ a :: l2) → r ∉ h :: l1 ++ a :: l2 → dll N h h (l1 ++ a :: l2) →
  pg_next (N' (before h l1)) = Some r → pg_prev (N' r) = Some (before h l1) →
  pg_next (N' r) = Some (after h l2) →
  (∀ q, q ∈ h :: l1 ++ l2 → q ≠ before h l1 → pg_next (N' q) = pg_next (N q)) →
  (∀ q, q ∈ l1 ++ l2 → pg_prev (N' q) = if bool_decide (q = after h l2) then Some r else pg_prev (N q)) →
  dll N' h h (l1 ++ r :: l2).
Proof.
  intros Hnd Hr Hd Hbn Hrp Hrn Hnx Hpv. apply dll_split in Hd as (Hd1 & Ha & Hd2).
  assert (NoDup (h :: l1)) as Hnd1.
  { eapply sublist_NoDup; [exact Hnd|]. apply sublist_skip. by apply sublist_inserts_r. }
  assert (∀ q, q ∈ l2 → q ∉ h :: l1) as H12.
  { change (h :: l1 ++ a :: l2) with ((h :: l1) ++ a :: l2) in Hnd.
    apply NoDup_app in Hnd as (_ & Hdis & _). intros q Hq Hin. by apply (Hdis q Hin); right. }
  apply dll_split. split_and!; [|done|].
  - destruct (dll_end _ _ _ _ r Hd1) as [[_ Hd1']|]; [|done].
    eapply dll_frame; [..|exact Hd1']; intros q Hq.
    + unfold upd_at. case_bool_decide; [by subst|]. apply Hnx; [|done]. set_solver.
    + rewrite Hpv by set_solver. unfold upd_at. case_bool_decide; [|by case_bool_decide].
      subst q. exfalso. destruct l2 as [|b l2].
      * unfold after in Hq; simpl in Hq. by apply NoDup_cons in Hnd1 as [? _].
      * apply (H12 b); [by left|]. right. done.
  - destruct l2 as [|b l2]; simpl in *; [done|].
    destruct Hd2 as (_ & _ & Hd2). split_and!; [done| |].
    + rewrite Hpv by set_solver. by rewrite bool_decide_eq_true_2.
    + assert (NoDup (b :: l2)) as Hnd2.
      { eapply sublist_NoDup; [exact Hnd|]. apply sublist_cons, sublist_inserts_l. by apply sublist_cons. }
      apply NoDup_cons in Hnd2 as [Hb _].
      eapply dll_frame; [..|exact Hd2]; intros q Hq.
      * apply Hnx; [set_solver|]. intros ->. apply (H12 (before h l1)); [set_solver|apply before_elem].
      * rewrite Hpv by set_solver. unfold after; simpl. rewrite bool_decide_eq_false_2; [done|]. by intros ->.
Qed.
