(* ===== verification/SlabInv.v ===== *)
(** What the slab allocator's memory means (Slab.v): the pages as a sequence of free runs,
    allocated runs and pages of chunks, and the invariant that ties the descriptors, the bitmaps and
    the lists to it. *)

From S2P Require Import Prelude Slab SlabLists.

(** ** The abstract state *)

(** A run of free pages, an allocated run, a page of chunks of [2^s] bytes of which [u] are
    allocated.  The others occur within an operation: pages of which the first is in the list [h]
    but whose length or bitmap is not settled, and pages whose descriptors are being written. *)
Inductive seg :=
| Free (n : Z)
| Busy (n : Z)
| Chunks (s : Z) (u : gset Z)
| Stale (h : pgptr) (n : Z)
| Hole (n : Z).

Definition seg_len (sg : seg) : Z :=
  match sg with Free n | Busy n | Hole n | Stale _ n => n | Chunks _ _ => 1 end.
Definition total (segs : list seg) : Z := foldr (λ sg t, seg_len sg + t) 0 segs.

(** The chunks of a page, those its bitmap takes, and those that can be allocated. *)
Definition chunk_count (s : Z) : Z := Z.shiftr pagesize s.
Definition reserved (s : Z) : Z := if s <? slab_exact_shift then bitmap_chunks s else 0.
Definition user_chunks (s : Z) : gset Z := list_to_set (seqZ (reserved s) (chunk_count s - reserved s)).
Definition is_list (h : pgptr) : bool :=
  match h with PFree => true | PSlot i => (0 <=? i) && (i <? pagesize_shift - min_shift) | PPage _ => false end.
Definition shift_ok (s : Z) : Prop := 3 ≤ s ≤ 11.
Definition seg_ok (sg : seg) : Prop :=
  match sg with
  | Free n | Busy n | Hole n => 1 ≤ n
  | Chunks s u => shift_ok s ∧ u ⊆ user_chunks s
  | Stale h n => is_list h = true ∧ 1 ≤ n
  end.
(** What there is between operations. *)
Definition settled (sg : seg) : Prop :=
  match sg with Free _ | Busy _ => True | Chunks _ u => u ≠ ∅ | _ => False end.

(** The blocks that are allocated in the pages from address [a] on. *)
Definition chunk_block (a s k : Z) : block := (a + Z.shiftl k s, 2 ^ s).
Definition seg_blocks (a : Z) (sg : seg) : list block :=
  match sg with
  | Busy n => [(a, pagesize * n)]
  | Chunks s u => chunk_block a s <$> elements u
  | _ => []
  end.
Fixpoint live (a : Z) (segs : list seg) : list block :=
  match segs with
  | [] => []
  | sg :: segs' => seg_blocks a sg ++ live (a + pagesize * seg_len sg) segs'
  end.
Definition free_pages (segs : list seg) : Z :=
  foldr (λ sg t, (match sg with Free n => n | _ => 0 end) + t) 0 segs.

(** ** The memory *)

Definition page_type (s : Z) : Z :=
  if s <? slab_exact_shift then SLAB_SMALL else if s =? slab_exact_shift then SLAB_EXACT else SLAB_BIG.

(** The type of the pages in a list. *)
Definition list_type (h : pgptr) : Z :=
  match h with PSlot i => page_type (i + min_shift) | _ => SLAB_PAGE end.

(** The bit of a chunk: in the words at the beginning of its page, in the page's [slab], or in the
    high half of [slab], whose low half is the shift. *)
Definition chunk_bit (s slab : Z) (words : Z → Z) (c : Z) : bool :=
  if s <? slab_exact_shift then Z.testbit (words (c / 64)) (c mod 64)
  else if s =? slab_exact_shift then Z.testbit slab c
  else Z.testbit slab (SLAB_MAP_SHIFT + c).
Definition chunk_form (s slab : Z) (words : Z → Z) : Prop :=
  if s <? slab_exact_shift then slab = s ∧ ∀ n, 0 ≤ n < map_words s → 0 ≤ words n < 2 ^ 64
  else if s =? slab_exact_shift then 0 ≤ slab < 2 ^ 64
  else 0 ≤ slab ∧ (∀ b, 0 ≤ b < SLAB_MAP_SHIFT → Z.testbit slab b = Z.testbit s b) ∧
       (∀ b, SLAB_MAP_SHIFT + chunk_count s ≤ b → Z.testbit slab b = false).
(** The bitmap says which chunks are allocated. *)
Definition chunk_mem (s : Z) (u : gset Z) (slab : Z) (words : Z → Z) : Prop :=
  chunk_form s slab words ∧
  ∀ c, 0 ≤ c < chunk_count s → chunk_bit s slab words c = bool_decide (c < reserved s ∨ c ∈ u).

Definition busy_page : spage := SPage SLAB_PAGE_BUSY None None SLAB_PAGE.

(** The descriptors of the pages of a segment that begins at page [x]. *)
Definition seg_nodes (w : spool) (x : Z) (sg : seg) : Prop :=
  let nd i := sl_nodes w (PPage i) in
  match sg with
  | Free n =>
      pg_slab (nd x) = n ∧ pg_type (nd x) = SLAB_PAGE ∧
      (1 < n → let e := x + n - 1 in
         pg_slab (nd e) = 0 ∧ pg_next (nd e) = None ∧ pg_type (nd e) = SLAB_PAGE ∧
         (e + 1 < sl_npages w → pg_prev (nd e) = Some (PPage x)))
  | Busy n =>
      nd x = SPage (Z.lor n SLAB_PAGE_START) None None SLAB_PAGE ∧
      ∀ y, x < y < x + n → nd y = busy_page
  | Chunks s u =>
      pg_type (nd x) = page_type s ∧ chunk_mem s u (pg_slab (nd x)) (sl_words w x) ∧
      (u = user_chunks s → pg_next (nd x) = None)
  | Stale h _ => pg_type (nd x) = list_type h
  | Hole _ => True
  end.
Fixpoint nodes_ok (w : spool) (x : Z) (segs : list seg) : Prop :=
  match segs with
  | [] => True
  | sg :: segs' => seg_nodes w x sg ∧ nodes_ok w (x + seg_len sg) segs'
  end.

(** The segments whose first pages are in the free list, or in the list of a slot. *)
Definition full (s : Z) (u : gset Z) : bool := bool_decide (u = user_chunks s).
Definition inl (h : pgptr) (sg : seg) : bool :=
  match h, sg with
  | PFree, Free _ => true
  | PSlot i, Chunks s u => (s - min_shift =? i) && negb (full s u)
  | _, Stale h' _ => bool_decide (h = h')
  | _, _ => false
  end.
Definition linked (sg : seg) : bool :=
  match sg with Free _ | Stale _ _ => true | Chunks s u => negb (full s u) | _ => false end.
(** The first pages of the segments [P] selects. *)
Fixpoint heads (P : seg → bool) (x : Z) (segs : list seg) : list Z :=
  match segs with
  | [] => []
  | sg :: segs' => (if P sg then [x] else []) ++ heads P (x + seg_len sg) segs'
  end.
Definition list_ok (segs : list seg) (w : spool) (h : pgptr) (l : list Z) : Prop :=
  l ≡ₚ heads (inl h) 0 segs ∧ dll (sl_nodes w) h h (PPage <$> l).

Record sinv (segs : list seg) (w : spool) : Prop := SInv {
  si_ok : Forall seg_ok segs;
  si_total : total segs = sl_npages w;
  si_small : sl_npages w < 2 ^ 32;
  si_nodes : nodes_ok w 0 segs;
  si_lists : ∀ h, is_list h = true → ∃ l, list_ok segs w h l;
  si_start : 0 < sl_start w ∧ sl_start w mod pagesize = 0;
  si_end : sl_start w + pagesize * sl_npages w ≤ sl_end w
}.

(** ** Sequences of pages *)

Lemma seg_len_pos sg : seg_ok sg → 1 ≤ seg_len sg.
Proof. destruct sg; simpl; lia. Qed.
#[export] Hint Resolve seg_len_pos : shuso.

Lemma total_app s1 s2 : total (s1 ++ s2) = total s1 + total s2.
Proof. induction s1; simpl; lia. Qed.

Lemma total_nonneg segs : Forall seg_ok segs → 0 ≤ total segs.
Proof. induction 1 as [|sg segs Hsg]; simpl; [lia|]. apply seg_len_pos in Hsg. lia. Qed.

Lemma live_app a s1 s2 : live a (s1 ++ s2) = live a s1 ++ live (a + pagesize * total s1) s2.
Proof.
  revert a. induction s1 as [|sg s1 IH]; intros a; simpl.
  - f_equal. lia.
  - rewrite IH, <- app_assoc. do 3 f_equal. lia.
Qed.

Lemma free_pages_app s1 s2 : free_pages (s1 ++ s2) = free_pages s1 + free_pages s2.
Proof. induction s1; simpl; lia. Qed.

Lemma free_pages_range segs : Forall seg_ok segs → 0 ≤ free_pages segs ≤ total segs.
Proof. induction 1 as [|sg segs Hsg]; simpl; [lia|]. destruct sg; simpl in *; lia. Qed.

Lemma nodes_ok_app w x s1 s2 : nodes_ok w x (s1 ++ s2) ↔ nodes_ok w x s1 ∧ nodes_ok w (x + total s1) s2.
Proof.
  revert x. induction s1 as [|sg s1 IH]; intros x; simpl.
  - rewrite Z.add_0_r. tauto.
  - rewrite IH, Z.add_assoc. tauto.
Qed.

Lemma heads_app P x s1 s2 : heads P x (s1 ++ s2) = heads P x s1 ++ heads P (x + total s1) s2.
Proof.
  revert x. induction s1 as [|sg s1 IH]; intros x; simpl.
  - by rewrite Z.add_0_r.
  - by rewrite IH, Z.add_assoc, app_assoc.
Qed.

Lemma heads_elem P x segs y :
  y ∈ heads P x segs ↔ ∃ s1 sg s2, segs = s1 ++ sg :: s2 ∧ P sg = true ∧ y = x + total s1.
Proof.
  revert x. induction segs as [|sg segs IH]; intros x; simpl.
  - split; [by intros ?%elem_of_nil|]. by intros ([]&?&?&?&_).
  - rewrite elem_of_app, IH. split.
    + intros [Hy|(s1 & sg' & s2 & -> & HP & ->)].
      * destruct (P sg) eqn:E; [|by apply elem_of_nil in Hy]. apply list_elem_of_singleton in Hy as ->.
        exists [], sg, segs. simpl. split_and!; [done|done|lia].
      * exists (sg :: s1), sg', s2. simpl. split_and!; [done|done|lia].
    + intros (s1 & sg' & s2 & Hs & HP & ->). destruct s1 as [|sg1 s1]; simplify_eq/=.
      * left. rewrite HP. apply list_elem_of_singleton. lia.
      * right. exists s1, sg', s2. split_and!; [done|done|lia].
Qed.

Lemma heads_range P x segs y : Forall seg_ok segs → y ∈ heads P x segs → x ≤ y < x + total segs.
Proof.
  intros Hok (s1 & sg & s2 & -> & _ & ->)%heads_elem.
  apply Forall_app in Hok as [H1 [H2 H3]%Forall_cons]. rewrite total_app. simpl.
  apply total_nonneg in H1, H3. apply seg_len_pos in H2. lia.
Qed.

Lemma heads_NoDup P x segs : Forall seg_ok segs → NoDup (heads P x segs).
Proof.
  intros Hok. revert x. induction Hok as [|sg segs Hsg Hok IH]; intros x; simpl; [constructor|].
  apply NoDup_app. split_and!; [destruct (P sg); [apply NoDup_singleton|constructor]| |done].
  intros y Hy Hy'. apply heads_range in Hy'; [|done]. apply seg_len_pos in Hsg.
  destruct (P sg); [|by apply elem_of_nil in Hy]. apply list_elem_of_singleton in Hy. lia.
Qed.

Lemma heads_unique P Q x segs y :
  Forall seg_ok segs → y ∈ heads P x segs → y ∈ heads Q x segs →
  ∃ sg, P sg = true ∧ Q sg = true.
Proof.
  intros Hok. revert x. induction Hok as [|sg segs Hsg Hok IH]; intros x; simpl; [by intros ?%elem_of_nil|].
  rewrite !elem_of_app. apply seg_len_pos in Hsg.
  assert (∀ R : seg → bool, y ∈ (if R sg then [x] else []) → y = x ∧ R sg = true) as Hx.
  { intros R HR. destruct (R sg); [|by apply elem_of_nil in HR]. by apply list_elem_of_singleton in HR. }
  intros [Hp|Hp] [Hq|Hq].
  - exists sg. split; [by apply (Hx P)|by apply (Hx Q)].
  - apply Hx in Hp as [-> _]. apply heads_range in Hq; [lia|done].
  - apply Hx in Hq as [-> _]. apply heads_range in Hp; [lia|done].
  - by apply (IH (x + seg_len sg)).
Qed.

Lemma inl_linked h sg : inl h sg = true → linked sg = true.
Proof. destruct h, sg; try done. intros [_ ?]%andb_true_iff. done. Qed.
Lemma inl_list h sg : seg_ok sg → inl h sg = true → is_list h = true.
Proof.
  destruct sg as [n|n|s u|h' n|n]; [by destruct h|by destruct h| |intros [? _]|by destruct h].
  - destruct h; simpl; unfold min_shift, pagesize_shift, shift_ok; try done.
    intros [[??] _] [?%Z.eqb_eq _]%andb_true_iff. apply andb_true_iff. lia.
  - destruct h; cbn [inl]; intros Hd%bool_decide_eq_true_1; by subst.
Qed.
Lemma inl_inj h h' sg : inl h sg = true → inl h' sg = true → h = h'.
Proof.
  destruct sg as [n|n|s u|h0 n|n].
  - by destruct h, h'.
  - by destruct h.
  - destruct h, h'; try done. intros [?%Z.eqb_eq _]%andb_true_iff [?%Z.eqb_eq _]%andb_true_iff. f_equal. lia.
  - destruct h, h'; cbn [inl]; intros H1%bool_decide_eq_true_1 H2%bool_decide_eq_true_1; congruence.
  - by destruct h.
Qed.

(** ** Frames *)

Definition with_nodes (N : nodes) (w : spool) : spool :=
  SPool N (sl_words w) (sl_stats w) (sl_npages w) (sl_pfree w) (sl_start w) (sl_end w) (sl_errors w).

Lemma deref_ok p w : valid_ptr w p = true → deref p w = Some (sl_nodes w p, w).
Proof. unfold deref. by intros ->. Qed.
Lemma upd_ok p f w : valid_ptr w p = true → upd p f w = Some (tt, with_nodes (upd_at p f (sl_nodes w)) w).
Proof. unfold upd. by intros ->. Qed.
Lemma valid_with_nodes N w p : valid_ptr (with_nodes N w) p = valid_ptr w p.
Proof. done. Qed.
Lemma valid_page w x : valid_ptr w (PPage x) = true ↔ 0 ≤ x < sl_npages w.
Proof. simpl. rewrite andb_true_iff. lia. Qed.
Lemma valid_list w h : is_list h = true → valid_ptr w h = true.
Proof. by destruct h. Qed.

(** The dimensions of the pool, and the errors reported. *)
Record same_dims (w w' : spool) : Prop := SameDims {
  sd_npages : sl_npages w' = sl_npages w;
  sd_start : sl_start w' = sl_start w;
  sd_end : sl_end w' = sl_end w;
  sd_errors : sl_errors w' = sl_errors w
}.
#[export] Instance same_dims_refl : Reflexive same_dims.
Proof. by intros []. Qed.
#[export] Instance same_dims_trans : Transitive same_dims.
Proof. intros w1 w2 w3 [] []. split; congruence. Qed.
Lemma same_dims_nodes N w : same_dims w (with_nodes N w).
Proof. by split. Qed.
#[export] Hint Resolve same_dims_nodes : shuso.

(** A page's descriptor may only have changed in [next] and [prev], and only if the page is in a
    list. *)
Definition page_frame (w w' : spool) (x : Z) (in_list : Prop) : Prop :=
  sl_words w' x = sl_words w x ∧
  pg_slab (sl_nodes w' (PPage x)) = pg_slab (sl_nodes w (PPage x)) ∧
  pg_type (sl_nodes w' (PPage x)) = pg_type (sl_nodes w (PPage x)) ∧
  (¬ in_list → sl_nodes w' (PPage x) = sl_nodes w (PPage x)).

Lemma page_frame_same w w' x P :
  sl_words w' x = sl_words w x → sl_nodes w' (PPage x) = sl_nodes w (PPage x) → page_frame w w' x P.
Proof. intros Hw Hn. unfold page_frame. by rewrite Hw, Hn. Qed.

Lemma seg_nodes_frame w w' x sg :
  seg_ok sg → sl_npages w' = sl_npages w →
  (∀ y, x ≤ y < x + seg_len sg → page_frame w w' y (linked sg = true ∧ y = x)) →
  seg_nodes w x sg → seg_nodes w' x sg.
Proof.
  intros Hok Hn Hf. pose proof (seg_len_pos sg Hok) as Hl.
  destruct (Hf x ltac:(lia)) as (Hw & Hs & Ht & Hx).
  destruct sg as [n|n|s u|s|n]; simpl in *.
  - rewrite Hs, Ht, Hn. intros (H1 & H2 & H3). split_and!; [done|done|]. intros Hn1.
    destruct (Hf (x + n - 1) ltac:(lia)) as (_ & _ & _ & He). rewrite He by lia. by apply H3.
  - rewrite Hx by naive_solver. intros [H1 H2]. split; [done|]. intros y Hy.
    destruct (Hf y ltac:(lia)) as (_ & _ & _ & He). rewrite He by naive_solver. by apply H2.
  - rewrite Hs, Ht, Hw. intros (H1 & H2 & H3). split_and!; [done|done|]. intros Hu.
    rewrite Hx; [by apply H3|]. unfold full. rewrite bool_decide_eq_true_2 by done. naive_solver.
  - by rewrite Ht.
  - done.
Qed.

Lemma nodes_ok_frame w w' x segs :
  Forall seg_ok segs → sl_npages w' = sl_npages w →
  (∀ y, x ≤ y < x + total segs → page_frame w w' y (y ∈ heads linked x segs)) →
  nodes_ok w x segs → nodes_ok w' x segs.
Proof.
  intros Hok Hn. revert x. induction Hok as [|sg segs Hsg Hok IH]; intros x Hf; simpl; [done|].
  pose proof (total_nonneg segs Hok). pose proof (seg_len_pos sg Hsg). simpl in Hf.
  assert (∀ y, y ∈ heads linked x (sg :: segs) →
    (linked sg = true ∧ y = x) ∨ (x + seg_len sg ≤ y ∧ y ∈ heads linked (x + seg_len sg) segs)) as Hh.
  { simpl. intros y [Hy|Hy]%elem_of_app.
    - left. destruct (linked sg); [|by apply elem_of_nil in Hy]. by apply list_elem_of_singleton in Hy.
    - right. pose proof (heads_range _ _ _ _ Hok Hy). split; [lia|done]. }
  intros [H1 H2]. split.
  - eapply seg_nodes_frame; [done|done| |exact H1]. intros y Hy.
    destruct (Hf y ltac:(lia)) as (? & ? & ? & He). split_and!; try done. intros Hne. apply He.
    intros [?|[? _]]%Hh; [done|lia].
  - apply IH; [|done]. intros y Hy.
    destruct (Hf y ltac:(lia)) as (? & ? & ? & He). split_and!; try done. intros Hne. apply He.
    intros [[_ ?]|[_ ?]]%Hh; [lia|done].
Qed.
(** ** Changing the middle of the sequence *)

Lemma heads_mono (P Q : seg → bool) x segs y :
  (∀ sg, P sg = true → Q sg = true) → y ∈ heads P x segs → y ∈ heads Q x segs.
Proof.
  intros HPQ (s1 & sg & s2 & -> & HP & ->)%heads_elem. apply heads_elem. exists s1, sg, s2. auto.
Qed.

Lemma Forall_mid {A} (P : A → Prop) l1 l2 l3 :
  Forall P (l1 ++ l2 ++ l3) ↔ Forall P l1 ∧ Forall P l2 ∧ Forall P l3.
Proof. by rewrite !Forall_app. Qed.

Lemma sinv_change s1 old s2 new w w' :
  sinv (s1 ++ old ++ s2) w → same_dims w w' → Forall seg_ok new → total new = total old →
  (∀ y, y < total s1 ∨ total s1 + total old ≤ y →
    page_frame w w' y (y ∈ heads linked 0 (s1 ++ old ++ s2))) →
  nodes_ok w' (total s1) new →
  (∀ h, is_list h = true → ∃ l, list_ok (s1 ++ new ++ s2) w' h l) →
  sinv (s1 ++ new ++ s2) w'.
Proof.
  intros [Hok Htot Hsm Hnd Hls Hst Hend] [Hnp Hs He _] Hnew Hlen Hf Hnd' Hls'.
  apply Forall_mid in Hok as (Hok1 & Hoko & Hok2). rewrite !nodes_ok_app, Z.add_0_l in Hnd.
  destruct Hnd as (Hn1 & _ & Hn2). rewrite !total_app in Htot.
  pose proof (total_nonneg _ Hok1). pose proof (total_nonneg _ Hoko). pose proof (total_nonneg _ Hok2).
  pose proof (λ x y, heads_range linked x _ y Hok1) as Hr1.
  pose proof (λ x y, heads_range linked x _ y Hoko) as Hro.
  pose proof (λ x y, heads_range linked x _ y Hok2) as Hr2.
  split; try (rewrite ?Hnp, ?Hs, ?He; done).
  - by apply Forall_mid.
  - rewrite !total_app, Hnp. lia.
  - rewrite !nodes_ok_app, Z.add_0_l, Hlen. split_and!; [|done|].
    + eapply nodes_ok_frame; [done|done| |exact Hn1]. intros y Hy.
      destruct (Hf y ltac:(lia)) as (? & ? & ? & Hx). split_and!; try done. intros Hne. apply Hx.
      rewrite !heads_app. intros [?|[?%Hro|?%Hr2]%elem_of_app]%elem_of_app; [done|lia|lia].
    + eapply nodes_ok_frame; [done|done| |exact Hn2]. intros y Hy.
      destruct (Hf y ltac:(lia)) as (? & ? & ? & Hx). split_and!; try done. intros Hne. apply Hx.
      rewrite !heads_app. intros [?%Hr1|[?%Hro|?]%elem_of_app]%elem_of_app; [lia|lia|done].
Qed.

(** A list is unchanged when its members are, and what links them. *)
Lemma list_ok_frame segs segs' w w' h l :
  heads (inl h) 0 segs ≡ₚ heads (inl h) 0 segs' →
  (∀ q, q ∈ h :: (PPage <$> l) → pg_next (sl_nodes w' q) = pg_next (sl_nodes w q)) →
  (∀ q, q ∈ (PPage <$> l) → pg_prev (sl_nodes w' q) = pg_prev (sl_nodes w q)) →
  list_ok segs w h l → list_ok segs' w' h l.
Proof.
  intros Hh Hn Hp [Hl Hd]. split; [by rewrite Hl|]. eapply dll_frame; [exact Hn|exact Hp|done].
Qed.

Section lists.
Context (segs : list seg) (w : spool) (Hi : sinv segs w).

Lemma list_elem h l x : list_ok segs w h l → x ∈ l ↔ x ∈ heads (inl h) 0 segs.
Proof using. intros [Hl _]. by rewrite Hl. Qed.

Lemma list_nodup h l : is_list h = true → list_ok segs w h l → NoDup (h :: (PPage <$> l)).
Proof using Hi.
  intros Hh [Hl _]. constructor.
  - intros (x & -> & _)%list_elem_of_fmap. done.
  - apply NoDup_fmap; [by intros ?? [= ->]|]. rewrite Hl. apply heads_NoDup, Hi.
Qed.

Lemma list_valid h l q :
  is_list h = true → list_ok segs w h l → q ∈ h :: (PPage <$> l) → valid_ptr w q = true.
Proof using Hi.
  intros Hh Hl [->|(x & -> & Hx)%list_elem_of_fmap]%elem_of_cons; [by apply valid_list|].
  apply (list_elem _ _ _ Hl) in Hx. apply valid_page. apply heads_range in Hx; [|apply Hi].
  rewrite (si_total _ _ Hi) in Hx. lia.
Qed.

Lemma list_disjoint h l h' l' q :
  is_list h = true → is_list h' = true → list_ok segs w h l → list_ok segs w h' l' → h ≠ h' →
  q ∈ h :: (PPage <$> l) → q ∉ h' :: (PPage <$> l').
Proof using Hi.
  intros Hh Hh' Hl Hl' Hne [->|(x & -> & Hx)%list_elem_of_fmap]%elem_of_cons
    [He|(x' & He & Hx')%list_elem_of_fmap]%elem_of_cons; subst; try done.
  injection He as <-. apply (list_elem _ _ _ Hl) in Hx. apply (list_elem _ _ _ Hl') in Hx'.
  destruct (heads_unique _ _ _ _ _ (si_ok _ _ Hi) Hx Hx') as (sg & H1 & H2).
  by apply Hne, (inl_inj _ _ sg).
Qed.

Lemma list_page_type h x :
  x ∈ heads (inl h) 0 segs → pg_type (sl_nodes w (PPage x)) = list_type h.
Proof using Hi.
  intros (s1 & sg & s2 & -> & HP & ->)%heads_elem. pose proof (si_nodes _ _ Hi) as Hn.
  apply nodes_ok_app in Hn as [_ [Hn _]]. destruct sg as [n|n|s u|h' n|n]; simpl in Hn.
  - destruct h; try done. by destruct Hn as (_ & -> & _).
  - by destruct h.
  - destruct h; try done. apply andb_true_iff in HP as [<-%Z.eqb_eq _]. destruct Hn as (-> & _). simpl. f_equal. lia.
  - destruct h; apply bool_decide_eq_true_1 in HP as <-; done.
  - by destruct h.
Qed.
End lists.

(** A segment is rewritten in place: it stays in the list it is in, or in none. *)
Lemma sinv_local s1 sg sg' s2 w w' :
  sinv (s1 ++ sg :: s2) w → same_dims w w' → seg_ok sg' → seg_len sg' = seg_len sg →
  (∀ h, inl h sg' = inl h sg) →
  (∀ q, (∀ x, q = PPage x → x < total s1 ∨ total s1 + seg_len sg ≤ x) → sl_nodes w' q = sl_nodes w q) →
  (∀ x, x < total s1 ∨ total s1 + seg_len sg ≤ x → sl_words w' x = sl_words w x) →
  (linked sg = true →
    pg_next (sl_nodes w' (PPage (total s1))) = pg_next (sl_nodes w (PPage (total s1))) ∧
    pg_prev (sl_nodes w' (PPage (total s1))) = pg_prev (sl_nodes w (PPage (total s1)))) →
  seg_nodes w' (total s1) sg' → sinv (s1 ++ sg' :: s2) w'.
Proof.
  intros Hi Hd Hok Hlen Hin Hnd Hw Hlk Hsn. apply (sinv_change s1 [sg] s2 [sg'] w w'); try done.
  - by constructor.
  - simpl. lia.
  - intros y Hy. simpl in Hy. apply page_frame_same; [apply Hw; lia|apply Hnd; intros ? [= ->]; lia].
  - intros h Hh. destruct (si_lists _ _ Hi h Hh) as [l Hl]. exists l.
    assert (∀ q, q ∈ h :: (PPage <$> l) →
      pg_next (sl_nodes w' q) = pg_next (sl_nodes w q) ∧ pg_prev (sl_nodes w' q) = pg_prev (sl_nodes w q)) as Hq.
    { intros q [->|(x & -> & Hx)%list_elem_of_fmap]%elem_of_cons.
      { rewrite Hnd; [done|]. intros x ->. done. }
      apply (list_elem _ _ _ _ _ Hl) in Hx. pose proof (si_ok _ _ Hi) as Ho.
      apply Forall_app in Ho as [Ho1 [Hsg Ho2]%Forall_cons].
      rewrite heads_app, elem_of_app in Hx. simpl in Hx. rewrite elem_of_app in Hx.
      destruct Hx as [Hx|[Hx|Hx]].
      - apply heads_range in Hx; [|done]. rewrite Hnd; [done|]. intros ? [= <-]. lia.
      - destruct (inl h sg) eqn:E; [|by apply elem_of_nil in Hx].
        apply list_elem_of_singleton in Hx as ->. apply Hlk. by apply (inl_linked h).
      - apply heads_range in Hx; [|done]. rewrite Hnd; [done|]. intros ? [= <-]. lia. }
    eapply list_ok_frame; [..|exact Hl].
    + change ([sg'] ++ s2) with (sg' :: s2). rewrite !heads_app. simpl. rewrite Hin, Hlen. reflexivity.
    + intros q ?. by apply Hq.
    + intros q ?. apply Hq. by right.
Qed.
(** The invariant does not look at the counters. *)
Lemma sinv_same segs w w' :
  sinv segs w → same_dims w w' → sl_nodes w' = sl_nodes w → sl_words w' = sl_words w → sinv segs w'.
Proof.
  intros Hi Hd Hn Hw. pose proof (sinv_change [] [] segs [] w w') as Hc. apply Hc; try done.
  - intros y _. apply page_frame_same; congruence.
  - intros h Hh. destruct (si_lists _ _ Hi h Hh) as [l [Hp Hl]]. exists l. split; [done|]. by rewrite Hn.
Qed.

(** ** Leaving a list *)

Lemma unlink_spec w h l1 a l2 :
  NoDup (h :: l1 ++ a :: l2) → dll (sl_nodes w) h h (l1 ++ a :: l2) →
  (∀ q, q ∈ h :: l1 ++ a :: l2 → valid_ptr w q = true) →
  unlink a w = Some (tt, with_nodes (unlinked (before h l1) (after h l2)
                                       (pg_type (sl_nodes w a)) (sl_nodes w)) w).
Proof.
  intros Hnd Hd Hv. apply dll_split in Hd as (_ & Ha & Hd2). pose proof (dll_next _ _ _ _ Hd2) as Hn.
  unfold unlink, m_bind. rewrite deref_ok by (apply Hv; set_solver). rewrite Ha, Hn. simpl.
  pose proof (before_elem h l1) as Hb. pose proof (after_elem h l2) as Haf.
  rewrite upd_ok by (apply Hv; set_solver). rewrite deref_ok by (rewrite valid_with_nodes; apply Hv; set_solver).
  simpl. assert (a ≠ before h l1) as Hne.
  { intros ->. change (h :: l1 ++ before h l1 :: l2) with ((h :: l1) ++ before h l1 :: l2) in Hnd.
    apply NoDup_app in Hnd as (_ & Hdis & _). apply (Hdis _ Hb). by left. }
  rewrite upd_at_ne, Hn, Ha by done. simpl.
  rewrite upd_ok by (rewrite valid_with_nodes; apply Hv; set_solver). done.
Qed.

(** The list of a segment's first page, around that page: the others' pages are elsewhere. *)
Lemma list_around s1 sg s2 w h l :
  sinv (s1 ++ sg :: s2) w → inl h sg = true → list_ok (s1 ++ sg :: s2) w h l →
  ∃ l1 l2, l = l1 ++ total s1 :: l2 ∧
    l1 ++ l2 ≡ₚ heads (inl h) 0 s1 ++ heads (inl h) (total s1 + seg_len sg) s2 ∧
    ∀ x, x ∈ l1 ++ l2 → x < total s1 ∨ total s1 + seg_len sg ≤ x.
Proof.
  intros Hi Hin [Hl _]. rewrite heads_app in Hl. simpl in Hl. rewrite Hin in Hl.
  assert (total s1 ∈ l) as (l1 & l2 & ->)%list_elem_of_split by (rewrite Hl; set_solver).
  exists l1, l2. assert (l1 ++ l2 ≡ₚ heads (inl h) 0 s1 ++ heads (inl h) (total s1 + seg_len sg) s2) as Hp.
  { apply (Permutation_cons_inv (a := total s1)).
    rewrite (Permutation_middle l1 l2). rewrite Hl. simpl. by rewrite Permutation_middle. }
  split_and!; [done|done|]. intros x. rewrite Hp. pose proof (si_ok _ _ Hi) as Ho.
  apply Forall_app in Ho as [Ho1 [Hsg Ho2]%Forall_cons].
  intros [Hx|Hx]%elem_of_app; apply heads_range in Hx; lia || done.
Qed.

(** The descriptors after [unlink]: only list neighbours change, and not their types. *)
Lemma unlinked_frame segs w h l p b y :
  sinv segs w → is_list h = true → list_ok segs w h l →
  p ∈ h :: (PPage <$> l) → b ∈ h :: (PPage <$> l) →
  page_frame w (with_nodes (unlinked p b (list_type h) (sl_nodes w)) w) y (y ∈ heads linked 0 segs).
Proof.
  intros Hi Hh Hl Hp Hb.
  assert (∀ q, q ∈ h :: (PPage <$> l) → q = PPage y → y ∈ heads (inl h) 0 segs) as Hin.
  { intros q [->|(x & -> & Hx)%list_elem_of_fmap]%elem_of_cons; [by intros ->|]. intros [= ->].
    by apply (list_elem _ _ _ _ _ Hl). }
  split_and!; simpl; [done|by rewrite unlinked_slab| |].
  - rewrite unlinked_type. case_bool_decide as E; [|done]. symmetry.
    apply (list_page_type _ _ Hi). by apply (Hin b).
  - intros Hn. unfold unlinked. rewrite !upd_at_ne; [done|intros E|intros E];
      apply Hn, (heads_mono (inl h)); eauto using inl_linked.
Qed.

Lemma sinv_unlink s1 sg s2 w h :
  sinv (s1 ++ sg :: s2) w → inl h sg = true →
  ∃ N, unlink (PPage (total s1)) w = Some (tt, with_nodes N w) ∧
    sinv (s1 ++ Hole (seg_len sg) :: s2) (with_nodes N w) ∧
    (∀ q, pg_slab (N q) = pg_slab (sl_nodes w q)) ∧
    ∀ x, total s1 ≤ x < total s1 + seg_len sg ∨ x ∉ heads linked 0 (s1 ++ sg :: s2) →
      N (PPage x) = sl_nodes w (PPage x).
Proof.
  intros Hi Hin. pose proof (si_ok _ _ Hi) as Ho. apply Forall_app in Ho as [Ho1 [Hsg Ho2]%Forall_cons].
  pose proof (inl_list _ _ Hsg Hin) as Hh. destruct (si_lists _ _ Hi h Hh) as [l Hl].
  pose proof (list_nodup _ _ Hi _ _ Hh Hl) as Hnd.
  destruct (list_around _ _ _ _ _ _ Hi Hin Hl) as (l1 & l2 & -> & Hp & Hout).
  pose proof (λ q, list_valid _ _ Hi h (l1 ++ total s1 :: l2) q) as Hv.
  assert (pg_type (sl_nodes w (PPage (total s1))) = list_type h) as Hty.
  { apply (list_page_type _ _ Hi). apply (list_elem _ _ _ _ _ Hl). set_solver. }
  rewrite fmap_app, fmap_cons in Hnd. pose proof Hl as [_ Hd]. rewrite fmap_app, fmap_cons in Hd.
  rewrite (unlink_spec w h (PPage <$> l1) (PPage (total s1)) (PPage <$> l2)), Hty;
    [|done|done|intros q Hq; apply Hv; [done|done|by rewrite fmap_app, fmap_cons]].
  set (p := before h (PPage <$> l1)). set (b := after h (PPage <$> l2)).
  assert (p ∈ h :: (PPage <$> l1 ++ l2) ∧ b ∈ h :: (PPage <$> l1 ++ l2)) as [Hpi Hbi].
  { rewrite fmap_app. pose proof (before_elem h (PPage <$> l1)). pose proof (after_elem h (PPage <$> l2)).
    subst p b. set_solver. }
  assert (p ∈ h :: (PPage <$> l1 ++ total s1 :: l2) ∧ b ∈ h :: (PPage <$> l1 ++ total s1 :: l2)) as [Hpi' Hbi'].
  { rewrite fmap_app, fmap_cons. rewrite fmap_app in Hpi, Hbi. set_solver. }
  eexists. split_and!; [done| | |].
  - apply (sinv_change s1 [sg] s2 [Hole (seg_len sg)] w); try done.
    + constructor; [by apply seg_len_pos|done].
    + intros y _. by eapply unlinked_frame.
    + intros h' Hh'. destruct (decide (h' = h)) as [->|Hne].
      * exists (l1 ++ l2). split; [|rewrite fmap_app; by eapply dll_unlink].
        rewrite Hp. rewrite (heads_app _ 0 s1). cbn [app]. simpl.
        destruct h; reflexivity.
      * destruct (si_lists _ _ Hi h' Hh') as [l' Hl']. exists l'.
        pose proof (λ q, list_disjoint _ _ Hi _ _ _ _ q Hh Hh' Hl Hl' (not_eq_sym Hne)) as Hdj.
        eapply list_ok_frame; [..|exact Hl'].
        -- rewrite !(heads_app _ 0 s1). cbn [app]. simpl.
           destruct (inl h' sg) eqn:E; [by destruct Hne; apply (inl_inj _ _ sg)|]. destruct h'; reflexivity.
        -- intros q Hq. simpl. rewrite unlinked_next, bool_decide_eq_false_2; [done|].
           intros ->. by apply (Hdj p).
        -- intros q Hq. simpl. rewrite unlinked_prev, bool_decide_eq_false_2; [done|].
           intros ->. apply (Hdj b); [done|by right].
  - intros q. apply unlinked_slab.
  - intros x [Hx|Hx]; [|by eapply (unlinked_frame _ _ _ _ _ _ x Hi Hh Hl Hpi' Hbi')].
    unfold unlinked. assert (∀ q, q ∈ h :: (PPage <$> l1 ++ l2) → PPage x ≠ q) as Hq.
    { intros q [->|(y & -> & Hy)%list_elem_of_fmap]%elem_of_cons; [by destruct h|].
      intros [= <-]. apply Hout in Hy. lia. }
    by rewrite !upd_at_ne by (by apply Hq).
Qed.

(** ** Joining a list *)

Definition outside (a n x : Z) : Prop := x < a ∨ a + n ≤ x.

(** The members of a list that a segment is not in are outside it. *)
Lemma list_outside s1 sg s2 w h l x :
  sinv (s1 ++ sg :: s2) w → inl h sg = false → list_ok (s1 ++ sg :: s2) w h l → x ∈ l →
  outside (total s1) (seg_len sg) x.
Proof.
  intros Hi Hf [Hp _]. rewrite Hp, heads_app. simpl. rewrite Hf, elem_of_app, elem_of_app.
  pose proof (si_ok _ _ Hi) as [Ho1 [_ Ho2]%Forall_cons]%Forall_app. unfold outside.
  intros [Hx|[Hx|Hx]]; [apply heads_range in Hx; [lia|done]|by apply elem_of_nil in Hx|].
  apply heads_range in Hx; [lia|done].
Qed.

Lemma page_eta p q :
  pg_slab p = pg_slab q → pg_next p = pg_next q → pg_prev p = pg_prev q → pg_type p = pg_type q → p = q.
Proof. destruct p, q; simpl. congruence. Qed.

(** The first element of a list. *)
Lemma list_first segs w h l :
  is_list h = true → list_ok segs w h l →
  ∃ q, pg_next (sl_nodes w h) = Some q ∧ q = after h (PPage <$> l) ∧ q ∈ h :: (PPage <$> l).
Proof.
  intros Hh [_ Hd]. eexists. split_and!; [by eapply dll_next|done|apply after_elem].
Qed.

Lemma sinv_push s1 n sg s2 w w' h :
  let a := total s1 in
  sinv (s1 ++ Hole n :: s2) w → same_dims w w' → seg_ok sg → seg_len sg = n → inl h sg = true →
  (∀ x, outside a n x → sl_words w' x = sl_words w x) →
  pg_next (sl_nodes w' h) = Some (PPage a) →
  pg_prev (sl_nodes w' (PPage a)) = Some h →
  pg_next (sl_nodes w' (PPage a)) = pg_next (sl_nodes w h) →
  (∀ q, q ≠ h → (∀ x, q = PPage x → outside a n x) → pg_next (sl_nodes w' q) = pg_next (sl_nodes w q)) →
  (∀ x, outside a n x →
    pg_slab (sl_nodes w' (PPage x)) = pg_slab (sl_nodes w (PPage x)) ∧
    pg_type (sl_nodes w' (PPage x)) = pg_type (sl_nodes w (PPage x)) ∧
    pg_prev (sl_nodes w' (PPage x)) =
      if bool_decide (pg_next (sl_nodes w h) = Some (PPage x)) then Some (PPage a)
      else pg_prev (sl_nodes w (PPage x))) →
  seg_nodes w' a sg → sinv (s1 ++ sg :: s2) w'.
Proof.
  intros a Hi Hd Hok Hlen Hin Hw Hh1 Ha1 Ha2 Hnx Hpx Hsn. pose proof (inl_list _ _ Hok Hin) as Hh.
  destruct (si_lists _ _ Hi h Hh) as [l Hl]. destruct (list_first _ _ _ _ Hh Hl) as (b & Hb & Hbl & Hbi).
  assert (∀ h' l' x, list_ok (s1 ++ Hole n :: s2) w h' l' → x ∈ l' → outside a n x) as Hout.
  { intros h' l' x. apply list_outside; [done|by destruct h']. }
  assert (∀ x, pg_next (sl_nodes w h) = Some (PPage x) → x ∈ l) as Hfirst.
  { intros x Hx. rewrite Hb in Hx. injection Hx as ->.
    apply elem_of_cons in Hbi as [<-|(? & [= <-] & ?)%list_elem_of_fmap]; [done|done]. }
  apply (sinv_change s1 [Hole n] s2 [sg] w w'); try done.
  - by constructor.
  - simpl. lia.
  - intros x Hx. simpl in Hx. rewrite Z.add_0_r in Hx. destruct (Hpx x Hx) as (Hs & Ht & Hp).
    split_and!; [by apply Hw|done|done|]. intros Hne. apply page_eta; [done| |rewrite Hp|done].
    + apply Hnx; [by intros <-|]. by intros ? [= <-].
    + rewrite bool_decide_eq_false_2; [done|]. intros Hf%Hfirst. apply Hne.
      apply (heads_mono (inl h)); [apply inl_linked|]. by apply (list_elem _ _ _ _ _ Hl).
  - intros h' Hh'. destruct (decide (h' = h)) as [->|Hne].
    + exists (a :: l). split.
      * destruct Hl as [Hp _]. rewrite Hp, !(heads_app _ 0 s1). cbn [app heads]. rewrite Hin, Hlen.
        replace (inl h (Hole n)) with false by (by destruct h). simpl. by rewrite Permutation_middle.
      * rewrite fmap_cons. eapply dll_push; [..|exact (proj2 Hl)|done|done|done| |].
        -- intros [<-|(x & [= <-] & Hx)%list_elem_of_fmap]%elem_of_cons; [done|].
           apply (Hout _ _ _ Hl) in Hx. unfold outside in Hx. apply seg_len_pos in Hok. lia.
        -- by eapply list_nodup.
        -- intros q (x & -> & Hx)%list_elem_of_fmap. apply Hnx; [by intros <-|]. intros ? [= <-]. by eapply Hout.
        -- intros q (x & -> & Hx)%list_elem_of_fmap. destruct (Hpx x) as (_ & _ & ->); [by eapply Hout|].
           rewrite <- Hbl, Hb. destruct (decide (b = PPage x)) as [E|E]; [by rewrite !bool_decide_eq_true_2 by congruence|]. by rewrite !bool_decide_eq_false_2 by congruence.
    + destruct (si_lists _ _ Hi h' Hh') as [l' Hl']. exists l'.
      pose proof (λ q, list_disjoint _ _ Hi _ _ _ _ q Hh Hh' Hl Hl' (not_eq_sym Hne)) as Hdj.
      eapply list_ok_frame; [..|exact Hl'].
      * rewrite !(heads_app _ 0 s1). cbn [app heads]. rewrite Hlen.
        replace (inl h' (Hole n)) with false by (by destruct h').
        destruct (inl h' sg) eqn:E; [by destruct Hne; apply (inl_inj _ _ sg)|]. reflexivity.
      * intros q Hq. apply Hnx; [intros ->; by apply (Hdj h); [left|]|]. intros x ->.
        apply elem_of_cons in Hq as [Hq|(? & [= <-] & Hx)%list_elem_of_fmap]; [by subst h'|]. by eapply Hout.
      * intros q (x & -> & Hx)%list_elem_of_fmap. destruct (Hpx x (Hout _ _ _ Hl' Hx)) as (_ & _ & Hp). rewrite Hp.
        rewrite bool_decide_eq_false_2; [done|]. intros Hf%Hfirst. apply (Hdj (PPage x)).
        -- right. by apply list_elem_of_fmap_2.
        -- right. by apply list_elem_of_fmap_2.
Qed.
