(* ===== verification/SlabPages.v ===== *)
(** The page level of the slab allocator (Slab.v): taking runs of pages from the free list and giving
    them back, joined with their free neighbours, keeps the invariant of SlabInv.v. *)

From S2P Require Import Prelude Slab SlabLists SlabInv.

(** ** Segments that are rewritten *)

Section hole.
Context (s1 s2 : list seg) (w : spool).

(** A segment in no list is opened for writing. *)
Lemma sinv_open sg :
  sinv (s1 ++ sg :: s2) w → linked sg = false → sinv (s1 ++ Hole (seg_len sg) :: s2) w.
Proof using.
  intros Hi Hl. pose proof (si_ok _ _ Hi) as [_ [Hok _]%Forall_cons]%Forall_app.
  apply (sinv_local s1 sg (Hole (seg_len sg)) s2 w w); try done.
  - by apply seg_len_pos.
  - intros h. destruct (inl h sg) eqn:E; [|by destruct h]. apply inl_linked in E. congruence.
Qed.

(** Writes to the pages of a hole. *)
Lemma sinv_hole_write n w' :
  sinv (s1 ++ Hole n :: s2) w → same_dims w w' →
  (∀ q, (∀ x, q = PPage x → outside (total s1) n x) → sl_nodes w' q = sl_nodes w q) →
  (∀ x, outside (total s1) n x → sl_words w' x = sl_words w x) →
  sinv (s1 ++ Hole n :: s2) w'.
Proof using.
  intros Hi Hd Hn Hw. pose proof (si_ok _ _ Hi) as [_ [Hok _]%Forall_cons]%Forall_app.
  by apply (sinv_local s1 (Hole n) (Hole n) s2 w w').
Qed.

(** The pages of a hole become a segment in no list. *)
Lemma sinv_fill n sg :
  sinv (s1 ++ Hole n :: s2) w → seg_ok sg → seg_len sg = n → linked sg = false →
  seg_nodes w (total s1) sg → sinv (s1 ++ sg :: s2) w.
Proof using.
  intros Hi Hok Hlen Hl Hsn. apply (sinv_local s1 (Hole n) sg s2 w w); try done.
  intros h. destruct (inl h sg) eqn:E; [|by destruct h]. apply inl_linked in E. congruence.
Qed.

Lemma sinv_merge m n :
  sinv (s1 ++ Hole m :: Hole n :: s2) w → sinv (s1 ++ Hole (m + n) :: s2) w.
Proof using.
  intros Hi. pose proof (si_ok _ _ Hi) as [_ [Hm [Hn _]%Forall_cons]%Forall_cons]%Forall_app.
  simpl in Hm, Hn. apply (sinv_change s1 [Hole m; Hole n] s2 [Hole (m + n)] w w); try done.
  - constructor; [simpl; lia|done].
  - simpl. lia.
  - intros h Hh. destruct (si_lists _ _ Hi h Hh) as [l Hl]. exists l.
    eapply list_ok_frame; [..|exact Hl]; try done.
    rewrite !(heads_app _ 0 s1). cbn [app heads seg_len].
    replace (inl h (Hole (m + n))) with false by (by destruct h).
    replace (inl h (Hole m)) with false by (by destruct h).
    replace (inl h (Hole n)) with false by (by destruct h).
    simpl. by rewrite Z.add_assoc.
Qed.
End hole.

(** ** Taking pages *)

Lemma fill_pages_spec v m j w :
  (∀ x, j ≤ x < j + Z.of_nat m → valid_ptr w (PPage x) = true) →
  ∃ N, fill_pages v m (PPage j) w = Some (tt, with_nodes N w) ∧
    (∀ x, j ≤ x < j + Z.of_nat m → N (PPage x) = v) ∧
    ∀ q, (∀ x, q = PPage x → outside j (Z.of_nat m) x) → N q = sl_nodes w q.
Proof.
  revert j w. induction m as [|m IH]; intros j w Hv; cbn [fill_pages].
  - exists (sl_nodes w). split_and!; [by destruct w|lia|done].
  - unfold m_bind. rewrite upd_ok by (apply Hv; lia).
    destruct (IH (j + 1) (with_nodes (upd_at (PPage j) (λ _, v) (sl_nodes w)) w)) as (N & He & Hin & Hout).
    { intros x Hx. apply (Hv x). lia. }
    exists N. simpl. rewrite He. split_and!; [done|..].
    + intros x Hx. destruct (decide (x = j)) as [->|Hne]; [|apply Hin; lia].
      rewrite Hout by (intros ? [= <-]; unfold outside; lia). simpl. by rewrite upd_at_eq.
    + intros q Hq. rewrite Hout by (intros x ->; specialize (Hq x eq_refl); unfold outside in *; lia).
      simpl. apply upd_at_ne. intros ->. specialize (Hq j eq_refl). unfold outside in Hq. lia.
Qed.

(** What [split_run] leaves: [r] takes the place of [a] between [p] and [b]; [t] is the last page. *)
Definition split_nodes (a r p b t : pgptr) (m : Z) (N : nodes) : nodes :=
  upd_at b (set_prev (Some r) 0)
    (upd_at p (set_next (Some r))
       (upd_at r (set_prev (Some p) (pg_type (N a)))
          (upd_at r (set_next (Some b))
             (upd_at r (set_slab m) (upd_at t (set_prev (Some r) 0) N))))).

Section split_nodes.
Context (a r p b t : pgptr) (m : Z) (N : nodes) (Hpr : p ≠ r).
Lemma split_next q :
  pg_next (split_nodes a r p b t m N q) =
    if bool_decide (q = p) then Some r else if bool_decide (q = r) then Some b else pg_next (N q).
Proof using Hpr. unfold split_nodes, upd_at. by repeat case_bool_decide. Qed.
Lemma split_prev q :
  pg_prev (split_nodes a r p b t m N q) =
    if bool_decide (q = b) then Some r else if bool_decide (q = r) then Some p
    else if bool_decide (q = t) then Some r else pg_prev (N q).
Proof using. unfold split_nodes, upd_at. by repeat case_bool_decide. Qed.
Lemma split_slab q :
  pg_slab (split_nodes a r p b t m N q) = if bool_decide (q = r) then m else pg_slab (N q).
Proof using. unfold split_nodes, upd_at. by repeat case_bool_decide. Qed.
Lemma split_type q :
  pg_type (split_nodes a r p b t m N q) =
    if bool_decide (q = b) then 0 else if bool_decide (q = r) then pg_type (N a)
    else if bool_decide (q = t) then 0 else pg_type (N q).
Proof using. unfold split_nodes, upd_at. by repeat case_bool_decide. Qed.
End split_nodes.

Lemma split_run_eq w x n k p b :
  let r := PPage (x + k) in let t := PPage (x + (n - 1)) in
  1 ≤ k < n → pg_slab (sl_nodes w (PPage x)) = n →
  pg_prev (sl_nodes w (PPage x)) = Some p → pg_next (sl_nodes w (PPage x)) = Some b →
  p ≠ PPage x → p ≠ r →
  (∀ y, x ≤ y < x + n → valid_ptr w (PPage y) = true) → valid_ptr w p = true → valid_ptr w b = true →
  split_run (PPage x) k w = Some (tt, with_nodes (split_nodes (PPage x) r p b t (n - k) (sl_nodes w)) w).
Proof.
  intros r t Hk Hs Hp Hb Hpx Hpr Hv Hvp Hvb. unfold split_run, m_bind.
  rewrite deref_ok by (apply Hv; lia). rewrite Hs. cbn [page_at]. fold t r.
  rewrite upd_ok by (apply Hv; lia). rewrite deref_ok by (apply (Hv x); lia). cbn [sl_nodes with_nodes].
  rewrite upd_at_ne by (subst t; intros [=]; lia). rewrite Hs, Hp, Hb.
  do 3 (rewrite upd_ok by (apply (Hv (x + k)); lia)). cbn [sl_nodes with_nodes upd_opt].
  rewrite upd_ok by done. rewrite deref_ok by (apply (Hv x); lia). cbn [sl_nodes with_nodes].
  rewrite (upd_at_ne p), !(upd_at_ne r), (upd_at_ne t), Hb by (subst r t; intros [=]; congruence || lia).
  cbn [upd_opt]. rewrite upd_ok by done. done.
Qed.
(** The first page of a segment in the list [h], with its neighbours. *)
Lemma head_links s1 sg s2 w h :
  sinv (s1 ++ sg :: s2) w → inl h sg = true →
  ∃ l1 l2, let p := before h (PPage <$> l1) in let b := after h (PPage <$> l2) in
    list_ok (s1 ++ sg :: s2) w h (l1 ++ total s1 :: l2) ∧
    l1 ++ l2 ≡ₚ heads (inl h) 0 s1 ++ heads (inl h) (total s1 + seg_len sg) s2 ∧
    pg_prev (sl_nodes w (PPage (total s1))) = Some p ∧ pg_next (sl_nodes w (PPage (total s1))) = Some b ∧
    p ∈ h :: (PPage <$> l1 ++ l2) ∧ b ∈ h :: (PPage <$> l1 ++ l2) ∧
    ∀ x, PPage x ∈ h :: (PPage <$> l1 ++ l2) → outside (total s1) (seg_len sg) x.
Proof.
  intros Hi Hin. pose proof (si_ok _ _ Hi) as [_ [Hsg _]%Forall_cons]%Forall_app.
  pose proof (inl_list _ _ Hsg Hin) as Hh. destruct (si_lists _ _ Hi h Hh) as [l Hl].
  destruct (list_around _ _ _ _ _ _ Hi Hin Hl) as (l1 & l2 & -> & Hp & Hout). exists l1, l2. simpl.
  pose proof (proj2 Hl) as Hd. rewrite fmap_app, fmap_cons in Hd.
  apply dll_split in Hd as (_ & Ha & Hn%dll_next).
  pose proof (before_elem h (PPage <$> l1)). pose proof (after_elem h (PPage <$> l2)).
  split_and!; try done; [rewrite fmap_app; set_solver..|].
  intros x [<-|(y & [= <-] & Hy)%list_elem_of_fmap]%elem_of_cons; [done|by apply Hout].
Qed.

Section split.
Context (s1 : list seg) (n : Z) (s2 : list seg) (k : Z) (w : spool) (l1 l2 : list Z).
Let a := total s1.
Let r := PPage (a + k).
Let t := PPage (a + (n - 1)).
Let p := before PFree (PPage <$> l1).
Let b := after PFree (PPage <$> l2).
Let w' := with_nodes (split_nodes (PPage a) r p b t (n - k) (sl_nodes w)) w.
Context (Hi : sinv (s1 ++ Free n :: s2) w) (Hk : 1 ≤ k < n).
Context (Hl : list_ok (s1 ++ Free n :: s2) w PFree (l1 ++ a :: l2)).
Context (Hperm : l1 ++ l2 ≡ₚ heads (inl PFree) 0 s1 ++ heads (inl PFree) (a + n) s2).
Context (Hpi : p ∈ PFree :: (PPage <$> l1 ++ l2)) (Hbi : b ∈ PFree :: (PPage <$> l1 ++ l2)).
Context (Hout : ∀ x, PPage x ∈ PFree :: (PPage <$> l1 ++ l2) → outside a n x).

Lemma split_ne x : a ≤ x < a + n → p ≠ PPage x ∧ b ≠ PPage x.
Proof using Hout Hpi Hbi.
  intros Hx. split; intros E; rewrite E in *; [apply Hout in Hpi|apply Hout in Hbi]; unfold outside in *; lia.
Qed.

Lemma split_sub q : q ∈ PFree :: (PPage <$> l1 ++ l2) → q ∈ PFree :: (PPage <$> l1 ++ a :: l2).
Proof using. rewrite !fmap_app, fmap_cons, !elem_of_cons, !elem_of_app, elem_of_cons. clear. tauto. Qed.

Lemma split_frame y : outside a n y → page_frame w w' y (y ∈ heads linked 0 (s1 ++ Free n :: s2)).
Proof using All.
  unfold outside. intros Hy. assert (PPage y ≠ r ∧ PPage y ≠ t) as [Hyr Hyt].
  { subst r t. split; intros [=]; lia. }
  assert (∀ q, q ∈ PFree :: (PPage <$> l1 ++ l2) → PPage y = q → y ∈ heads (inl PFree) 0 (s1 ++ Free n :: s2)) as Hy'.
  { intros q Hq <-. apply split_sub in Hq as [?|(? & [= <-] & ?)%list_elem_of_fmap]%elem_of_cons; [done|].
    by apply (list_elem _ _ _ _ _ Hl). }
  unfold w'. split_and!; cbn [sl_nodes sl_words with_nodes]; [done|by rewrite split_slab, bool_decide_eq_false_2| |].
  - rewrite split_type, !(bool_decide_eq_false_2 _ Hyr), !(bool_decide_eq_false_2 _ Hyt).
    case_bool_decide as E; [|done]. symmetry. apply (list_page_type _ _ Hi PFree). by apply (Hy' b).
  - intros Hnh. assert (PPage y ≠ p ∧ PPage y ≠ b) as [Hyp Hyb].
    { split; intros E; apply Hnh, (heads_mono (inl PFree)); eauto using inl_linked. }
    unfold split_nodes. by rewrite !upd_at_ne by done.
Qed.

Lemma split_parts : nodes_ok w' a [Hole k; Free (n - k)].
Proof using All.
  pose proof (si_nodes _ _ Hi) as Hn. apply nodes_ok_app in Hn as [_ [(Hs & Ht & Hte) _]].
  rewrite Z.add_0_l in Hs, Ht, Hte. fold a in Hs, Ht, Hte. destruct (Hte ltac:(lia)) as (He1 & He2 & He3 & _).
  split; [done|]. split; [|done]. simpl. fold r.
  assert (p ≠ r ∧ b ≠ r ∧ p ≠ t ∧ b ≠ t) as (Hpr & Hbr & Hpt & Hbt).
  { split_and!; apply split_ne; lia. }
  rewrite split_slab, split_type, !(bool_decide_eq_true_2 (r = r)), (bool_decide_eq_false_2 (r = b)) by done.
  split_and!; [done|by rewrite Ht|]. intros Hnk. replace (a + k + (n - k) - 1) with (a + (n - 1)) by lia. fold t.
  assert (t ≠ r) as Htr by (subst t r; intros [=]; lia).
  rewrite split_slab, split_next, split_type, split_prev by done.
  rewrite !(bool_decide_eq_false_2 (t = r)), !(bool_decide_eq_false_2 (t = p)), !(bool_decide_eq_false_2 (t = b)) by done.
  rewrite !bool_decide_eq_true_2 by done. replace (a + n - 1) with (a + (n - 1)) in * by lia. by split_and!.
Qed.

Lemma split_free_list : list_ok (s1 ++ Hole k :: Free (n - k) :: s2) w' PFree (l1 ++ (a + k) :: l2).
Proof using All.
  split.
  - rewrite <- Permutation_middle, Hperm, heads_app. simpl. rewrite Z.add_0_l. fold a.
    replace (a + k + (n - k)) with (a + n) by lia. rewrite Permutation_middle. reflexivity.
  - pose proof (list_nodup _ _ Hi PFree _ eq_refl Hl) as Hnd. pose proof (proj2 Hl) as Hd.
    rewrite fmap_app, fmap_cons in Hnd, Hd |- *. assert (p ≠ r) as Hpr by (apply split_ne; lia).
    assert (∀ q, q ∈ (PPage <$> l1) ++ (PPage <$> l2) → q ≠ r ∧ q ≠ t) as Hq.
    { rewrite <- fmap_app. intros q (x & -> & Hx)%list_elem_of_fmap.
      assert (outside a n x) as Ho by (apply Hout; right; by apply list_elem_of_fmap_2).
      unfold outside in Ho. subst r t. split; intros [=]; lia. }
    eapply (dll_replace (sl_nodes w)); [exact Hnd| |exact Hd|..]; fold p b r; simpl.
    + intros Hr. change (PFree :: (PPage <$> l1) ++ PPage a :: (PPage <$> l2))
        with (PFree :: ((PPage <$> l1) ++ PPage a :: (PPage <$> l2))) in Hr.
      apply elem_of_cons in Hr as [?|Hr]; [done|]. rewrite elem_of_app, elem_of_cons in Hr.
      destruct Hr as [Hr|[[= Hr]|Hr]]; [|lia|]; by destruct (Hq r) as [[] _]; [apply elem_of_app; auto|].
    + by rewrite split_next, bool_decide_eq_true_2.
    + assert (b ≠ r) by (apply split_ne; lia).
      rewrite split_prev, bool_decide_eq_false_2, bool_decide_eq_true_2 by done. done.
    + rewrite split_next, bool_decide_eq_false_2, bool_decide_eq_true_2 by done. done.
    + intros q Hin Hqp. rewrite split_next, !bool_decide_eq_false_2 by
        (done || (apply elem_of_cons in Hin as [->|?]; [done|by apply Hq])). done.
    + intros q Hin. rewrite split_prev. case_bool_decide; [done|].
      by rewrite !bool_decide_eq_false_2 by (by apply Hq).
Qed.

Lemma split_other_list h l :
  is_list h = true → h ≠ PFree → list_ok (s1 ++ Free n :: s2) w h l →
  list_ok (s1 ++ Hole k :: Free (n - k) :: s2) w' h l.
Proof using All.
  intros Hh Hne Hl'. pose proof (λ q, list_disjoint _ _ Hi PFree _ _ _ q eq_refl Hh Hl Hl' (not_eq_sym Hne)) as Hdj.
  assert (∀ q, q ∈ h :: (PPage <$> l) → q ≠ p ∧ q ≠ b ∧ q ≠ r ∧ q ≠ t) as Hq.
  { intros q Hq. split_and!; try (intros ->; eapply Hdj; [|exact Hq]; by apply split_sub).
    all: apply elem_of_cons in Hq as [->|(x & -> & Hx)%list_elem_of_fmap]; [by destruct h|].
    all: pose proof (list_outside s1 (Free n) s2 w h l x Hi ltac:(by destruct h) Hl' Hx) as Ho.
    all: unfold outside in Ho; fold a in Ho; simpl in Ho; subst r t; intros [=]; lia. }
  assert (p ≠ r) as Hpr by (apply split_ne; lia). eapply list_ok_frame; [..|exact Hl'].
  - rewrite !(heads_app _ 0 s1). simpl. rewrite Z.add_0_l. destruct h; try done; simpl;
      replace (total s1 + k + (n - k)) with (total s1 + n) by lia; reflexivity.
  - intros q (? & ? & ? & ?)%Hq. simpl. by rewrite split_next, !bool_decide_eq_false_2 by done.
  - intros q Hin. destruct (Hq q) as (? & ? & ? & ?); [by right|]. simpl.
    by rewrite split_prev, !bool_decide_eq_false_2 by done.
Qed.
End split.

Lemma split_run_spec s1 n s2 k w :
  sinv (s1 ++ Free n :: s2) w → 1 ≤ k < n →
  ∃ N, split_run (PPage (total s1)) k w = Some (tt, with_nodes N w) ∧
    sinv (s1 ++ Hole k :: Free (n - k) :: s2) (with_nodes N w).
Proof.
  intros Hi Hk. pose proof (si_ok _ _ Hi) as [Ho1 [_ Ho2]%Forall_cons]%Forall_app.
  destruct (head_links _ _ _ _ PFree Hi eq_refl) as (l1 & l2 & Hl & Hperm & Hp & Hb & Hpi & Hbi & Hout).
  pose proof (split_ne s1 n l1 l2 Hpi Hbi Hout) as Hne. pose proof (total_nonneg _ Ho1).
  pose proof (total_nonneg _ Ho2). pose proof (si_total _ _ Hi) as Htot. rewrite total_app in Htot. simpl in Htot.
  pose proof (si_nodes _ _ Hi) as Hn. apply nodes_ok_app in Hn as [_ [(Hs & _) _]]. rewrite Z.add_0_l in Hs.
  pose proof (λ q Hq, list_valid _ _ Hi PFree _ q eq_refl Hl (split_sub s1 l1 l2 q Hq)) as Hv.
  eexists. split.
  - eapply (split_run_eq w _ n k); try done; [apply Hne; lia|apply Hne; lia| |by apply Hv..].
    intros y Hy. apply valid_page. lia.
  - apply (sinv_change s1 [Free n] s2 [Hole k; Free (n - k)] w); try done.
    + repeat constructor; simpl; lia.
    + simpl. lia.
    + intros y Hy. apply split_frame; try done. simpl in Hy. unfold outside. lia.
    + by eapply split_parts.
    + intros h Hh. destruct (decide (h = PFree)) as [->|Hhne]; [eexists; by apply split_free_list|].
      destruct (si_lists _ _ Hi h Hh) as [l Hl']. exists l. by eapply split_other_list.
Qed.
(** The run that is left. *)
Definition rest (m : Z) : list seg := if m =? 0 then [] else [Free m].

(** The first [k] pages of a run leave the free list. *)
Lemma detach_spec s1 n s2 k w :
  sinv (s1 ++ Free n :: s2) w → 1 ≤ k ≤ n →
  ∃ N, (if k <? n then split_run (PPage (total s1)) k else unlink (PPage (total s1))) w
         = Some (tt, with_nodes N w) ∧
    sinv (s1 ++ Hole k :: rest (n - k) ++ s2) (with_nodes N w).
Proof.
  intros Hi Hk. unfold rest. destruct (Z.ltb_spec k n), (Z.eqb_spec (n - k) 0); try lia.
  - apply split_run_spec; [done|lia].
  - assert (k = n) as -> by lia. destruct (sinv_unlink _ _ _ _ PFree Hi eq_refl) as (N & ? & ? & _). by exists N.
Qed.

Lemma take_pages_spec s1 n s2 k w :
  sinv (s1 ++ Free n :: s2) w → 1 ≤ k ≤ n →
  ∃ w', take_pages (PPage (total s1)) k w = Some (tt, w') ∧ same_dims w w' ∧
    sinv (s1 ++ Busy k :: rest (n - k) ++ s2) w' ∧ sl_pfree w' = u32 (sl_pfree w - k).
Proof.
  intros Hi Hk. set (a := total s1). unfold take_pages, m_bind.
  pose proof (si_ok _ _ Hi) as [Ho1 [_ Ho2]%Forall_cons]%Forall_app. pose proof (total_nonneg _ Ho1).
  pose proof (total_nonneg _ Ho2). pose proof (si_total _ _ Hi) as Htot. rewrite total_app in Htot. simpl in Htot.
  assert (∀ y, a ≤ y < a + n → valid_ptr w (PPage y) = true) as Hv by (intros; apply valid_page; lia).
  rewrite deref_ok by (apply Hv; lia).
  pose proof (si_nodes _ _ Hi) as Hn. apply nodes_ok_app in Hn as [_ [(Hs & _) _]].
  rewrite Z.add_0_l in Hs. fold a in Hs. rewrite Hs.
  destruct (detach_spec _ _ _ k _ Hi Hk) as (N & He & Hi1). fold a in He. rewrite He. fold a.
  rewrite upd_ok by (apply (Hv a); lia). unfold m_modify, mark_busy. cbn [page_at]. fold busy_page.
  match goal with |- context [fill_pages _ _ _ ?w2] => set (w2' := w2) end.
  destruct (fill_pages_spec busy_page (Z.to_nat (k - 1)) (a + 1) w2') as (N' & -> & Hbusy & Hother).
  { intros y Hy. apply (Hv y). lia. }
  rewrite Z2Nat.id in Hbusy, Hother by lia.
  eexists. split_and!; [done|by split| |done]. apply (sinv_fill _ _ _ k); try done; [|simpl; lia|].
  - eapply sinv_hole_write; [exact Hi1|by split| |done]. fold a. intros q Hq. simpl.
    rewrite Hother; [subst w2'; simpl; apply upd_at_ne|]; intros x; intros; subst; try (specialize (Hq x eq_refl)).
    + specialize (Hq a eq_refl). unfold outside in Hq. lia.
    + unfold outside in *. lia.
  - split.
    + simpl. fold a. rewrite Hother by (intros ? [= <-]; unfold outside; lia). subst w2'. simpl. by rewrite upd_at_eq.
    + intros y Hy. simpl. apply Hbusy. fold a in Hy. lia.
Qed.
(** The search along the free list ends within its length: it takes the first run that is long
    enough. *)
Lemma alloc_loop_spec k w l prev fuel :
  dll (sl_nodes w) PFree prev (PPage <$> l) → (∀ x, x ∈ l → valid_ptr w (PPage x) = true) →
  (length l ≤ fuel)%nat →
  let run := alloc_pages_loop fuel (pg_next (sl_nodes w prev)) k w in
  (run = Some (None, w) ∧ ∀ x, x ∈ l → pg_slab (sl_nodes w (PPage x)) < k) ∨
  ∃ x, x ∈ l ∧ k ≤ pg_slab (sl_nodes w (PPage x)) ∧
    run = (take_pages (PPage x) k ;;; m_ret (Some (PPage x))) w.
Proof.
  revert prev fuel. induction l as [|x l IH]; intros prev fuel Hd Hv Hf; simpl in Hd.
  - left. rewrite Hd. split; [by destruct fuel|by intros ? ?%elem_of_nil].
  - destruct Hd as (-> & _ & Hd). destruct fuel as [|fuel]; simpl in Hf; [lia|]. simpl.
    unfold m_bind at 1 3. rewrite deref_ok by (apply Hv; by left). destruct (Z.leb_spec k (pg_slab (sl_nodes w (PPage x)))).
    + right. exists x. split_and!; [by left|done|done].
    + destruct (IH (PPage x) fuel) as [[-> Hx]|(y & Hy & Hk & ->)]; [done|intros; apply Hv; by right|lia|..].
      * left. split; [done|]. intros y [->|?]%elem_of_cons; auto.
      * right. exists y. split_and!; [by right|done|done].
Qed.

Lemma heads_length P x segs : Forall seg_ok segs → Z.of_nat (length (heads P x segs)) ≤ total segs.
Proof.
  intros Hok. revert x. induction Hok as [|sg segs Hsg _ IH]; intros x; simpl; [lia|].
  apply seg_len_pos in Hsg. specialize (IH (x + seg_len sg)). rewrite length_app.
  destruct (P sg); simpl; lia.
Qed.

(** There is no run of [k] free pages. *)
Definition no_run (k : Z) (segs : list seg) : Prop :=
  Forall (λ sg, match sg with Free n => n < k | _ => True end) segs.

Lemma alloc_pages_spec segs k w :
  sinv segs w → Forall settled segs → 1 ≤ k →
  (ngx_slab_alloc_pages k w = Some (None, w) ∧ no_run k segs) ∨
  ∃ s1 n s2 w', segs = s1 ++ Free n :: s2 ∧ k ≤ n ∧
    ngx_slab_alloc_pages k w = Some (Some (PPage (total s1)), w') ∧ same_dims w w' ∧
    sinv (s1 ++ Busy k :: rest (n - k) ++ s2) w' ∧ sl_pfree w' = u32 (sl_pfree w - k).
Proof.
  intros Hi Hset Hk. destruct (si_lists _ _ Hi PFree eq_refl) as [l Hl]. pose proof (proj2 Hl) as Hd.
  assert (∀ s1 n s2, segs = s1 ++ Free n :: s2 → pg_slab (sl_nodes w (PPage (total s1))) = n) as Hslab.
  { intros s1 n s2 ->. pose proof (si_nodes _ _ Hi) as Hn. by apply nodes_ok_app in Hn as [_ [(Hs & _) _]]. }
  assert (∀ x, x ∈ l ↔ ∃ s1 n s2, segs = s1 ++ Free n :: s2 ∧ x = total s1) as Hin.
  { intros x. rewrite (list_elem _ _ _ _ _ Hl), heads_elem. split.
    - intros (s1 & sg & s2 & -> & HP & ->). apply Forall_app in Hset as [_ [Hset _]%Forall_cons].
      destruct sg; try done. by eexists _, _, _.
    - intros (s1 & n & s2 & -> & ->). by exists s1, (Free n), s2. }
  replace (ngx_slab_alloc_pages k w)
    with (alloc_pages_loop (S (Z.to_nat (sl_npages w))) (pg_next (sl_nodes w PFree)) k w)
    by (unfold ngx_slab_alloc_pages, m_bind; by rewrite deref_ok).
  destruct (alloc_loop_spec k w l PFree (S (Z.to_nat (sl_npages w))) Hd) as [[-> Hno]|(x & Hx & Hkx & ->)].
  - intros x Hx. apply (list_valid _ _ Hi PFree l); [done|done|]. right. by apply list_elem_of_fmap_2.
  - rewrite (Permutation_length (proj1 Hl)). pose proof (heads_length (inl PFree) 0 segs (si_ok _ _ Hi)) as Hle.
    rewrite (si_total _ _ Hi) in Hle. lia.
  - left. split; [done|]. apply Forall_forall. intros sg (s1 & s2 & Hs)%list_elem_of_split.
    destruct sg as [n| | | |]; try done. rewrite <- (Hslab _ _ _ Hs). apply Hno, Hin. by eexists _, _, _.
  - right. apply Hin in Hx as (s1 & n & s2 & -> & ->). rewrite (Hslab s1 n s2) in Hkx by done.
    destruct (take_pages_spec _ _ _ k _ Hi ltac:(lia)) as (w' & He & Hd' & Hi' & Hp).
    exists s1, n, s2, w'. unfold m_bind. rewrite He. by split_and!.
Qed.
(** ** Giving pages back *)

(** A run that is being put together: its length is in its first descriptor, its last page is
    marked free. *)
Definition free_mark (p : spage) : Prop := pg_slab p = 0 ∧ pg_next p = None ∧ pg_type p = SLAB_PAGE.
Definition loose (w : spool) (a n : Z) : Prop :=
  pg_slab (sl_nodes w (PPage a)) = n ∧ (1 < n → free_mark (sl_nodes w (PPage (a + n - 1)))).

Lemma hole_not_head s1 n s2 w x :
  sinv (s1 ++ Hole n :: s2) w → total s1 ≤ x < total s1 + n → x ∉ heads linked 0 (s1 ++ Hole n :: s2).
Proof.
  intros Hi Hx. pose proof (si_ok _ _ Hi) as [Ho1 [_ Ho2]%Forall_cons]%Forall_app.
  rewrite heads_app. simpl. rewrite elem_of_app. intros [Hh|Hh]; apply heads_range in Hh; lia || done.
Qed.

Lemma page_valid s1 sg s2 w x :
  sinv (s1 ++ sg :: s2) w → total s1 ≤ x < total s1 + seg_len sg → valid_ptr w (PPage x) = true.
Proof.
  intros Hi Hx. pose proof (si_ok _ _ Hi) as [Ho1 [_ Ho2]%Forall_cons]%Forall_app.
  apply total_nonneg in Ho1, Ho2. pose proof (si_total _ _ Hi) as Ht. rewrite total_app in Ht. simpl in Ht.
  apply valid_page. lia.
Qed.

Lemma seg_nodes_at s1 sg s2 w : sinv (s1 ++ sg :: s2) w → seg_nodes w (total s1) sg.
Proof. intros Hi. pose proof (si_nodes _ _ Hi) as Hn. by apply nodes_ok_app in Hn as [_ [? _]]. Qed.

(** The tests of the joins: is a page free, and the first of its run? *)
Lemma head_test s1 sg s2 w :
  sinv (s1 ++ sg :: s2) w → settled sg →
  (pg_type (sl_nodes w (PPage (total s1))) =? SLAB_PAGE) &&
    bool_decide (pg_next (sl_nodes w (PPage (total s1))) ≠ None) =
  match sg with Free _ => true | _ => false end.
Proof.
  intros Hi Hs. pose proof (seg_nodes_at _ _ _ _ Hi) as Hn. destruct sg as [n|n|s u|s|n]; try done; simpl in Hn.
  - destruct Hn as (_ & -> & _). destruct (head_links _ _ _ _ PFree Hi eq_refl) as (? & ? & _ & _ & _ & -> & _).
    by rewrite bool_decide_eq_true_2.
  - by destruct Hn as [-> _].
  - destruct Hn as (-> & _). unfold page_type. by repeat case_match.
Qed.

Lemma absorb_next s1 n b s2 w (m : Z) :
  let a := total s1 in let join := PPage (a + n) in
  sinv (s1 ++ Hole n :: Free b :: s2) w → loose w a n →
  ∃ w', (upd (PPage a) (λ p, set_slab (pg_slab p + b) p) ;;; unlink join ;;;
         upd join (λ _, SPage SLAB_PAGE_FREE None None SLAB_PAGE) ;;; m_ret (m + b)) w = Some (m + b, w') ∧
    same_dims w w' ∧ sl_pfree w' = sl_pfree w ∧
    sinv (s1 ++ Hole (n + b) :: s2) w' ∧ loose w' a (n + b).
Proof.
  intros a join Hi [Hs Ht]. pose proof (si_ok _ _ Hi) as [_ [Hn [Hb _]%Forall_cons]%Forall_cons]%Forall_app.
  simpl in Hn, Hb. assert (total (s1 ++ [Hole n]) = a + n) as Ha by (rewrite total_app; simpl; lia).
  unfold m_bind. rewrite upd_ok by (apply (page_valid _ _ _ _ _ Hi); simpl; lia).
  set (w1 := with_nodes _ w). assert (sinv (s1 ++ Hole n :: Free b :: s2) w1) as Hi1.
  { eapply sinv_hole_write; [exact Hi|by split| |done]. intros q Hq. simpl. apply upd_at_ne. intros ->.
    specialize (Hq a eq_refl). unfold outside in Hq. lia. }
  assert (sinv ((s1 ++ [Hole n]) ++ Free b :: s2) w1) as Hi1' by (by rewrite <- app_assoc).
  destruct (sinv_unlink _ _ _ _ PFree Hi1' eq_refl) as (N & He & Hi2 & Hsl & Hsame). rewrite Ha in He, Hsame.
  subst join. rewrite He. cbn [seg_len] in Hi2, Hsame.
  rewrite upd_ok by (rewrite <- Ha; apply (page_valid _ _ _ _ _ Hi2); simpl; lia).
  eexists. split_and!; [done|by split|done| |].
  - apply sinv_merge. change (Hole n :: Hole b :: s2) with ([Hole n] ++ Hole b :: s2). rewrite app_assoc.
    eapply sinv_hole_write; [exact Hi2|by split| |done]. rewrite Ha. intros q Hq. simpl. apply upd_at_ne.
    intros ->. specialize (Hq (a + n) eq_refl). unfold outside in Hq. lia.
  - split; simpl.
    + rewrite upd_at_ne by (intros [=]; lia). rewrite Hsl. subst w1. simpl. rewrite upd_at_eq. simpl. lia.
    + intros _. replace (a + (n + b) - 1) with (a + n + b - 1) by lia.
      destruct (decide (b = 1)) as [->|Hb1].
      * replace (a + n + 1 - 1) with (a + n) by lia. by rewrite upd_at_eq.
      * rewrite upd_at_ne by (intros [=]; lia). rewrite Hsame by (left; lia). subst w1. simpl.
        rewrite upd_at_ne by (intros [=]; lia).
        pose proof (seg_nodes_at _ _ _ _ Hi1') as (_ & _ & Hbt). rewrite Ha in Hbt. simpl in Hbt.
        rewrite !upd_at_ne in Hbt by (intros [=]; lia). destruct Hbt as (? & ? & ? & _); [lia|done].
Qed.

(** The free run at the beginning of a sequence, and the one at its end. *)
Definition lead_free (segs : list seg) : Z := match segs with Free n :: _ => n | _ => 0 end.
Definition trail_free (segs : list seg) : Z := match last segs with Some (Free n) => n | _ => 0 end.

Lemma join_next_spec s1 n s2 w m :
  sinv (s1 ++ Hole n :: s2) w → loose w (total s1) n → Forall settled s2 →
  ∃ w' c s2', join_next (PPage (total s1)) m w = Some (m + c, w') ∧ same_dims w w' ∧ sl_pfree w' = sl_pfree w ∧
    sinv (s1 ++ Hole (n + c) :: s2') w' ∧ loose w' (total s1) (n + c) ∧ s2 = rest c ++ s2' ∧ c = lead_free s2.
Proof.
  intros Hi [Hs Ht] Hset. set (a := total s1) in *. pose proof (si_ok _ _ Hi) as [Ho1 [Hn Ho2]%Forall_cons]%Forall_app.
  simpl in Hn. assert (valid_ptr w (PPage a) = true) as Hva by (apply (page_valid _ _ _ _ _ Hi); simpl; lia).
  assert (lead_free s2 = 0 → ∃ w' c s2', Some (m, w) = Some (m + c, w') ∧ same_dims w w' ∧ sl_pfree w' = sl_pfree w ∧
    sinv (s1 ++ Hole (n + c) :: s2') w' ∧ loose w' a (n + c) ∧ s2 = rest c ++ s2' ∧ c = lead_free s2) as Hsame.
  { intros H0. exists w, 0, s2. rewrite !Z.add_0_r. by split_and!. }
  unfold join_next, m_bind. rewrite deref_ok by done. unfold m_get. cbn [page_at]. rewrite Hs.
  destruct s2 as [|sg s2].
  { replace (valid_ptr w (PPage (a + n))) with false; [by apply Hsame|]. symmetry. apply not_true_iff_false.
    rewrite valid_page. pose proof (si_total _ _ Hi) as Htot. rewrite total_app in Htot. simpl in Htot. lia. }
  assert (sinv ((s1 ++ [Hole n]) ++ sg :: s2) w) as Hi2 by (by rewrite <- app_assoc).
  assert (total (s1 ++ [Hole n]) = a + n) as Ha by (rewrite total_app; simpl; lia).
  apply Forall_cons in Hset as [Hsg _]. pose proof (head_test _ _ _ _ Hi2 Hsg) as Hh.
  assert (valid_ptr w (PPage (a + n)) = true) as Hvj.
  { apply (page_valid _ _ _ _ _ Hi2). rewrite Ha. apply Forall_cons in Ho2 as [Ho _]. apply seg_len_pos in Ho. lia. }
  rewrite Hvj, deref_ok by done. rewrite Ha in Hh. rewrite Hh. destruct sg as [b| | | |]; [|by apply Hsame..].
  pose proof (seg_nodes_at _ _ _ _ Hi2) as (Hb & _). rewrite Ha in Hb. rewrite Hb.
  destruct (absorb_next s1 n b s2 w m Hi ltac:(by split)) as (w' & He & Hd & Hp & Hi' & Hl).
  exists w', b, s2. split_and!; try done. simpl in Ho2. apply Forall_cons in Ho2 as [Hb1 _]. simpl in Hb1.
  unfold rest. by destruct (Z.eqb_spec b 0); [lia|].
Qed.
(** A free run whose length is changed while it is in the list. *)
Lemma sinv_stale s1 n s2 w v :
  sinv (s1 ++ Free n :: s2) w →
  sinv (s1 ++ Stale PFree n :: s2) (with_nodes (upd_at (PPage (total s1)) (set_slab v) (sl_nodes w)) w).
Proof.
  intros Hi. pose proof (si_ok _ _ Hi) as [_ [Hn _]%Forall_cons]%Forall_app. simpl in Hn.
  apply (sinv_local s1 (Free n) (Stale PFree n) s2 w); try done; simpl.
  - by intros [].
  - intros q Hq. apply upd_at_ne. intros ->. specialize (Hq (total s1) eq_refl). lia.
  - intros _. by rewrite upd_at_eq.
  - rewrite upd_at_eq. simpl. by destruct (seg_nodes_at _ _ _ _ Hi) as (_ & Ht & _).
Qed.

Lemma absorb_prev s1 c n s2 w (m : Z) :
  let j := PPage (total s1) in let a := total s1 + c in
  sinv (s1 ++ Free c :: Hole n :: s2) w → loose w a n →
  ∃ w', (upd j (set_slab (c + n)) ;;; unlink j ;;;
         upd (PPage a) (λ _, SPage SLAB_PAGE_FREE None None SLAB_PAGE) ;;; m_ret (j, m + c)) w
          = Some ((j, m + c), w') ∧
    same_dims w w' ∧ sl_pfree w' = sl_pfree w ∧
    sinv (s1 ++ Hole (c + n) :: s2) w' ∧ loose w' (total s1) (c + n).
Proof.
  intros j a Hi [Hs Ht]. pose proof (si_ok _ _ Hi) as [_ [Hc [Hn _]%Forall_cons]%Forall_cons]%Forall_app.
  simpl in Hn, Hc. unfold m_bind. rewrite upd_ok by (apply (page_valid _ _ _ _ _ Hi); simpl; lia).
  set (w1 := with_nodes _ w). assert (sinv (s1 ++ Stale PFree c :: Hole n :: s2) w1) as Hi1 by by apply sinv_stale.
  destruct (sinv_unlink _ _ _ _ PFree Hi1 eq_refl) as (N & He & Hi2 & Hsl & Hsame).
  fold j in He. rewrite He. cbn [seg_len] in Hi2, Hsame.
  assert (sinv ((s1 ++ [Hole c]) ++ Hole n :: s2) (with_nodes N w1)) as Hi2' by (by rewrite <- app_assoc).
  assert (total (s1 ++ [Hole c]) = a) as Ha by (rewrite total_app; simpl; lia).
  assert (sinv ((s1 ++ [Stale PFree c]) ++ Hole n :: s2) w1) as Hi1' by (by rewrite <- app_assoc).
  rewrite upd_ok by (rewrite <- Ha; apply (page_valid _ _ _ _ _ Hi2'); simpl; lia).
  eexists. split_and!; [done|by split|done| |].
  - apply sinv_merge. change (Hole c :: Hole n :: s2) with ([Hole c] ++ Hole n :: s2). rewrite app_assoc.
    eapply sinv_hole_write; [exact Hi2'|by split| |done]. rewrite Ha. intros q Hq. simpl. apply upd_at_ne.
    intros ->. specialize (Hq a eq_refl). unfold outside in Hq. lia.
  - split; simpl.
    + rewrite upd_at_ne by (subst a; intros [=]; lia). rewrite Hsl. subst w1. simpl. by rewrite upd_at_eq.
    + intros _. replace (total s1 + (c + n) - 1) with (a + n - 1) by (subst a; lia).
      destruct (decide (n = 1)) as [->|Hn1].
      * replace (a + 1 - 1) with a by lia. by rewrite upd_at_eq.
      * rewrite upd_at_ne by (intros [=]; lia).
        assert (N (PPage (a + n - 1)) = sl_nodes w (PPage (a + n - 1))) as ->.
        { rewrite Hsame; [subst w1; simpl; apply upd_at_ne; subst j a; intros [=]; lia|]. right.
          pose proof (hole_not_head _ _ _ _ (a + n - 1) Hi1') as Hnh. rewrite <- app_assoc in Hnh. apply Hnh.
          rewrite total_app. simpl. subst a. lia. }
        apply Ht. lia.
Qed.
(** The last page of a run leads to its first page, if it is free. *)
Lemma last_page s1 sg s2 w :
  sinv (s1 ++ sg :: s2) w → s2 ≠ [] → settled sg →
  let e := sl_nodes w (PPage (total s1 + seg_len sg - 1)) in
  match sg with
  | Free n => pg_type e = SLAB_PAGE ∧
      (if pg_slab e =? SLAB_PAGE_FREE then pg_prev e else Some (PPage (total s1 + n - 1))) = Some (PPage (total s1))
  | Busy n => pg_type e = SLAB_PAGE ∧ pg_slab e ≠ SLAB_PAGE_FREE ∧ pg_next e = None
  | _ => pg_type e ≠ SLAB_PAGE
  end.
Proof.
  intros Hi Hs2 Hset. pose proof (si_ok _ _ Hi) as [Ho1 [Hsg Ho2]%Forall_cons]%Forall_app.
  pose proof (seg_nodes_at _ _ _ _ Hi) as Hn. destruct sg as [n|n|s u|h n|n]; try done; simpl in *.
  - destruct Hn as (Hs & Ht & He). destruct (decide (n = 1)) as [->|Hn1].
    + replace (total s1 + 1 - 1) with (total s1) by lia. rewrite Hs. simpl. done.
    + destruct He as (-> & _ & -> & Hp); [lia|]. split; [done|]. simpl. apply Hp.
      pose proof (si_total _ _ Hi) as Ht'. rewrite total_app in Ht'. simpl in Ht'.
      destruct s2 as [|sg s2]; [done|]. apply Forall_cons in Ho2 as [Ho Ho2]. apply seg_len_pos in Ho.
      apply total_nonneg in Ho2. simpl in Ht'. lia.
  - destruct Hn as [H1 H2]. destruct (decide (n = 1)) as [->|Hn1].
    + replace (total s1 + 1 - 1) with (total s1) by lia. rewrite H1. done.
    + rewrite H2 by lia. done.
  - replace (total s1 + 1 - 1) with (total s1) by lia. destruct Hn as (-> & _).
    unfold page_type. by repeat case_match.
Qed.

Lemma join_prev_spec s1 n s2 w m :
  sinv (s1 ++ Hole n :: s2) w → loose w (total s1) n → Forall settled s1 →
  ∃ w' c s1', join_prev (PPage (total s1)) m w = Some ((PPage (total s1'), m + c), w') ∧
    same_dims w w' ∧ sl_pfree w' = sl_pfree w ∧
    sinv (s1' ++ Hole (c + n) :: s2) w' ∧ loose w' (total s1') (c + n) ∧ s1 = s1' ++ rest c ∧ c = trail_free s1.
Proof.
  intros Hi Hl Hset. set (a := total s1) in *. pose proof (si_ok _ _ Hi) as [Ho1 [Hn Ho2]%Forall_cons]%Forall_app.
  simpl in Hn. assert (trail_free s1 = 0 → ∃ w' c s1', Some ((PPage a, m), w) = Some ((PPage (total s1'), m + c), w') ∧
    same_dims w w' ∧ sl_pfree w' = sl_pfree w ∧
    sinv (s1' ++ Hole (c + n) :: s2) w' ∧ loose w' (total s1') (c + n) ∧ s1 = s1' ++ rest c ∧ c = trail_free s1) as Hsame.
  { intros H0. exists w, 0, s1. rewrite !Z.add_0_r, app_nil_r. by split_and!. }
  unfold join_prev, m_bind, m_ret. destruct s1 as [|sg s1 _] using rev_ind; [rewrite bool_decide_eq_true_2 by done; by apply Hsame|].
  unfold trail_free in Hsame |- *. rewrite last_snoc in Hsame |- *.
  apply Forall_app in Ho1 as [Ho1 [Hsg _]%Forall_cons]. apply Forall_app in Hset as [Hset [Hsgs _]%Forall_cons].
  pose proof (total_nonneg _ Ho1). pose proof (seg_len_pos _ Hsg).
  assert (sinv (s1 ++ sg :: Hole n :: s2) w) as Hi1 by (by rewrite <- app_assoc in Hi).
  assert (a = total s1 + seg_len sg) as Ha by (subst a; rewrite total_app; simpl; lia).
  rewrite bool_decide_eq_false_2 by (intros [=]; lia). cbn [page_at].
  replace (a + -1) with (total s1 + seg_len sg - 1) by lia.
  rewrite deref_ok by (apply (page_valid _ _ _ _ _ Hi1); lia).
  pose proof (last_page _ _ _ _ Hi1 ltac:(done) Hsgs) as He. simpl in He.
  destruct sg as [c|c|s u|h c|c]; try done; cbn [seg_len] in He |- *.
  - destruct He as [-> Hj]. rewrite Z.eqb_refl. cbn [negb].
    rewrite Hj. rewrite deref_ok by (apply (page_valid _ _ _ _ _ Hi1); simpl in *; lia).
    destruct (head_links _ _ _ _ PFree Hi1 eq_refl) as (? & ? & _ & _ & _ & -> & _).
    rewrite bool_decide_eq_true_2 by done. subst a. rewrite Ha in *. cbn [seg_len] in *.
    rewrite deref_ok by (rewrite <- Ha; apply (page_valid _ _ _ _ _ Hi); simpl; lia).
    destruct (seg_nodes_at _ _ _ _ Hi1) as (Hsc & _). destruct Hl as [Hsn Hl]. rewrite Hsc, Hsn.
    destruct (absorb_prev s1 c n s2 w m Hi1 ltac:(by split)) as (w' & He & Hd & Hp & Hi' & Hl').
    exists w', c, s1. split_and!; try done. unfold rest. simpl in Hsg. by destruct (Z.eqb_spec c 0); [lia|].
  - destruct He as (-> & Hne & Hnx). rewrite Z.eqb_refl, (proj2 (Z.eqb_neq _ _) Hne). cbn [negb].
    rewrite deref_ok by (apply (page_valid _ _ _ _ _ Hi1); simpl in *; lia).
    rewrite Hnx. by apply Hsame.
  - rewrite (proj2 (Z.eqb_neq _ _) He). by apply Hsame.
Qed.
(** The descriptors [link_free] leaves; [t] is the last page of the run, [b] was the first of the
    list. *)
Definition linked_nodes (a t b : pgptr) (N : nodes) : nodes :=
  upd_at PFree (set_next (Some a))
    (upd_at b (set_prev (Some a) 0)
       (upd_at a (set_next (Some b))
          (upd_at a (set_prev (Some PFree) 0)
             (if bool_decide (t = a) then N else upd_at t (set_prev (Some a) 0) N)))).

Section linked_nodes.
Context (a t b : pgptr) (N : nodes) (Hba : b ≠ a) (Haf : a ≠ PFree) (Htf : t ≠ PFree) (Htb : t ≠ b).
Lemma linked_next q :
  pg_next (linked_nodes a t b N q) =
    if bool_decide (q = PFree) then Some a else if bool_decide (q = a) then Some b else pg_next (N q).
Proof using Hba. clear - Hba. unfold linked_nodes, upd_at. by repeat (case_bool_decide; subst). Qed.
Lemma linked_prev q :
  q ≠ PFree →
  pg_prev (linked_nodes a t b N q) =
    if bool_decide (q = b) then Some a else if bool_decide (q = a) then Some PFree
    else if bool_decide (q = t) then Some a else pg_prev (N q).
Proof using Hba Haf Htf Htb. intros Hq. unfold linked_nodes, upd_at. by repeat (case_bool_decide; subst). Qed.
Lemma linked_slab q : pg_slab (linked_nodes a t b N q) = pg_slab (N q).
Proof using. clear. unfold linked_nodes, upd_at. by repeat (case_bool_decide; subst). Qed.
Lemma linked_type q :
  pg_type (linked_nodes a t b N q) =
    if bool_decide (q = b) then 0 else if bool_decide (q = a) then 0
    else if bool_decide (q = t) then 0 else pg_type (N q).
Proof using Hba Htb. clear - Hba Htb. unfold linked_nodes, upd_at. by repeat (case_bool_decide; subst). Qed.
End linked_nodes.

Lemma link_free_eq w x n b :
  let a := PPage x in let t := PPage (x + (n - 1)) in
  1 ≤ n → pg_next (sl_nodes w PFree) = Some b → b ≠ a →
  (∀ y, x ≤ y < x + n → valid_ptr w (PPage y) = true) → valid_ptr w b = true →
  link_free a (n - 1) w = Some (tt, with_nodes (linked_nodes a t b (sl_nodes w)) w).
Proof.
  intros a t Hn Hb Hba Hv Hvb. unfold link_free, m_bind.
  set (N1 := if bool_decide (t = a) then sl_nodes w else upd_at t (set_prev (Some a) 0) (sl_nodes w)).
  replace ((if n - 1 =? 0 then m_ret tt else upd (page_at a (n - 1)) (set_prev (Some a) 0)) w)
    with (Some (tt, with_nodes N1 w)).
  2: { subst N1 a t. destruct (Z.eqb_spec (n - 1) 0).
       - rewrite bool_decide_eq_true_2 by (f_equal; lia). by destruct w.
       - rewrite bool_decide_eq_false_2 by (intros [=]; lia). symmetry. apply upd_ok, Hv. lia. }
  assert (pg_next (N1 PFree) = Some b) as Hb1.
  { subst N1. case_bool_decide; [done|]. by rewrite upd_at_ne. }
  rewrite upd_ok by (apply (Hv x); lia). rewrite deref_ok by done. cbn [sl_nodes with_nodes].
  rewrite upd_at_ne by done. rewrite Hb1.
  rewrite upd_ok by (apply (Hv x); lia). rewrite deref_ok by (apply (Hv x); lia). cbn [sl_nodes with_nodes].
  rewrite upd_at_eq. cbn [set_next pg_next upd_opt]. rewrite upd_ok by done. by rewrite upd_ok.
Qed.

Lemma link_free_spec s1 n s2 w :
  sinv (s1 ++ Hole n :: s2) w → loose w (total s1) n →
  ∃ w', link_free (PPage (total s1)) (n - 1) w = Some (tt, w') ∧ same_dims w w' ∧
    sl_pfree w' = sl_pfree w ∧ sinv (s1 ++ Free n :: s2) w'.
Proof.
  intros Hi [Hs Ht]. set (a := total s1) in *. pose proof (si_ok _ _ Hi) as [_ [Hn _]%Forall_cons]%Forall_app.
  simpl in Hn. destruct (si_lists _ _ Hi PFree eq_refl) as [l Hl].
  destruct (list_first _ _ PFree _ eq_refl Hl) as (b & Hb & Hbl & Hbi).
  assert (∀ x, b = PPage x → outside a n x) as Hbo.
  { intros x ->. apply elem_of_cons in Hbi as [?|(? & [= <-] & Hx)%list_elem_of_fmap]; [done|].
    exact (list_outside _ (Hole n) _ _ PFree _ x Hi eq_refl Hl Hx). }
  assert (∀ x, a ≤ x < a + n → b ≠ PPage x) as Hbn by (intros x Hx ->; specialize (Hbo x eq_refl); unfold outside in Hbo; lia).
  set (t := PPage (a + (n - 1))).
  eexists. split_and!; [apply (link_free_eq w a n b); try done| | |].
  - apply Hbn. lia.
  - intros y Hy. apply (page_valid _ _ _ _ _ Hi). simpl. subst a. lia.
  - exact (list_valid _ _ Hi PFree l b eq_refl Hl Hbi).
  - by split.
  - done.
  - fold t. assert (b ≠ PPage a ∧ t ≠ b) as [Hba Htb] by (split; [|apply not_eq_sym]; apply Hbn; lia).
    assert (∀ x, outside a n x → PPage x ≠ PPage a ∧ PPage x ≠ t) as Hxo.
    { intros x Hx. unfold outside in Hx. subst t. split; intros [=]; lia. }
    apply (sinv_push s1 n (Free n) s2 w _ PFree); cbn [sl_nodes sl_words with_nodes]; try done.
    + fold a. by rewrite linked_prev, bool_decide_eq_false_2, bool_decide_eq_true_2.
    + fold a. by rewrite linked_next, bool_decide_eq_false_2, bool_decide_eq_true_2, Hb.
    + fold a. intros q Hq Hqo. rewrite linked_next, !bool_decide_eq_false_2; try done.
      intros ->. specialize (Hqo a eq_refl). unfold outside in Hqo. lia.
    + fold a. intros x Hx. destruct (Hxo x Hx) as [Hxa Hxt].
      rewrite linked_slab, linked_type, linked_prev by done. split_and!; [done| |].
      * rewrite (bool_decide_eq_false_2 _ Hxa), (bool_decide_eq_false_2 _ Hxt). case_bool_decide as E; [|done].
        symmetry. apply (list_page_type _ _ Hi PFree). apply (list_elem _ _ _ _ _ Hl).
        rewrite <- E in Hbi. by apply elem_of_cons in Hbi as [?|(? & [= <-] & ?)%list_elem_of_fmap].
      * rewrite (bool_decide_eq_false_2 _ Hxa), (bool_decide_eq_false_2 _ Hxt), Hb.
        destruct (decide (PPage x = b)) as [E|E]; [by rewrite !bool_decide_eq_true_2 by congruence|].
        by rewrite !bool_decide_eq_false_2 by congruence.
    + fold a. simpl. rewrite linked_slab, linked_type, (bool_decide_eq_false_2 (PPage a = b)), bool_decide_eq_true_2 by done.
      split_and!; [done|done|]. intros Hn1. destruct (Ht Hn1) as (He1 & He2 & He3).
      replace (a + n - 1) with (a + (n - 1)) in * by lia. fold t in He1, He2, He3 |- *.
      assert (t ≠ PPage a) as Hta by (subst t; intros [=]; lia).
      rewrite linked_slab, linked_next, linked_prev, linked_type by done.
      rewrite !(bool_decide_eq_false_2 (t = b)), !(bool_decide_eq_false_2 (t = PPage a)),
        !(bool_decide_eq_false_2 (t = PFree)), !(bool_decide_eq_true_2 (t = t)) by done. done.
Qed.
(** A run is released: an allocated run, or a page of chunks that is in its slot's list. *)
Lemma release_busy s1 k s2 w :
  sinv (s1 ++ Busy k :: s2) w →
  ∃ w', release_pages (PPage (total s1)) k w = Some (tt, w') ∧ same_dims w w' ∧
    sl_pfree w' = u32 (sl_pfree w + k) ∧ sinv (s1 ++ Hole k :: s2) w' ∧ loose w' (total s1) k.
Proof.
  intros Hi. pose proof (si_ok _ _ Hi) as [_ [Hk _]%Forall_cons]%Forall_app. simpl in Hk.
  destruct (seg_nodes_at _ _ _ _ Hi) as [Hn _]. set (a := total s1) in *.
  apply sinv_open in Hi as Hh; [|done]. cbn [seg_len] in Hh.
  assert (∀ y, a ≤ y < a + k → valid_ptr w (PPage y) = true) as Hv.
  { intros. by apply (page_valid _ _ _ _ _ Hi). }
  unfold release_pages, m_bind, m_modify, zero_pages. rewrite upd_ok by (apply (Hv a); lia).
  match goal with |- context [fill_pages _ _ _ ?w1] => set (w1' := w1) end. cbn [page_at].
  destruct (fill_pages_spec zero_page (Z.to_nat (k - 1)) (a + 1) w1') as (N & -> & Hin & Hout).
  { intros x Hx. apply (Hv x). lia. }
  rewrite Z2Nat.id in Hin, Hout by lia. rewrite deref_ok by (apply (Hv a); lia). cbn [sl_nodes with_nodes].
  assert (N (PPage a) = set_slab k (sl_nodes w (PPage a))) as Ha.
  { rewrite Hout by (intros ? [= <-]; unfold outside; lia). subst w1'. simpl. by rewrite upd_at_eq. }
  rewrite Ha, Hn. cbn [set_slab pg_next]. eexists. split_and!; [done|by split|done| |split].
  - eapply sinv_hole_write; [exact Hh|by split| |done]. intros q Hq. simpl.
    rewrite Hout; [subst w1'; simpl; apply upd_at_ne|].
    + intros ->. specialize (Hq a eq_refl). unfold outside in Hq. fold a in Hq. lia.
    + intros x ->. specialize (Hq x eq_refl). unfold outside in *. fold a in Hq. lia.
  - simpl. by rewrite Ha.
  - intros Hk1. simpl. rewrite Hin by lia. done.
Qed.

Lemma release_chunks s1 h s2 w :
  sinv (s1 ++ Stale h 1 :: s2) w →
  ∃ w', release_pages (PPage (total s1)) 1 w = Some (tt, w') ∧ same_dims w w' ∧
    sl_pfree w' = u32 (sl_pfree w + 1) ∧ sinv (s1 ++ Hole 1 :: s2) w' ∧ loose w' (total s1) 1.
Proof.
  intros Hi. set (a := total s1) in *.
  assert (inl h (Stale h 1) = true) as Hin by (destruct h; cbn [inl]; by apply bool_decide_eq_true_2).
  destruct (head_links _ _ _ _ _ Hi Hin) as (l1 & l2 & _ & _ & _ & Hb & _).
  assert (∀ w0, valid_ptr w0 (PPage a) = valid_ptr w (PPage a) → valid_ptr w0 (PPage a) = true) as Hv.
  { intros w0 ->. apply (page_valid _ _ _ _ _ Hi). simpl. subst a. lia. }
  unfold release_pages, m_bind, m_modify, zero_pages. rewrite upd_ok by (by apply Hv).
  change (Z.to_nat (1 - 1)) with 0%nat. cbn [fill_pages m_ret].
  rewrite deref_ok by (by apply Hv). cbn [sl_nodes with_nodes]. rewrite upd_at_eq. cbn [set_slab pg_next].
  cbn [upd_pfree sl_nodes]. fold a in Hb. rewrite Hb.
  match goal with |- context [unlink _ ?w1] => set (w1' := w1) end.
  assert (sinv (s1 ++ Stale h 1 :: s2) w1') as Hi1.
  { apply (sinv_local s1 (Stale h 1) (Stale h 1) s2 w); try done; fold a; simpl.
    - pose proof (si_ok _ _ Hi) as [_ [Hk _]%Forall_cons]%Forall_app. done.
    - intros q Hq. apply upd_at_ne. intros ->. specialize (Hq a eq_refl). lia.
    - intros _. by rewrite upd_at_eq.
    - rewrite upd_at_eq. apply (seg_nodes_at _ _ _ _ Hi). }
  destruct (sinv_unlink _ _ _ _ _ Hi1 Hin) as (N & He & Hi2 & Hsl & _). fold a in He. rewrite He.
  eexists. split_and!; [done|by split|done|done|split; [|lia]].
  simpl. rewrite Hsl. subst w1'. simpl. by rewrite upd_at_eq.
Qed.

(** Released pages are one free run with the free runs around them. *)
Lemma free_pages_spec s1 k s2 w w0 :
  release_pages (PPage (total s1)) k w = Some (tt, w0) → same_dims w w0 →
  sinv (s1 ++ Hole k :: s2) w0 → loose w0 (total s1) k → Forall settled s1 → Forall settled s2 →
  ∃ w' t1 c1 c2 t2, ngx_slab_free_pages (PPage (total s1)) k w = Some (tt, w') ∧
    same_dims w w' ∧ sl_pfree w' = sl_pfree w0 ∧ s1 = t1 ++ rest c1 ∧ s2 = rest c2 ++ t2 ∧
    c1 = trail_free s1 ∧ c2 = lead_free s2 ∧
    sinv (t1 ++ Free (c1 + (k + c2)) :: t2) w'.
Proof.
  intros He Hd Hi Hl H1 H2. unfold ngx_slab_free_pages, m_bind. rewrite He.
  destruct (join_next_spec _ _ _ _ (k - 1) Hi Hl H2) as (w1 & c2 & t2 & -> & Hd1 & Hp1 & Hi1 & Hl1 & Hs2 & Hc2).
  destruct (join_prev_spec _ _ _ _ (k - 1 + c2) Hi1 Hl1 H1) as (w2 & c1 & t1 & -> & Hd2 & Hp2 & Hi2 & Hl2 & Hs1 & Hc1).
  destruct (link_free_spec _ _ _ _ Hi2 Hl2) as (w' & He' & Hd' & Hp' & Hi').
  exists w', t1, c1, c2, t2. split_and!; try done; [|by do 3 (etrans; [eassumption|])|congruence].
  by replace (k - 1 + c2 + c1) with (c1 + (k + c2) - 1) by lia.
Qed.
