(* ===== verification/SlabChunks.v ===== *)
(** The chunk level of the slab allocator (Slab.v): finding, setting and clearing the bits of
    a page of chunks keeps the invariant of SlabInv.v. *)

From S2P Require Import Prelude Slab SlabLists SlabInv SlabPages.

(** ** Bits *)

Lemma bit_set x i b : 0 ≤ i → 0 ≤ b → Z.testbit (Z.lor x (Z.shiftl 1 i)) b = (b =? i) || Z.testbit x b.
Proof.
  intros Hi Hb. rewrite Z.lor_spec, Z.shiftl_1_l, Z.pow2_bits_eqb by done.
  rewrite Z.eqb_sym. apply orb_comm.
Qed.
Lemma bit_clear x i b : 0 ≤ i → 0 ≤ b → Z.testbit (Z.ldiff x (Z.shiftl 1 i)) b = negb (b =? i) && Z.testbit x b.
Proof.
  intros Hi Hb. rewrite Z.ldiff_spec, Z.shiftl_1_l, Z.pow2_bits_eqb by done.
  rewrite Z.eqb_sym. apply andb_comm.
Qed.
Lemma bit_test x i : 0 ≤ i → (Z.land x (Z.shiftl 1 i) =? 0) = negb (Z.testbit x i).
Proof.
  intros Hi. rewrite Z.shiftl_1_l. destruct (Z.testbit x i) eqn:E; simpl.
  - apply Z.eqb_neq. intros H0. assert (Z.testbit (Z.land x (2 ^ i)) i = true) as Ht.
    { rewrite Z.land_spec, E, Z.pow2_bits_true by done. done. }
    by rewrite H0, Z.testbit_0_l in Ht.
  - apply Z.eqb_eq, Z.bits_inj'. intros b Hb. rewrite Z.land_spec, Z.pow2_bits_eqb, Z.testbit_0_l by done.
    destruct (Z.eqb_spec i b) as [->|]; [by rewrite E|]. apply andb_false_r.
Qed.

(** Numbers below a power of two, by their bits. *)
Lemma below_bits x n : 0 ≤ n → 0 ≤ x < 2 ^ n ↔ 0 ≤ x ∧ ∀ b, n ≤ b → Z.testbit x b = false.
Proof.
  intros Hn. split.
  - intros [H0 Hx]. split; [done|]. intros b Hb. destruct (decide (x = 0)) as [->|]; [apply Z.testbit_0_l|].
    apply Z.bits_above_log2; [done|]. apply Z.log2_lt_pow2; [lia|].
    apply Z.lt_le_trans with (2 ^ n); [done|]. apply Z.pow_le_mono_r; lia.
  - intros [H0 Hb]. split; [done|]. destruct (decide (x = 0)) as [->|]; [by apply Z.pow_pos_nonneg|].
    apply Z.log2_lt_pow2; [lia|]. destruct (Z.lt_ge_cases (Z.log2 x) n) as [|Hge]; [done|].
    apply Hb in Hge. rewrite Z.bit_log2 in Hge; [done|lia].
Qed.

Lemma set_below x i n : 0 ≤ i < n → 0 ≤ x < 2 ^ n → 0 ≤ Z.lor x (Z.shiftl 1 i) < 2 ^ n.
Proof.
  intros Hi Hx. apply below_bits in Hx as [H0 Hb]; [|lia]. apply below_bits; [lia|]. split.
  - apply Z.lor_nonneg. split; [done|]. by apply Z.shiftl_nonneg.
  - intros b Hn. rewrite bit_set, Hb by lia. destruct (Z.eqb_spec b i); [lia|done].
Qed.
Lemma clear_below x i n : 0 ≤ i < n → 0 ≤ x < 2 ^ n → 0 ≤ Z.ldiff x (Z.shiftl 1 i) < 2 ^ n.
Proof.
  intros Hi Hx. apply below_bits in Hx as [H0 Hb]; [|lia]. apply below_bits; [lia|]. split.
  - apply Z.ldiff_nonneg. by left.
  - intros b Hn. rewrite bit_clear, Hb by lia. apply andb_false_r.
Qed.

(** A word of [n] bits is full, or empty. *)
Lemma word_full x n :
  0 ≤ n → 0 ≤ x < 2 ^ n → x = Z.ones n ↔ ∀ b, 0 ≤ b < n → Z.testbit x b = true.
Proof.
  intros Hn Hx. split.
  - intros -> b Hb. by apply Z.ones_spec_low.
  - intros Hb. apply Z.bits_inj'. intros b Hb0. destruct (decide (b < n)).
    + rewrite Z.ones_spec_low by lia. by apply Hb.
    + rewrite Z.ones_spec_high by lia. apply below_bits in Hx as [_ Hx]; [|done]. apply Hx. lia.
Qed.
Lemma word_empty x n :
  0 ≤ n → 0 ≤ x < 2 ^ n → x = 0 ↔ ∀ b, 0 ≤ b < n → Z.testbit x b = false.
Proof.
  intros Hn Hx. split.
  - intros -> b Hb. apply Z.testbit_0_l.
  - intros Hb. apply Z.bits_inj'. intros b Hb0. rewrite Z.testbit_0_l. destruct (decide (b < n)); [by apply Hb|].
    apply below_bits in Hx as [_ Hx]; [|done]. apply Hx. lia.
Qed.

Lemma first_clear_spec n i x :
  match first_clear n i x with
  | Some j => i ≤ j < i + Z.of_nat n ∧ Z.testbit x j = false
  | None => ∀ j, i ≤ j < i + Z.of_nat n → Z.testbit x j = true
  end.
Proof.
  revert i. induction n as [|n IH]; intros i; cbn [first_clear]; [lia|].
  destruct (Z.testbit x i) eqn:E; [|split; [lia|done]]. specialize (IH (i + 1)).
  destruct (first_clear n (i + 1) x) as [j|]; [split; [lia|tauto]|].
  intros j Hj. destruct (decide (j = i)) as [->|]; [done|]. apply IH. lia.
Qed.
(** ** Shifts *)

Lemma shift_cases (P : Z → Prop) :
  P 3 → P 4 → P 5 → P 6 → P 7 → P 8 → P 9 → P 10 → P 11 → ∀ s, shift_ok s → P s.
Proof.
  intros ????????? s [??].
  assert (s = 3 ∨ s = 4 ∨ s = 5 ∨ s = 6 ∨ s = 7 ∨ s = 8 ∨ s = 9 ∨ s = 10 ∨ s = 11) as Hs by lia.
  destruct Hs as [->|[->|[->|[->|[->|[->|[->|[->| ->]]]]]]]]; done.
Qed.

(** What the constants of a shift amount to. *)
Lemma small_words s : shift_ok s → s < slab_exact_shift → chunk_count s = 64 * map_words s ∧ 1 ≤ map_words s ≤ 8.
Proof. revert s. apply (shift_cases (λ s, _ → _)); by vm_compute. Qed.
Lemma big_count s : shift_ok s → slab_exact_shift < s → 2 ≤ chunk_count s ≤ 32 ∧ 0 ≤ s < 16.
Proof. revert s. apply (shift_cases (λ s, _ → _)); by vm_compute. Qed.
Lemma reserved_count s : shift_ok s → 0 ≤ reserved s ∧ reserved s + 1 < chunk_count s.
Proof. revert s. apply (shift_cases (λ s, _)); by vm_compute. Qed.
Lemma chunk_size s : shift_ok s → chunk_count s * 2 ^ s = pagesize.
Proof. revert s. apply (shift_cases (λ s, _)); by vm_compute. Qed.
Lemma reserved_size s : shift_ok s → s < slab_exact_shift → 8 * map_words s ≤ reserved s * 2 ^ s.
Proof. revert s. apply (shift_cases (λ s, _ → _)); by vm_compute. Qed.

Lemma user_elem s c : c ∈ user_chunks s ↔ reserved s ≤ c < chunk_count s.
Proof. unfold user_chunks. rewrite elem_of_list_to_set, elem_of_seqZ. lia. Qed.

(** ** Writing a bit *)

Notation page_bit s w a c := (chunk_bit s (pg_slab (sl_nodes w (PPage a))) (sl_words w a) c).
Notation page_form s w a := (chunk_form s (pg_slab (sl_nodes w (PPage a))) (sl_words w a)).

(** Between [w] and [w'] only the bit of chunk [c] of page [a] changes; it becomes [v]. *)
Record bit_written (s a c : Z) (v : bool) (w w' : spool) : Prop := BitWritten {
  bw_dims : same_dims w w';
  bw_pfree : sl_pfree w' = sl_pfree w;
  bw_nodes : ∀ q, q ≠ PPage a → sl_nodes w' q = sl_nodes w q;
  bw_next : pg_next (sl_nodes w' (PPage a)) = pg_next (sl_nodes w (PPage a));
  bw_prev : pg_prev (sl_nodes w' (PPage a)) = pg_prev (sl_nodes w (PPage a));
  bw_type : pg_type (sl_nodes w' (PPage a)) = pg_type (sl_nodes w (PPage a));
  bw_words : ∀ x, x ≠ a → sl_words w' x = sl_words w x;
  bw_form : page_form s w' a;
  bw_bits : ∀ d, 0 ≤ d < chunk_count s → page_bit s w' a d = if d =? c then v else page_bit s w a d
}.

(** [x'] is [x] with bit [i] set to [v]. *)
Definition with_bit (i : Z) (v : bool) (x x' : Z) : Prop :=
  (∀ n, i < n → 0 ≤ x < 2 ^ n → 0 ≤ x' < 2 ^ n) ∧
  ∀ b, 0 ≤ b → Z.testbit x' b = if b =? i then v else Z.testbit x b.

Lemma with_bit_set i x : 0 ≤ i → with_bit i true x (Z.lor x (Z.shiftl 1 i)).
Proof.
  intros Hi. split; [intros; apply set_below; lia|]. intros b Hb. rewrite bit_set by done. by case_match.
Qed.
Lemma with_bit_clear i x : 0 ≤ i → with_bit i false x (Z.ldiff x (Z.shiftl 1 i)).
Proof.
  intros Hi. split; [intros; apply clear_below; lia|]. intros b Hb. rewrite bit_clear by done. by case_match.
Qed.

Lemma write_word_bit s a c v x' w :
  shift_ok s → s < slab_exact_shift → 0 ≤ c < chunk_count s → page_form s w a →
  with_bit (c mod 64) v (sl_words w a (c / 64)) x' →
  bit_written s a c v w (upd_word a (c / 64) x' w).
Proof.
  intros Hs Hlt Hc Hf [Hr Hb]. destruct (small_words s Hs Hlt) as [Hcnt _].
  unfold chunk_form in *. rewrite (proj2 (Z.ltb_lt _ _) Hlt) in Hf. destruct Hf as [Hsl Hf].
  split; try done.
  - intros x Hx. simpl. by rewrite bool_decide_eq_false_2.
  - unfold chunk_form. rewrite (proj2 (Z.ltb_lt _ _) Hlt). split; [done|]. intros n Hn. simpl.
    rewrite bool_decide_eq_true_2 by done. case_bool_decide as E; [|by apply Hf]. subst n. apply Hr; [Z.div_mod_to_equations; lia|].
    apply Hf. Z.div_mod_to_equations; lia.
  - intros d Hd. unfold chunk_bit. rewrite (proj2 (Z.ltb_lt _ _) Hlt). simpl.
    rewrite bool_decide_eq_true_2 by done. case_bool_decide as E.
    + rewrite Hb by (Z.div_mod_to_equations; lia). rewrite E.
      destruct (Z.eqb_spec d c) as [->|Hne]; [by rewrite Z.eqb_refl|].
      destruct (Z.eqb_spec (d mod 64) (c mod 64)); [|done]. exfalso. apply Hne. Z.div_mod_to_equations; lia.
    + destruct (Z.eqb_spec d c) as [->|]; [done|done].
Qed.
(** The bit of a chunk in [slab]. *)
Definition slab_pos (s c : Z) : Z := if s =? slab_exact_shift then c else SLAB_MAP_SHIFT + c.

Lemma chunk_bit_slab s slab words c :
  slab_exact_shift ≤ s → chunk_bit s slab words c = Z.testbit slab (slab_pos s c).
Proof.
  intros Hs. unfold chunk_bit, slab_pos. destruct (Z.ltb_spec s slab_exact_shift); [lia|]. by case_match.
Qed.

Lemma chunk_form_slab s slab words :
  shift_ok s → slab_exact_shift ≤ s → chunk_form s slab words → 0 ≤ slab < 2 ^ 64.
Proof.
  intros Hok Hs. unfold chunk_form. destruct (Z.ltb_spec s slab_exact_shift); [lia|].
  destruct (Z.eqb_spec s slab_exact_shift); [done|]. intros (H0 & _ & Hb).
  pose proof (big_count s Hok ltac:(lia)). apply below_bits; [done|]. split; [done|].
  intros b Hb64. apply Hb. unfold SLAB_MAP_SHIFT. lia.
Qed.

Lemma write_slab_bit s a c v x' w :
  shift_ok s → slab_exact_shift ≤ s → 0 ≤ c < chunk_count s → page_form s w a →
  with_bit (slab_pos s c) v (pg_slab (sl_nodes w (PPage a))) x' →
  bit_written s a c v w (with_nodes (upd_at (PPage a) (set_slab x') (sl_nodes w)) w).
Proof.
  intros Hok Hs Hc Hf [Hr Hb]. pose proof (chunk_form_slab _ _ _ Hok Hs Hf) as Hx.
  assert (0 ≤ slab_pos s c < 64 ∧ ∀ d, slab_pos s d = slab_pos s c ↔ d = c) as [Hp Hinj].
  { unfold slab_pos. destruct (Z.eqb_spec s slab_exact_shift) as [->|].
    - change (chunk_count slab_exact_shift) with 64 in Hc. split; lia.
    - pose proof (big_count s Hok ltac:(lia)). unfold SLAB_MAP_SHIFT. split; lia. }
  split; cbn [sl_nodes sl_words with_nodes]; try rewrite !upd_at_eq; try done.
  - intros q Hq. by apply upd_at_ne.
  - cbn [set_slab pg_slab]. unfold chunk_form in *. destruct (Z.ltb_spec s slab_exact_shift); [lia|].
    destruct (Z.eqb_spec s slab_exact_shift) as [->|Hne]; [apply (Hr 64); [lia|done]|].
    destruct Hf as (H0 & Hlo & Hhi). unfold slab_pos in *. rewrite (proj2 (Z.eqb_neq _ _) Hne) in *.
    unfold SLAB_MAP_SHIFT in *. split_and!.
    + apply (Hr 64); [lia|done].
    + intros b Hb32. rewrite Hb by lia. destruct (Z.eqb_spec b (32 + c)); [lia|]. by apply Hlo.
    + intros b Hb32. pose proof (big_count s Hok ltac:(lia)). rewrite Hb by lia.
      destruct (Z.eqb_spec b (32 + c)); [lia|]. by apply Hhi.
  - intros d Hd. rewrite !chunk_bit_slab by done. cbn [set_slab pg_slab]. rewrite Hb.
    + destruct (Z.eqb_spec d c) as [->|Hne]; [by rewrite Z.eqb_refl|].
      destruct (Z.eqb_spec (slab_pos s d) (slab_pos s c)) as [E|]; [by apply Hinj in E|done].
    + unfold slab_pos. unfold SLAB_MAP_SHIFT. case_match; lia.
Qed.

(** ** Searching *)

(** Every chunk's bit is set. *)
Definition all_set (s : Z) (w : spool) (a : Z) : Prop := ∀ d, 0 ≤ d < chunk_count s → page_bit s w a d = true.

Lemma get_word_ok a n w :
  valid_ptr w (PPage a) = true → 0 ≤ n < 512 → get_word (PPage a) n w = Some (sl_words w a n, w).
Proof.
  intros Hv Hn. unfold get_word. rewrite Hv. change (pagesize / 8) with 512.
  destruct (Z.leb_spec 0 n), (Z.ltb_spec n 512); (done || lia).
Qed.
Lemma put_word_ok a n v w :
  valid_ptr w (PPage a) = true → 0 ≤ n < 512 → put_word (PPage a) n v w = Some (tt, upd_word a n v w).
Proof.
  intros Hv Hn. unfold put_word. rewrite Hv. change (pagesize / 8) with 512.
  destruct (Z.leb_spec 0 n), (Z.ltb_spec n 512); (done || lia).
Qed.

Lemma words_busy_spec k a n w :
  valid_ptr w (PPage a) = true → 0 ≤ n → n + Z.of_nat k ≤ 512 →
  ∃ b, words_busy k (PPage a) n w = Some (b, w) ∧
    (b = true ↔ ∀ j, n ≤ j < n + Z.of_nat k → sl_words w a j = SLAB_BUSY).
Proof.
  intros Hv. revert n. induction k as [|k IH]; intros n H0 Hn; cbn [words_busy].
  - exists true. split; [done|]. split; [lia|done].
  - unfold m_bind. rewrite get_word_ok by (done || lia).
    destruct (Z.eqb_spec (sl_words w a n) SLAB_BUSY) as [E|E].
    + destruct (IH (n + 1)) as (b & -> & Hb); [lia|lia|]. exists b. split; [done|]. rewrite Hb. split.
      * intros Hall j Hj. destruct (decide (j = n)) as [->|]; [done|]. apply Hall. lia.
      * intros Hall j Hj. apply Hall. lia.
    + exists false. split; [done|]. split; [done|]. intros Hall. destruct E. apply Hall. lia.
Qed.

(** A word is busy when the chunks it stands for are. *)
Lemma word_busy_bits s w a n :
  s < slab_exact_shift → page_form s w a → 0 ≤ n < map_words s →
  sl_words w a n = SLAB_BUSY ↔ ∀ d, 64 * n ≤ d < 64 * (n + 1) → page_bit s w a d = true.
Proof.
  intros Hs Hf Hn. unfold chunk_form, chunk_bit in *. rewrite (proj2 (Z.ltb_lt _ _) Hs) in *.
  destruct Hf as [_ Hf]. unfold SLAB_BUSY. rewrite word_full by (done || by apply Hf). split.
  - intros Hb d Hd. replace (d / 64) with n by (Z.div_mod_to_equations; lia). apply Hb. Z.div_mod_to_equations; lia.
  - intros Hb b Hb64. specialize (Hb (64 * n + b) ltac:(lia)).
    replace ((64 * n + b) / 64) with n in Hb by (Z.div_mod_to_equations; lia).
    by replace ((64 * n + b) mod 64) with b in Hb by (Z.div_mod_to_equations; lia).
Qed.
(** Only counters differ. *)
Record stat_only (w w' : spool) : Prop := StatOnly {
  so_nodes : sl_nodes w' = sl_nodes w;
  so_words : sl_words w' = sl_words w;
  so_dims : same_dims w w';
  so_pfree : sl_pfree w' = sl_pfree w
}.
Lemma stat_only_refl w : stat_only w w.
Proof. by split. Qed.
Lemma stat_only_upd slot f w : stat_only w (upd_stat slot f w).
Proof. by split. Qed.
Lemma bit_written_stat s a c v w w1 w2 : bit_written s a c v w w1 → stat_only w1 w2 → bit_written s a c v w w2.
Proof.
  intros [] [Hn Hw Hd Hp]. split; rewrite ?Hn, ?Hw; try done; [by etrans|congruence].
Qed.
Lemma sinv_stat segs w w' : sinv segs w → stat_only w w' → sinv segs w'.
Proof. intros Hi [Hn Hw Hd _]. by eapply sinv_same. Qed.

(** A search's outcome: it sets the first clear bit, and a page that is full then leaves its
    list. *)
Definition found (s a : Z) (w : spool) (r : option (option Z * spool)) : Prop :=
  ∃ c w1 (fl : bool), 0 ≤ c < chunk_count s ∧ page_bit s w a c = false ∧
    bit_written s a c true w w1 ∧ (fl = true ↔ all_set s w1 a) ∧
    ∀ w2, (if fl then page_full (PPage a) (page_type s) else m_ret tt) w1 = Some (tt, w2) → same_dims w1 w2 →
      ∃ w3, r = Some (Some (page_addr w (PPage a) + Z.shiftl c s), w3) ∧ stat_only w2 w3.

Lemma small_full s a c n w w1 b :
  shift_ok s → s < slab_exact_shift → 0 ≤ n < map_words s → page_form s w1 a →
  (∀ d, 0 ≤ d < 64 * n → page_bit s w a d = true) → bit_written s a c true w w1 →
  (b = true ↔ ∀ j, n + 1 ≤ j < map_words s → sl_words w1 a j = SLAB_BUSY) →
  ((sl_words w1 a n =? SLAB_BUSY) && b = true ↔ all_set s w1 a).
Proof.
  intros Hok Hs Hn Hf Hlow Hbw Hb. destruct (small_words s Hok Hs) as [Hcnt _].
  rewrite andb_true_iff, Z.eqb_eq, Hb, (word_busy_bits s) by done. split.
  - intros [Hcur Hrest] d Hd. destruct (decide (d < 64 * n)).
    + rewrite (bw_bits _ _ _ _ _ _ Hbw) by done. case_match; [done|]. apply Hlow. lia.
    + destruct (decide (d < 64 * (n + 1))); [apply Hcur; lia|].
      apply (word_busy_bits s w1 a (d / 64)); [done|done|Z.div_mod_to_equations; lia| |Z.div_mod_to_equations; lia].
      apply Hrest. Z.div_mod_to_equations; lia.
  - intros Hall. split; [intros; apply Hall; lia|]. intros j Hj. apply (word_busy_bits s); [done|done|lia|].
    intros; apply Hall; lia.
Qed.

Lemma find_small_spec s a slot w k n :
  shift_ok s → s < slab_exact_shift → page_form s w a → valid_ptr w (PPage a) = true →
  0 ≤ n → n + Z.of_nat k = map_words s → (∀ d, 0 ≤ d < 64 * n → page_bit s w a d = true) →
  ¬ all_set s w a → found s a w (find_small k (PPage a) n s slot w).
Proof.
  intros Hok Hs Hf Hv. destruct (small_words s Hok Hs) as [Hcnt Hmw].
  revert n. induction k as [|k IH]; intros n H0 Hn Hlow Hna.
  { destruct Hna. intros d Hd. apply Hlow. lia. }
  cbn [find_small]. unfold m_bind at 1. rewrite get_word_ok by (done || lia).
  set (x := sl_words w a n). assert (0 ≤ n < map_words s) as Hnr by lia.
  assert (0 ≤ x < 2 ^ 64) as Hx.
  { unfold chunk_form in Hf. rewrite (proj2 (Z.ltb_lt _ _) Hs) in Hf. by apply Hf. }
  assert (x = SLAB_BUSY → found s a w (find_small k (PPage a) (n + 1) s slot w)) as Hskip.
  { intros Hbusy. apply IH; [lia|lia| |done]. intros d Hd. destruct (decide (d < 64 * n)); [apply Hlow; lia|].
    apply (word_busy_bits s w a n); try done. lia. }
  destruct (Z.eqb_spec x SLAB_BUSY) as [E|E]; [by apply Hskip|].
  pose proof (first_clear_spec 64 0 x) as Hfc. destruct (first_clear 64 0 x) as [i|].
  2: { destruct E. unfold SLAB_BUSY. by apply word_full. }
  destruct Hfc as [Hi Hxi]. change (0 + Z.of_nat 64) with 64 in Hi.
  assert ((n * 64 + i) / 64 = n ∧ (n * 64 + i) mod 64 = i) as [Hdiv Hmod] by (Z.div_mod_to_equations; lia).
  exists (n * 64 + i). set (x' := Z.lor x (Z.shiftl 1 i)).
  set (w1 := upd_stat slot (stat_used 1) (upd_word a n x' w)).
  assert (bit_written s a (n * 64 + i) true w w1) as Hbw.
  { apply (bit_written_stat _ _ _ _ _ (upd_word a n x' w)); [|apply stat_only_upd].
    rewrite <- Hdiv at 2. apply write_word_bit; try done; [lia|]. rewrite Hdiv, Hmod. apply with_bit_set. lia. }
  assert (sl_words w1 a n = x') as Hx'.
  { simpl. by rewrite !bool_decide_eq_true_2. }
  destruct (words_busy_spec k a (n + 1) w1) as (b & Hwb & Hb); [done|lia|lia|].
  replace (n + 1 + Z.of_nat k) with (map_words s) in Hb by lia.
  exists w1, ((x' =? SLAB_BUSY) && b). split; [lia|]. split; [|split; [done|split]].
  - unfold chunk_bit. rewrite (proj2 (Z.ltb_lt _ _) Hs), Hdiv, Hmod. done.
  - rewrite <- Hx'. by apply (small_full s a (n * 64 + i) n w); try apply Hbw.
  - intros w2 Hfull Hd. exists w2. split; [|apply stat_only_refl].
    unfold m_bind. rewrite put_word_ok by (done || lia). unfold m_gets, mod_stat, m_modify. fold x' w1.
    unfold page_type in Hfull. rewrite (proj2 (Z.ltb_lt _ _) Hs) in Hfull.
    destruct (x' =? SLAB_BUSY); cbn [andb] in Hfull.
    + rewrite Hwb. destruct b; [by rewrite Hfull|]. by injection Hfull as <-.
    + by injection Hfull as <-.
Qed.
Lemma find_exact_spec a slot w :
  let s := slab_exact_shift in
  page_form s w a → valid_ptr w (PPage a) = true → ¬ all_set s w a →
  found s a w (find_exact (PPage a) s slot w).
Proof.
  intros s Hf Hv Hna. set (x := pg_slab (sl_nodes w (PPage a))). assert (0 ≤ x < 2 ^ 64) as Hx by exact Hf.
  unfold find_exact, m_bind. rewrite deref_ok by done. fold x.
  pose proof (first_clear_spec 64 0 x) as Hfc. destruct (first_clear 64 0 x) as [i|].
  2: { destruct Hna. intros d Hd. by apply Hfc. }
  destruct Hfc as [Hi Hxi]. change (0 + Z.of_nat 64) with 64 in Hi.
  set (x' := Z.lor x (Z.shiftl 1 i)). set (w1 := with_nodes (upd_at (PPage a) (set_slab x') (sl_nodes w)) w).
  assert (bit_written s a i true w w1) as Hbw.
  { apply write_slab_bit; try done. exact (with_bit_set i x (proj1 Hi)). }
  assert (pg_slab (sl_nodes w1 (PPage a)) = x') as Hs1 by (simpl; by rewrite upd_at_eq).
  exists i, w1, (x' =? SLAB_BUSY). split; [done|]. split; [exact Hxi|]. split; [done|]. split.
  - rewrite Z.eqb_eq. unfold SLAB_BUSY. rewrite word_full; [|done|by apply set_below].
    unfold all_set. change (chunk_count s) with 64. unfold chunk_bit. cbn. by rewrite upd_at_eq.
  - intros w2 Hfull Hd. rewrite upd_ok by done. fold w1.
    change (page_type s) with SLAB_EXACT in Hfull.
    replace ((if x' =? SLAB_BUSY then page_full (PPage a) SLAB_EXACT else m_ret tt) w1) with (Some (tt, w2)).
    unfold m_gets, mod_stat, m_modify, m_ret. simpl. rewrite (sd_start _ _ Hd).
    eexists. split; [done|apply stat_only_upd].
Qed.

Lemma big_full_bits s x :
  shift_ok s → slab_exact_shift < s →
  (∀ b, SLAB_MAP_SHIFT + chunk_count s ≤ b → Z.testbit x b = false) →
  (Z.land x SLAB_MAP_MASK =? big_mask s) = true ↔
  ∀ c, 0 ≤ c < chunk_count s → Z.testbit x (SLAB_MAP_SHIFT + c) = true.
Proof.
  intros Hok Hs Hhi. destruct (big_count s Hok Hs) as [Hc _]. rewrite Z.eqb_eq.
  assert (∀ b, 0 ≤ b → Z.testbit (Z.land x SLAB_MAP_MASK) b = Z.testbit x b && ((32 <=? b) && (b <? 64))) as Hl.
  { intros b Hb. rewrite Z.land_spec. f_equal. unfold SLAB_MAP_MASK. rewrite Z.shiftl_spec by done.
    destruct (Z.leb_spec 32 b), (Z.ltb_spec b 64); simpl.
    - apply Z.ones_spec_low. lia.
    - apply Z.ones_spec_high. lia.
    - apply Z.testbit_neg_r. lia.
    - lia. }
  assert (∀ b, 0 ≤ b → Z.testbit (big_mask s) b = (32 <=? b) && (b <? 32 + chunk_count s)) as Hm.
  { intros b Hb. unfold big_mask, SLAB_MAP_SHIFT. fold (chunk_count s). rewrite Z.shiftl_1_l.
    replace (2 ^ chunk_count s - 1) with (Z.ones (chunk_count s)) by (rewrite Z.ones_equiv; lia).
    rewrite Z.shiftl_spec by done.
    destruct (Z.leb_spec 32 b), (Z.ltb_spec b (32 + chunk_count s)); simpl.
    - apply Z.ones_spec_low. lia.
    - apply Z.ones_spec_high. lia.
    - apply Z.testbit_neg_r. lia.
    - lia. }
  unfold SLAB_MAP_SHIFT in *. split.
  - intros E c Hcc. assert (Z.testbit (Z.land x SLAB_MAP_MASK) (32 + c) = true) as Ht.
    { rewrite E, Hm by lia. apply andb_true_iff. lia. }
    rewrite Hl in Ht by lia. by apply andb_true_iff in Ht as [? _].
  - intros Hall. apply Z.bits_inj'. intros b Hb. rewrite Hl, Hm by done.
    destruct (Z.leb_spec 32 b); simpl; [|apply andb_false_r].
    destruct (Z.ltb_spec b (32 + chunk_count s)).
    + replace b with (32 + (b - 32)) at 1 by lia. rewrite Hall by lia. simpl. lia.
    + by rewrite Hhi by lia.
Qed.

Lemma find_big_spec s a slot w :
  shift_ok s → slab_exact_shift < s → page_form s w a → valid_ptr w (PPage a) = true → ¬ all_set s w a →
  found s a w (find_big (PPage a) s slot w).
Proof.
  intros Hok Hs Hf Hv Hna. set (x := pg_slab (sl_nodes w (PPage a))). destruct (big_count s Hok Hs) as [Hc _].
  assert (∀ w0 c, page_bit s w0 a c = Z.testbit (pg_slab (sl_nodes w0 (PPage a))) (SLAB_MAP_SHIFT + c)) as Hbit.
  { intros w0 c. rewrite chunk_bit_slab by lia. unfold slab_pos. by rewrite (proj2 (Z.eqb_neq s _)) by lia. }
  assert (∀ w0, page_form s w0 a → ∀ b, SLAB_MAP_SHIFT + chunk_count s ≤ b →
    Z.testbit (pg_slab (sl_nodes w0 (PPage a))) b = false) as Hhi.
  { intros w0. unfold chunk_form. rewrite (proj2 (Z.ltb_ge s _)), (proj2 (Z.eqb_neq s _)) by lia. tauto. }
  unfold find_big, m_bind. rewrite deref_ok by done. fold x. fold (chunk_count s).
  pose proof (first_clear_spec (Z.to_nat (chunk_count s)) 32 x) as Hfc. rewrite Z2Nat.id in Hfc by lia.
  destruct (first_clear (Z.to_nat (chunk_count s)) 32 x) as [b|].
  2: { destruct Hna. intros d Hd. rewrite Hbit. apply Hfc. unfold SLAB_MAP_SHIFT. lia. }
  destruct Hfc as [Hb Hxb]. set (x' := Z.lor x (Z.shiftl 1 b)).
  set (w1 := with_nodes (upd_at (PPage a) (set_slab x') (sl_nodes w)) w).
  assert (bit_written s a (b - 32) true w w1) as Hbw.
  { apply write_slab_bit; try done; [lia|lia|]. unfold slab_pos. rewrite (proj2 (Z.eqb_neq s _)) by lia.
    unfold SLAB_MAP_SHIFT. replace (32 + (b - 32)) with b by lia. apply with_bit_set. lia. }
  assert (pg_slab (sl_nodes w1 (PPage a)) = x') as Hs1 by (simpl; by rewrite upd_at_eq).
  exists (b - 32), w1, (Z.land x' SLAB_MAP_MASK =? big_mask s). split; [lia|]. split; [|split; [done|split]].
  - rewrite Hbit. unfold SLAB_MAP_SHIFT. by replace (32 + (b - 32)) with b by lia.
  - rewrite big_full_bits; [|done|done|rewrite <- Hs1; apply Hhi, Hbw].
    unfold all_set. rewrite <- Hs1. split; intros Hall c Hcc; [rewrite Hbit|rewrite <- Hbit]; by apply Hall.
  - intros w2 Hfull Hd. rewrite upd_ok by done. fold w1.
    assert (page_type s = SLAB_BIG) as Hty.
    { unfold page_type. by rewrite (proj2 (Z.ltb_ge s _)), (proj2 (Z.eqb_neq s _)) by lia. }
    rewrite Hty in Hfull.
    replace ((if Z.land x' SLAB_MAP_MASK =? big_mask s then page_full (PPage a) SLAB_BIG else m_ret tt) w1)
      with (Some (tt, w2)).
    unfold m_gets, mod_stat, m_modify, m_ret. simpl. rewrite (sd_start _ _ Hd).
    eexists. split; [done|apply stat_only_upd].
Qed.

Lemma find_chunk_spec s a slot w :
  shift_ok s → page_form s w a → valid_ptr w (PPage a) = true → ¬ all_set s w a →
  found s a w (find_chunk (PPage a) s slot w).
Proof.
  intros Hok Hf Hv Hna. unfold find_chunk. destruct (Z.ltb_spec s slab_exact_shift).
  - destruct (small_words s Hok) as [_ ?]; [done|]. apply find_small_spec; try done; lia.
  - destruct (Z.eqb_spec s slab_exact_shift) as [->|]; [by apply find_exact_spec|].
    apply find_big_spec; try done. lia.
Qed.
