(* ===== verification/SlabAlloc.v ===== *)
(** Allocation by the slab allocator (Slab.v): the chunk or the run it returns was not allocated,
    and is the only change. *)

From S2P Require Import Prelude Slab SlabLists SlabInv SlabPages SlabChunks.

(** ** Pages of chunks *)

Definition slot_of (s : Z) : pgptr := PSlot (s - min_shift).

Lemma slot_is_list s : shift_ok s → is_list (slot_of s) = true.
Proof. intros [??]. simpl. unfold min_shift, pagesize_shift. apply andb_true_iff. lia. Qed.
Lemma slot_list_type s : list_type (slot_of s) = page_type s.
Proof. simpl. f_equal. lia. Qed.
Lemma inl_stale h s u : full s u = false → inl h (Stale (slot_of s) 1) = inl h (Chunks s u).
Proof.
  intros Hf. destruct h as [|i|i]; cbn [inl]; [by rewrite bool_decide_eq_false_2| |by rewrite bool_decide_eq_false_2].
  rewrite Hf. unfold slot_of. destruct (Z.eqb_spec (s - min_shift) i) as [->|]; simpl.
  - by rewrite bool_decide_eq_true_2.
  - apply bool_decide_eq_false_2. congruence.
Qed.

Lemma sinv_chunk_write s1 s u s2 w c v w1 :
  sinv (s1 ++ Chunks s u :: s2) w → full s u = false → bit_written s (total s1) c v w w1 →
  sinv (s1 ++ Stale (slot_of s) 1 :: s2) w1.
Proof.
  intros Hi Hf Hb. pose proof (si_ok _ _ Hi) as [_ [[Hok _] _]%Forall_cons]%Forall_app.
  apply (sinv_local s1 (Chunks s u) (Stale (slot_of s) 1) s2 w w1); try done.
  - apply Hb.
  - split; [by apply slot_is_list|lia].
  - intros h. by apply inl_stale.
  - intros q Hq. apply (bw_nodes _ _ _ _ _ _ Hb). intros ->. specialize (Hq _ eq_refl). simpl in Hq. lia.
  - intros x Hx. apply (bw_words _ _ _ _ _ _ Hb). simpl in Hx. lia.
  - intros _. split; apply Hb.
  - unfold seg_nodes. rewrite slot_list_type, (bw_type _ _ _ _ _ _ Hb). by destruct (seg_nodes_at _ _ _ _ Hi) as [? _].
Qed.

Lemma sinv_chunk_settle s1 s u s2 w :
  sinv (s1 ++ Stale (slot_of s) 1 :: s2) w → shift_ok s → u ⊆ user_chunks s → full s u = false →
  chunk_mem s u (pg_slab (sl_nodes w (PPage (total s1)))) (sl_words w (total s1)) →
  sinv (s1 ++ Chunks s u :: s2) w.
Proof.
  intros Hi Hok Hu Hf Hm. apply (sinv_local s1 (Stale (slot_of s) 1) (Chunks s u) s2 w w); try done.
  - intros h. symmetry. by apply inl_stale.
  - split_and!; [|done|].
    + rewrite <- slot_list_type. apply (seg_nodes_at _ _ _ _ Hi).
    + intros ->. unfold full in Hf. by rewrite bool_decide_eq_true_2 in Hf.
Qed.

Section mem.
Context (s a : Z) (u : gset Z) (w : spool) (Hok : shift_ok s) (Hu : u ⊆ user_chunks s).
Context (Hm : chunk_mem s u (pg_slab (sl_nodes w (PPage a))) (sl_words w a)).

Lemma mem_all_set : all_set s w a ↔ u = user_chunks s.
Proof using Hok Hu Hm.
  destruct Hm as [_ Hb]. destruct (reserved_count s Hok) as [H0 Hr]. split.
  - intros Hall. apply set_eq. intros c. split; [apply Hu|]. rewrite user_elem. intros Hc.
    specialize (Hall c ltac:(lia)). rewrite Hb in Hall by lia. apply bool_decide_eq_true_1 in Hall as [?|?]; [lia|done].
  - intros E d Hd. rewrite Hb by done. apply bool_decide_eq_true_2. rewrite E, user_elem. lia.
Qed.

Lemma mem_free c : 0 ≤ c < chunk_count s → page_bit s w a c = false → c ∈ user_chunks s ∧ c ∉ u.
Proof using Hm.
  intros Hc. destruct Hm as [_ Hb]. rewrite Hb by done. intros Hf%bool_decide_eq_false_1.
  rewrite user_elem. split; [lia|tauto].
Qed.

Lemma mem_add c w1 :
  bit_written s a c true w w1 → c ∈ user_chunks s →
  chunk_mem s ({[c]} ∪ u) (pg_slab (sl_nodes w1 (PPage a))) (sl_words w1 a).
Proof using Hm.
  intros Hbw Hc. split; [apply Hbw|]. intros d Hd. destruct Hm as [_ Hb].
  rewrite (bw_bits _ _ _ _ _ _ Hbw), Hb by done. symmetry. destruct (Z.eqb_spec d c) as [->|Hne].
  - apply bool_decide_eq_true_2. clear. set_solver.
  - apply bool_decide_ext. clear - Hne. set_solver.
Qed.

Lemma mem_remove c w1 :
  bit_written s a c false w w1 → c ∈ user_chunks s →
  chunk_mem s (u ∖ {[c]}) (pg_slab (sl_nodes w1 (PPage a))) (sl_words w1 a).
Proof using Hm.
  intros Hbw Hc. split; [apply Hbw|]. intros d Hd. destruct Hm as [_ Hb].
  rewrite (bw_bits _ _ _ _ _ _ Hbw), Hb by done. symmetry. apply user_elem in Hc.
  destruct (Z.eqb_spec d c) as [->|Hne].
  - apply bool_decide_eq_false_2. clear - Hc. intros [?|?]; [lia|set_solver].
  - apply bool_decide_ext. clear - Hne. set_solver.
Qed.
End mem.
(** A full page leaves the list of its slot. *)
Lemma page_full_spec s1 h s2 w ty :
  sinv (s1 ++ Stale h 1 :: s2) w →
  ∃ w', page_full (PPage (total s1)) ty w = Some (tt, w') ∧ same_dims w w' ∧ sl_pfree w' = sl_pfree w ∧
    sinv (s1 ++ Hole 1 :: s2) w' ∧ sl_words w' = sl_words w ∧
    sl_nodes w' (PPage (total s1)) = SPage (pg_slab (sl_nodes w (PPage (total s1)))) None None ty.
Proof.
  intros Hi. set (a := total s1).
  assert (inl h (Stale h 1) = true) as Hin by (destruct h; cbn [inl]; by apply bool_decide_eq_true_2).
  destruct (sinv_unlink _ _ _ _ _ Hi Hin) as (N & He & Hi1 & Hsl & _). fold a in He.
  unfold page_full, m_bind. rewrite He.
  rewrite upd_ok by (apply (page_valid _ _ _ _ _ Hi1); simpl; subst a; lia).
  eexists. split_and!; [done|by split|done| |done|].
  - eapply sinv_hole_write; [exact Hi1|by split| |done]. intros q Hq. simpl. apply upd_at_ne. intros ->.
    specialize (Hq a eq_refl). unfold outside in Hq. fold a in Hq. lia.
  - simpl. by rewrite upd_at_eq, <- Hsl.
Qed.

(** A chunk of a page with free chunks is taken: one that was free. *)
Lemma take_chunk_spec s1 s u s2 w slot :
  sinv (s1 ++ Chunks s u :: s2) w → full s u = false →
  ∃ c w', find_chunk (PPage (total s1)) s slot w = Some (Some (page_addr w (PPage (total s1)) + Z.shiftl c s), w') ∧
    c ∈ user_chunks s ∧ c ∉ u ∧ same_dims w w' ∧ sl_pfree w' = sl_pfree w ∧
    sinv (s1 ++ Chunks s ({[c]} ∪ u) :: s2) w'.
Proof.
  intros Hi Hf. set (a := total s1). pose proof (si_ok _ _ Hi) as [_ [[Hok Hu] _]%Forall_cons]%Forall_app.
  destruct (seg_nodes_at _ _ _ _ Hi) as (_ & Hm & _). fold a in Hm.
  assert (¬ all_set s w a) as Hna.
  { rewrite (mem_all_set s a u w Hok Hu Hm). unfold full in Hf. by apply bool_decide_eq_false_1 in Hf. }
  assert (valid_ptr w (PPage a) = true) as Hv by (apply (page_valid _ _ _ _ _ Hi); simpl; subst a; lia).
  destruct (find_chunk_spec s a slot w Hok (proj1 Hm) Hv Hna) as (c & w1 & fl & Hc & Hbit & Hbw & Hfl & Hr).
  destruct (mem_free s a u w Hm c Hc Hbit) as [Hcu Hcn].
  pose proof (mem_add s a u w Hm c w1 Hbw Hcu) as Hm1.
  assert ({[c]} ∪ u ⊆ user_chunks s) as Hu1 by (clear - Hu Hcu; set_solver).
  pose proof (sinv_chunk_write _ _ _ _ _ _ _ _ Hi Hf Hbw) as Hi1. rewrite (mem_all_set s a _ w1 Hok Hu1 Hm1) in Hfl.
  assert (∃ w2, (if fl then page_full (PPage a) (page_type s) else m_ret tt) w1 = Some (tt, w2) ∧
    same_dims w1 w2 ∧ sl_pfree w2 = sl_pfree w1 ∧ sinv (s1 ++ Chunks s ({[c]} ∪ u) :: s2) w2) as (w2 & He & Hd2 & Hp2 & Hi2).
  { destruct fl.
    - destruct (page_full_spec _ _ _ _ (page_type s) Hi1) as (w2 & He & Hd & Hp & Hi2 & Hw & Hn). fold a in He, Hn.
      exists w2. split_and!; try done. apply (sinv_fill _ _ _ 1); try done.
      + cbn [linked]. unfold full. by rewrite bool_decide_eq_true_2 by (by apply Hfl).
      + simpl. fold a. rewrite Hn, Hw. by split_and!.
    - exists w1. split_and!; try done. apply sinv_chunk_settle; try done. unfold full.
      apply bool_decide_eq_false_2. intros E%Hfl. done. }
  destruct (Hr w2 He Hd2) as (w3 & -> & Hso). exists c, w3. split_and!; try done.
  - etrans; [apply Hbw|]. etrans; [exact Hd2|apply Hso].
  - rewrite (so_pfree _ _ Hso), Hp2. apply Hbw.
  - by eapply sinv_stat.
Qed.

(** ** A new page of chunks *)

Lemma fill_words_spec k a i v w :
  valid_ptr w (PPage a) = true → 0 ≤ i → i + Z.of_nat k ≤ 512 →
  ∃ w', fill_words k (PPage a) i v w = Some (tt, w') ∧ same_dims w w' ∧ sl_pfree w' = sl_pfree w ∧
    sl_nodes w' = sl_nodes w ∧ (∀ x, x ≠ a → sl_words w' x = sl_words w x) ∧
    ∀ j, sl_words w' a j = if bool_decide (i ≤ j < i + Z.of_nat k) then v else sl_words w a j.
Proof.
  revert i w. induction k as [|k IH]; intros i w Hv H0 Hi; cbn [fill_words].
  - exists w. split_and!; try done. intros j. rewrite bool_decide_eq_false_2 by lia. done.
  - unfold m_bind. rewrite put_word_ok by (done || lia).
    destruct (IH (i + 1) (upd_word a i v w)) as (w' & -> & Hd & Hp & Hn & Hx & Hj); [done|lia|lia|].
    exists w'. split_and!; try done.
    + etrans; [|exact Hd]. by split.
    + intros x Hxa. rewrite Hx by done. simpl. by rewrite bool_decide_eq_false_2.
    + intros j. rewrite Hj. simpl. rewrite (bool_decide_eq_true_2 (a = a)) by done.
      repeat case_bool_decide; try done; lia.
Qed.

(** The words of a new page of small chunks say that its bitmap and its first chunk are taken. *)
Lemma new_words_spec s a w :
  shift_ok s → s < slab_exact_shift → valid_ptr w (PPage a) = true →
  let n := bitmap_chunks s in let i := (n + 1) / 64 in
  ∃ w', (fill_words (Z.to_nat i) (PPage a) 0 SLAB_BUSY ;;;
         put_word (PPage a) i (Z.shiftl 1 ((n + 1) mod 64) - 1) ;;;
         fill_words (Z.to_nat (map_words s - (i + 1))) (PPage a) (i + 1) 0) w = Some (tt, w') ∧
    same_dims w w' ∧ sl_pfree w' = sl_pfree w ∧ sl_nodes w' = sl_nodes w ∧
    (∀ x, x ≠ a → sl_words w' x = sl_words w x) ∧
    chunk_mem s {[reserved s]} s (sl_words w' a).
Proof.
  intros Hok Hs Hv n i. destruct (small_words s Hok Hs) as [Hcnt Hmw].
  assert (1 ≤ n ≤ 8 ∧ reserved s = n) as [Hn Hres].
  { subst n i. clear - Hok Hs. revert s Hok Hs. apply (shift_cases (λ s, _ → _)); by vm_compute. }
  assert (i = 0) as -> by (subst i; Z.div_mod_to_equations; lia). rewrite Z.mod_small by lia.
  unfold m_bind. change (Z.to_nat 0) with 0%nat. cbn [fill_words m_ret]. rewrite put_word_ok by (done || lia).
  destruct (fill_words_spec (Z.to_nat (map_words s - (0 + 1))) a (0 + 1) 0
    (upd_word a 0 (Z.shiftl 1 (n + 1) - 1) w)) as (w' & -> & Hd & Hp & Hnn & Hx & Hj); [done|lia|lia|].
  rewrite Z2Nat.id in Hj by lia.
  exists w'. split_and!; try done.
  - etrans; [|exact Hd]. by split.
  - intros x Hxa. rewrite Hx by done. simpl. by rewrite bool_decide_eq_false_2.
  - replace (Z.shiftl 1 (n + 1) - 1) with (Z.ones (n + 1)) in Hj by (rewrite Z.ones_equiv, Z.shiftl_1_l; lia).
    assert (∀ j, 0 ≤ j < map_words s → sl_words w' a j = if bool_decide (j = 0) then Z.ones (n + 1) else 0) as Hw.
    { intros j Hjr. rewrite Hj. simpl. rewrite (bool_decide_eq_true_2 (a = a)) by done.
      repeat case_bool_decide; try done; lia. }
    split; unfold chunk_form, chunk_bit; rewrite (proj2 (Z.ltb_lt _ _) Hs).
    + split; [done|]. intros j Hjr. rewrite Hw by done. case_bool_decide; [|lia].
      rewrite Z.ones_equiv. split; [pose proof (Z.pow_pos_nonneg 2 (n + 1)); lia|].
      assert (2 ^ (n + 1) ≤ 2 ^ 9) by (apply Z.pow_le_mono_r; lia). lia.
    + intros c Hc. rewrite Hw by (Z.div_mod_to_equations; lia). rewrite Hres. symmetry.
      destruct (decide (c / 64 = 0)) as [E|E];
        [rewrite (bool_decide_eq_true_2 (c / 64 = 0)) by done|rewrite (bool_decide_eq_false_2 (c / 64 = 0)) by done].
      * assert (c < 64) by (clear - E Hc; Z.div_mod_to_equations; lia). rewrite (Z.mod_small c 64) by lia. case_bool_decide as Ec;
          rewrite elem_of_singleton in Ec; symmetry.
        -- apply Z.ones_spec_low. lia.
        -- apply Z.ones_spec_high. lia.
      * rewrite Z.testbit_0_l. apply bool_decide_eq_false_2. rewrite elem_of_singleton.
        Z.div_mod_to_equations; lia.
Qed.
Lemma link_first_spec s1 s u slab s2 w :
  sinv (s1 ++ Hole 1 :: s2) w → shift_ok s → u ⊆ user_chunks s → full s u = false →
  pg_next (sl_nodes w (slot_of s)) = Some (slot_of s) →
  chunk_mem s u slab (sl_words w (total s1)) →
  ∃ w', link_first (PPage (total s1)) (s - min_shift) (page_type s) slab w = Some (tt, w') ∧
    same_dims w w' ∧ sl_pfree w' = sl_pfree w ∧ sinv (s1 ++ Chunks s u :: s2) w'.
Proof.
  intros Hi Hok Hu Hf Hempty Hm. set (a := total s1). pose proof (slot_is_list s Hok) as Hh.
  unfold link_first, m_bind. rewrite upd_ok by (apply (page_valid _ _ _ _ _ Hi); simpl; subst a; lia).
  rewrite upd_ok by (by apply (valid_list _ (slot_of s))). fold (slot_of s).
  eexists. split_and!; [done|by split|done|].
  assert (PPage a ≠ slot_of s) as Hne by done.
  apply (sinv_push s1 1 (Chunks s u) s2 w _ (slot_of s)); fold a; cbn [sl_nodes sl_words with_nodes]; try done.
  - cbn [inl slot_of]. by rewrite Z.eqb_refl, Hf.
  - by rewrite upd_at_eq.
  - by rewrite upd_at_ne, upd_at_eq.
  - rewrite upd_at_ne, upd_at_eq by done. by rewrite Hempty.
  - intros q Hq Hqo. rewrite !upd_at_ne; [done| |done]. intros ->. specialize (Hqo a eq_refl). unfold outside in Hqo. lia.
  - intros x Hx. assert (PPage x ≠ PPage a) by (intros [= ->]; unfold outside in Hx; lia).
    rewrite !upd_at_ne by done. rewrite Hempty, bool_decide_eq_false_2 by done. done.
  - cbv beta zeta delta [seg_nodes] iota. cbn [sl_nodes sl_words with_nodes]. rewrite upd_at_ne, upd_at_eq by done. split_and!; [done|done|].
    intros ->. unfold full in Hf. by rewrite bool_decide_eq_true_2 in Hf.
Qed.

Lemma first_exact : chunk_mem slab_exact_shift {[0]} 1 (λ _, 0).
Proof.
  split; [done|]. intros c Hc. change (chunk_count slab_exact_shift) with 64 in Hc.
  change (Z.testbit (2 ^ 0) c = bool_decide (c < 0 ∨ c ∈ ({[0]} : gset Z))).
  rewrite Z.pow2_bits_eqb by done. destruct (Z.eqb_spec 0 c); symmetry.
  - apply bool_decide_eq_true_2. set_solver.
  - apply bool_decide_eq_false_2. rewrite elem_of_singleton. lia.
Qed.

Lemma first_big s words :
  shift_ok s → slab_exact_shift < s → chunk_mem s {[0]} (Z.lor (Z.shiftl 1 SLAB_MAP_SHIFT) s) words.
Proof.
  intros Hok Hs. destruct (big_count s Hok Hs) as [Hc Hs16]. rewrite Z.lor_comm.
  assert (∀ b, 5 ≤ b → Z.testbit s b = false) as Hhi by (apply below_bits; lia).
  assert (∀ b, 0 ≤ b → Z.testbit (Z.lor s (Z.shiftl 1 SLAB_MAP_SHIFT)) b = (b =? 32) || Z.testbit s b) as Hb.
  { intros b Hb. by apply bit_set. }
  split.
  - unfold chunk_form. rewrite (proj2 (Z.ltb_ge s _)), (proj2 (Z.eqb_neq s _)) by lia. unfold SLAB_MAP_SHIFT in *.
    split_and!.
    + apply Z.lor_nonneg. split; [lia|done].
    + intros b Hb32. rewrite Hb by lia. by destruct (Z.eqb_spec b 32); [lia|].
    + intros b Hb32. rewrite Hb, Hhi by lia. by destruct (Z.eqb_spec b 32); [lia|].
  - intros c Hcc. rewrite chunk_bit_slab by lia. unfold slab_pos, reserved.
    rewrite (proj2 (Z.ltb_ge s _)), (proj2 (Z.eqb_neq s _)) by lia. unfold SLAB_MAP_SHIFT in *.
    rewrite Hb, Hhi, orb_false_r by lia. symmetry. destruct (Z.eqb_spec (32 + c) 32).
    + apply bool_decide_eq_true_2. right. apply elem_of_singleton. lia.
    + apply bool_decide_eq_false_2. rewrite elem_of_singleton. lia.
Qed.

Lemma first_not_full s : shift_ok s → {[reserved s]} ⊆ user_chunks s ∧ full s {[reserved s]} = false.
Proof.
  intros Hok. destruct (reserved_count s Hok) as [H0 Hr]. split.
  - intros c ->%elem_of_singleton. apply user_elem. lia.
  - apply bool_decide_eq_false_2. intros E. assert (reserved s + 1 ∈ user_chunks s) as Hin by (apply user_elem; lia).
    rewrite <- E in Hin. apply elem_of_singleton in Hin. lia.
Qed.

Lemma new_chunk_page_spec s1 s s2 w :
  sinv (s1 ++ Busy 1 :: s2) w → shift_ok s → pg_next (sl_nodes w (slot_of s)) = Some (slot_of s) →
  ∃ w', new_chunk_page (PPage (total s1)) s (s - min_shift) w =
      Some (page_addr w (PPage (total s1)) + Z.shiftl (reserved s) s, w') ∧
    same_dims w w' ∧ sl_pfree w' = sl_pfree w ∧ sinv (s1 ++ Chunks s {[reserved s]} :: s2) w'.
Proof.
  intros Hi Hok Hempty. apply sinv_open in Hi as Hh; [|done]. cbn [seg_len] in Hh. set (a := total s1).
  destruct (first_not_full s Hok) as [Hu Hf].
  assert (valid_ptr w (PPage a) = true) as Hv by (apply (page_valid _ _ _ _ _ Hi); simpl; subst a; lia).
  unfold new_chunk_page. destruct (Z.ltb_spec s slab_exact_shift) as [Hs|Hs].
  - destruct (new_words_spec s a w Hok Hs Hv) as (w1 & Hw & Hd1 & Hp1 & Hn1 & Hx1 & Hm1).
    assert (sinv (s1 ++ Hole 1 :: s2) w1) as Hi1.
    { eapply sinv_hole_write; [exact Hh|done|by rewrite Hn1|]. intros x Hx. apply Hx1. unfold outside in Hx. subst a. lia. }
    destruct (link_first_spec _ s _ s _ _ Hi1 Hok Hu Hf ltac:(by rewrite Hn1) Hm1) as (w2 & He & Hd2 & Hp2 & Hi2).
    unfold page_type in He. rewrite (proj2 (Z.ltb_lt _ _) Hs) in He. fold a in He.
    unfold m_bind, m_gets in Hw |- *.
    destruct (fill_words _ _ 0 _ w) as [[[] wa]|]; [|done]. destruct (put_word _ _ _ wa) as [[[] wb]|]; [|done].
    rewrite Hw, He. unfold mod_stat, m_modify, m_ret. eexists. split; [|split_and!].
    + unfold reserved. by rewrite (proj2 (Z.ltb_lt _ _) Hs).
    + etrans; [exact Hd1|etrans; [exact Hd2|by split]].
    + simpl. congruence.
    + eapply sinv_stat; [exact Hi2|by split].
  - destruct (Z.eqb_spec s slab_exact_shift) as [->|Hne].
    + destruct (link_first_spec _ slab_exact_shift {[0]} 1 _ _ Hh Hok Hu Hf Hempty first_exact) as (w2 & He & Hd2 & Hp2 & Hi2).
      change (page_type slab_exact_shift) with SLAB_EXACT in He. fold a in He.
      unfold m_bind, m_gets. rewrite He. unfold mod_stat, m_modify, m_ret. eexists. split; [|split_and!].
      * change (reserved slab_exact_shift) with 0. rewrite Z.shiftl_0_l. by rewrite Z.add_0_r.
      * etrans; [exact Hd2|by split].
      * done.
      * eapply sinv_stat; [exact Hi2|by split].
    + assert (reserved s = 0) as Hr0 by (unfold reserved; by rewrite (proj2 (Z.ltb_ge _ _) Hs)).
      rewrite Hr0 in *. assert (slab_exact_shift < s) as Hbig by lia.
      destruct (link_first_spec _ s {[0]} _ _ _ Hh Hok Hu Hf Hempty (first_big s _ Hok Hbig)) as (w2 & He & Hd2 & Hp2 & Hi2).
      unfold page_type in He. rewrite (proj2 (Z.ltb_ge _ _) Hs), (proj2 (Z.eqb_neq _ _) Hne) in He. fold a in He.
      unfold m_bind, m_gets. rewrite He. unfold mod_stat, m_modify, m_ret. eexists. split; [|split_and!].
      * rewrite Z.shiftl_0_l. by rewrite Z.add_0_r.
      * etrans; [exact Hd2|by split].
      * done.
      * eapply sinv_stat; [exact Hi2|by split].
Qed.
(** ** The pool between operations *)

(** No free run follows a free run; [f] says whether the sequence follows one. *)
Definition is_free (sg : seg) : bool := match sg with Free _ => true | _ => false end.
Fixpoint joined (f : bool) (segs : list seg) : Prop :=
  match segs with
  | [] => True
  | sg :: segs' => f && is_free sg = false ∧ joined (is_free sg) segs'
  end.
Definition last_free (f : bool) (segs : list seg) : bool :=
  match last segs with Some sg => is_free sg | None => f end.

Lemma joined_mono f segs : joined f segs → joined false segs.
Proof. destruct segs; simpl; [done|]. by intros [_ ?]. Qed.
Lemma last_free_cons f sg segs : last_free f (sg :: segs) = last_free (is_free sg) segs.
Proof. unfold last_free. by destruct segs as [|sg2 segs]; [|rewrite last_cons_cons; destruct (last (sg2 :: segs)) eqn:E; [|apply last_None in E]]. Qed.
Lemma joined_app f s1 s2 : joined f (s1 ++ s2) ↔ joined f s1 ∧ joined (last_free f s1) s2.
Proof.
  revert f. induction s1 as [|sg s1 IH]; intros f; simpl; [tauto|].
  rewrite IH, last_free_cons. tauto.
Qed.
Lemma joined_nonfree f sg segs : is_free sg = false → joined f (sg :: segs) ↔ joined false segs.
Proof. intros Hf. simpl. rewrite Hf, andb_false_r. tauto. Qed.
Lemma joined_rest n segs : joined true segs → joined false (rest n ++ segs).
Proof. intros Hj. unfold rest. case_match; simpl; [by eapply joined_mono|done]. Qed.

Record pool_ok (segs : list seg) (w : spool) : Prop := PoolOk {
  po_inv : sinv segs w;
  po_settled : Forall settled segs;
  po_joined : joined false segs;
  po_pfree : sl_pfree w = free_pages segs
}.

Lemma live_mid a s1 sg s2 :
  live a (s1 ++ sg :: s2) =
    live a s1 ++ seg_blocks (a + pagesize * total s1) sg ++ live (a + pagesize * (total s1 + seg_len sg)) s2.
Proof. rewrite live_app. simpl. do 3 f_equal. lia. Qed.

Lemma live_rest a n s2 : live a (rest n ++ s2) = live (a + pagesize * n) s2.
Proof. unfold rest. destruct (Z.eqb_spec n 0) as [->|]; simpl; f_equal; lia. Qed.
Lemma free_rest n s2 : free_pages (rest n ++ s2) = n + free_pages s2.
Proof. unfold rest. destruct (Z.eqb_spec n 0) as [->|]; simpl; lia. Qed.
Lemma settled_rest n : Forall settled (rest n).
Proof. unfold rest. case_match; by repeat constructor. Qed.
Lemma page_addr_at w x : page_addr w (PPage x) = sl_start w + pagesize * x.
Proof. unfold page_addr. rewrite Z.shiftl_mul_pow2 by done. unfold pagesize. lia. Qed.

(** One more chunk of a page is live. *)
Lemma live_chunk a s1 s u s2 c :
  c ∉ u → live a (s1 ++ Chunks s ({[c]} ∪ u) :: s2) ≡ₚ
    chunk_block (a + pagesize * total s1) s c :: live a (s1 ++ Chunks s u :: s2).
Proof.
  intros Hc. rewrite !live_mid. cbn [seg_blocks seg_len]. rewrite elements_union_singleton by done.
  cbn [fmap list_fmap app]. by rewrite <- Permutation_middle.
Qed.

(** The slot of a size: chunks of its shift are large enough, and no larger than needed. *)
Lemma size_slot_ok size :
  0 ≤ size ≤ slab_max_size →
  ∃ s, size_slot size = (s, s - min_shift) ∧ shift_ok s ∧ size ≤ 2 ^ s ∧ (s = min_shift ∨ 2 ^ (s - 1) < size).
Proof.
  intros Hsz. assert (Forall (λ x, let '(s, slot) := size_slot x in
    slot = s - min_shift ∧ 3 ≤ s ≤ 11 ∧ x ≤ 2 ^ s ∧ (s = min_shift ∨ 2 ^ (s - 1) < x)) (seqZ 0 2049)) as Hall.
  { apply (bool_decide_unpack _). by vm_compute. }
  rewrite Forall_forall in Hall. specialize (Hall size). destruct (size_slot size) as [s slot].
  destruct Hall as (-> & ? & ? & ?); [apply elem_of_seqZ; change slab_max_size with 2048 in Hsz; lia|].
  by exists s.
Qed.

(** A list without elements. *)
Lemma heads_nil P x segs : heads P x segs = [] ↔ Forall (λ sg, P sg = false) segs.
Proof.
  revert x. induction segs as [|sg segs IH]; intros x; simpl; [done|].
  rewrite Forall_cons, <- (IH (x + seg_len sg)). destruct (P sg); simpl; naive_solver.
Qed.
Lemma list_empty segs w h :
  sinv segs w → is_list h = true →
  pg_next (sl_nodes w h) = Some h ↔ Forall (λ sg, inl h sg = false) segs.
Proof.
  intros Hi Hh. destruct (si_lists _ _ Hi h Hh) as [l [Hl Hd]]. rewrite <- (heads_nil _ 0). split.
  - intros E. destruct l as [|x l]; [by apply Permutation_nil_l in Hl|].
    rewrite fmap_cons in Hd. destruct Hd as [Hd _]. rewrite E in Hd. injection Hd as ->. done.
  - intros E. rewrite E in Hl. apply Permutation_nil_r in Hl as ->. exact Hd.
Qed.

(** The first page of a slot's list has free chunks. *)
Lemma slot_first segs w s :
  sinv segs w → Forall settled segs → shift_ok s →
  (pg_next (sl_nodes w (slot_of s)) = Some (slot_of s) ∧
   Forall (λ sg, match sg with Chunks s' u => s' = s → full s' u = true | _ => True end) segs) ∨
  ∃ s1 u s2, segs = s1 ++ Chunks s u :: s2 ∧ full s u = false ∧
    pg_next (sl_nodes w (slot_of s)) = Some (PPage (total s1)) ∧
    pg_next (sl_nodes w (PPage (total s1))) ≠ Some (PPage (total s1)).
Proof.
  intros Hi Hset Hok. destruct (si_lists _ _ Hi _ (slot_is_list s Hok)) as [l Hl].
  pose proof (proj2 Hl) as Hd. pose proof (list_nodup _ _ Hi _ _ (slot_is_list s Hok) Hl) as Hnd.
  destruct l as [|x l].
  - left. split; [by apply Hd|]. apply Forall_forall. intros sg (s1 & s2 & ->)%list_elem_of_split.
    destruct sg as [| |s' u| |]; try done. intros ->. destruct (full s u) eqn:Hf; [done|]. exfalso.
    assert (total s1 ∈ heads (inl (slot_of s)) 0 (s1 ++ Chunks s u :: s2)) as Hin.
    { apply heads_elem. exists s1, (Chunks s u), s2. split_and!; [done| |done].
      cbn [inl slot_of]. by rewrite Z.eqb_refl, Hf. }
    apply (list_elem _ _ _ _ _ Hl) in Hin. by apply elem_of_nil in Hin.
  - right. assert (x ∈ heads (inl (slot_of s)) 0 segs) as (s1 & sg & s2 & -> & HP & ->)%heads_elem.
    { apply (list_elem _ _ _ _ _ Hl). by left. }
    apply Forall_app in Hset as [_ [Hsg _]%Forall_cons]. destruct sg as [| |s' u| |]; try done.
    apply andb_true_iff in HP as [Hs' Hf%negb_true_iff]. apply Z.eqb_eq in Hs'.
    assert (s' = s) as -> by lia. rewrite Z.add_0_l in *. rewrite fmap_cons in Hd, Hnd. destruct Hd as (Hn & _ & Hd).
    exists s1, u, s2. split_and!; [done|done|done|]. rewrite (dll_next _ _ _ _ Hd). intros [= E].
    destruct l as [|y l]; [done|]. simplify_eq/=.
    apply NoDup_cons in Hnd as [_ [Hnd _]%NoDup_cons]. apply Hnd. rewrite <- E. by left.
Qed.
(** The accounts when the first pages of a free run become another segment. *)
Lemma pool_take s1 n s2 k sg w w' :
  pool_ok (s1 ++ Free n :: s2) w → settled sg → seg_len sg = k → (∀ m, sg ≠ Free m) → 1 ≤ k ≤ n →
  sinv (s1 ++ sg :: rest (n - k) ++ s2) w' → sl_pfree w' = u32 (sl_pfree w - k) →
  pool_ok (s1 ++ sg :: rest (n - k) ++ s2) w' ∧
  ∀ a, live a (s1 ++ sg :: rest (n - k) ++ s2) ≡ₚ
         seg_blocks (a + pagesize * total s1) sg ++ live a (s1 ++ Free n :: s2).
Proof.
  intros [Hi Hset Hj Hp] Hsg Hlen Hnf Hk Hi' Hp'. apply Forall_app in Hset as [Hs1 [_ Hs2]%Forall_cons].
  pose proof (free_pages_range _ (si_ok _ _ Hi)) as Hr. rewrite (si_total _ _ Hi) in Hr.
  pose proof (si_small _ _ Hi) as Hsm. rewrite free_pages_app in Hp, Hr. simpl in Hp, Hr.
  assert (free_pages (s1 ++ sg :: rest (n - k) ++ s2) = free_pages s1 + (n - k) + free_pages s2) as Hfp.
  { rewrite free_pages_app. simpl. rewrite free_rest. destruct sg; try lia. by destruct (Hnf n0). }
  pose proof (free_pages_range _ (si_ok _ _ Hi')) as Hr'.
  split; [split; [done| | |]|].
  - apply Forall_app. split; [done|]. constructor; [done|]. apply Forall_app. split; [apply settled_rest|done].
  - rewrite joined_app in Hj |- *. destruct Hj as [H1 [_ H2]]. split; [done|]. apply joined_nonfree.
    + destruct sg; try done. by destruct (Hnf n0).
    + by apply joined_rest.
  - rewrite Hp', Hp, Hfp. unfold u32. rewrite wrap_small; lia.
  - intros a. rewrite !live_mid. cbn [seg_blocks]. rewrite live_rest, Hlen. cbn [app seg_len].
    replace (a + pagesize * (total s1 + k) + pagesize * (n - k)) with (a + pagesize * (total s1 + n)) by lia.
    by rewrite Permutation_app_swap_app.
Qed.

Definition pages_of (size : Z) : Z := Z.shiftr size pagesize_shift + (if size mod pagesize =? 0 then 0 else 1).

Lemma pages_of_ok size : slab_max_size < size → 1 ≤ pages_of size ∧ pagesize * pages_of size - pagesize < size ≤ pagesize * pages_of size.
Proof.
  intros Hs. change slab_max_size with 2048 in Hs. unfold pages_of, pagesize, pagesize_shift.
  rewrite Z.shiftr_div_pow2 by done. change (2 ^ 12) with 4096. destruct (Z.eqb_spec (size mod 4096) 0);
    Z.div_mod_to_equations; lia.
Qed.

(** What an allocation that fails says about the pool. *)
Definition exhausted (size : Z) (segs : list seg) : Prop :=
  if slab_max_size <? size then no_run (pages_of size) segs
  else no_run 1 segs ∧
       Forall (λ sg, match sg with Chunks s u => s = (size_slot size).1 → full s u = true | _ => True end) segs.

(** An allocation returns a block that is large enough and only that block becomes live, or fails
    and changes nothing. *)
Definition alloc_post (size : Z) (segs : list seg) (w : spool) (r : option Z) (w' : spool) : Prop :=
  match r with
  | Some p => ∃ segs' cap, pool_ok segs' w' ∧ cap - pagesize < size ≤ cap ∧ live (sl_start w) segs' ≡ₚ (p, cap) :: live (sl_start w) segs
  | None => pool_ok segs w' ∧ exhausted size segs
  end.

Lemma alloc_run_ok segs w size :
  pool_ok segs w → slab_max_size < size →
  ∃ r w', ngx_slab_alloc_locked size w = Some (r, w') ∧ same_dims w w' ∧ alloc_post size segs w r w'.
Proof.
  intros Hok Hsz. destruct (pages_of_ok size Hsz) as [Hk Hcap]. unfold ngx_slab_alloc_locked, alloc_post, exhausted.
  rewrite (proj2 (Z.ltb_lt _ _) Hsz). fold (pages_of size).
  destruct (alloc_pages_spec _ _ _ (po_inv _ _ Hok) (po_settled _ _ Hok) Hk)
    as [[He Hno]|(s1 & n & s2 & w' & -> & Hn & He & Hd & Hi & Hp)]; unfold m_bind; rewrite He.
  - by exists None, w.
  - unfold m_gets, m_ret. eexists _, w'. split_and!; [done|done|].
    destruct (pool_take s1 n s2 (pages_of size) (Busy (pages_of size)) w w') as [Hok' Hl]; try done.
    eexists _, (pagesize * pages_of size). split_and!; [exact Hok'|apply Hcap|apply Hcap|]. rewrite Hl. cbn [seg_blocks app].
    by rewrite page_addr_at, (sd_start _ _ Hd).
Qed.

Lemma alloc_new_page_ok segs w s :
  pool_ok segs w → shift_ok s → pg_next (sl_nodes w (slot_of s)) = Some (slot_of s) →
  (∃ w', ngx_slab_alloc_pages 1 w = Some (None, w') ∧ stat_only w w' ∧ no_run 1 segs) ∨
  ∃ page w1 p w' segs', ngx_slab_alloc_pages 1 w = Some (Some page, w1) ∧
    new_chunk_page page s (s - min_shift) w1 = Some (p, w') ∧ same_dims w w' ∧ pool_ok segs' w' ∧
    live (sl_start w) segs' ≡ₚ (p, 2 ^ s) :: live (sl_start w) segs.
Proof.
  intros Hok Hs Hempty.
  destruct (alloc_pages_spec _ _ _ (po_inv _ _ Hok) (po_settled _ _ Hok) (Z.le_refl 1))
    as [[He Hno]|(s1 & n & s2 & w1 & -> & Hn & He & Hd & Hi & Hp)]; rewrite He.
  - left. exists w. split_and!; [done|apply stat_only_refl|done].
  - right.
    assert (pg_next (sl_nodes w1 (slot_of s)) = Some (slot_of s)) as Hempty1.
    { apply (list_empty _ _ _ Hi (slot_is_list s Hs)).
      apply (list_empty _ _ _ (po_inv _ _ Hok) (slot_is_list s Hs)), Forall_app in Hempty as [H1 [_ H2]%Forall_cons].
      apply Forall_app. split; [done|]. constructor; [done|]. apply Forall_app. split; [|done].
      unfold rest. case_match; by repeat constructor. }
    destruct (new_chunk_page_spec _ s _ _ Hi Hs Hempty1) as (w' & He' & Hd' & Hp' & Hi').
    destruct (pool_take s1 n s2 1 (Chunks s {[reserved s]}) w w') as [Hok' Hl];
      [done|simpl; clear; set_solver|done|done|lia|done|congruence|].
    eexists _, w1, _, w', _. split_and!; [done|exact He'|by etrans|exact Hok'|].
    rewrite Hl. cbn [seg_blocks]. rewrite elements_singleton. cbn [fmap list_fmap app].
    unfold chunk_block. by rewrite page_addr_at, (sd_start _ _ Hd).
Qed.
Lemma pool_ok_stat segs w w' : pool_ok segs w → stat_only w w' → pool_ok segs w'.
Proof. intros [] Hs. split; [by eapply sinv_stat|done|done|]. by rewrite (so_pfree _ _ Hs). Qed.

Lemma free_pages_chunks s1 s u v s2 : free_pages (s1 ++ Chunks s u :: s2) = free_pages (s1 ++ Chunks s v :: s2).
Proof. by rewrite !free_pages_app. Qed.

Lemma joined_chunks s1 s u v s2 : joined false (s1 ++ Chunks s u :: s2) → joined false (s1 ++ Chunks s v :: s2).
Proof. by rewrite !joined_app, !joined_nonfree. Qed.

Lemma alloc_chunk_ok segs w size :
  pool_ok segs w → 0 ≤ size ≤ slab_max_size →
  ∃ r w', ngx_slab_alloc_locked size w = Some (r, w') ∧ same_dims w w' ∧ alloc_post size segs w r w'.
Proof.
  intros Hok Hsz. destruct (size_slot_ok size Hsz) as (s & Hss & Hs & Hcap & _).
  assert (2 ^ s - pagesize < size) as Hlow.
  { pose proof (chunk_size s Hs). pose proof (reserved_count s Hs). change pagesize with 4096 in *. nia. }
  unfold ngx_slab_alloc_locked, alloc_post, exhausted. rewrite (proj2 (Z.ltb_ge _ _)) by lia. rewrite Hss.
  set (w0 := upd_stat (s - min_shift) stat_reqs w). assert (pool_ok segs w0) as Hok0 by by eapply pool_ok_stat.
  unfold m_bind at 1. unfold mod_stat, m_modify at 1. fold w0.
  unfold m_bind at 1. rewrite deref_ok by (by apply (valid_list _ (slot_of s)), slot_is_list). fold (slot_of s).
  destruct (slot_first _ _ s (po_inv _ _ Hok0) (po_settled _ _ Hok0) Hs)
    as [[Hempty Hfull]|(s1 & u & s2 & -> & Hf & Hn & Hnn)].
  - rewrite Hempty. unfold m_bind at 1. rewrite deref_ok by (by apply (valid_list _ (slot_of s)), slot_is_list).
    rewrite Hempty. unfold m_bind at 1. rewrite bool_decide_eq_false_2 by (intros Hne; by apply Hne).
    unfold m_ret at 1. unfold m_bind at 1.
    destruct (alloc_new_page_ok segs w0 s Hok0 Hs Hempty)
      as [(w1 & He & Hso & Hno)|(page & w1 & p & w' & segs' & He & He' & Hd & Hok' & Hl)]; rewrite He.
    + eexists None, _. split_and!; [done| | |done|done].
      * transitivity w0; [by split|]. etrans; [apply (so_dims _ _ Hso)|]. by split.
      * eapply pool_ok_stat; [|apply stat_only_upd]. by eapply pool_ok_stat.
    + unfold m_bind. rewrite He'. eexists (Some p), w'.
      split_and!; [done|by transitivity w0|]. exists segs', (2 ^ s). split; [done|]. by split; [split|].
  - rewrite Hn. unfold m_bind at 1. pose proof (po_inv _ _ Hok0) as Hi.
    rewrite deref_ok by (apply (page_valid _ _ _ _ _ Hi); simpl; lia). unfold m_bind at 1.
    rewrite bool_decide_eq_true_2 by done. unfold m_bind at 1.
    destruct (take_chunk_spec _ _ _ _ _ (s - min_shift) Hi Hf) as (c & w' & He & Hcu & Hcn & Hd & Hp & Hi').
    rewrite He. unfold m_ret. eexists (Some _), w'. split_and!; [done|by transitivity w0|].
    eexists _, (2 ^ s). split_and!; [split; [exact Hi'| | |]|done|done|].
    + pose proof (po_settled _ _ Hok0) as [H1 [_ H2]%Forall_cons]%Forall_app.
      apply Forall_app. split; [done|]. constructor; [|done]. simpl. clear. set_solver.
    + eapply joined_chunks, Hok0.
    + rewrite Hp, (po_pfree _ _ Hok0). apply free_pages_chunks.
    + rewrite live_chunk by done. unfold chunk_block. by rewrite page_addr_at.
Qed.

Lemma alloc_ok segs w size :
  pool_ok segs w → 0 ≤ size →
  ∃ r w', ngx_slab_alloc_locked size w = Some (r, w') ∧ same_dims w w' ∧ alloc_post size segs w r w'.
Proof.
  intros Hok Hsz. destruct (Z.lt_ge_cases slab_max_size size); [by apply alloc_run_ok|by apply alloc_chunk_ok].
Qed.
