(* ===== verification/SlabFree.v ===== *)
(** Release by the slab allocator (Slab.v): a live block given back is the only block that is live no
    more, and the pages that are free then are joined with the free runs around them. *)

From S2P Require Import Prelude Slab SlabLists SlabInv SlabPages SlabChunks SlabAlloc.

(** ** A page joins its slot's list *)

Lemma sinv_unsettle s1 s u s2 w :
  sinv (s1 ++ Chunks s u :: s2) w → full s u = false → sinv (s1 ++ Stale (slot_of s) 1 :: s2) w.
Proof.
  intros Hi Hf. pose proof (si_ok _ _ Hi) as [_ [[Hok _] _]%Forall_cons]%Forall_app.
  apply (sinv_local s1 (Chunks s u) (Stale (slot_of s) 1) s2 w w); try done.
  - split; [by apply slot_is_list|lia].
  - intros h. by apply inl_stale.
  - unfold seg_nodes. rewrite slot_list_type. by destruct (seg_nodes_at _ _ _ _ Hi) as [? _].
Qed.

Lemma sinv_stale_write s1 h s2 w s c v w1 :
  sinv (s1 ++ Stale h 1 :: s2) w → bit_written s (total s1) c v w w1 → sinv (s1 ++ Stale h 1 :: s2) w1.
Proof.
  intros Hi Hb. pose proof (si_ok _ _ Hi) as [_ [Hok _]%Forall_cons]%Forall_app.
  apply (sinv_local s1 (Stale h 1) (Stale h 1) s2 w w1); try done.
  - apply Hb.
  - intros q Hq. apply (bw_nodes _ _ _ _ _ _ Hb). intros ->. specialize (Hq _ eq_refl). simpl in Hq. lia.
  - intros x Hx. apply (bw_words _ _ _ _ _ _ Hb). simpl in Hx. lia.
  - intros _. split; apply Hb.
  - unfold seg_nodes. rewrite (bw_type _ _ _ _ _ _ Hb). apply (seg_nodes_at _ _ _ _ Hi).
Qed.

(** The descriptors [relink] leaves; [b] was the first of the list [h]. *)
Definition relinked (a h b : pgptr) (t : Z) (N : nodes) : nodes :=
  upd_at b (set_prev (Some a) t)
    (upd_at a (set_prev (Some h) t) (upd_at h (set_next (Some a)) (upd_at a (set_next (Some b)) N))).

Lemma relink_eq w a s b t :
  shift_ok s → valid_ptr w (PPage a) = true → valid_ptr w b = true → b ≠ PPage a →
  pg_next (sl_nodes w (slot_of s)) = Some b →
  relink (PPage a) (s - min_shift) t w =
    Some (tt, with_nodes (relinked (PPage a) (slot_of s) b t (sl_nodes w)) w).
Proof.
  intros Hs Hv Hvb Hba Hb. pose proof (valid_list w _ (slot_is_list s Hs)) as Hvs.
  unfold relink, m_bind. fold (slot_of s). rewrite deref_ok, Hb by done. do 3 rewrite upd_ok by done.
  rewrite deref_ok by done. cbn [sl_nodes with_nodes]. rewrite upd_at_eq, upd_at_ne, upd_at_eq by done.
  cbn [set_next set_prev pg_next upd_opt]. by rewrite upd_ok.
Qed.

Lemma relink_spec s1 s u s2 w :
  sinv (s1 ++ Chunks s u :: s2) w → full s u = true →
  ∃ w', relink (PPage (total s1)) (s - min_shift) (page_type s) w = Some (tt, w') ∧
    same_dims w w' ∧ sl_pfree w' = sl_pfree w ∧ sinv (s1 ++ Stale (slot_of s) 1 :: s2) w' ∧
    sl_words w' = sl_words w ∧
    pg_slab (sl_nodes w' (PPage (total s1))) = pg_slab (sl_nodes w (PPage (total s1))).
Proof.
  intros Hi Hf. pose proof (si_ok _ _ Hi) as [_ [[Hok _] _]%Forall_cons]%Forall_app. set (a := total s1).
  apply sinv_open in Hi as Hh; [|cbn [linked]; by rewrite Hf]. cbn [seg_len] in Hh.
  pose proof (slot_is_list s Hok) as Hls. destruct (si_lists _ _ Hh _ Hls) as [l Hl].
  destruct (list_first _ _ _ _ Hls Hl) as (b & Hb & Hbl & Hbi).
  assert (∀ x, b = PPage x → outside a 1 x ∧ x ∈ heads (inl (slot_of s)) 0 (s1 ++ Hole 1 :: s2)) as Hbo.
  { intros x ->. apply elem_of_cons in Hbi as [?|(? & [= <-] & Hx)%list_elem_of_fmap]; [done|]. split.
    - exact (list_outside _ (Hole 1) _ _ (slot_of s) _ x Hh eq_refl Hl Hx).
    - by apply (list_elem _ _ _ _ _ Hl). }
  assert (b ≠ PPage a) as Hba by (intros E; destruct (Hbo a E) as [Ho _]; unfold outside in Ho; lia).
  assert (PPage a ≠ slot_of s) as Hne by done.
  rewrite (relink_eq w a s b).
  2: done. 2: by apply (page_valid _ _ _ _ _ Hi); simpl; subst a; lia.
  2: exact (list_valid _ _ Hh (slot_of s) l b Hls Hl Hbi). 2: done. 2: done.
  set (N' := relinked (PPage a) (slot_of s) b (page_type s) (sl_nodes w)).
  assert (pg_slab (N' (PPage a)) = pg_slab (sl_nodes w (PPage a))) as Hslab.
  { subst N'. unfold relinked. rewrite upd_at_ne, upd_at_eq, upd_at_ne, upd_at_eq by done. done. }
  eexists. split_and!; [done|by split|done| |done|exact Hslab].
  apply (sinv_push s1 1 (Stale (slot_of s) 1) s2 w _ (slot_of s)); fold a; cbn [sl_nodes sl_words with_nodes]; try done.
  - by apply bool_decide_eq_true_2.
  - subst N'. unfold relinked, upd_at. repeat case_bool_decide; try done; congruence.
  - subst N'. unfold relinked. rewrite upd_at_ne, upd_at_eq by done. done.
  - subst N'. unfold relinked. rewrite upd_at_ne, upd_at_eq, upd_at_ne, upd_at_eq by done. done.
  - intros q Hq Hqo. assert (q ≠ PPage a) by (intros ->; specialize (Hqo a eq_refl); unfold outside in Hqo; lia).
    subst N'. unfold relinked, upd_at. by repeat case_bool_decide.
  - intros x Hx. assert (PPage x ≠ PPage a) by (intros [= ->]; unfold outside in Hx; lia).
    assert (PPage x ≠ slot_of s) by done. rewrite Hb.
    subst N'. unfold relinked. destruct (decide (PPage x = b)) as [E|E].
    + rewrite <- E, upd_at_eq, !upd_at_ne, bool_decide_eq_true_2 by done. split_and!; [done| |done]. simpl.
      rewrite <- slot_list_type. symmetry. apply (list_page_type _ _ Hh). by apply Hbo.
    + rewrite !upd_at_ne by done. rewrite bool_decide_eq_false_2 by congruence. done.
  - unfold seg_nodes. cbn [sl_nodes with_nodes]. rewrite slot_list_type. subst N'. unfold relinked.
    by rewrite upd_at_ne, upd_at_eq by done.
Qed.
Lemma relink_if s1 s u s2 w :
  sinv (s1 ++ Chunks s u :: s2) w →
  ∃ w', (if full s u then relink (PPage (total s1)) (s - min_shift) (page_type s) else m_ret tt) w = Some (tt, w') ∧
    same_dims w w' ∧ sl_pfree w' = sl_pfree w ∧ sinv (s1 ++ Stale (slot_of s) 1 :: s2) w' ∧
    sl_words w' = sl_words w ∧
    pg_slab (sl_nodes w' (PPage (total s1))) = pg_slab (sl_nodes w (PPage (total s1))).
Proof.
  intros Hi. destruct (full s u) eqn:Hf; [by apply relink_spec with u|].
  exists w. split_and!; try done. by eapply sinv_unsettle.
Qed.

(** A page of chunks is in its slot's list just if it is not full. *)
Lemma next_full s1 s u s2 w :
  sinv (s1 ++ Chunks s u :: s2) w →
  match pg_next (sl_nodes w (PPage (total s1))) with None => full s u = true | Some _ => full s u = false end.
Proof.
  intros Hi. pose proof (si_ok _ _ Hi) as [_ [[Hok _] _]%Forall_cons]%Forall_app.
  destruct (full s u) eqn:Hf.
  - destruct (seg_nodes_at _ _ _ _ Hi) as (_ & _ & ->); [done|]. by apply bool_decide_eq_true_1 in Hf.
  - assert (inl (slot_of s) (Chunks s u) = true) as Hin by (cbn [inl slot_of]; by rewrite Z.eqb_refl, Hf).
    by destruct (head_links _ _ _ _ _ Hi Hin) as (? & ? & _ & _ & _ & -> & _).
Qed.

(** ** The accounts after pages are joined *)

Lemma total_rest n : total (rest n) = n.
Proof. unfold rest. destruct (Z.eqb_spec n 0); simpl; lia. Qed.

Lemma live_rest_nil a n : live a (rest n) = [].
Proof. unfold rest. by case_match. Qed.
Lemma free_rest_nil n : free_pages (rest n) = n.
Proof. unfold rest. destruct (Z.eqb_spec n 0); simpl; lia. Qed.

Lemma live_joined a t1 c1 sg c2 t2 :
  live a ((t1 ++ rest c1) ++ sg :: rest c2 ++ t2) ≡ₚ
    seg_blocks (a + pagesize * total (t1 ++ rest c1)) sg ++ live a (t1 ++ Free (c1 + (seg_len sg + c2)) :: t2).
Proof.
  rewrite live_mid, live_app, live_rest_nil, app_nil_r, live_rest, live_mid. cbn [seg_blocks app seg_len].
  rewrite total_app, total_rest.
  replace (a + pagesize * (total t1 + c1 + seg_len sg) + pagesize * c2)
    with (a + pagesize * (total t1 + (c1 + (seg_len sg + c2)))) by lia.
  by rewrite Permutation_app_swap_app.
Qed.

Lemma free_joined t1 c1 sg c2 t2 :
  (∀ m, sg ≠ Free m) →
  free_pages (t1 ++ Free (c1 + (seg_len sg + c2)) :: t2) =
    free_pages ((t1 ++ rest c1) ++ sg :: rest c2 ++ t2) + seg_len sg.
Proof.
  intros Hsg. rewrite !free_pages_app, free_rest_nil.
  cbn [free_pages foldr]. fold (free_pages (rest c2 ++ t2)). fold (free_pages t2). rewrite free_rest.
  destruct sg; try lia. by destruct (Hsg n).
Qed.

Lemma settled_joined t1 c1 c2 t2 n :
  Forall settled (t1 ++ rest c1) → Forall settled (rest c2 ++ t2) → Forall settled (t1 ++ Free n :: t2).
Proof.
  intros [H1 _]%Forall_app [_ H2]%Forall_app. apply Forall_app. split; [done|]. by constructor.
Qed.

Lemma joined_joined s1 sg s2 t1 c1 c2 t2 n :
  Forall seg_ok (s1 ++ sg :: s2) → joined false (s1 ++ sg :: s2) → is_free sg = false →
  s1 = t1 ++ rest c1 → s2 = rest c2 ++ t2 → c1 = trail_free s1 → c2 = lead_free s2 →
  joined false (t1 ++ Free n :: t2).
Proof.
  intros [Ho1 [_ Ho2]%Forall_cons]%Forall_app Hj Hsg E1 E2 Hc1 Hc2. rewrite joined_app in Hj |- *.
  destruct Hj as [H1 H2]. rewrite joined_nonfree in H2 by done.
  assert (joined false t1 ∧ last_free false t1 = false) as [Hj1 Hl].
  { destruct (decide (c1 = 0)) as [->|Hne].
    - rewrite app_nil_r in E1. subst t1. split; [done|]. unfold last_free, trail_free in *.
      destruct (last s1) as [[m| | | |]|] eqn:El; try done. apply last_Some_elem_of in El.
      rewrite Forall_forall in Ho1. apply Ho1 in El. simpl in El. lia.
    - unfold rest in E1. rewrite (proj2 (Z.eqb_neq _ _) Hne) in E1. subst s1. apply joined_app in H1 as [H1 [Hf _]].
      split; [done|]. by rewrite andb_true_r in Hf. }
  split; [done|]. rewrite Hl. split; [done|]. cbn [is_free].
  destruct (decide (c2 = 0)) as [->|Hne].
  - cbn [rest app Z.eqb] in E2. subst t2. destruct s2 as [|[m| | | |] s2]; try done.
    apply Forall_cons in Ho2 as [Hm _]. simpl in *. lia.
  - unfold rest in E2. rewrite (proj2 (Z.eqb_neq _ _) Hne) in E2. subst s2. by destruct H2 as [_ H2].
Qed.

(** Pages are given back that were a segment [sg] of the pool. *)
Lemma free_pages_ok s1 sg s2 w w1 w2 :
  pool_ok (s1 ++ sg :: s2) w → (∀ m, sg ≠ Free m) →
  release_pages (PPage (total s1)) (seg_len sg) w1 = Some (tt, w2) →
  same_dims w w1 → sl_pfree w1 = sl_pfree w → same_dims w1 w2 → sl_pfree w2 = u32 (sl_pfree w1 + seg_len sg) →
  sinv (s1 ++ Hole (seg_len sg) :: s2) w2 → loose w2 (total s1) (seg_len sg) →
  ∃ w' segs', ngx_slab_free_pages (PPage (total s1)) (seg_len sg) w1 = Some (tt, w') ∧ same_dims w w' ∧
    pool_ok segs' w' ∧
    ∀ a, live a (s1 ++ sg :: s2) ≡ₚ seg_blocks (a + pagesize * total s1) sg ++ live a segs'.
Proof.
  intros [Hi Hset Hj Hp] Hnf He Hd1 Hp1 Hd2 Hp2 Hi2 Hl. pose proof Hset as [Hs1 [_ Hs2]%Forall_cons]%Forall_app.
  destruct (free_pages_spec _ _ _ _ _ He Hd2 Hi2 Hl Hs1 Hs2) as (w' & t1 & c1 & c2 & t2 & He' & Hd' & Hp' & E1 & E2 & Hc1 & Hc2 & Hi').
  assert (is_free sg = false) as Hsf by (destruct sg; try done; by destruct (Hnf n)).
  pose proof (joined_joined _ _ _ _ _ _ _ (c1 + (seg_len sg + c2)) (si_ok _ _ Hi) Hj Hsf E1 E2 Hc1 Hc2) as Hj'.
  clear Hc1 Hc2. subst s1 s2.
  exists w', (t1 ++ Free (c1 + (seg_len sg + c2)) :: t2). split_and!; [done|by etrans| |].
  - split; [done|by eapply settled_joined|done|]. rewrite free_joined by done.
    pose proof (free_pages_range _ (si_ok _ _ Hi')) as Hr. rewrite (si_total _ _ Hi') in Hr.
    pose proof (si_small _ _ Hi') as Hsm. rewrite free_joined in Hr by done.
    rewrite Hp', Hp2, Hp1, Hp. apply (wrap_small 32). lia.
  - intros a. apply live_joined.
Qed.
(** ** Allocated runs *)

Lemma ptr_page st a r : 0 ≤ r < pagesize → Z.shiftr (st + pagesize * a + r - st) pagesize_shift = a.
Proof.
  intros Hr. change pagesize with 4096 in *. rewrite Z.shiftr_div_pow2 by done. change (2 ^ pagesize_shift) with 4096.
  Z.div_mod_to_equations. lia.
Qed.
Lemma ptr_off st a r : st mod pagesize = 0 → 0 ≤ r < pagesize → Z.land (st + pagesize * a + r) (pagesize - 1) = r.
Proof.
  intros Hst Hr. change (pagesize - 1) with (Z.ones 12). rewrite Z.land_ones by done. change (2 ^ 12) with pagesize.
  change pagesize with 4096 in *. Z.div_mod_to_equations. lia.
Qed.

(** The mark of an allocated run. *)
Lemma start_mark n :
  0 ≤ n < 2 ^ 32 →
  Z.land (Z.lor n SLAB_PAGE_START) SLAB_PAGE_START ≠ 0 ∧ Z.lor n SLAB_PAGE_START ≠ SLAB_PAGE_BUSY ∧
  Z.ldiff (Z.lor n SLAB_PAGE_START) SLAB_PAGE_START = n.
Proof.
  intros Hn. apply below_bits in Hn as [H0 Hhi]; [|done]. unfold SLAB_PAGE_START, SLAB_PAGE_BUSY.
  rewrite <- (Z.shiftl_1_l 63). split_and!.
  - apply Z.eqb_neq. rewrite bit_test, bit_set by done. done.
  - intros E. assert (Z.testbit (Z.lor n (Z.shiftl 1 63)) 40 = false) as Hb by (rewrite bit_set, Hhi by lia; done).
    rewrite E, Z.ones_spec_low in Hb by lia. done.
  - apply Z.bits_inj'. intros b Hb. rewrite bit_clear, bit_set by done.
    destruct (Z.eqb_spec b 63) as [E|]; cbn [negb andb orb]; [|done]. symmetry. apply Hhi. lia.
Qed.

Lemma free_run_ok s1 n s2 w :
  pool_ok (s1 ++ Busy n :: s2) w →
  let p := sl_start w + pagesize * total s1 in
  ∃ w' segs', free_page_run (PPage (total s1)) p w = Some (tt, w') ∧ same_dims w w' ∧ pool_ok segs' w' ∧
    ∀ a, live a (s1 ++ Busy n :: s2) ≡ₚ (a + pagesize * total s1, pagesize * n) :: live a segs'.
Proof.
  intros Hok p. pose proof (po_inv _ _ Hok) as Hi. pose proof (si_ok _ _ Hi) as [Ho1 [Hn Ho2]%Forall_cons]%Forall_app.
  simpl in Hn. assert (n < 2 ^ 32) as Hn32.
  { pose proof (si_small _ _ Hi). pose proof (si_total _ _ Hi) as Ht. rewrite total_app in Ht. simpl in Ht.
    apply total_nonneg in Ho1, Ho2. lia. }
  destruct (seg_nodes_at _ _ _ _ Hi) as [Hnd _]. destruct (start_mark n ltac:(lia)) as (Hm1 & Hm2 & Hm3).
  destruct (release_busy _ _ _ _ Hi) as (w2 & He & Hd & Hp & Hi2 & Hl).
  destruct (free_pages_ok s1 (Busy n) s2 w w w2 Hok) as (w' & segs' & He' & Hd' & Hok' & Hlive); try done.
  exists w', segs'. split_and!; try done. unfold free_page_run, m_bind.
  rewrite deref_ok by (apply (page_valid _ _ _ _ _ Hi); simpl; lia).
  replace (Z.land p (pagesize - 1)) with 0.
  2: { subst p. rewrite <- (ptr_off (sl_start w) (total s1) 0) at 1; [by rewrite Z.add_0_r|apply Hi|done]. }
  rewrite Hnd. cbn [pg_slab]. rewrite Z.eqb_refl, (proj2 (Z.eqb_neq _ _) Hm1), (proj2 (Z.eqb_neq _ _) Hm2), Hm3.
  done.
Qed.
(** ** Chunks *)

Section chunk_ptr.
Context (st a s c : Z) (Hst : st mod pagesize = 0) (Hs : shift_ok s) (Hc : 0 ≤ c < chunk_count s).
Let p := st + pagesize * a + Z.shiftl c s.

Lemma chunk_off_range : 0 ≤ Z.shiftl c s < pagesize.
Proof using Hs Hc.
  clear - Hs Hc. pose proof (chunk_size s Hs) as Hsz. destruct Hs as [H3 _]. rewrite Z.shiftl_mul_pow2 by lia.
  assert (0 < 2 ^ s) by (apply Z.pow_pos_nonneg; lia). nia.
Qed.
Lemma chunk_ptr_page : Z.shiftr (p - st) pagesize_shift = a.
Proof using Hs Hc. apply ptr_page, chunk_off_range. Qed.
Lemma chunk_ptr_off : Z.land p (pagesize - 1) = Z.shiftl c s.
Proof using Hst Hs Hc. apply ptr_off; [done|apply chunk_off_range]. Qed.
Lemma chunk_ptr_index : Z.shiftr (Z.land p (pagesize - 1)) s = c.
Proof using Hst Hs Hc.
  rewrite chunk_ptr_off. destruct Hs. rewrite Z.shiftr_shiftl_l by lia. by rewrite Z.sub_diag, Z.shiftl_0_r.
Qed.
Lemma chunk_ptr_aligned : Z.land p (Z.shiftl 1 s - 1) = 0.
Proof using Hst Hs Hc.
  pose proof (chunk_size s Hs) as Hsz. destruct Hs as [H3 _]. rewrite Z.shiftl_1_l.
  replace (2 ^ s - 1) with (Z.ones s) by (rewrite Z.ones_equiv; lia). rewrite Z.land_ones by lia.
  apply Z.mod_divide in Hst as [q Hq]; [|done]. subst p. rewrite Hq, <- Hsz, Z.shiftl_mul_pow2 by lia.
  replace (q * (chunk_count s * 2 ^ s) + chunk_count s * 2 ^ s * a + c * 2 ^ s)
    with ((q * chunk_count s + chunk_count s * a + c) * 2 ^ s) by lia.
  apply Z.mod_mul. pose proof (Z.pow_pos_nonneg 2 s). lia.
Qed.
End chunk_ptr.

(** Is a chunk of the page still allocated? *)
Definition chunk_used (s : Z) (w : spool) (a : Z) : Prop := ∃ d, reserved s ≤ d < chunk_count s ∧ page_bit s w a d = true.

Lemma mem_used s a u w :
  shift_ok s → u ⊆ user_chunks s → chunk_mem s u (pg_slab (sl_nodes w (PPage a))) (sl_words w a) →
  chunk_used s w a ↔ u ≠ ∅.
Proof.
  intros Hs Hu [_ Hb]. pose proof (reserved_count s Hs) as [H0 _]. split.
  - intros (d & Hd & Ht) ->. rewrite Hb in Ht by lia. apply bool_decide_eq_true_1 in Ht as [?|?]; [lia|set_solver].
  - intros (d & Hd)%set_choose_L. exists d. apply Hu in Hd as Hd'. apply user_elem in Hd'. split; [done|].
    rewrite Hb by lia. apply bool_decide_eq_true_2. by right.
Qed.

(** What a release does once the bit of the chunk is clear. *)
Lemma finish_free s1 s u s2 c w w1 (used : bool) slot f g :
  let a := total s1 in let u' := u ∖ {[c]} in
  pool_ok (s1 ++ Chunks s u :: s2) w → c ∈ u → same_dims w w1 → sl_pfree w1 = sl_pfree w →
  sinv (s1 ++ Stale (slot_of s) 1 :: s2) w1 →
  chunk_mem s u' (pg_slab (sl_nodes w1 (PPage a))) (sl_words w1 a) → (used = true ↔ chunk_used s w1 a) →
  ∃ w' segs', ((if used then m_ret tt else ngx_slab_free_pages (PPage a) 1 ;;; mod_stat slot f) ;;; mod_stat slot g) w1
      = Some (tt, w') ∧ same_dims w w' ∧ pool_ok segs' w' ∧
    ∀ b, live b (s1 ++ Chunks s u :: s2) ≡ₚ chunk_block (b + pagesize * a) s c :: live b segs'.
Proof.
  intros a u' Hok Hc Hd Hp Hi Hm Hused. pose proof (si_ok _ _ (po_inv _ _ Hok)) as [_ [[Hs Hu] _]%Forall_cons]%Forall_app.
  assert (u' ⊆ user_chunks s ∧ u = {[c]} ∪ u' ∧ c ∉ u') as (Hu' & Hueq & Hcn).
  { subst u'. split_and!; [clear - Hu; set_solver| |clear; set_solver]. apply set_eq. intros x.
    rewrite elem_of_union, elem_of_difference, elem_of_singleton. destruct (decide (x = c)) as [->|]; tauto. }
  rewrite (mem_used s a u' w1 Hs Hu' Hm) in Hused.
  destruct used; unfold m_bind, mod_stat, m_modify.
  - assert (u' ≠ ∅) as Hne by (by apply Hused).
    assert (full s u' = false) as Hf.
    { apply bool_decide_eq_false_2. intros E. apply Hcn. rewrite E. by apply Hu. }
    eexists _, (s1 ++ Chunks s u' :: s2). split; [done|]. split; [by transitivity w1|]. split.
    + eapply pool_ok_stat; [|apply stat_only_upd]. split; [by apply sinv_chunk_settle| |eapply joined_chunks, Hok|].
      * pose proof (po_settled _ _ Hok) as [H1 [_ H2]%Forall_cons]%Forall_app. apply Forall_app. by repeat constructor.
      * rewrite Hp, (po_pfree _ _ Hok). apply free_pages_chunks.
    + intros b. rewrite Hueq at 1. by apply live_chunk.
  - assert (u' = ∅) as He by (apply dec_stable; intros Hn; by apply Hused in Hn).
    destruct (release_chunks _ _ _ _ Hi) as (w2 & Hr & Hd2 & Hp2 & Hi2 & Hl).
    destruct (free_pages_ok s1 (Chunks s u) s2 w w1 w2 Hok) as (w' & segs' & He' & Hd' & Hok' & Hlive); try done.
    cbn [seg_len] in He'. fold a in He'. rewrite He'.
    eexists _, segs'. split; [done|]. split; [by transitivity w'|]. split.
    + eapply pool_ok_stat; [|apply stat_only_upd]. by eapply pool_ok_stat; [|apply stat_only_upd].
    + intros b. rewrite Hlive. cbn [seg_blocks]. rewrite Hueq, He, union_empty_r_L, elements_singleton. done.
Qed.
Definition chunk_freed (s1 : list seg) (s : Z) (u : gset Z) (s2 : list seg) (c : Z) (w : spool)
    (r : option (unit * spool)) : Prop :=
  ∃ w' segs', r = Some (tt, w') ∧ same_dims w w' ∧ pool_ok segs' w' ∧
    ∀ b, live b (s1 ++ Chunks s u :: s2) ≡ₚ chunk_block (b + pagesize * total s1) s c :: live b segs'.

Lemma words_used_spec k a i w :
  valid_ptr w (PPage a) = true → 0 ≤ i → i + Z.of_nat k ≤ 512 →
  ∃ b, words_used k (PPage a) i w = Some (b, w) ∧
    (b = true ↔ ∃ j, i ≤ j < i + Z.of_nat k ∧ sl_words w a j ≠ 0).
Proof.
  intros Hv. revert i. induction k as [|k IH]; intros i H0 Hi; cbn [words_used].
  - exists false. split; [done|]. split; [done|]. intros (j & Hj & _). lia.
  - unfold m_bind. rewrite get_word_ok by (done || lia). destruct (Z.eqb_spec (sl_words w a i) 0) as [E|E].
    + destruct (IH (i + 1)) as (b & -> & Hb); [lia|lia|]. exists b. split; [done|]. rewrite Hb. split.
      * intros (j & Hj & Hne). exists j. split; [lia|done].
      * intros (j & Hj & Hne). exists j. split; [|done]. destruct (decide (j = i)) as [->|]; [done|lia].
    + exists true. split; [done|]. split; [|done]. intros _. exists i. split; [lia|done].
Qed.

Lemma nonzero_bit x n : 0 ≤ n → 0 ≤ x < 2 ^ n → x ≠ 0 ↔ ∃ b, 0 ≤ b < n ∧ Z.testbit x b = true.
Proof.
  intros Hn Hx. split.
  - intros Hne. exists (Z.log2 x). split; [|apply Z.bit_log2; lia].
    split; [apply Z.log2_nonneg|]. apply Z.log2_lt_pow2; lia.
  - intros (b & _ & Hb) ->. by rewrite Z.testbit_0_l in Hb.
Qed.

(** The test whether a page of small chunks is used: the bits after the bitmap's own. *)
Lemma small_used_spec s a w :
  shift_ok s → s < slab_exact_shift → page_form s w a → valid_ptr w (PPage a) = true →
  let n := bitmap_chunks s in let i := n / 64 in let m := Z.shiftl 1 (n mod 64) - 1 in
  ∃ b, (x <- get_word (PPage a) i ;;
        if negb (Z.ldiff x m =? 0) then m_ret true
        else words_used (Z.to_nat (map_words s - (i + 1))) (PPage a) (i + 1)) w = Some (b, w) ∧
    (b = true ↔ chunk_used s w a).
Proof.
  intros Hs Hlt Hf Hv n i m. destruct (small_words s Hs Hlt) as [Hcnt Hmw].
  assert (1 ≤ n ≤ 8 ∧ reserved s = n) as [Hn Hres].
  { subst n i m. clear - Hs Hlt. revert s Hs Hlt. apply (shift_cases (λ s, _ → _)); by vm_compute. }
  assert (i = 0) as -> by (subst i; Z.div_mod_to_equations; lia).
  assert (m = Z.ones n) as -> by (subst m; rewrite Z.mod_small, Z.shiftl_1_l, Z.ones_equiv by lia; lia).
  unfold chunk_form in Hf. rewrite (proj2 (Z.ltb_lt _ _) Hlt) in Hf. destruct Hf as [_ Hf].
  assert (∀ d, page_bit s w a d = Z.testbit (sl_words w a (d / 64)) (d mod 64)) as Hbit.
  { intros d. unfold chunk_bit. by rewrite (proj2 (Z.ltb_lt _ _) Hlt). }
  set (x := sl_words w a 0). unfold m_bind. rewrite get_word_ok by (done || lia). fold x.
  destruct (words_used_spec (Z.to_nat (map_words s - (0 + 1))) a (0 + 1) w) as (b & Hb & Hbu); [done|lia|lia|].
  rewrite Z2Nat.id in Hbu by lia.
  assert (Z.ldiff x (Z.ones n) ≠ 0 ↔ ∃ d, n ≤ d < 64 ∧ Z.testbit x d = true) as Hlow.
  { pose proof (Hf 0 ltac:(lia)) as Hx. fold x in Hx. rewrite (nonzero_bit _ 64); [|done|].
    - apply exist_proper. intros d. destruct (decide (0 ≤ d < n)).
      + rewrite Z.ldiff_spec, Z.ones_spec_low, andb_false_r by lia. split; [by intros [_ ?]|lia].
      + destruct (decide (0 ≤ d)); [|split; lia]. rewrite Z.ldiff_spec, Z.ones_spec_high, andb_true_r by lia.
        split; intros [? ?]; (split; [lia|done]).
    - apply below_bits in Hx as [Hx0 Hx]; [|done]. apply below_bits; [done|]. split.
      + apply Z.ldiff_nonneg. by left.
      + intros d Hd. by rewrite Z.ldiff_spec, Hx by done. }
  exists (negb (Z.ldiff x (Z.ones n) =? 0) || b).
  split; [by destruct (Z.ldiff x (Z.ones n) =? 0)|].
  rewrite orb_true_iff, negb_true_iff, Z.eqb_neq, Hlow, Hbu. unfold chunk_used. rewrite Hres. split.
  - intros [(d & Hd & Ht)|(j & Hj & Hne)].
    + exists d. split; [lia|]. rewrite Hbit, Z.div_small, Z.mod_small by lia. done.
    + apply (nonzero_bit _ 64) in Hne as (e & He & Ht); [|done|apply Hf; lia].
      exists (64 * j + e). split; [lia|]. rewrite Hbit.
      replace ((64 * j + e) / 64) with j by (Z.div_mod_to_equations; lia).
      by replace ((64 * j + e) mod 64) with e by (Z.div_mod_to_equations; lia).
  - intros (d & Hd & Ht). rewrite Hbit in Ht. destruct (decide (d < 64)) as [Hd64|Hd64].
    + left. exists d. split; [lia|]. by rewrite Z.div_small, Z.mod_small in Ht by lia.
    + right. exists (d / 64). split; [Z.div_mod_to_equations; lia|]. intros E. by rewrite E, Z.testbit_0_l in Ht.
Qed.
Section free_chunk.
Context (s1 : list seg) (s : Z) (u : gset Z) (s2 : list seg) (c : Z) (w : spool).
Context (Hok : pool_ok (s1 ++ Chunks s u :: s2) w) (Hc : c ∈ u).
Let a := total s1.
Let p := sl_start w + pagesize * a + Z.shiftl c s.

(** What holds of the page, its chunk and the pointer. *)
Record chunk_facts : Prop := ChunkFacts {
  cf_shift : shift_ok s;
  cf_sub : u ⊆ user_chunks s;
  cf_user : c ∈ user_chunks s;
  cf_range : 0 ≤ c < chunk_count s;
  cf_aligned : Z.land p (Z.shiftl 1 s - 1) = 0;
  cf_index : Z.shiftr (Z.land p (pagesize - 1)) s = c;
  cf_page : Z.shiftr (p - sl_start w) pagesize_shift = a;
  cf_valid : valid_ptr w (PPage a) = true;
  cf_mem : chunk_mem s u (pg_slab (sl_nodes w (PPage a))) (sl_words w a);
  cf_bit : page_bit s w a c = true
}.
Lemma chunk_facts_hold : chunk_facts.
Proof using Hok Hc.
  pose proof (po_inv _ _ Hok) as Hi. pose proof (si_ok _ _ Hi) as [_ [[Hs Hu] _]%Forall_cons]%Forall_app.
  pose proof (Hu c Hc) as Hcu. apply user_elem in Hcu as Hr. pose proof (reserved_count s Hs) as [H0 _].
  assert (0 ≤ c < chunk_count s) as Hrg by lia. destruct (si_start _ _ Hi) as [_ Hst].
  destruct (seg_nodes_at _ _ _ _ Hi) as (_ & Hm & _).
  split; try done; [by apply chunk_ptr_aligned|by apply chunk_ptr_index|by apply chunk_ptr_page| |].
  - apply (page_valid _ _ _ _ _ Hi). simpl. subst a. lia.
  - destruct Hm as [_ Hb]. rewrite Hb by lia. apply bool_decide_eq_true_2. by right.
Qed.

(** The page is put in its slot's list if need be and the bit of the chunk is cleared. *)
Lemma cleared w1 w2 :
  same_dims w w1 → sl_pfree w1 = sl_pfree w → sinv (s1 ++ Stale (slot_of s) 1 :: s2) w1 →
  sl_words w1 = sl_words w → pg_slab (sl_nodes w1 (PPage a)) = pg_slab (sl_nodes w (PPage a)) →
  bit_written s a c false w1 w2 →
  same_dims w w2 ∧ sl_pfree w2 = sl_pfree w ∧ sinv (s1 ++ Stale (slot_of s) 1 :: s2) w2 ∧
  chunk_mem s (u ∖ {[c]}) (pg_slab (sl_nodes w2 (PPage a))) (sl_words w2 a).
Proof using Hok Hc.
  intros Hd Hp Hi Hw Hsl Hb. destruct chunk_facts_hold. split_and!.
  - etrans; [done|apply Hb].
  - rewrite (bw_pfree _ _ _ _ _ _ Hb). done.
  - by eapply sinv_stale_write.
  - apply (mem_remove s a u w1); [by rewrite Hw, Hsl|done|done].
Qed.

Lemma free_small_ok : s < slab_exact_shift → chunk_freed s1 s u s2 c w (free_small (PPage a) p w).
Proof using Hok Hc.
  intros Hlt. destruct chunk_facts_hold as [Hs Hu Hcu Hr Hal Hix _ Hv Hm Hbit]. pose proof (po_inv _ _ Hok) as Hi.
  destruct (small_words s Hs Hlt) as [Hcnt Hmw]. destruct (reserved_count s Hs) as [H0 _].
  assert (pg_slab (sl_nodes w (PPage a)) = s) as Hslab.
  { destruct Hm as [Hf _]. unfold chunk_form in Hf. rewrite (proj2 (Z.ltb_lt _ _) Hlt) in Hf. apply Hf. }
  assert (Z.land s SLAB_SHIFT_MASK = s) as Hland.
  { clear - Hs. revert s Hs. apply (shift_cases (λ s, _)); done. }
  assert (0 ≤ c / 64 < map_words s ∧ 0 ≤ c mod 64) as [Hn Hmod] by (Z.div_mod_to_equations; lia).
  assert (Z.testbit (sl_words w a (c / 64)) (c mod 64) = true) as Hbit'.
  { unfold chunk_bit in Hbit. by rewrite (proj2 (Z.ltb_lt _ _) Hlt) in Hbit. }
  unfold free_small. unfold m_bind at 1. rewrite deref_ok, Hslab, Hland by done.
  rewrite Hal, Hix, Z.eqb_refl. cbn [negb]. unfold m_bind at 1. rewrite get_word_ok by (done || lia).
  rewrite bit_test, Hbit' by done. cbn [negb].
  destruct (relink_if _ _ _ _ _ Hi) as (w1 & He & Hd1 & Hp1 & Hi1 & Hw1 & Hs1). fold a in He, Hs1.
  assert ((match pg_next (sl_nodes w (PPage a)) with
           | Some _ => m_ret tt | None => relink (PPage a) (s - min_shift) SLAB_SMALL end) w = Some (tt, w1)) as He'.
  { pose proof (next_full _ _ _ _ _ Hi) as Hnf. fold a in Hnf. unfold page_type in He.
    rewrite (proj2 (Z.ltb_lt _ _) Hlt) in He. by destruct (pg_next _); rewrite Hnf in He. }
  assert (valid_ptr w1 (PPage a) = true) as Hv1.
  { apply valid_page. rewrite (sd_npages _ _ Hd1). by apply valid_page. }
  unfold m_bind at 1. rewrite He'. unfold m_bind at 1. rewrite get_word_ok, Hw1 by (done || lia).
  unfold m_bind at 1. rewrite put_word_ok by (done || lia).
  set (w2 := upd_word a (c / 64) _ w1). assert (bit_written s a c false w1 w2) as Hb.
  { apply write_word_bit; try done; [rewrite Hw1, Hs1; apply Hm|]. rewrite Hw1. by apply with_bit_clear. }
  destruct (cleared _ _ Hd1 Hp1 Hi1 Hw1 Hs1 Hb) as (Hd2 & Hp2 & Hi2 & Hm2).
  destruct (small_used_spec s a w2 Hs Hlt (proj1 Hm2) Hv1) as (b & Hu2 & Hused).
  destruct (finish_free s1 s u s2 c w w2 b (s - min_shift)
    (stat_total (- (Z.shiftr pagesize s - bitmap_chunks s))) (stat_used (-1)) Hok Hc Hd2 Hp2 Hi2 Hm2 Hused)
    as (w' & segs' & Hfin & Hrest).
  exists w', segs'. split; [|exact Hrest].
  unfold m_bind at 1 in Hu2. unfold m_bind at 1. destruct (get_word _ _ w2) as [[x w2']|]; [|done].
  unfold m_bind at 1. rewrite Hu2. exact Hfin.
Qed.
(** The common end of the releases of exact and big chunks. *)
Lemma clear_slab w1 slot f g (used : spool → bool) :
  slab_exact_shift ≤ s → same_dims w w1 → sl_pfree w1 = sl_pfree w →
  sinv (s1 ++ Stale (slot_of s) 1 :: s2) w1 →
  sl_words w1 = sl_words w → pg_slab (sl_nodes w1 (PPage a)) = pg_slab (sl_nodes w (PPage a)) →
  (∀ w2, page_form s w2 a → used w2 = true ↔ chunk_used s w2 a) →
  chunk_freed s1 s u s2 c w
    ((upd (PPage a) (λ pg, set_slab (Z.ldiff (pg_slab pg) (Z.shiftl 1 (slab_pos s c))) pg) ;;;
      w2 <- m_get ;;
      (if used w2 then m_ret tt else ngx_slab_free_pages (PPage a) 1 ;;; mod_stat slot f) ;;;
      mod_stat slot g) w1).
Proof using Hok Hc.
  intros Hge Hd1 Hp1 Hi1 Hw1 Hs1 Hused. destruct chunk_facts_hold as [Hs Hu Hcu Hr _ _ _ Hv Hm _].
  assert (valid_ptr w1 (PPage a) = true) as Hv1.
  { apply valid_page. rewrite (sd_npages _ _ Hd1). by apply valid_page. }
  unfold m_bind at 1. rewrite upd_ok by done.
  set (x' := Z.ldiff (pg_slab (sl_nodes w1 (PPage a))) (Z.shiftl 1 (slab_pos s c))).
  set (w2 := with_nodes (upd_at (PPage a) (λ pg, set_slab _ pg) (sl_nodes w1)) w1).
  assert (bit_written s a c false w1 (with_nodes (upd_at (PPage a) (set_slab x') (sl_nodes w1)) w1)) as Hb0.
  { apply write_slab_bit; try done; [rewrite Hw1, Hs1; apply Hm|]. apply with_bit_clear.
    unfold slab_pos, SLAB_MAP_SHIFT. case_match; lia. }
  assert (bit_written s a c false w1 w2) as Hb.
  { destruct Hb0 as [? ? Hbn ? ? ? ? Hbf Hbb]. cbn [sl_nodes sl_words with_nodes] in *. rewrite !upd_at_eq in *.
    split; cbn [w2 sl_nodes sl_words with_nodes]; rewrite ?upd_at_eq; try done.
    intros q Hq. by apply upd_at_ne. }
  destruct (cleared _ _ Hd1 Hp1 Hi1 Hw1 Hs1 Hb) as (Hd2 & Hp2 & Hi2 & Hm2).
  destruct (finish_free s1 s u s2 c w w2 (used w2) slot f g Hok Hc Hd2 Hp2 Hi2 Hm2 (Hused w2 (proj1 Hm2)))
    as (w' & segs' & Hfin & Hrest).
  exists w', segs'. split; [exact Hfin|exact Hrest].
Qed.

Lemma free_exact_ok : s = slab_exact_shift → chunk_freed s1 s u s2 c w (free_exact (PPage a) p w).
Proof using Hok Hc.
  intros Hse. destruct chunk_facts_hold as [Hs Hu Hcu Hr Hal Hix _ Hv Hm Hbit]. pose proof (po_inv _ _ Hok) as Hi.
  assert (∀ w0, page_form s w0 a → 0 ≤ pg_slab (sl_nodes w0 (PPage a)) < 2 ^ 64) as Hrng.
  { intros w0 Hf. unfold chunk_form in Hf. rewrite Hse in Hf. exact Hf. }
  assert (∀ w0 d, page_bit s w0 a d = Z.testbit (pg_slab (sl_nodes w0 (PPage a))) d) as Hbits.
  { intros w0 d. rewrite Hse. done. }
  assert (chunk_count s = 64 ∧ slab_pos s c = c ∧ reserved s = 0) as (Hcnt & Hpos & Hres) by (by rewrite Hse).
  unfold free_exact. unfold m_bind at 1. rewrite deref_ok by done. rewrite <- Hse, Hix.
  change (slab_exact_size - 1) with (Z.shiftl 1 slab_exact_shift - 1). rewrite <- Hse, Hal, Z.eqb_refl. cbn [negb].
  rewrite bit_test, <- Hbits, Hbit by lia. cbn [negb].
  destruct (relink_if _ _ _ _ _ Hi) as (w1 & He & Hd1 & Hp1 & Hi1 & Hw1 & Hs1). fold a in He, Hs1.
  assert ((pg_slab (sl_nodes w (PPage a)) =? SLAB_BUSY) = full s u) as Hbusy.
  { apply eq_true_iff_eq. unfold full. rewrite Z.eqb_eq, bool_decide_eq_true, <- (mem_all_set s a u w Hs Hu Hm).
    unfold SLAB_BUSY. rewrite word_full by (done || apply (Hrng w), Hm). unfold all_set. rewrite Hcnt.
    by setoid_rewrite Hbits. }
  unfold m_bind at 1. rewrite Hbusy. assert (page_type s = SLAB_EXACT) as Hty by (rewrite Hse; reflexivity).
  rewrite Hty in He. rewrite He.
  destruct (clear_slab w1 (s - min_shift) (stat_total (-64)) (stat_used (-1))
    (λ w2, negb (pg_slab (sl_nodes w2 (PPage a)) =? 0))) as (w' & segs' & Hfin & Hrest); try done; [lia| |].
  { intros w2 Hf. rewrite negb_true_iff, Z.eqb_neq, (nonzero_bit _ 64) by (done || by apply Hrng).
    unfold chunk_used. rewrite Hcnt, Hres. by setoid_rewrite Hbits. }
  exists w', segs'. split; [|exact Hrest]. rewrite Hpos in Hfin. rewrite <- Hfin.
  assert (valid_ptr w1 (PPage a) = true) as Hv1.
  { apply valid_page. rewrite (sd_npages _ _ Hd1). by apply valid_page. }
  unfold m_bind, m_get. rewrite upd_ok by done. rewrite deref_ok by done. reflexivity.
Qed.
Lemma big_land slab :
  slab_exact_shift < s → shift_ok s → (∀ b, 0 ≤ b < SLAB_MAP_SHIFT → Z.testbit slab b = Z.testbit s b) →
  Z.land slab SLAB_SHIFT_MASK = s.
Proof using.
  clear. intros Hbig Hs Hlo. destruct (big_count s Hs Hbig) as [_ H16]. change SLAB_SHIFT_MASK with (Z.ones 4).
  apply (below_bits s 4) in H16 as [_ Hhi]; [|lia]. apply Z.bits_inj'. intros b Hb. rewrite Z.land_spec.
  unfold SLAB_MAP_SHIFT in Hlo. destruct (decide (b < 4)).
  - rewrite Z.ones_spec_low, andb_true_r by lia. apply Hlo. lia.
  - rewrite Z.ones_spec_high, andb_false_r, Hhi by lia. done.
Qed.

Lemma big_used w2 :
  slab_exact_shift < s → shift_ok s → page_form s w2 a →
  negb (Z.land (pg_slab (sl_nodes w2 (PPage a))) SLAB_MAP_MASK =? 0) = true ↔ chunk_used s w2 a.
Proof using.
  clear. intros Hbig Hs Hf. destruct (big_count s Hs Hbig) as [Hcnt _].
  pose proof (chunk_form_slab _ _ _ Hs (Z.lt_le_incl _ _ Hbig) Hf) as Hr.
  set (x := pg_slab (sl_nodes w2 (PPage a))) in *. unfold chunk_form in Hf.
  rewrite (proj2 (Z.ltb_ge s _)), (proj2 (Z.eqb_neq s _)) in Hf by lia. destruct Hf as (_ & _ & Hhi).
  apply below_bits in Hr as [Hx0 Hx64]; [|done]. unfold SLAB_MAP_SHIFT in *.
  assert (∀ b, 0 ≤ b → Z.testbit (Z.land x SLAB_MAP_MASK) b = (32 <=? b) && Z.testbit x b) as Hl.
  { intros b Hb. rewrite Z.land_spec. unfold SLAB_MAP_MASK. rewrite Z.shiftl_spec, andb_comm by done.
    destruct (Z.leb_spec 32 b); cbn [andb]; [|by rewrite Z.testbit_neg_r by lia].
    destruct (decide (b < 64)); [by rewrite Z.ones_spec_low by lia|].
    by rewrite Hx64, andb_false_r by lia. }
  rewrite negb_true_iff, Z.eqb_neq, (nonzero_bit _ 64); [|done|].
  - unfold chunk_used, reserved. rewrite (proj2 (Z.ltb_ge s _)) by lia. setoid_rewrite chunk_bit_slab; [|lia].
    fold x. unfold slab_pos. rewrite (proj2 (Z.eqb_neq s _)) by lia. unfold SLAB_MAP_SHIFT. split.
    + intros (b & Hb & Ht). rewrite Hl in Ht by lia. apply andb_true_iff in Ht as [Hb32%Z.leb_le Ht].
      exists (b - 32). replace (32 + (b - 32)) with b by lia. split; [|done].
      destruct (Z.lt_ge_cases b (32 + chunk_count s)) as [|Hge]; [lia|]. by rewrite Hhi in Ht.
    + intros (d & Hd & Ht). exists (32 + d). split; [lia|]. rewrite Hl, Ht by lia. destruct (Z.leb_spec 32 (32 + d)); [done|lia].
  - apply below_bits; [done|]. split; [apply Z.land_nonneg; by left|]. intros b Hb. rewrite Hl, Hx64 by lia. apply andb_false_r.
Qed.

Lemma free_big_ok : slab_exact_shift < s → chunk_freed s1 s u s2 c w (free_big (PPage a) p w).
Proof using Hok Hc.
  intros Hbig. destruct chunk_facts_hold as [Hs Hu Hcu Hr Hal Hix _ Hv Hm Hbit]. pose proof (po_inv _ _ Hok) as Hi.
  assert (Z.land (pg_slab (sl_nodes w (PPage a))) SLAB_SHIFT_MASK = s) as Hland.
  { apply big_land; [done|done|]. destruct Hm as [Hf _]. unfold chunk_form in Hf.
    rewrite (proj2 (Z.ltb_ge s _)), (proj2 (Z.eqb_neq s _)) in Hf by lia. tauto. }
  assert (∀ w0 d, page_bit s w0 a d = Z.testbit (pg_slab (sl_nodes w0 (PPage a))) (SLAB_MAP_SHIFT + d)) as Hbits.
  { intros w0 d. rewrite chunk_bit_slab by lia. unfold slab_pos. by rewrite (proj2 (Z.eqb_neq s _)) by lia. }
  assert (slab_pos s c = c + SLAB_MAP_SHIFT) as Hpos.
  { unfold slab_pos. rewrite (proj2 (Z.eqb_neq s _)) by lia. lia. }
  unfold free_big. unfold m_bind at 1. rewrite deref_ok, Hland by done. rewrite Hal, Hix, Z.eqb_refl. cbn [negb].
  rewrite bit_test, (Z.add_comm c), <- Hbits, Hbit by (unfold SLAB_MAP_SHIFT; lia). cbn [negb].
  destruct (relink_if _ _ _ _ _ Hi) as (w1 & He & Hd1 & Hp1 & Hi1 & Hw1 & Hs1). fold a in He, Hs1.
  assert ((match pg_next (sl_nodes w (PPage a)) with
           | Some _ => m_ret tt | None => relink (PPage a) (s - min_shift) SLAB_BIG end) w = Some (tt, w1)) as He'.
  { pose proof (next_full _ _ _ _ _ Hi) as Hnf. fold a in Hnf. unfold page_type in He.
    rewrite (proj2 (Z.ltb_ge s _)), (proj2 (Z.eqb_neq s _)) in He by lia. by destruct (pg_next _); rewrite Hnf in He. }
  unfold m_bind at 1. rewrite He'.
  destruct (clear_slab w1 (s - min_shift) (stat_total (- Z.shiftr pagesize s)) (stat_used (-1))
    (λ w2, negb (Z.land (pg_slab (sl_nodes w2 (PPage a))) SLAB_MAP_MASK =? 0))) as (w' & segs' & Hfin & Hrest); try done; [lia| |].
  { intros w2 Hf. by apply big_used. }
  exists w', segs'. split; [|exact Hrest]. rewrite Hpos, (Z.add_comm c) in Hfin. rewrite <- Hfin.
  assert (valid_ptr w1 (PPage a) = true) as Hv1.
  { apply valid_page. rewrite (sd_npages _ _ Hd1). by apply valid_page. }
  unfold m_bind, m_get. rewrite upd_ok by done. rewrite deref_ok by done. reflexivity.
Qed.

Lemma free_chunk_ok : chunk_freed s1 s u s2 c w (ngx_slab_free_locked p w).
Proof using Hok Hc.
  destruct chunk_facts_hold as [Hs Hu Hcu Hr Hal Hix Hpg Hv Hm Hbit]. pose proof (po_inv _ _ Hok) as Hi.
  pose proof (chunk_off_range s c Hs Hr) as Hoff. apply valid_page in Hv as Hv'. pose proof (si_end _ _ Hi) as Hend.
  unfold ngx_slab_free_locked. unfold m_bind at 1. unfold m_get. change pagesize with 4096 in *.
  rewrite (proj2 (Z.ltb_ge p (sl_start w))), (proj2 (Z.ltb_ge (sl_end w) p)) by (subst p; change pagesize with 4096; lia).
  cbn [orb]. rewrite Hpg. unfold m_bind at 1. rewrite deref_ok by done.
  destruct (seg_nodes_at _ _ _ _ Hi) as (Hty & _). fold a in Hty. rewrite Hty. unfold page_type.
  destruct (Z.ltb_spec s slab_exact_shift); [by apply free_small_ok|].
  destruct (Z.eqb_spec s slab_exact_shift); [by apply free_exact_ok|]. apply free_big_ok. lia.
Qed.
End free_chunk.

(** Where the live blocks come from. *)
Lemma live_elem b segs x :
  x ∈ live b segs ↔ ∃ s1 sg s2, segs = s1 ++ sg :: s2 ∧ x ∈ seg_blocks (b + pagesize * total s1) sg.
Proof.
  split.
  - revert b. induction segs as [|sg segs IH]; intros b; simpl; [by intros ?%elem_of_nil|].
    intros [Hx|Hx]%elem_of_app.
    + exists [], sg, segs. simpl. rewrite Z.mul_0_r, Z.add_0_r. done.
    + apply IH in Hx as (s1 & sg' & s2 & -> & Hx). exists (sg :: s1), sg', s2. split; [done|]. simpl.
      by replace (b + pagesize * (seg_len sg + total s1)) with (b + pagesize * seg_len sg + pagesize * total s1) by lia.
  - intros (s1 & sg & s2 & -> & Hx). rewrite live_mid. set_solver.
Qed.

(** Giving back a live block: it alone is live no more. *)
Lemma free_ok segs w p cap :
  pool_ok segs w → (p, cap) ∈ live (sl_start w) segs →
  ∃ w' segs', ngx_slab_free_locked p w = Some (tt, w') ∧ same_dims w w' ∧ pool_ok segs' w' ∧
    live (sl_start w) segs ≡ₚ (p, cap) :: live (sl_start w) segs'.
Proof.
  intros Hok (s1 & sg & s2 & -> & Hx)%live_elem. pose proof (po_inv _ _ Hok) as Hi. destruct sg as [n|n|s u|h n|n]; simpl in Hx;
    try (by apply elem_of_nil in Hx).
  - apply list_elem_of_singleton in Hx as [= -> ->].
    destruct (free_run_ok _ _ _ _ Hok) as (w' & segs' & He & Hd & Hok' & Hl).
    exists w', segs'. split_and!; try done. pose proof (si_ok _ _ Hi) as [Ho1 [Hn Ho2]%Forall_cons]%Forall_app.
    assert (valid_ptr w (PPage (total s1)) = true) as Hv by (apply (page_valid _ _ _ _ _ Hi); simpl in *; lia).
    apply valid_page in Hv as Hv'. pose proof (si_end _ _ Hi) as Hend.
    unfold ngx_slab_free_locked. unfold m_bind at 1. unfold m_get.
    rewrite (proj2 (Z.ltb_ge _ (sl_start w))), (proj2 (Z.ltb_ge (sl_end w) _)) by (change pagesize with 4096 in *; lia).
    cbn [orb]. pose proof (ptr_page (sl_start w) (total s1) 0 ltac:(done)) as Hpg. rewrite Z.add_0_r in Hpg. rewrite Hpg.
    unfold m_bind at 1. rewrite deref_ok by done. destruct (seg_nodes_at _ _ _ _ Hi) as [Hnd _]. rewrite Hnd.
    exact He.
  - apply list_elem_of_fmap in Hx as (c & [= -> ->] & Hc%elem_of_elements).
    destruct (free_chunk_ok s1 s u s2 c w Hok Hc) as (w' & segs' & He & Hd & Hok' & Hl). by exists w', segs'.
Qed.
