(* ===== verification/SlabSpec.v ===== *)
(** What the slab allocator promises its clients (Slab.v): whatever they allocate and give back,
    the blocks they hold are disjoint and inside the pool, an allocation fails only when there is no
    room, and what is given back can be allocated again. *)

From S2P Require Import Prelude Slab SlabLists SlabInv SlabPages SlabChunks SlabAlloc SlabFree.

(** ** The live blocks *)

Lemma chunk_blocks_disjoint a s l : 0 ≤ s → NoDup l → all_disjoint (chunk_block a s <$> l).
Proof.
  intros Hs. induction 1 as [|c l Hc Hnd IH]; csimpl; [done|]. split; [|done]. apply Forall_fmap, Forall_forall.
  intros d Hd. assert (c ≠ d) by (by intros ->). unfold disjoint_blk, chunk_block, compose. simpl.
  rewrite !Z.shiftl_mul_pow2 by done. assert (0 < 2 ^ s) by (by apply Z.pow_pos_nonneg). nia.
Qed.

Lemma seg_blocks_ok a sg :
  seg_ok sg → all_disjoint (seg_blocks a sg) ∧
    Forall (λ x, within_blk x (a, pagesize * seg_len sg) ∧ 0 < x.2) (seg_blocks a sg).
Proof.
  intros Hok. change pagesize with 4096. destruct sg as [n|n|s u|h n|n]; simpl in *; try by repeat constructor.
  - split; [by repeat constructor|]. constructor; [|done]. unfold within_blk. simpl. change pagesize with 4096. lia.
  - destruct Hok as [Hs Hu]. pose proof (chunk_size s Hs) as Hsz. change pagesize with 4096 in Hsz.
    assert (0 ≤ s) by (destruct Hs; lia). split; [by apply chunk_blocks_disjoint, NoDup_elements|].
    apply Forall_fmap, Forall_forall. intros c Hc%elem_of_elements. apply Hu, user_elem in Hc.
    pose proof (reserved_count s Hs). unfold within_blk, compose, chunk_block. simpl. rewrite Z.shiftl_mul_pow2 by done.
    assert (0 < 2 ^ s) by (by apply Z.pow_pos_nonneg). nia.
Qed.

Lemma live_within a segs :
  Forall seg_ok segs → Forall (λ x, within_blk x (a, pagesize * total segs) ∧ 0 < x.2) (live a segs).
Proof.
  intros Hok. revert a. induction Hok as [|sg segs Hsg Hok IH]; intros a; simpl; [done|].
  pose proof (total_nonneg _ Hok). pose proof (seg_len_pos _ Hsg). change pagesize with 4096 in *.
  apply Forall_app. split.
  - eapply Forall_impl; [apply seg_blocks_ok, Hsg|]. change pagesize with 4096.
    intros [x n] [[H1 H2] H3]. simpl in *. unfold within_blk. simpl. lia.
  - eapply Forall_impl; [apply IH|]. intros [x n] [[H1 H2] H3]. simpl in *. unfold within_blk. simpl. lia.
Qed.

Lemma live_disjoint a segs : Forall seg_ok segs → all_disjoint (live a segs).
Proof.
  intros Hok. revert a. induction Hok as [|sg segs Hsg Hok IH]; intros a; simpl; [done|].
  apply all_disjoint_app. split_and!; [by apply seg_blocks_ok|apply IH|]. apply Forall_forall. intros x Hx.
  apply Forall_forall. intros y Hy. destruct (seg_blocks_ok a sg Hsg) as [_ H1]. rewrite Forall_forall in H1.
  pose proof (live_within (a + pagesize * seg_len sg) segs Hok) as H2. rewrite Forall_forall in H2.
  destruct (H1 x Hx) as [[_ ?] _], (H2 y Hy) as [[? _] _]. unfold disjoint_blk. simpl in *. lia.
Qed.

(** ** The pool after [ngx_slab_init] *)

Lemma align_page_ok p : align_page p mod pagesize = 0 ∧ p ≤ align_page p < p + pagesize.
Proof.
  unfold align_page. change (pagesize - 1) with (Z.ones 12). rewrite land_lnot_ones by done.
  change (2 ^ 12) with 4096. change (Z.ones 12) with 4095. change pagesize with 4096.
  split; Z.div_mod_to_equations; lia.
Qed.

Lemma new_pool_ok n start pend :
  1 ≤ n < 2 ^ 32 → 0 < start → start mod pagesize = 0 → start + pagesize * n ≤ pend →
  pool_ok [Free n] (new_pool n start pend).
Proof.
  intros Hn Hs Hal Hend. split; [split|..]; try done.
  - constructor; [apply Hn|done].
  - simpl. lia.
  - apply Hn.
  - split; [|done]. simpl. split_and!; [done|done|]. intros Hn1.
    destruct (Z.eqb_spec (0 + n - 1) 0); [lia|]. split_and!; [done|done|done|]. intros ?. lia.
  - intros h Hh. destruct h as [|i|]; [exists [0]|exists []|done]; split; try done.
  - by repeat constructor.
  - simpl. rewrite Z.add_0_r. apply (wrap_small 32). lia.
Qed.

(** A pool of a page-aligned region of two pages or more. *)
Lemma slab_init_ok base size :
  0 < base → base mod pagesize = 0 → 2 * pagesize ≤ size < 2 ^ 44 →
  let w := ngx_slab_init base size in
  pool_ok [Free (sl_npages w)] w ∧ base < sl_start w ∧ sl_end w = base + size.
Proof.
  intros Hb Hal Hsz w. unfold w, ngx_slab_init. cbn [sl_npages new_pool sl_start sl_end].
  match goal with |- context [align_page ?p] => destruct (align_page_ok p) as [H1 H2] end.
  change pagesize with 4096 in *. change ((pagesize_shift - min_shift) * (sizeof_slab_page + sizeof_slab_stat)) with 360 in *.
  change (4096 + sizeof_slab_page) with 4120 in *. change sizeof_slab_pool with 152 in *.
  change ((pagesize_shift - min_shift) * sizeof_slab_page) with 216 in *.
  change ((pagesize_shift - min_shift) * sizeof_slab_stat) with 144 in *.
  change sizeof_slab_page with 24 in *.
  replace (base + size - (base + 152) - 360) with (size - 512) in * by lia.
  set (pages := (size - 512) / 4120) in *.
  set (start := align_page _) in *.
  assert (1 ≤ pages ∧ 4120 * pages ≤ size - 512) as [Hp1 Hp2] by (subst pages; Z.div_mod_to_equations; lia).
  set (q := (base + size - start) / 4096).
  assert (1 ≤ q ∧ 4096 * q ≤ base + size - start) as [Hq1 Hq2] by (subst q; Z.div_mod_to_equations; lia).
  split_and!; [|lia|done]. apply new_pool_ok; change pagesize with 4096; [|lia|done|];
    destruct (Z.ltb_spec 0 (pages - q)); lia.
Qed.
(** ** Clients *)

(** What clients do: allocate, and give back one of the blocks they hold. *)
Inductive slab_op := SAlloc (size : Z) | SFree (i : nat).
Definition slab_op_ok (op : slab_op) : Prop := match op with SAlloc size => 0 < size | SFree _ => True end.

(** The blocks held, with the sizes that were asked for. *)
Definition slab_step (op : slab_op) (held : list block) : M spool (list block) :=
  match op with
  | SAlloc size =>
      r <- shuso_shared_slab_alloc size ;;
      m_ret (match r with Some p => (p, size) :: held | None => held end)
  | SFree i =>
      match held !! i with
      | Some (p, _) => shuso_shared_slab_free p ;;; m_ret (delete i held)
      | None => m_ret held
      end
  end.
Fixpoint slab_run (ops : list slab_op) (held : list block) : M spool (list block) :=
  match ops with
  | [] => m_ret held
  | op :: ops' => held <- slab_step op held ;; slab_run ops' held
  end.

(** A block held takes up a live block of the pool, but for less than a page. *)
Definition fits (x y : block) : Prop := x.1 = y.1 ∧ 0 < x.2 ∧ y.2 - pagesize < x.2 ≤ y.2.
Definition holds (held : list block) (w : spool) : Prop :=
  ∃ segs l, pool_ok segs w ∧ l ≡ₚ live (sl_start w) segs ∧ Forall2 fits held l.

Lemma holds_perm held held' w : held ≡ₚ held' → holds held w → holds held' w.
Proof.
  intros Hp (segs & l & Hok & Hl & Hf). assert (∃ l', l ≡ₚ l' ∧ Forall2 fits held' l') as (l' & Hl' & Hf').
  { clear Hok Hl. revert l Hf. induction Hp as [|x h1 h2 _ IH|x y h|h1 h2 h3 _ IH1 _ IH2]; intros l Hf.
    - exists l. by split.
    - apply Forall2_cons_inv_l in Hf as (z & l1 & Hxz & Hf & ->). destruct (IH l1 Hf) as (l2 & Hp & Hf2).
      exists (z :: l2). split; [by constructor|by constructor].
    - apply Forall2_cons_inv_l in Hf as (z & l1 & Hxz & Hf & ->).
      apply Forall2_cons_inv_l in Hf as (z' & l2 & Hxz' & Hf & ->).
      exists (z' :: z :: l2). split; [apply perm_swap|constructor; [done|by constructor]].
    - destruct (IH1 l Hf) as (l1 & Hp1 & Hf1). destruct (IH2 l1 Hf1) as (l2 & Hp2 & Hf2).
      exists l2. split; [by etrans|done]. }
  exists segs, l'. split_and!; [done|by rewrite <- Hl'|done].
Qed.

Lemma holds_alloc held w size :
  0 < size → holds held w →
  ∃ r w', shuso_shared_slab_alloc size w = Some (r, w') ∧ same_dims w w' ∧
    holds (match r with Some p => (p, size) :: held | None => held end) w'.
Proof.
  intros Hsz (segs & l & Hok & Hl & Hf).
  destruct (alloc_ok segs w size Hok (Z.lt_le_incl _ _ Hsz)) as (r & w' & He & Hd & Hpost).
  exists r, w'. split_and!; [done|done|]. destruct r as [p|].
  - destruct Hpost as (segs' & cap & Hok' & Hcap & Hl'). exists segs', ((p, cap) :: l).
    split_and!; [done|by rewrite (sd_start _ _ Hd), Hl', Hl|]. constructor; [|done]. split; [done|]. by split.
  - destruct Hpost as [Hok' _]. exists segs, l. by rewrite (sd_start _ _ Hd).
Qed.

Lemma holds_free held w p size :
  holds ((p, size) :: held) w →
  ∃ w', shuso_shared_slab_free p w = Some (tt, w') ∧ same_dims w w' ∧ holds held w'.
Proof.
  intros (segs & l0 & Hok & Hl & Hf).
  apply Forall2_cons_inv_l in Hf as ([q cap] & l & (Hpq & _) & Hf & ->). simpl in Hpq. subst q.
  destruct (free_ok segs w p cap Hok) as (w' & segs' & He & Hd & Hok' & Hl'); [rewrite <- Hl; by left|].
  exists w'. split_and!; [done|done|]. exists segs', l. split_and!; [done| |done].
  rewrite (sd_start _ _ Hd). apply (Permutation_cons_inv (a := (p, cap))). by rewrite <- Hl', <- Hl.
Qed.

Lemma slab_step_ok op held w :
  slab_op_ok op → holds held w →
  ∃ held' w', slab_step op held w = Some (held', w') ∧ same_dims w w' ∧ holds held' w'.
Proof.
  intros Hop Hh. destruct op as [size|i]; simpl in Hop; unfold slab_step, m_bind.
  - destruct (holds_alloc held w size Hop Hh) as (r & w' & -> & Hd & Hh'). eexists _, w'. by split_and!.
  - destruct (held !! i) as [[p size]|] eqn:Hi; [|by exists held, w].
    apply (holds_perm held ((p, size) :: delete i held)) in Hh; [|by apply delete_Permutation].
    destruct (holds_free _ _ _ _ Hh) as (w' & -> & Hd & Hh'). eexists _, w'. by split_and!.
Qed.

Lemma slab_run_ok ops held w :
  Forall slab_op_ok ops → holds held w →
  ∃ held' w', slab_run ops held w = Some (held', w') ∧ same_dims w w' ∧ holds held' w'.
Proof.
  intros Hops. revert held w. induction Hops as [|op ops Hop _ IH]; intros held w Hh; simpl; [by exists held, w|].
  destruct (slab_step_ok op held w Hop Hh) as (held1 & w1 & He & Hd1 & Hh1).
  destruct (IH held1 w1 Hh1) as (held' & w' & He' & Hd' & Hh'). exists held', w'. unfold m_bind. rewrite He.
  split_and!; [done|by etrans|done].
Qed.

Lemma holds_init base size :
  0 < base → base mod pagesize = 0 → 2 * pagesize ≤ size < 2 ^ 44 → holds [] (ngx_slab_init base size).
Proof.
  intros H1 H2 H3. destruct (slab_init_ok base size H1 H2 H3) as [Hok _]. eexists _, []. split_and!; [done|done|done].
Qed.

(** Smaller blocks at the same places are disjoint, too. *)
Lemma fits_disjoint held l : Forall2 fits held l → all_disjoint l → all_disjoint held.
Proof.
  induction 1 as [|x y held l (Hxy & _ & Hsz) Hf IH]; simpl; [done|]. intros [Hy Hl]. split; [|auto].
  clear IH Hl. induction Hf as [|x' y' held l (Hxy' & _ & Hsz') Hf IH]; [done|].
  apply Forall_cons in Hy as [Hd Hy]. constructor; [|auto]. unfold disjoint_blk in *. lia.
Qed.

Lemma holds_blocks held w :
  holds held w →
  all_disjoint held ∧ Forall (λ x, within_blk x (sl_start w, sl_end w - sl_start w) ∧ 0 < x.2) held.
Proof.
  intros (segs & l & Hok & Hl & Hf). pose proof (si_ok _ _ (po_inv _ _ Hok)) as Hso. split.
  - eapply fits_disjoint; [exact Hf|]. eapply all_disjoint_perm; [by symmetry|]. by apply live_disjoint.
  - pose proof (live_within (sl_start w) segs Hso) as Hw. rewrite <- Hl in Hw.
    pose proof (si_end _ _ (po_inv _ _ Hok)) as Hend. rewrite (si_total _ _ (po_inv _ _ Hok)) in Hw.
    apply Forall_forall. intros x Hx. apply list_elem_of_lookup in Hx as [i Hi].
    destruct (Forall2_lookup_l _ _ _ _ _ Hf Hi) as (y & Hy & Hxy & H0 & Hsz).
    eapply Forall_lookup_1 in Hw; [|exact Hy]. destruct Hw as [[H1 H2] _]. unfold within_blk in *. simpl in *. lia.
Qed.
(** ** What is not free is held *)

(** A page that is not in a free run holds part of a block. *)
Lemma seg_touched held l segs w s1 sg s2 y :
  pool_ok segs w → l ≡ₚ live (sl_start w) segs → Forall2 fits held l →
  segs = s1 ++ sg :: s2 → is_free sg = false → total s1 ≤ y < total s1 + seg_len sg →
  ∃ x, x ∈ held ∧ ¬ disjoint_blk x (sl_start w + pagesize * y, pagesize).
Proof.
  intros Hok Hl Hf -> Hsg Hy.
  assert (∀ b, b ∈ seg_blocks (sl_start w + pagesize * total s1) sg → ∃ x, x ∈ held ∧ fits x b) as Hheld.
  { intros b Hb. assert (b ∈ l) as [i Hi]%list_elem_of_lookup.
    { rewrite Hl. apply live_elem. by eexists _, _, _. }
    destruct (Forall2_lookup_r _ _ _ _ _ Hf Hi) as (x & Hx & Hfit). exists x. split; [|done].
    by eapply list_elem_of_lookup_2. }
  pose proof (po_settled _ _ Hok) as [_ [Hset _]%Forall_cons]%Forall_app.
  pose proof (si_ok _ _ (po_inv _ _ Hok)) as [_ [Hso _]%Forall_cons]%Forall_app.
  unfold disjoint_blk. change pagesize with 4096 in *. destruct sg as [n|n|s u|h n|n]; try done; cbn [seg_len settled seg_ok] in *.
  - destruct (Hheld (sl_start w + 4096 * total s1, 4096 * n)) as (x & Hx & H1 & H2 & H3).
    { cbn [seg_blocks]. change pagesize with 4096. by left. }
    exists x. split; [done|]. simpl in *. change pagesize with 4096 in *. lia.
  - destruct (set_choose_L u Hset) as [c Hc]. destruct Hso as [Hs Hu]. pose proof (Hu c Hc) as Hcu. apply user_elem in Hcu.
    pose proof (chunk_off_range s c Hs) as Hoff. pose proof (reserved_count s Hs). change pagesize with 4096 in *.
    destruct (Hheld (chunk_block (sl_start w + 4096 * total s1) s c)) as (x & Hx & H1 & H2 & H3).
    { cbn [seg_blocks]. apply list_elem_of_fmap_2. by apply elem_of_elements. }
    exists x. split; [done|]. unfold chunk_block in *. simpl in *. lia.
Qed.

Lemma segs_at segs y : Forall seg_ok segs → 0 ≤ y < total segs →
  ∃ s1 sg s2, segs = s1 ++ sg :: s2 ∧ total s1 ≤ y < total s1 + seg_len sg.
Proof.
  intros Hok. revert y. induction Hok as [|sg segs Hsg _ IH]; intros y Hy; simpl in Hy; [lia|].
  destruct (Z.lt_ge_cases y (seg_len sg)).
  - exists [], sg, segs. simpl. split; [done|lia].
  - destruct (IH (y - seg_len sg)) as (s1 & sg' & s2 & -> & Hy'); [lia|]. exists (sg :: s1), sg', s2. simpl.
    split; [done|lia].
Qed.

(** Without a free run of [k] pages, every [k] pages hold part of a block. *)
Lemma no_run_touched held w segs l k x :
  pool_ok segs w → l ≡ₚ live (sl_start w) segs → Forall2 fits held l → no_run k segs →
  1 ≤ k → 0 ≤ x → x + k ≤ sl_npages w →
  ∃ b, b ∈ held ∧ ¬ disjoint_blk b (sl_start w + pagesize * x, pagesize * k).
Proof.
  intros Hok Hl Hf Hno Hk H0 Hx. pose proof (po_inv _ _ Hok) as Hi. pose proof (si_ok _ _ Hi) as Hso.
  assert (∀ y b, x ≤ y < x + k → ¬ disjoint_blk b (sl_start w + pagesize * y, pagesize) →
    ¬ disjoint_blk b (sl_start w + pagesize * x, pagesize * k)) as Hsub.
  { intros y b Hy. unfold disjoint_blk. change pagesize with 4096. simpl. lia. }
  destruct (segs_at segs x Hso) as (s1 & sg & s2 & Hs & Hin); [rewrite (si_total _ _ Hi); lia|].
  destruct (is_free sg) eqn:Hfr.
  - destruct sg as [n| | | |]; try done. simpl in Hin. pose proof Hno as Hno'. unfold no_run in Hno'. rewrite Hs in Hno'.
    apply Forall_app in Hno' as [_ [Hn _]%Forall_cons]. pose proof (si_total _ _ Hi) as Htot. rewrite Hs, total_app in Htot.
    simpl in Htot. pose proof (po_joined _ _ Hok) as Hj. rewrite Hs in Hj. apply joined_app in Hj as [_ [_ Hj]].
    destruct s2 as [|sg2 s2]; [simpl in Htot; lia|]. destruct Hj as [Hj _]. cbn [is_free andb] in Hj.
    pose proof Hso as Hso2. rewrite Hs in Hso2. apply Forall_app in Hso2 as [_ [_ [Hsg2 _]%Forall_cons]%Forall_cons].
    apply seg_len_pos in Hsg2.
    destruct (seg_touched held l segs w (s1 ++ [Free n]) sg2 s2 (total s1 + n) Hok Hl Hf) as (b & Hb & Ht).
    + by rewrite <- app_assoc.
    + done.
    + rewrite total_app. simpl. lia.
    + exists b. split; [done|]. apply (Hsub (total s1 + n)); [lia|done].
  - destruct (seg_touched held l segs w s1 sg s2 x Hok Hl Hf Hs Hfr Hin) as (b & Hb & Ht).
    exists b. split; [done|]. apply (Hsub x); [lia|done].
Qed.

(** When nothing is held the pool is one free run. *)
Lemma all_free segs w : pool_ok segs w → live (sl_start w) segs = [] → 1 ≤ sl_npages w → segs = [Free (sl_npages w)].
Proof.
  intros Hok Hl Hn. pose proof (po_inv _ _ Hok) as Hi. rewrite <- (si_total _ _ Hi) in *. clear Hi.
  destruct Hok as [_ Hset Hj _]. generalize (sl_start w) as b, Hl. clear Hl w. intros b Hl.
  assert (Forall (λ sg, is_free sg = true) segs) as Hfree.
  { apply Forall_forall. intros sg Hin. pose proof Hset as Hsg. rewrite Forall_forall in Hsg. specialize (Hsg sg Hin).
    apply list_elem_of_split in Hin as (s1 & s2 & ->). rewrite live_mid in Hl.
    apply app_eq_nil in Hl as [_ [Hl _]%app_eq_nil]. destruct sg as [|n|s u| |]; try done.
    simpl in Hl. apply fmap_nil_inv in Hl. apply elements_empty_inv in Hl. simpl in Hsg. destruct Hsg. by apply leibniz_equiv. }
  destruct segs as [|sg [|sg2 segs]]; [simpl in Hn; lia| |].
  - apply Forall_cons in Hfree as [Hsg _]. destruct sg; try done. simpl. f_equal. f_equal. lia.
  - apply Forall_cons in Hfree as [H1 [H2 _]%Forall_cons]. simpl in Hj. rewrite H1, H2 in Hj. destruct Hj as (_ & ? & _). done.
Qed.
(** ** Properties *)

Section pool.
Context (sz base : Z) (ops : list slab_op) (w : spool).
Context (Hcreate : shuso_shared_slab_create sz (Some base) true = Some w).
Context (Hbase : 0 < base) (Halign : base mod pagesize = 0) (Hsz : 2 * pagesize ≤ region_size sz < 2 ^ 44).
Context (Hops : Forall slab_op_ok ops).

Lemma created : w = ngx_slab_init base (region_size sz) ∧ pool_ok [Free (sl_npages w)] w ∧
  base < sl_start w ∧ sl_end w = base + region_size sz ∧ 1 ≤ sl_npages w ∧ sl_errors w = 0%nat ∧ holds [] w.
Proof using Hcreate Hbase Halign Hsz.
  unfold shuso_shared_slab_create in Hcreate. injection Hcreate as <-.
  destruct (slab_init_ok base (region_size sz) Hbase Halign Hsz) as (Hok & H1 & H2).
  split_and!; try done; [|by apply holds_init].
  pose proof (si_ok _ _ (po_inv _ _ Hok)) as [Hn _]%Forall_cons. done.
Qed.

Lemma run_from_start : ∃ held w', slab_run ops [] w = Some (held, w') ∧ same_dims w w' ∧ holds held w'.
Proof using Hcreate Hbase Halign Hsz Hops. destruct created as (_ & _ & _ & _ & _ & _ & Hh). by apply slab_run_ok. Qed.
End pool.

(** C3: whatever sequence of allocations and releases the clients of a new shared memory slab make, it
    runs to its end without reporting an error, and the blocks they hold then are disjoint and inside the
    region that was mapped. *)
Theorem slab_blocks_disjoint sz base ops w :
  shuso_shared_slab_create sz (Some base) true = Some w →
  0 < base → base mod pagesize = 0 → 2 * pagesize ≤ region_size sz < 2 ^ 44 → Forall slab_op_ok ops →
  ∃ held w', slab_run ops [] w = Some (held, w') ∧ all_disjoint held ∧
    Forall (λ b, within_blk b (base, region_size sz)) held ∧ sl_errors w' = 0%nat.
Proof.
  intros Hc Hb Ha Hs Hops. destruct (created _ _ _ Hc Hb Ha Hs) as (_ & _ & Hst & Hend & _ & Herr & _).
  destruct (run_from_start _ _ ops _ Hc Hb Ha Hs Hops) as (held & w' & He & Hd & Hh).
  destruct (holds_blocks _ _ Hh) as [Hdis Hin]. exists held, w'. split_and!; [done|done| |].
  - eapply Forall_impl; [exact Hin|]. intros [p n] [[H1 H2] H0]. rewrite (sd_start _ _ Hd), (sd_end _ _ Hd) in *.
    unfold within_blk in *. simpl in *. lia.
  - by rewrite (sd_errors _ _ Hd).
Qed.

(** The number of whole pages an allocation looks for when no page has a free chunk of its size. *)
Definition pages_wanted (n : Z) : Z := if slab_max_size <? n then pages_of n else 1.

(** C5: an allocation from a shared memory slab fails only when there is no room: then every run of as
    many pages as it needs holds part of a block that a client has not given back. *)
Theorem slab_fails_only_when_full sz base ops w held w1 n w2 x :
  shuso_shared_slab_create sz (Some base) true = Some w →
  0 < base → base mod pagesize = 0 → 2 * pagesize ≤ region_size sz < 2 ^ 44 → Forall slab_op_ok ops →
  slab_run ops [] w = Some (held, w1) → 0 < n → shuso_shared_slab_alloc n w1 = Some (None, w2) →
  0 ≤ x → x + pages_wanted n ≤ sl_npages w →
  ∃ b, b ∈ held ∧ ¬ disjoint_blk b (sl_start w + pagesize * x, pagesize * pages_wanted n).
Proof.
  intros Hc Hb Ha Hs Hops Hrun Hn Hnull H0 Hx. destruct (run_from_start _ _ ops _ Hc Hb Ha Hs Hops) as (held' & w' & He & Hd & Hh).
  rewrite Hrun in He. injection He as <- <-. destruct Hh as (segs & l & Hok & Hl & Hf).
  destruct (alloc_ok segs w1 n Hok (Z.lt_le_incl _ _ Hn)) as (r & w2' & He & _ & Hpost).
  unfold shuso_shared_slab_alloc, ngx_slab_alloc in Hnull. rewrite He in Hnull. injection Hnull as -> ->.
  destruct Hpost as [_ Hex]. rewrite <- (sd_start _ _ Hd). unfold exhausted, pages_wanted in *.
  destruct (Z.ltb_spec slab_max_size n) as [Hbig|_].
  - apply (no_run_touched held w1 segs l); try done; [by apply pages_of_ok|by rewrite (sd_npages _ _ Hd)].
  - apply (no_run_touched held w1 segs l); try done; [apply Hex|by rewrite (sd_npages _ _ Hd)].
Qed.

(** C7: what is given back can be allocated again: when the clients have given back everything, whatever
    the order, all pages are free and a single allocation can take any size up to all of them. *)
Theorem slab_reuses_everything sz base ops w w1 n :
  shuso_shared_slab_create sz (Some base) true = Some w →
  0 < base → base mod pagesize = 0 → 2 * pagesize ≤ region_size sz < 2 ^ 44 → Forall slab_op_ok ops →
  slab_run ops [] w = Some ([], w1) → 0 < n ≤ pagesize * sl_npages w →
  sl_pfree w1 = sl_npages w ∧ ∃ p w2, shuso_shared_slab_alloc n w1 = Some (Some p, w2).
Proof.
  intros Hc Hb Ha Hs Hops Hrun Hn. destruct (created _ _ _ Hc Hb Ha Hs) as (_ & _ & _ & _ & Hnp & _).
  destruct (run_from_start _ _ ops _ Hc Hb Ha Hs Hops) as (held & w' & He & Hd & segs & l & Hok & Hl & Hf).
  rewrite Hrun in He. injection He as <- <-. apply Forall2_nil_inv_l in Hf as ->.
  apply Permutation_nil_l in Hl. symmetry in Hl. rewrite <- (sd_npages _ _ Hd) in *.
  apply all_free in Hl; [|done|done]. subst segs. split; [rewrite (po_pfree _ _ Hok); simpl; lia|].
  destruct (alloc_ok _ w1 n Hok ltac:(lia)) as (r & w2 & He & _ & Hpost).
  unfold shuso_shared_slab_alloc, ngx_slab_alloc. rewrite He. destruct r as [p|]; [by exists p, w2|]. exfalso.
  destruct Hpost as [_ Hex]. unfold exhausted in Hex. change pagesize with 4096 in *.
  destruct (Z.ltb_spec slab_max_size n) as [Hbig|_].
  - apply Forall_cons in Hex as [Hlt _]. pose proof (pages_of_ok n Hbig) as [_ Hp]. change pagesize with 4096 in *. lia.
  - destruct Hex as [[Hlt _]%Forall_cons _]. lia.
Qed.

(** ** An instance *)

Definition demo_base : Z := 65536.
Definition demo_size : Z := 24576.
Definition slab_demo_ops : list slab_op :=
  [SAlloc 5000; SAlloc 8; SAlloc 100; SFree 1; SAlloc 3000; SFree 2; SAlloc 7000; SFree 0].
Definition demo_pool : spool := ngx_slab_init demo_base demo_size.

Lemma demo_region : 2 * pagesize ≤ region_size demo_size < 2 ^ 44.
Proof. done. Qed.
Lemma slab_demo_ops_ok : Forall slab_op_ok (slab_demo_ops ++ [SFree 1; SFree 0]).
Proof. by repeat constructor. Qed.

Lemma slab_blocks_disjoint_witness :
  ∃ held w', slab_run slab_demo_ops [] demo_pool = Some (held, w') ∧ all_disjoint held ∧
    Forall (λ b, within_blk b (demo_base, region_size demo_size)) held ∧ sl_errors w' = 0%nat.
Proof.
  apply (slab_blocks_disjoint demo_size demo_base slab_demo_ops demo_pool); [done|done|done|done|].
  by repeat constructor.
Defined.
(** The clients hold two blocks then; three pages in a row are not free. *)
Definition demo_held : list block := [(77824, 3000); (81920, 100)].

Lemma run_then {A B} (m : M spool A) (k : M spool B) w a b :
  fst <$> (x <- m ;; y <- k ;; m_ret (x, y)) w = Some (a, b) →
  ∃ w1 w2, m w = Some (a, w1) ∧ k w1 = Some (b, w2).
Proof.
  unfold m_bind. destruct (m w) as [[x w1]|]; [|done]. destruct (k w1) as [[y w2]|] eqn:E; [|done].
  intros [= -> ->]. by exists w1, w2.
Qed.

Lemma slab_fails_only_when_full_witness :
  ∃ w1 w2, slab_run slab_demo_ops [] demo_pool = Some (demo_held, w1) ∧
    shuso_shared_slab_alloc 9000 w1 = Some (None, w2) ∧ pages_wanted 9000 = 3 ∧
    ∃ b, b ∈ demo_held ∧ ¬ disjoint_blk b (sl_start demo_pool + pagesize * 0, pagesize * pages_wanted 9000).
Proof.
  destruct (run_then (slab_run slab_demo_ops []) (shuso_shared_slab_alloc 9000) demo_pool demo_held None)
    as (w1 & w2 & H1 & H2); [by vm_compute|].
  exists w1, w2. split; [exact H1|]. split; [exact H2|]. split; [done|].
  apply (slab_fails_only_when_full demo_size demo_base slab_demo_ops demo_pool demo_held w1 9000 w2 0);
    [reflexivity|reflexivity|reflexivity|exact demo_region|by repeat constructor|exact H1|reflexivity|exact H2|reflexivity|by vm_compute].
Defined.

Lemma slab_reuses_everything_witness :
  ∃ w1, slab_run (slab_demo_ops ++ [SFree 1; SFree 0]) [] demo_pool = Some ([], w1) ∧
    sl_pfree w1 = sl_npages demo_pool ∧ ∃ p w2, shuso_shared_slab_alloc 20480 w1 = Some (Some p, w2).
Proof.
  destruct (run_then (slab_run (slab_demo_ops ++ [SFree 1; SFree 0]) []) (m_ret tt) demo_pool [] tt)
    as (w1 & w2 & H1 & _); [by vm_compute|].
  exists w1. split; [exact H1|].
  apply (slab_reuses_everything demo_size demo_base (slab_demo_ops ++ [SFree 1; SFree 0]) demo_pool w1 20480);
    [reflexivity|reflexivity|reflexivity|exact demo_region|exact slab_demo_ops_ok|exact H1|split; [reflexivity|vm_compute; discriminate]].
Defined.

(** ** What is not caught *)

(** [ngx_slab_free] lets a pointer to the end of the region through ([p > pool->end]): it reads
    a descriptor that is not there. *)
Lemma free_of_end_not_caught : shuso_shared_slab_free (sl_end demo_pool) demo_pool = None.
Proof. by vm_compute. Qed.

(** The bitmap at the beginning of a page of small chunks counts as allocated chunks: giving one back
    is not an error, and the next allocation returns the bitmap. *)
Definition bitmap_freed : M spool (option Z * option Z * nat) :=
  p <- shuso_shared_slab_alloc 8 ;;
  shuso_shared_slab_free 69632 ;;;
  q <- shuso_shared_slab_alloc 8 ;;
  e <- m_gets sl_errors ;;
  m_ret (p, q, e).
Lemma free_of_bitmap_not_caught : fst <$> bitmap_freed demo_pool = Some (Some 69696, Some 69632, 0%nat).
Proof. by vm_compute. Qed.
