(* ===== verification/SlabBuffer.v ===== *)
(** Buffers in shared memory: the slab allocator (Slab.v) keeps the promises a buffer of type
    [SHUSO_BUF_SHARED] relies on (Buffer.v). *)

From S2P Require Import Prelude Heap Pool Buffer Slab SlabInv SlabAlloc SlabSpec.

Section shared.
Context `{Malloc}.

(** A process's memory with a shared slab. *)
#[export] Instance shared_mem : BufMem (pw * spool) := process_mem shuso_shared_slab_alloc shuso_shared_slab_free.

#[export] Program Instance shared_mem_ok : BufMemOk (pw * spool) SHUSO_BUF_SHARED :=
  {| bm_live w l := holds l w.2 |}.
Next Obligation. intros w l l' Hp Hh. by eapply holds_perm. Qed.
Next Obligation. intros w l Hh. by apply holds_blocks in Hh as [? _]. Qed.
Next Obligation.
  intros [p w] l sz Hh [Hsz _]. simpl in *. unfold on_slab. simpl.
  destruct (holds_alloc l w sz Hsz Hh) as (r & w' & -> & _ & Hh'). exists r, (p, w'). by destruct r.
Qed.
Next Obligation.
  intros [pl w] l p sz Hh. simpl in *. unfold on_slab. simpl.
  destruct (holds_free l w p sz Hh) as (w' & -> & _ & Hh'). by exists (pl, w').
Qed.

(** C21: a buffer set up on a new shared memory slab is a queue, whatever is added and removed: links come
    out in order with their data, cleanups run once, and the headers and data of the links in the
    buffer are disjoint blocks of the slab, which are all that the slab has allocated. *)
Theorem shared_buffer_fifo (b : buffer (pw * spool)) sz base w ad ops :
  shuso_shared_slab_create sz (Some base) true = Some w →
  0 < base → base mod pagesize = 0 → 2 * pagesize ≤ region_size sz < 2 ^ 44 →
  (b_mem b).2 = w → init_ok SHUSO_BUF_SHARED ad → Forall Buffer.op_ok ops →
  ∃ rs b' q calls,
    (shuso_buffer_init SHUSO_BUF_SHARED ad ;;; buf_run ops) b = Some (rs, b') ∧
    fifo_run [] ops rs calls q ∧ b_called b' = b_called b ++ calls ∧
    all_disjoint (q ≫= e_regions) ∧ holds (e_blk <$> q) (b_mem b').2.
Proof.
  intros Hc Hb Ha Hs Hw Had Hops. destruct (created _ _ _ Hc Hb Ha Hs) as (_ & _ & _ & _ & _ & _ & Hh).
  rewrite <- Hw in Hh. exact (buffer_fifo (mt := SHUSO_BUF_SHARED) b ad ops Had Hh Hops).
Qed.
End shared.

(** A buffer in the demonstration pool, from which everything is removed again. *)
Definition shared_buffer : buffer (pw * spool) :=
  Buffer (PW ∅ zero_pool, demo_pool) ∅ ∅ ∅ None None SHUSO_BUF_DEFAULT None [].

Lemma shared_buffer_fifo_witness :
  ∃ rs b' q calls,
    (shuso_buffer_init SHUSO_BUF_SHARED (Some demo_base) ;;; buf_run Buffer.demo_ops) shared_buffer = Some (rs, b') ∧
    fifo_run [] Buffer.demo_ops rs calls q ∧ b_called b' = [] ++ calls ∧
    all_disjoint (q ≫= e_regions) ∧ holds (e_blk <$> q) (b_mem b').2.
Proof.
  apply (shared_buffer_fifo shared_buffer demo_size demo_base demo_pool (Some demo_base) Buffer.demo_ops);
    [reflexivity|reflexivity|reflexivity|exact demo_region|reflexivity|done|].
  repeat constructor; by vm_compute.
Defined.
