(* ===== verification/Lua.v ===== *)
(** Lua states as the C code sees them: values, tables and functions, and the functions of
    Lua's C interface that src/src/lua_utils.c uses to copy values.  Running Lua code is not the
    C code's doing: the class [LuaVM] has it, and the order in which [lua_next] lists a
    table, as parameters. *)

From stdpp Require Import strings.
From S2P Require Import Prelude.

(** ** Values

    A table, a closure, a full userdata or a coroutine is known by its address.  A C function without
    upvalues is its pointer ([lua_pushcfunction]), a number is an integer or the bits of a double. *)
Inductive value :=
| VNil
| VBool (b : bool)
| VInt (i : Z)
| VNum (bits : Z)
| VStr (s : string)
| VLight (p : Z)
| VCFun (f : Z)
| VObj (o : Z).

#[export] Instance value_eq_dec : EqDecision value.
Proof. solve_decision. Defined.

Definition value_enc (v : value) : unit + bool + Z + Z + string + Z + Z + Z :=
  match v with
  | VNil => inl (inl (inl (inl (inl (inl (inl tt))))))
  | VBool b => inl (inl (inl (inl (inl (inl (inr b))))))
  | VInt i => inl (inl (inl (inl (inl (inr i)))))
  | VNum x => inl (inl (inl (inl (inr x))))
  | VStr s => inl (inl (inl (inr s)))
  | VLight p => inl (inl (inr p))
  | VCFun f => inl (inr f)
  | VObj o => inr o
  end.

Definition value_dec (e : unit + bool + Z + Z + string + Z + Z + Z) : value :=
  match e with
  | inl (inl (inl (inl (inl (inl (inl _)))))) => VNil
  | inl (inl (inl (inl (inl (inl (inr b)))))) => VBool b
  | inl (inl (inl (inl (inl (inr i))))) => VInt i
  | inl (inl (inl (inl (inr x)))) => VNum x
  | inl (inl (inl (inr s))) => VStr s
  | inl (inl (inr p)) => VLight p
  | inl (inr f) => VCFun f
  | inr o => VObj o
  end.

#[export] Instance value_countable : Countable value.
Proof. apply (inj_countable' value_enc value_dec). by intros []. Defined.

(** What an address holds.  The entries of a table never have a nil in them; a Lua closure is a
    prototype with the cells of its upvalues, which closures can share; a C closure has its
    own (at least one). *)
Inductive obj :=
| OTable (entries : gmap value value) (meta : option Z)
| OLFun (proto : string) (upvals : list Z)
| OCClosure (f : Z) (upvals : list value)
| OUserdata (payload : Z) (meta : option Z)
| OThread.

#[export] Instance obj_eq_dec : EqDecision obj.
Proof. solve_decision. Defined.

(** [l_loaded] and [l_preload] are [package.loaded] and [package.preload];
    [l_gxcopy] says that the registry has a [___gxcopy_state___]. *)
Record lstate := LState {
  l_objs : gmap Z obj;
  l_cells : gmap Z value;
  l_globals : Z;
  l_loaded : gmap string value;
  l_preload : gmap string value;
  l_gxcopy : bool
}.

#[export] Instance lstate_eq_dec : EqDecision lstate.
Proof. solve_decision. Defined.

Definition set_objs f L :=
  LState (f (l_objs L)) (l_cells L) (l_globals L) (l_loaded L) (l_preload L) (l_gxcopy L).
Definition set_cells f L :=
  LState (l_objs L) (f (l_cells L)) (l_globals L) (l_loaded L) (l_preload L) (l_gxcopy L).
Definition set_loaded f L :=
  LState (l_objs L) (l_cells L) (l_globals L) (f (l_loaded L)) (l_preload L) (l_gxcopy L).
Definition set_preload f L :=
  LState (l_objs L) (l_cells L) (l_globals L) (l_loaded L) (f (l_preload L)) (l_gxcopy L).
Definition set_gxcopy b L :=
  LState (l_objs L) (l_cells L) (l_globals L) (l_loaded L) (l_preload L) b.

(** A call gives back a function's results and what it made of the state; [None] is an error
    it raised.  [load_module] is what [require] does for a module that is not loaded. *)
Class LuaVM := {
  next_order : gmap value value → list (value * value);
  next_order_perm : ∀ e, next_order e ≡ₚ map_to_list e;
  next_names : gmap string value → list (string * value);
  next_names_perm : ∀ e, next_names e ≡ₚ map_to_list e;
  lua_call : lstate → value → list value → option (list value * lstate);
  load_module : lstate → string → option (value * lstate)
}.

Inductive ltype :=
| LUA_TNIL | LUA_TBOOLEAN | LUA_TNUMBER | LUA_TSTRING | LUA_TLIGHTUSERDATA
| LUA_TTABLE | LUA_TFUNCTION | LUA_TUSERDATA | LUA_TTHREAD.

#[export] Instance ltype_eq_dec : EqDecision ltype.
Proof. solve_decision. Defined.

Definition obj_type (x : obj) : ltype :=
  match x with
  | OTable _ _ => LUA_TTABLE
  | OLFun _ _ | OCClosure _ _ => LUA_TFUNCTION
  | OUserdata _ _ => LUA_TUSERDATA
  | OThread => LUA_TTHREAD
  end.

Definition lua_type (L : lstate) (v : value) : option ltype :=
  match v with
  | VNil => Some LUA_TNIL
  | VBool _ => Some LUA_TBOOLEAN
  | VInt _ | VNum _ => Some LUA_TNUMBER
  | VStr _ => Some LUA_TSTRING
  | VLight _ => Some LUA_TLIGHTUSERDATA
  | VCFun _ => Some LUA_TFUNCTION
  | VObj o => obj_type <$> l_objs L !! o
  end.

Definition lua_isfunction (L : lstate) (v : value) : bool :=
  bool_decide (lua_type L v = Some LUA_TFUNCTION).

(** [lua_toboolean] *)
Definition truthy (v : value) : bool :=
  match v with VNil | VBool false => false | _ => true end.

(** [lua_getmetatable] of a table or full userdata.  (The metatables that all values of another type
    share are not the code's concern.) *)
Definition lua_getmetatable (L : lstate) (v : value) : option Z :=
  match v with
  | VObj o => match l_objs L !! o with Some (OTable _ m) | Some (OUserdata _ m) => m | _ => None end
  | _ => None
  end.

Definition lua_rawget (L : lstate) (o : Z) (k : value) : value :=
  match l_objs L !! o with Some (OTable e _) => default VNil (e !! k) | _ => VNil end.

(** [luaL_getmetafield]; nil when there is none *)
Definition luaL_getmetafield (L : lstate) (v : value) (name : string) : value :=
  match lua_getmetatable L v with Some m => lua_rawget L m (VStr name) | None => VNil end.

(** A new object has an address that none has. *)
Definition lua_new (x : obj) (L : lstate) : Z * lstate :=
  let o := fresh (dom (l_objs L)) in (o, set_objs <[o := x]> L).

(** The new closure of [lua_load]: every upvalue is a new cell, and the first holds the
    globals. *)
Fixpoint new_cells (vs : list value) (L : lstate) : list Z * lstate :=
  match vs with
  | [] => ([], L)
  | v :: vs' =>
      let c := fresh (dom (l_cells L)) in
      let '(cs, L') := new_cells vs' (set_cells <[c := v]> L) in (c :: cs, L')
  end.

Definition load_upvalues (nups : nat) (L : lstate) : list value :=
  match nups with O => [] | S n => VObj (l_globals L) :: replicate n VNil end.

Definition lua_load (proto : string) (nups : nat) (L : lstate) : Z * lstate :=
  let '(cs, L') := new_cells (load_upvalues nups L) L in lua_new (OLFun proto cs) L'.

(** [lua_setupvalue(L, f, i+1)] for a Lua function *)
Definition lua_setupvalue (o : Z) (i : nat) (v : value) (L : lstate) : option lstate :=
  match l_objs L !! o with
  | Some (OLFun _ cs) => match cs !! i with Some c => Some (set_cells <[c := v]> L) | None => None end
  | _ => None
  end.

(** [lua_rawset]; a nil key is an error, a nil value removes the entry. *)
Definition lua_rawset (o : Z) (k v : value) (L : lstate) : option lstate :=
  match l_objs L !! o with
  | Some (OTable e m) =>
      if bool_decide (k = VNil) then None
      else let e' := if bool_decide (v = VNil) then delete k e else <[k := v]> e in
           Some (set_objs <[o := OTable e' m]> L)
  | _ => None
  end.

(** [lua_setmetatable]: what it sets must be a table. *)
Definition lua_setmetatable (o : Z) (mt : value) (L : lstate) : option lstate :=
  match l_objs L !! o, mt with
  | Some (OTable e _), VObj m => Some (set_objs <[o := OTable e (Some m)]> L)
  | _, _ => None
  end.

Section vm.
Context `{LuaVM}.

Definition first_result (r : option (list value * lstate)) : option (value * lstate) :=
  match r with Some (vs, L) => Some (default VNil (vs !! O), L) | None => None end.

(** [lua_getfield] with the [__index] of metatables; a chain of handlers ends with an error
    after Lua's [MAXTAGLOOP]. *)
Fixpoint index_loop (fuel : nat) (L : lstate) (v k : value) : option (value * lstate) :=
  match fuel, v with
  | S fuel', VObj o =>
      let raw := lua_rawget L o k in
      if negb (bool_decide (raw = VNil)) then Some (raw, L)
      else
        let h := luaL_getmetafield L v "__index" in
        if bool_decide (h = VNil) then
          if bool_decide (lua_type L v = Some LUA_TTABLE) then Some (VNil, L) else None
        else if lua_isfunction L h then first_result (lua_call L h [v; k])
        else index_loop fuel' L h k
  | _, _ => None
  end.

Definition MAXTAGLOOP : nat := Z.to_nat 2000.
Definition lua_getfield (L : lstate) (v : value) (name : string) : option (value * lstate) :=
  index_loop MAXTAGLOOP L v (VStr name).

(** [lua_compare(L, a, b, LUA_OPEQ)] of two tables *)
Definition lua_compare_eq (L : lstate) (a b : value) : option (bool * lstate) :=
  if bool_decide (a = b) then Some (true, L)
  else
    let h := luaL_getmetafield L a "__eq" in
    let h := if bool_decide (h = VNil) then luaL_getmetafield L b "__eq" else h in
    if bool_decide (h = VNil) then Some (false, L)
    else match first_result (lua_call L h [a; b]) with
         | Some (r, L') => Some (truthy r, L')
         | None => None
         end.

(** [require(name)]: a loaded module is not loaded again. *)
Definition lua_require (L : lstate) (name : string) : option (value * lstate) :=
  let v := default VNil (l_loaded L !! name) in
  if truthy v then Some (v, L) else load_module L name.
End vm.
