(* ===== verification/Gxcopy.v ===== *)
(** Copying Lua values from one Lua state to another, as src/src/lua_utils.c does for every worker
    that starts: [luaS_gxcopy_start], any number of [luaS_gxcopy], [luaS_gxcopy_finish].
    The C stack of each state is implicit: a function takes the value on the source's top and
    gives the one it leaves on the destination's.  A Lua function that raises an error, where C goes on with
    a stack that lacks its results, has no result here. *)

From stdpp Require Import strings.
From S2P Require Import Prelude Lua.

(** [lua_gxcopy_state_t], with the two states and the tables of its registry references:
    [gx_copies] maps a copied value to its reference, [gx_dcopies] holds the copies under their references,
    1 first; [gx_preloading] are the packages whose preloader is being copied;
    [gx_errors] are the errors set, the last one first. *)
Record gx := Gx {
  gx_src : lstate;
  gx_dst : lstate;
  gx_copies : gmap value Z;
  gx_dcopies : list value;
  gx_modules : gmap value string;
  gx_preloading : gset string;
  gx_ignore : Z;
  gx_errors : list string
}.

#[export] Instance gx_eq_dec : EqDecision gx.
Proof. solve_decision. Defined.

Definition put_src L σ :=
  Gx L (gx_dst σ) (gx_copies σ) (gx_dcopies σ) (gx_modules σ) (gx_preloading σ) (gx_ignore σ) (gx_errors σ).
Definition put_dst L σ :=
  Gx (gx_src σ) L (gx_copies σ) (gx_dcopies σ) (gx_modules σ) (gx_preloading σ) (gx_ignore σ) (gx_errors σ).
Definition put_copies c d σ :=
  Gx (gx_src σ) (gx_dst σ) c d (gx_modules σ) (gx_preloading σ) (gx_ignore σ) (gx_errors σ).
Definition put_preloading p σ :=
  Gx (gx_src σ) (gx_dst σ) (gx_copies σ) (gx_dcopies σ) (gx_modules σ) p (gx_ignore σ) (gx_errors σ).
Definition put_ignore n σ :=
  Gx (gx_src σ) (gx_dst σ) (gx_copies σ) (gx_dcopies σ) (gx_modules σ) (gx_preloading σ) n (gx_errors σ).
Definition put_errors e σ :=
  Gx (gx_src σ) (gx_dst σ) (gx_copies σ) (gx_dcopies σ) (gx_modules σ) (gx_preloading σ) (gx_ignore σ) e.

(** A function that returns false gives no value. *)
Definition shuso_set_error {A} (msg : string) : M gx (option A) :=
  m_modify (λ σ, put_errors (msg :: gx_errors σ) σ) ;;; m_ret None.

(** [if(!m) return false;] *)
Notation "x <-? m ;; k" := (m_bind m (λ r, match r with Some x => k | None => m_ret None end))
  (at level 100, m at next level, right associativity) : shuso_scope.

(** An operation on one of the states; it may raise an error. *)
Definition on_src {A} (f : lstate → option (A * lstate)) : M gx A :=
  λ σ, match f (gx_src σ) with Some (a, L) => Some (a, put_src L σ) | None => None end.
Definition on_dst {A} (f : lstate → option (A * lstate)) : M gx A :=
  λ σ, match f (gx_dst σ) with Some (a, L) => Some (a, put_dst L σ) | None => None end.
Definition do_dst (f : lstate → option lstate) : M gx unit :=
  on_dst (λ L, match f L with Some L' => Some (tt, L') | None => None end).

Definition gxcopy_cache_load (v : value) : M gx (option value) :=
  σ <- m_get ;;
  match gx_copies σ !! v with
  | Some i => m_ret (Some (default VNil (gx_dcopies σ !! Z.to_nat (i - 1))))
  | None => m_ret None
  end.

(** [luaL_ref] of a table that nothing is removed from gives the next index. *)
Definition gxcopy_cache_store (v v' : value) : M gx unit :=
  m_modify (λ σ, put_copies (<[v := Z.of_nat (length (gx_dcopies σ)) + 1]> (gx_copies σ))
                            (gx_dcopies σ ++ [v']) σ).

Section gxcopy.
Context `{LuaVM}.

Section any.
(** [gxcopy_any], which the functions below call *)
Variable any : value → M gx (option value).

Definition gxcopy_package_preloader (name : string) : M gx bool :=
  σ <- m_get ;;
  match l_preload (gx_src σ) !! name with
  | None => m_ret true
  | Some f =>
      m_modify (λ σ, put_preloading ({[name]} ∪ gx_preloading σ) σ) ;;;
      r <- any f ;;
      (match r with
       | Some f' => do_dst (λ L, Some (set_preload <[name := f']> L))
       | None => m_ret tt
       end) ;;;
      m_modify (λ σ, put_preloading (gx_preloading σ ∖ {[name]}) σ) ;;;
      match r with
      | Some _ => m_ret true
      | None => shuso_set_error (A := unit) "failed to gxcopy package.preload" ;;; m_ret false
      end
  end.

(** Not a loaded package: no value.  A table that declares it is copied itself; a metafield that
    is false is left on the stack, and a direct copy that fails leaves what it made: an assertion
    fails later on. *)
Definition gxcopy_package_loaded (v : value) : M gx (option value) :=
  σ <- m_get ;;
  if 0 <? gx_ignore σ then m_put (put_ignore (gx_ignore σ - 1) σ) ;;; m_ret None
  else
    match gx_modules σ !! v with
    | None => m_ret None
    | Some package_name =>
        if bool_decide (package_name ∈ gx_preloading σ) then m_ret None
        else
          let direct := luaL_getmetafield (gx_src σ) v "__gxcopy_loaded_package_directly" in
          if truthy direct then
            m_modify (λ σ, put_ignore (gx_ignore σ + 1) σ) ;;;
            r <- any v ;;
            match r with
            | Some v' => do_dst (λ L, Some (set_loaded <[package_name := v']> L)) ;;; m_ret (Some v')
            | None =>
                σ <- m_get ;;
                m_assert (negb (bool_decide (lua_type (gx_src σ) v = Some LUA_TTABLE))) ;;;
                m_ret None
            end
          else
            m_assert (bool_decide (direct = VNil)) ;;;
            gxcopy_package_preloader package_name ;;;
            v' <- on_dst (λ L, lua_require L package_name) ;;
            σ <- m_get ;;
            m_assert (bool_decide (lua_type (gx_src σ) v = lua_type (gx_dst σ) v')) ;;;
            m_ret (Some v')
    end.

(** The upvalues' copies, the first one first *)
Fixpoint gxcopy_upvalues (vs : list value) : M gx (option (list value)) :=
  match vs with
  | [] => m_ret (Some [])
  | v :: vs' =>
      v' <-? any v ;;
      r <-? gxcopy_upvalues vs' ;;
      m_ret (Some (v' :: r))
  end.

(** [for(i = nups; i > 0; i--) lua_setupvalue(Ld, funcidx, i)], the last value first *)
Fixpoint setupvalues (o : Z) (vs : list value) : M gx (option unit) :=
  match vs with
  | [] => m_ret (Some tt)
  | v :: vs' =>
      σ <- m_get ;;
      match lua_setupvalue o (length vs') v (gx_dst σ) with
      | Some L => m_put (put_dst L σ) ;;; setupvalues o vs'
      | None => shuso_set_error "failed to gxcopy function, setupvalue failed"
      end
  end.

Definition upvalues_of (L : lstate) (cs : list Z) : list value :=
  (λ c, default VNil (l_cells L !! c)) <$> cs.

Definition gxcopy_function (v : value) (copy_upvalues : bool) : M gx (option value) :=
  p <- gxcopy_package_loaded v ;;
  if p is Some v' then m_ret (Some v') else
  c <- gxcopy_cache_load v ;;
  if c is Some v' then m_ret (Some v') else
  σ <- m_get ;;
  match v with
  | VCFun f => gxcopy_cache_store v (VCFun f) ;;; m_ret (Some (VCFun f))
  | VObj o =>
      match l_objs (gx_src σ) !! o with
      | Some (OCClosure f ups) =>
          if copy_upvalues then
            ups' <-? gxcopy_upvalues ups ;;
            o' <- on_dst (λ L, Some (lua_new (OCClosure f ups') L)) ;;
            gxcopy_cache_store v (VObj o') ;;;
            m_ret (Some (VObj o'))
          else gxcopy_cache_store v (VCFun f) ;;; m_ret (Some (VCFun f))
      | Some (OLFun proto cs) =>
          o' <- on_dst (λ L, Some (lua_load proto (length cs) L)) ;;
          gxcopy_cache_store v (VObj o') ;;;
          if copy_upvalues then
            σ <- m_get ;;
            ups' <-? gxcopy_upvalues (upvalues_of (gx_src σ) cs) ;;
            _ <-? setupvalues o' (reverse ups') ;;
            m_ret (Some (VObj o'))
          else m_ret (Some (VObj o'))
      | _ => m_abort
      end
  | _ => m_abort
  end.

(** The copy of the metatable of [v], if it has one, becomes the metatable of [t]. *)
Definition gxcopy_metatable (v : value) (t : Z) : M gx (option unit) :=
  σ <- m_get ;;
  match lua_getmetatable (gx_src σ) v with
  | None => m_ret (Some tt)
  | Some m =>
      let mt := VObj m in
      p <- gxcopy_package_loaded mt ;;
      if p is Some mt' then do_dst (lua_setmetatable t mt') ;;; m_ret (Some tt) else
      f <- on_src (λ L, lua_getfield L mt "__gxcopy_metatable") ;;
      σ <- m_get ;;
      if lua_isfunction (gx_src σ) f then
        r <- gxcopy_function f false ;;
        match r with
        | None => shuso_set_error "failed to gxcopy metatable __gxcopy_metatable function"
        | Some f' =>
            mt' <- on_dst (λ L, first_result (lua_call L f' [])) ;;
            if bool_decide (mt' = VNil) then
              shuso_set_error "failed to gxcopy metatable, __gxcopy_metatable function returned nil"
            else do_dst (lua_setmetatable t mt') ;;; m_ret (Some tt)
        end
      else
        mt' <-? any mt ;;
        do_dst (lua_setmetatable t mt') ;;; m_ret (Some tt)
  end.

(** The loop over [lua_next]: key and value are copied, in this order, and set. *)
Fixpoint gxcopy_entries (t : Z) (l : list (value * value)) : M gx (option unit) :=
  match l with
  | [] => m_ret (Some tt)
  | (k, v) :: l' =>
      k' <-? any k ;;
      v' <-? any v ;;
      do_dst (lua_rawset t k' v') ;;;
      gxcopy_entries t l'
  end.

Definition table_entries (L : lstate) (v : value) : gmap value value :=
  match v with
  | VObj o => match l_objs L !! o with Some (OTable e _) => e | _ => ∅ end
  | _ => ∅
  end.

Definition gxcopy_table (v : value) : M gx (option value) :=
  eq <- on_src (λ L, lua_compare_eq L (VObj (l_globals L)) v) ;;
  σ <- m_get ;;
  if (eq : bool) then m_ret (Some (VObj (l_globals (gx_dst σ)))) else
  p <- gxcopy_package_loaded v ;;
  if p is Some v' then m_ret (Some v') else
  c <- gxcopy_cache_load v ;;
  if c is Some v' then m_ret (Some v') else
  t <- on_dst (λ L, Some (lua_new (OTable ∅ None) L)) ;;
  gxcopy_cache_store v (VObj t) ;;;
  σ <- m_get ;;
  _ <-? gxcopy_entries t (next_order (table_entries (gx_src σ) v)) ;;
  _ <-? gxcopy_metatable v t ;;
  m_ret (Some (VObj t)).

(** [luaS_function_call_result_ok]: a function that returns nil and a message failed; nil without a
    message aborts.  [inl]: the result, [inr]: the message *)
Definition function_result_ok (rs : list value) : option (value + string) :=
  match default VNil (rs !! 0%nat), default VNil (rs !! 1%nat) with
  | VNil, VStr err => Some (inr err)
  | VNil, VInt _ | VNil, VNum _ => Some (inr "")
  | VNil, _ => None
  | v, _ => Some (inl v)
  end.

Definition function_call_result_ok (L : lstate) (f arg : value) : option ((value + string) * lstate) :=
  match lua_call L f [arg] with
  | Some (rs, L') => match function_result_ok rs with Some r => Some (r, L') | None => None end
  | None => None
  end.

(** A saved value whose copy fails leaves [__gxcopy_load] without its argument on the stack: whatever
    is below is called, which has no result here. *)
Definition gxcopy_userdata (v : value) : M gx (option value) :=
  p <- gxcopy_package_loaded v ;;
  if p is Some v' then m_ret (Some v') else
  σ <- m_get ;;
  match lua_getmetatable (gx_src σ) v with
  | None => shuso_set_error "failed to gxcopy userdata without metatable: this is impossible"
  | Some m =>
      save <- on_src (λ L, lua_getfield L (VObj m) "__gxcopy_save") ;;
      σ <- m_get ;;
      if negb (lua_isfunction (gx_src σ) save) then
        shuso_set_error "failed to gxcopy userdata: __gxcopy_save metatable value is not a function"
      else
      load <- on_src (λ L, lua_getfield L (VObj m) "__gxcopy_load") ;;
      σ <- m_get ;;
      if negb (lua_isfunction (gx_src σ) load) then
        shuso_set_error "failed to gxcopy userdata: __gxcopy_load metatable value is not a function"
      else
      load' <-? any load ;;
      saved <- on_src (λ L, function_call_result_ok L save v) ;;
      match saved with
      | inr err =>
          shuso_set_error (A := unit) err ;;;
          shuso_set_error "failed to gxcopy userdata: __gxcopy_save error"
      | inl x =>
          x' <- any x ;;
          match x' with
          | None => m_abort
          | Some x' =>
              r <- on_dst (λ L, function_call_result_ok L load' x') ;;
              match r with
              | inr err =>
                  shuso_set_error (A := unit) err ;;;
                  shuso_set_error "failed to gxcopy userdata: __gxcopy_load error"
              | inl v' => m_ret (Some v')
              end
          end
      end
  end.

Definition gxcopy_thread : M gx (option value) :=
  shuso_set_error "failed to gxcopy coroutine: this is impossible".

Definition any_body (v : value) : M gx (option value) :=
  σ <- m_get ;;
  match lua_type (gx_src σ) v with
  | Some LUA_TNIL | Some LUA_TNUMBER | Some LUA_TBOOLEAN | Some LUA_TSTRING
  | Some LUA_TLIGHTUSERDATA => m_ret (Some v)
  | Some LUA_TTABLE => gxcopy_table v
  | Some LUA_TFUNCTION => gxcopy_function v true
  | Some LUA_TUSERDATA => gxcopy_userdata v
  | Some LUA_TTHREAD => gxcopy_thread
  | None => m_abort
  end.
End any.

(** [fuel] bounds the depth of the recursion. *)
Fixpoint gxcopy_any (fuel : nat) (v : value) : M gx (option value) :=
  match fuel with
  | O => m_abort
  | S fuel' => any_body (gxcopy_any fuel') v
  end.

(** The loaded packages, by value; of one that has several names the last counts. *)
Definition invert_loaded (l : list (string * value)) : gmap value string :=
  foldl (λ m '(name, v), <[v := name]> m) ∅ l.

(** [luaS_gxcopy_start]; no state: another copying is in progress. *)
Definition luaS_gxcopy_start (Ls Ld : lstate) : option gx :=
  if l_gxcopy Ls || l_gxcopy Ld then None
  else Some (Gx (set_gxcopy true Ls) (set_gxcopy true Ld) ∅ [] (invert_loaded (next_names (l_loaded Ls)))
                ∅ 0 []).

(** [luaS_gxcopy] from the source of the copying in progress to its destination; no other
    states pass its checks. *)
Definition luaS_gxcopy (fuel : nat) (v : value) : M gx (option value) :=
  σ <- m_get ;;
  if negb (l_gxcopy (gx_src σ)) then
    shuso_set_error "tried to gxcopy a Lua value, but no gxcopy is in progress"
  else gxcopy_any fuel v.

Definition luaS_gxcopy_finish : M gx bool :=
  σ <- m_get ;;
  if negb (l_gxcopy (gx_src σ)) then
    shuso_set_error (A := unit) "tried to finish gxcopy, but no gxcopy is in progress" ;;; m_ret false
  else
    m_put (put_dst (set_gxcopy false (gx_dst σ)) (put_src (set_gxcopy false (gx_src σ)) σ)) ;;;
    m_ret true.

(** The loop of [luaS_gxcopy_package_preloaders]: a preloader that cannot be copied is left out. *)
Fixpoint preloaders_loop (fuel : nat) (l : list (string * value)) (ok : bool) : M gx bool :=
  match l with
  | [] => m_ret ok
  | (k, f) :: l' =>
      r <- luaS_gxcopy fuel f ;;
      match r with
      | Some f' => do_dst (λ L, Some (set_preload <[k := f']> L)) ;;; preloaders_loop fuel l' ok
      | None =>
          shuso_set_error (A := unit) "Failed to gxcopy Lua package.preload" ;;;
          preloaders_loop fuel l' false
      end
  end.

Definition luaS_gxcopy_package_preloaders (fuel : nat) : M gx bool :=
  σ <- m_get ;;
  preloaders_loop fuel (next_names (l_preload (gx_src σ))) true.

(** [luaS_pcall] of a function of one of the states; of a call that raises an error only
    that is known. *)
Definition pcall_src {A} (f : lstate → option (A * lstate)) : M gx (option A) :=
  λ σ, match f (gx_src σ) with
       | Some (r, L) => Some (Some r, put_src L σ)
       | None => Some (None, put_errors ("Lua error" :: gx_errors σ) σ)
       end.
Definition pcall_dst {A} (f : lstate → option (A * lstate)) : M gx (option A) :=
  λ σ, match f (gx_dst σ) with
       | Some (r, L) => Some (Some r, put_dst L σ)
       | None => Some (None, put_errors ("Lua error" :: gx_errors σ) σ)
       end.

Definition module_error (msg : string) : M gx bool :=
  shuso_set_error (A := unit) msg ;;; m_ret false.

(** The first of a call's results, which must not be nil *)
Definition not_nil (rs : list value) : option value :=
  match rs !! 0%nat with Some VNil | None => None | Some v => Some v end.

(** [luaS_gxcopy_module_state]: what the module's [__gxcopy_save_module_state] gives is copied and handed to the
    destination's [__gxcopy_load_module_state].  (C does not look at whether the copying succeeded; it
    then calls what is below on the stack, which has no result here.) *)
Definition luaS_gxcopy_module_state (fuel : nat) (module_name : string) : M gx bool :=
  ms <- pcall_src (λ L, lua_require L module_name) ;;
  match ms with
  | None | Some VNil => module_error "no Lua module in source Lua state"
  | Some ms =>
  md <- pcall_dst (λ L, lua_require L module_name) ;;
  match md with
  | None | Some VNil => module_error "no Lua module in destination Lua state"
  | Some md =>
  σ <- m_get ;;
  match lua_getmetatable (gx_src σ) ms, lua_getmetatable (gx_dst σ) md with
  | None, _ => module_error "Lua module has no metatable in source Lua state"
  | _, None => module_error "Lua module has no metatable in destination Lua state"
  | Some mts, Some mtd =>
  save <- on_src (λ L, lua_getfield L (VObj mts) "__gxcopy_save_module_state") ;;
  σ <- m_get ;;
  if negb (lua_isfunction (gx_src σ) save) then module_error "no __gxcopy_save_module_state metatable field" else
  load <- on_dst (λ L, lua_getfield L (VObj mtd) "__gxcopy_load_module_state") ;;
  σ <- m_get ;;
  if negb (lua_isfunction (gx_dst σ) load) then module_error "no __gxcopy_load_module_state metatable field" else
  rs <- pcall_src (λ L, lua_call L save []) ;;
  match rs ≫= not_nil with
  | None => module_error "__gxcopy_save_module_state failed"
  | Some saved =>
  r <- luaS_gxcopy fuel saved ;;
  match r with
  | None => m_abort
  | Some saved' =>
  rd <- pcall_dst (λ L, lua_call L load [saved']) ;;
  match rd ≫= not_nil with
  | None => module_error "__gxcopy_load_module_state failed"
  | Some _ => m_ret true
  end end end end end end.

(** A client's copying of some values *)
Fixpoint copy_values (fuel : nat) (vs : list value) : M gx (option (list value)) :=
  match vs with
  | [] => m_ret (Some [])
  | v :: vs' =>
      v' <-? luaS_gxcopy fuel v ;;
      r <-? copy_values fuel vs' ;;
      m_ret (Some (v' :: r))
  end.
End gxcopy.
