(* ===== verification/GxcopyInv.v ===== *)
(** The copying of Lua values (Gxcopy.v) step by step: the map from values to their copies, the invariant of
    a copying in progress, and that tables and Lua functions, cyclic and shared as they may be, are mirrored one
    to one. *)

From stdpp Require Import strings.
From S2P Require Import Prelude Lua Gxcopy.

(** ** The copy of a value

    The globals become the destination's, a loaded package the one the destination has loaded under its
    name; every other table or closure has a copy of its own. *)

Definition cached (σ : gx) (v v' : value) : Prop :=
  ∃ i, gx_copies σ !! v = Some i ∧ 1 ≤ i ∧ gx_dcopies σ !! Z.to_nat (i - 1) = Some v'.

Definition image (σ : gx) (v : value) : option value :=
  match v with
  | VObj o =>
      if bool_decide (o = l_globals (gx_src σ)) then Some (VObj (l_globals (gx_dst σ)))
      else match gx_modules σ !! v with
           | Some name => l_loaded (gx_dst σ) !! name
           | None => i ← gx_copies σ !! v; gx_dcopies σ !! Z.to_nat (i - 1)
           end
  | _ => Some v
  end.

#[local] Arguments image : simpl never.

(** The object of the destination is the same as the source's, up to the copies of values. *)
Definition mirrors (σ : gx) (x x' : obj) : Prop :=
  match x, x' with
  | OTable e m, OTable e' m' =>
      (∀ k v, e !! k = Some v →
        ∃ k' v', image σ k = Some k' ∧ image σ v = Some v' ∧ e' !! k' = Some v') ∧
      (∀ k' v', e' !! k' = Some v' →
        ∃ k v, e !! k = Some v ∧ image σ k = Some k' ∧ image σ v = Some v') ∧
      match m, m' with
      | None, None => True
      | Some o, Some o' => image σ (VObj o) = Some (VObj o')
      | _, _ => False
      end
  | OLFun p cs, OLFun p' cs' =>
      p = p' ∧
      Forall2 (λ c c', ∃ w w', l_cells (gx_src σ) !! c = Some w ∧ l_cells (gx_dst σ) !! c' = Some w' ∧
                               image σ w = Some w') cs cs'
  | _, _ => False
  end.

(** ** What can be copied

    [D]: the tables and Lua functions the values reach; [P]: the loaded packages among what they
    reach. *)
Section spec.
Context `{LuaVM} (D P : gset Z).

Definition known (σ : gx) (v : value) : Prop :=
  match v with
  | VObj o => o = l_globals (gx_src σ) ∨ o ∈ D ∨ o ∈ P
  | VCFun _ => gx_modules σ !! v = None
  | _ => True
  end.

#[global] Instance known_dec σ v : Decision (known σ v).
Proof. destruct v; apply _. Defined.

(** Not the globals, also to a program that has redefined equality *)
Definition no_globals (L : lstate) (o : Z) : Prop :=
  o ≠ l_globals L ∧
  (lua_type L (VObj o) = Some LUA_TTABLE → lua_compare_eq L (VObj (l_globals L)) (VObj o) = Some (false, L)).

Definition copyable_meta (σ : gx) (m : Z) : Prop :=
  m ∈ P ∨
  m ∈ D ∧ ∃ f, lua_getfield (gx_src σ) (VObj m) "__gxcopy_metatable" = Some (f, gx_src σ) ∧
               lua_isfunction (gx_src σ) f = false.

Definition copyable_obj (σ : gx) (x : obj) : Prop :=
  match x with
  | OTable e m =>
      map_Forall (λ k v, (known σ k ∧ k ≠ VNil) ∧ (known σ v ∧ v ≠ VNil)) e ∧
      match m with None => True | Some m => copyable_meta σ m end
  | OLFun p cs => Forall (λ c, ∃ w, l_cells (gx_src σ) !! c = Some w ∧ known σ w) cs
  | _ => False
  end.

(** A package that both states have loaded, that is not to be copied itself and has no preloader *)
Definition package_ok (σ : gx) (o : Z) : Prop :=
  ∃ name o', gx_modules σ !! VObj o = Some name ∧
    luaL_getmetafield (gx_src σ) (VObj o) "__gxcopy_loaded_package_directly" = VNil ∧
    l_preload (gx_src σ) !! name = None ∧
    l_loaded (gx_dst σ) !! name = Some (VObj o') ∧
    o' ≠ l_globals (gx_dst σ) ∧ o' ∈ dom (l_objs (gx_dst σ)) ∧
    lua_type (gx_src σ) (VObj o) = lua_type (gx_dst σ) (VObj o') ∧
    lua_type (gx_src σ) (VObj o) ∈ [Some LUA_TTABLE; Some LUA_TFUNCTION; Some LUA_TUSERDATA].

Record copyable (σ : gx) : Prop := {
  cp_globals : lua_type (gx_src σ) (VObj (l_globals (gx_src σ))) = Some LUA_TTABLE;
  cp_dst_globals : l_globals (gx_dst σ) ∈ dom (l_objs (gx_dst σ));
  cp_apart : ∀ o, o ∈ D ∪ P → no_globals (gx_src σ) o;
  cp_obj : ∀ o, o ∈ D → gx_modules σ !! VObj o = None ∧
    ∃ x, l_objs (gx_src σ) !! o = Some x ∧ copyable_obj σ x;
  cp_package : ∀ o, o ∈ P → package_ok σ o;
  cp_packages_differ : ∀ o1 o2 n1 n2, o1 ∈ P → o2 ∈ P →
    gx_modules σ !! VObj o1 = Some n1 → gx_modules σ !! VObj o2 = Some n2 →
    l_loaded (gx_dst σ) !! n1 = l_loaded (gx_dst σ) !! n2 → o1 = o2
}.

(** ** The invariant of a copying that started with [σ0] *)
Variable σ0 : gx.
Hypothesis Hσ0 : copyable σ0.

Record ginv (σ : gx) : Prop := {
  gi_src : gx_src σ = gx_src σ0;
  gi_modules : gx_modules σ = gx_modules σ0;
  gi_preloading : gx_preloading σ = ∅;
  gi_ignore : gx_ignore σ = 0;
  gi_globals : l_globals (gx_dst σ) = l_globals (gx_dst σ0);
  gi_loaded : l_loaded (gx_dst σ) = l_loaded (gx_dst σ0);
  gi_objs : l_objs (gx_dst σ0) ⊆ l_objs (gx_dst σ);
  gi_cache : ∀ v i, gx_copies σ !! v = Some i → 1 ≤ i ∧ ∃ v', gx_dcopies σ !! Z.to_nat (i - 1) = Some v' ∧
    match v with
    | VObj o => o ∈ D ∧ ∃ o', v' = VObj o' ∧ o' ∈ dom (l_objs (gx_dst σ)) ∧ o' ∉ dom (l_objs (gx_dst σ0))
    | VCFun _ => v' = v
    | _ => False
    end;
  gi_inj : ∀ o1 o2 w, cached σ (VObj o1) w → cached σ (VObj o2) w → o1 = o2
}.

Definition done (σ : gx) (o : Z) : Prop :=
  ∃ o' x x', cached σ (VObj o) (VObj o') ∧ l_objs (gx_src σ) !! o = Some x ∧
             l_objs (gx_dst σ) !! o' = Some x' ∧ mirrors σ x x'.

(** From [σ] to [σ'] nothing is changed that was there, and what is new is complete, with upvalues of
    its own; but for the object [but], still to be filled. *)
Record grow (but : option Z) (σ σ' : gx) : Prop := {
  gr_cached : ∀ v v', cached σ v v' → cached σ' v v';
  gr_objs : l_objs (gx_dst σ) ⊆ l_objs (gx_dst σ');
  gr_cells : l_cells (gx_dst σ) ⊆ l_cells (gx_dst σ');
  gr_rest : l_preload (gx_dst σ') = l_preload (gx_dst σ) ∧ l_gxcopy (gx_dst σ') = l_gxcopy (gx_dst σ);
  gr_errors : gx_errors σ' = gx_errors σ;
  gr_done : ∀ o o', cached σ' (VObj o) (VObj o') → (∀ w, ¬ cached σ (VObj o) w) → Some o ≠ but → done σ' o;
  gr_new : ∀ o o', cached σ' (VObj o) (VObj o') → (∀ w, ¬ cached σ (VObj o) w) →
    l_objs (gx_dst σ) !! o' = None;
  gr_own : ∀ o' p cs c, l_objs (gx_dst σ') !! o' = Some (OLFun p cs) → l_objs (gx_dst σ) !! o' = None →
    c ∈ cs → l_cells (gx_dst σ) !! c = None
}.

(** The objects that have no copy yet *)
Definition missing (σ : gx) : nat :=
  size (filter (λ o, gx_copies σ !! VObj o = None) D).

Definition any_ok (n : nat) (any : value → M gx (option value)) : Prop :=
  ∀ v σ, ginv σ → known σ0 v → (missing σ < n)%nat →
    ∃ v' σ', any v σ = Some (Some v', σ') ∧ ginv σ' ∧ grow None σ σ' ∧ image σ' v = Some v'.
(** *** Images *)

Lemma cached_fun σ v w1 w2 : cached σ v w1 → cached σ v w2 → w1 = w2.
Proof. intros (i & Hi & _ & H1) (j & Hj & _ & H2). congruence. Qed.

Lemma image_D σ o w : ginv σ → o ∈ D → image σ (VObj o) = Some w ↔ cached σ (VObj o) w.
Proof.
  intros Hg Ho. destruct (cp_obj _ Hσ0 o Ho) as [Hm _].
  destruct (cp_apart _ Hσ0 o) as [Hng _]; [set_solver|].
  unfold image. rewrite (gi_src _ Hg), (gi_modules _ Hg), bool_decide_eq_false_2, Hm by done.
  unfold cached. destruct (gx_copies σ !! VObj o) as [i|] eqn:Hi; simpl.
  - destruct (gi_cache _ Hg _ _ Hi) as [Hle _]. split; [eauto|]. intros (j & Hj & _ & Hw). congruence.
  - split; [done|]. intros (j & Hj & _). done.
Qed.

Lemma image_globals σ : image σ (VObj (l_globals (gx_src σ))) = Some (VObj (l_globals (gx_dst σ))).
Proof. unfold image. by rewrite bool_decide_eq_true_2. Qed.

Lemma image_P σ o : ginv σ → o ∈ P →
  ∃ name o', gx_modules σ0 !! VObj o = Some name ∧ image σ (VObj o) = Some (VObj o') ∧
    l_loaded (gx_dst σ0) !! name = Some (VObj o') ∧
    o' ≠ l_globals (gx_dst σ0) ∧ o' ∈ dom (l_objs (gx_dst σ0)).
Proof.
  intros Hg Ho. destruct (cp_package _ Hσ0 o Ho) as (name & o' & Hm & _ & _ & Hl & Hog & Hod & _).
  destruct (cp_apart _ Hσ0 o) as [Hng _]; [set_solver|].
  exists name, o'. unfold image.
  rewrite (gi_src _ Hg), (gi_modules _ Hg), bool_decide_eq_false_2, Hm, (gi_loaded _ Hg) by done. done.
Qed.

Lemma image_simple σ v : (∀ o, v ≠ VObj o) → image σ v = Some v.
Proof. destruct v; try done. intros Ho. by destruct (Ho o). Qed.

(** Where the copies of the three kinds of objects are *)
Lemma cached_fresh σ o w : ginv σ → cached σ (VObj o) w →
  o ∈ D ∧ ∃ o', w = VObj o' ∧ o' ∈ dom (l_objs (gx_dst σ)) ∧ o' ∉ dom (l_objs (gx_dst σ0)).
Proof.
  intros Hg (i & Hi & _ & Hw). destruct (gi_cache _ Hg _ _ Hi) as (_ & v' & Hv & Ho).
  naive_solver.
Qed.

Lemma image_where σ o w : ginv σ → known σ0 (VObj o) → image σ (VObj o) = Some w →
  ∃ o', w = VObj o' ∧
    (o = l_globals (gx_src σ0) ∧ o' = l_globals (gx_dst σ0) ∨
     (o ∈ P ∧ o' ≠ l_globals (gx_dst σ0) ∧ o' ∈ dom (l_objs (gx_dst σ0)) ∧
      ∃ name, gx_modules σ0 !! VObj o = Some name ∧ l_loaded (gx_dst σ0) !! name = Some (VObj o')) ∨
     (o ∈ D ∧ o' ∉ dom (l_objs (gx_dst σ0)) ∧ cached σ (VObj o) w)).
Proof.
  intros Hg [->|[Ho|Ho]] Hi.
  - rewrite <- (gi_src _ Hg), image_globals in Hi. injection Hi as <-. eexists. split; [done|]. left.
    by rewrite (gi_globals _ Hg).
  - apply image_D in Hi; [|done..].
    destruct (cached_fresh _ _ _ Hg Hi) as (_ & o' & -> & _ & Hf). eauto 8.
  - destruct (image_P _ _ Hg Ho) as (name & o' & Hm & Hi' & Hl & Hne & Hd). exists o'.
    rewrite Hi in Hi'. injection Hi' as ->. split; [done|]. right; left. eauto 8.
Qed.

Lemma image_obj σ o w : ginv σ → known σ0 (VObj o) → image σ (VObj o) = Some w → ∃ o', w = VObj o'.
Proof. intros Hg Hk Hi. destruct (image_where _ _ _ Hg Hk Hi) as (o' & -> & _). eauto. Qed.

Lemma object_or_not v : (∃ o, v = VObj o) ∨ (∀ o, v ≠ VObj o).
Proof. destruct v; naive_solver. Qed.

Lemma image_inj_obj σ o1 o2 w : ginv σ → known σ0 (VObj o1) → known σ0 (VObj o2) →
  image σ (VObj o1) = Some w → image σ (VObj o2) = Some w → o1 = o2.
Proof.
  intros Hg Hk1 Hk2 H1 H2. pose proof (cp_dst_globals _ Hσ0) as Hgd.
  destruct (image_where _ _ _ Hg Hk1 H1) as (o' & -> & W1).
  destruct (image_where _ _ _ Hg Hk2 H2) as (o'' & [= <-] & W2).
  destruct W1 as [[-> ->]|[(Ho1 & Hne1 & Hd1 & n1 & Hm1 & Hl1)|(Ho1 & Hd1 & Hc1)]],
    W2 as [[-> Hz]|[(Ho2 & Hne2 & Hd2 & n2 & Hm2 & Hl2)|(Ho2 & Hd2 & Hc2)]];
    try contradiction; try reflexivity; try congruence.
  - eapply (cp_packages_differ _ Hσ0); eauto. by rewrite Hl1, Hl2.
  - by eapply (gi_inj _ Hg).
Qed.

Lemma image_inj σ v1 v2 w : ginv σ → known σ0 v1 → known σ0 v2 →
  image σ v1 = Some w → image σ v2 = Some w → v1 = v2.
Proof.
  intros Hg Hk1 Hk2 H1 H2.
  destruct (object_or_not v1) as [[o1 ->]|Hv1], (object_or_not v2) as [[o2 ->]|Hv2].
  - f_equal. by eapply image_inj_obj.
  - destruct (image_obj _ _ _ Hg Hk1 H1) as [? ->]. rewrite image_simple in H2 by done. naive_solver.
  - destruct (image_obj _ _ _ Hg Hk2 H2) as [? ->]. rewrite image_simple in H1 by done. naive_solver.
  - rewrite image_simple in H1, H2 by done. congruence.
Qed.

(** *** Growth *)

Lemma cached_copies σ v w : cached σ v w → gx_copies σ !! v ≠ None.
Proof. intros (i & -> & _). done. Qed.

Lemma copies_cached σ v : ginv σ → gx_copies σ !! v ≠ None → ∃ w, cached σ v w.
Proof.
  intros Hg Hn. destruct (gx_copies σ !! v) as [i|] eqn:Hi; [|done].
  destruct (gi_cache _ Hg _ _ Hi) as (Hle & w & Hw & _). by exists w, i.
Qed.

Lemma image_grow b σ σ' v w : ginv σ → ginv σ' → grow b σ σ' → known σ0 v →
  image σ v = Some w → image σ' v = Some w.
Proof.
  intros Hg Hg' Hgr Hk Hi. destruct (object_or_not v) as [[o ->]|Hv].
  - destruct Hk as [->|[Ho|Ho]].
    + rewrite <- (gi_src _ Hg), image_globals in Hi.
      rewrite <- (gi_src _ Hg'), image_globals. by rewrite (gi_globals _ Hg'), <- (gi_globals _ Hg).
    + apply image_D; [done..|]. apply image_D in Hi; [|done..]. by apply (gr_cached _ _ _ Hgr).
    + destruct (image_P _ _ Hg Ho) as (n & q & Hm & Hq & Hl & _), (image_P _ _ Hg' Ho) as (n' & q' & Hm' & Hq' & Hl' & _).
      congruence.
  - rewrite image_simple in * by done. done.
Qed.

Definition keeps_images (σ σ' : gx) : Prop :=
  ∀ v w, known σ0 v → image σ v = Some w → image σ' v = Some w.

Lemma grow_keeps b σ σ' : ginv σ → ginv σ' → grow b σ σ' → keeps_images σ σ'.
Proof. intros Hg Hg' Hgr v w. by apply (image_grow b). Qed.

Lemma mirrors_grow b σ σ' x x' : ginv σ → ginv σ' → grow b σ σ' → copyable_obj σ0 x →
  mirrors σ x x' → mirrors σ' x x'.
Proof.
  intros Hg Hg' Hgr Hx Hm.
  assert (∀ v w, known σ0 v → image σ v = Some w → image σ' v = Some w) as Him.
  { intros v w Hk. by apply (image_grow b). }
  destruct x as [e m|p cs| | |], x' as [e' m'|p' cs'| | |]; try done; simpl in *.
  - destruct Hx as [He Hmt], Hm as (Hf & Hb & Hm). split_and!.
    + intros k v Hk. destruct (He _ _ Hk) as [[Kk _] [Kv _]].
      destruct (Hf _ _ Hk) as (k' & v' & ? & ? & ?). exists k', v'. auto.
    + intros k' v' Hk'. destruct (Hb _ _ Hk') as (k & v & Hk & ? & ?).
      destruct (He _ _ Hk) as [[Kk _] [Kv _]]. exists k, v. auto.
    + destruct m as [m|], m' as [m'|]; try done. apply Him; [|done].
      destruct Hmt as [?|[? _]]; simpl; tauto.
  - destruct Hm as [-> Hf]. split; [done|].
    induction Hf as [|c c' cs cs' (w & w' & Hw & Hw' & Hi) Hf IH]; [constructor|].
    apply Forall_cons in Hx as [(w2 & Hw2 & Hk) Hx]. constructor; [|by apply IH].
    rewrite (gi_src _ Hg) in Hw. assert (w2 = w) as -> by congruence.
    exists w, w'. rewrite (gi_src _ Hg'). split_and!; [done| |auto].
    by apply (lookup_weaken _ _ _ _ Hw' (gr_cells _ _ _ Hgr)).
Qed.

Lemma done_grow b σ σ' o : ginv σ → ginv σ' → grow b σ σ' → done σ o → done σ' o.
Proof.
  intros Hg Hg' Hgr (o' & x & x' & Hc & Hx & Hx' & Hm).
  exists o', x, x'. split_and!.
  - by apply (gr_cached _ _ _ Hgr).
  - by rewrite (gi_src _ Hg'), <- (gi_src _ Hg).
  - by apply (lookup_weaken _ _ _ _ Hx' (gr_objs _ _ _ Hgr)).
  - apply (mirrors_grow b σ); [done..| |done].
    destruct (cached_fresh _ _ _ Hg Hc) as [Ho _]. destruct (cp_obj _ Hσ0 o Ho) as (_ & y & Hy & Hc').
    rewrite (gi_src _ Hg) in Hx. by simplify_eq.
Qed.

Lemma grow_refl σ : grow None σ σ.
Proof.
  split; try done.
  - intros o o' Hc Hn. by destruct (Hn _ Hc).
  - intros o o' Hc Hn. by destruct (Hn _ Hc).
  - intros. congruence.
Qed.

Lemma grow_trans b σ1 σ2 σ3 : ginv σ1 → ginv σ2 → ginv σ3 →
  grow b σ1 σ2 → grow None σ2 σ3 → grow b σ1 σ3.
Proof.
  intros Hg1 Hg2 Hg3 H12 H23. split.
  - intros v v' Hc. by apply (gr_cached _ _ _ H23), (gr_cached _ _ _ H12).
  - etrans; [apply (gr_objs _ _ _ H12)|apply (gr_objs _ _ _ H23)].
  - etrans; [apply (gr_cells _ _ _ H12)|apply (gr_cells _ _ _ H23)].
  - destruct (gr_rest _ _ _ H12), (gr_rest _ _ _ H23). split; congruence.
  - rewrite (gr_errors _ _ _ H23). apply (gr_errors _ _ _ H12).
  - intros o o' Hc Hn Hb. destruct (decide (gx_copies σ2 !! VObj o = None)) as [E|E].
    + eapply (gr_done _ _ _ H23); [done| |done]. intros w Hw. by apply cached_copies in Hw.
    + destruct (copies_cached _ _ Hg2 E) as [w Hw]. destruct (cached_fresh _ _ _ Hg2 Hw) as (_ & o2 & -> & _).
      apply (done_grow None σ2); [done..|]. by apply (gr_done _ _ _ H12) with o2.
  - intros o o' Hc Hn. destruct (decide (gx_copies σ2 !! VObj o = None)) as [E|E].
    + eapply lookup_weaken_None; [|apply (gr_objs _ _ _ H12)].
      eapply (gr_new _ _ _ H23); [done|]. intros w Hw. by apply cached_copies in Hw.
    + destruct (copies_cached _ _ Hg2 E) as [w Hw]. eapply (gr_new _ _ _ H12); [|done].
      by rewrite (cached_fun _ _ _ _ Hc (gr_cached _ _ _ H23 _ _ Hw)).
  - intros o' p cs c Ho Hn Hc. destruct (l_objs (gx_dst σ2) !! o') as [x|] eqn:E.
    + pose proof (lookup_weaken _ _ _ _ E (gr_objs _ _ _ H23)) as E'. simplify_eq.
      by eapply (gr_own _ _ _ H12).
    + pose proof (gr_own _ _ _ H23 _ _ _ _ Ho E Hc) as Hnone.
      destruct (l_cells (gx_dst σ1) !! c) eqn:E1; [|done].
      pose proof (lookup_weaken _ _ _ _ E1 (gr_cells _ _ _ H12)). congruence.
Qed.

(** What is left to fill has been filled. *)
Lemma grow_close σ σ' o : grow (Some o) σ σ' → done σ' o → grow None σ σ'.
Proof.
  intros [] Hd. split; try done. intros o1 o' Hc Hn _.
  destruct (decide (o1 = o)) as [->|Hne]; [done|]. apply (gr_done0 _ o'); [done..|congruence].
Qed.

Lemma missing_grow b σ σ' : ginv σ → grow b σ σ' → (missing σ' ≤ missing σ)%nat.
Proof.
  intros Hg Hgr. unfold missing. apply subseteq_size. intros o. rewrite !elem_of_filter. intros [Hn Ho]. split; [|done].
  destruct (gx_copies σ !! VObj o) eqn:E; [|done].
  destruct (copies_cached σ (VObj o) Hg) as [w Hw]; [congruence|].
  apply (gr_cached _ _ _ Hgr) in Hw. by apply cached_copies in Hw.
Qed.

(** *** Making and filling a copy *)

Definition stored (v v' : value) (σ : gx) : gx :=
  put_copies (<[v := Z.of_nat (length (gx_dcopies σ)) + 1]> (gx_copies σ)) (gx_dcopies σ ++ [v']) σ.

Lemma stored_cached σ v v' : ginv σ → gx_copies σ !! v = None →
  (∀ u w, cached σ u w → cached (stored v v' σ) u w) ∧ cached (stored v v' σ) v v' ∧
  (∀ u w, cached (stored v v' σ) u w → cached σ u w ∨ u = v ∧ w = v').
Proof.
  intros Hg Hn.
  assert (cached (stored v v' σ) v v') as Hnew.
  { eexists. split_and!; [apply lookup_insert_eq|lia|].
    replace (Z.to_nat _) with (length (gx_dcopies σ)) by lia. simpl.
    by rewrite lookup_app_r, Nat.sub_diag by lia. }
  split_and!; [|done|].
  - intros u w (i & Hi & Hle & Hw). exists i. split_and!; [|done|by apply lookup_app_l_Some].
    simpl. rewrite lookup_insert_ne; [done|]. intros <-. congruence.
  - intros u w Hc. destruct (decide (u = v)) as [->|Hne].
    + right. split; [done|]. by apply (cached_fun (stored v v' σ) v).
    + left. destruct Hc as (i & Hi & Hle & Hw). simpl in Hi, Hw. rewrite lookup_insert_ne in Hi by done.
      destruct (gi_cache _ Hg _ _ Hi) as (_ & y & Hy & _). exists i. split_and!; [done..|].
      rewrite (lookup_app_l_Some _ _ _ _ Hy) in Hw. congruence.
Qed.

(** A new object of the destination, [t], is stored as the copy of [o]. *)
Lemma store_new σ o t x L :
  ginv σ → o ∈ D → gx_copies σ !! VObj o = None → l_objs (gx_dst σ) !! t = None →
  l_objs L = <[t := x]> (l_objs (gx_dst σ)) → l_cells (gx_dst σ) ⊆ l_cells L →
  l_globals L = l_globals (gx_dst σ) → l_loaded L = l_loaded (gx_dst σ) →
  l_preload L = l_preload (gx_dst σ) → l_gxcopy L = l_gxcopy (gx_dst σ) →
  (∀ p cs c, x = OLFun p cs → c ∈ cs → l_cells (gx_dst σ) !! c = None) →
  ∃ σ', gxcopy_cache_store (VObj o) (VObj t) (put_dst L σ) = Some (tt, σ') ∧
    ginv σ' ∧ grow (Some o) σ σ' ∧ gx_dst σ' = L ∧ gx_src σ' = gx_src σ ∧
    cached σ' (VObj o) (VObj t) ∧ (missing σ' < missing σ)%nat.
Proof.
  intros Hg Ho Hn Ht HL Hcells Hgl Hld Hpl Hgx Hown.
  set (σ' := stored (VObj o) (VObj t) (put_dst L σ)).
  destruct (stored_cached σ (VObj o) (VObj t) Hg Hn) as (Hold & Hnew & Hinv).
  change (cached (stored (VObj o) (VObj t) σ)) with (cached σ') in Hold, Hnew, Hinv.
  assert (t ∉ dom (l_objs (gx_dst σ0))) as Hfresh.
  { intros [y Hy]%elem_of_dom. pose proof (lookup_weaken _ _ _ _ Hy (gi_objs _ Hg)). congruence. }
  assert (l_objs (gx_dst σ) ⊆ l_objs L) as Hsub by (rewrite HL; by apply insert_subseteq).
  exists σ'. split_and!; try done.
  - split; simpl; try apply Hg; rewrite ?Hgl, ?Hld; try apply Hg.
    + etrans; [apply (gi_objs _ Hg)|done].
    + intros v i Hi. destruct (decide (v = VObj o)) as [->|Hne].
      * destruct Hnew as (j & Hj & Hle & Hw). simpl in Hj, Hw.
        assert (j = i) as -> by congruence. split; [done|]. eexists. split; [exact Hw|].
        split; [done|]. exists t. split_and!; [done| |done]. rewrite HL. set_solver.
      * rewrite lookup_insert_ne in Hi by done. destruct (gi_cache _ Hg _ _ Hi) as (Hle & w & Hw & Hv).
        split; [done|]. exists w. split; [by apply lookup_app_l_Some|].
        destruct v; try done. destruct Hv as (Hd & o' & -> & Ho' & Hf). split; [done|].
        exists o'. split_and!; [done| |done]. by apply (subseteq_dom _ _ Hsub).
    + intros o1 o2 w H1 H2. destruct (Hinv _ _ H1) as [H1'|[[= ->] ->]], (Hinv _ _ H2) as [H2'|[[= ->] Hw]]; try done.
      * by eapply (gi_inj _ Hg).
      * subst w. destruct (cached_fresh _ _ _ Hg H1') as (_ & ? & [= <-] & [y Hy]%elem_of_dom & _). congruence.
      * destruct (cached_fresh _ _ _ Hg H2') as (_ & ? & [= <-] & [y Hy]%elem_of_dom & _). congruence.
  - split; simpl; try done.
    + intros o1 o' Hc Hno Hb. destruct (Hinv _ _ Hc) as [Hc'|[[= ->] _]]; [by destruct (Hno _ Hc')|done].
    + intros o1 o' Hc Hno. destruct (Hinv _ _ Hc) as [Hc'|[_ [= ->]]]; [by destruct (Hno _ Hc')|done].
    + intros o' p cs c Hl Hl' Hc. rewrite HL in Hl.
      destruct (decide (o' = t)) as [->|]; [|rewrite lookup_insert_ne in Hl by done; congruence].
      rewrite lookup_insert_eq in Hl. injection Hl as ->. by eapply Hown.
  - unfold missing. apply subset_size. split.
    + intros u. rewrite !elem_of_filter. simpl. intros [Hu Hd]. split; [|done].
      apply lookup_insert_None in Hu. tauto.
    + intros Hs. specialize (Hs o). rewrite !elem_of_filter in Hs. simpl in Hs.
      rewrite lookup_insert_eq in Hs. destruct Hs as [? _]; done.
Qed.

Lemma mirrors_ext σ σ' x x' :
  (∀ v, image σ' v = image σ v) → gx_src σ' = gx_src σ →
  (∀ p cs c w, x' = OLFun p cs → c ∈ cs → l_cells (gx_dst σ) !! c = Some w → l_cells (gx_dst σ') !! c = Some w) →
  mirrors σ x x' → mirrors σ' x x'.
Proof.
  intros Him Hs Hc Hm. destruct x as [e m|p cs| | |], x' as [e' m'|p' cs'| | |]; try done; simpl in *.
  - setoid_rewrite Him. destruct m, m'; by rewrite ?Him.
  - destruct Hm as [-> Hf]. split; [done|]. specialize (Hc p').
    induction Hf as [|c c' cs cs' (w & w' & Hw & Hw' & Hi) Hf IH]; [constructor|].
    constructor.
    + exists w, w'. rewrite Hs, Him. split_and!; [done| |done].
      apply (Hc (c' :: cs')); [done|set_solver|done].
    + apply IH. intros cs2 c2 w2 [= ->] Hin. apply (Hc (c' :: cs2)); [done|set_solver].
Qed.

(** The object [t], the copy of [o] made since [σe], is changed, with upvalues of its own. *)
Lemma fill_obj σe σ o t x L :
  ginv σ → grow (Some o) σe σ → cached σ (VObj o) (VObj t) → l_objs (gx_dst σe) !! t = None →
  l_objs L = <[t := x]> (l_objs (gx_dst σ)) → l_cells (gx_dst σe) ⊆ l_cells L →
  l_globals L = l_globals (gx_dst σ) → l_loaded L = l_loaded (gx_dst σ) →
  l_preload L = l_preload (gx_dst σ) → l_gxcopy L = l_gxcopy (gx_dst σ) →
  (∀ p cs c, x = OLFun p cs → c ∈ cs → l_cells (gx_dst σe) !! c = None) →
  (∀ o' p cs c w, o' ≠ t → l_objs (gx_dst σe) !! o' = None → l_objs (gx_dst σ) !! o' = Some (OLFun p cs) →
     c ∈ cs → l_cells (gx_dst σ) !! c = Some w → l_cells L !! c = Some w) →
  ginv (put_dst L σ) ∧ grow (Some o) σe (put_dst L σ) ∧ cached (put_dst L σ) (VObj o) (VObj t) ∧
  (∀ v, image (put_dst L σ) v = image σ v).
Proof.
  intros Hg Hgr Ho Ht HL Hcells Hgl Hld Hpl Hgx Hown Hother.
  set (σ' := put_dst L σ).
  assert (∀ v, image σ' v = image σ v) as Him.
  { intros []; try done. unfold image. simpl. by rewrite Hgl, Hld. }
  assert (dom (l_objs (gx_dst σ)) ⊆ dom (l_objs L)) as Hdom by (rewrite HL; set_solver).
  split_and!; try done.
  - split; simpl; try apply Hg; rewrite ?Hgl, ?Hld; try apply Hg.
    + rewrite HL. apply insert_subseteq_r; [|apply Hg].
      destruct (cached_fresh _ _ _ Hg Ho) as (_ & ? & [= <-] & _ & Hf). by apply not_elem_of_dom.
    + intros v i Hi. destruct (gi_cache _ Hg _ _ Hi) as (Hle & w & Hw & Hv). split; [done|].
      exists w. split; [done|]. destruct v; try done. destruct Hv as (Hd & o' & -> & Ho' & Hf). eauto 8.
  - split; simpl; try apply Hgr; try done.
    + rewrite HL. apply insert_subseteq_r; [done|apply Hgr].
    + destruct (gr_rest _ _ _ Hgr). rewrite Hpl, Hgx. done.
    + intros o1 o' Hc Hn Hb. destruct (gr_done _ _ _ Hgr o1 o' Hc Hn Hb) as (o2 & y & y' & Hc2 & Hy & Hy' & Hm).
      pose proof (cached_fun _ _ _ _ Hc Hc2) as [= <-].
      assert (o' ≠ t) as Hne.
      { intros ->. apply Hb. f_equal. by eapply (gi_inj _ Hg). }
      exists o', y, y'. split_and!; [done..| |]; simpl; [by rewrite HL, lookup_insert_ne|].
      pose proof (gr_new _ _ _ Hgr _ _ Hc Hn) as Hnew.
      apply (mirrors_ext σ); [done..| |done]. intros p cs c w -> Hin Hw. simpl. by eapply Hother.
    + intros o' p cs c Hl Hl' Hin. rewrite HL in Hl.
      destruct (decide (o' = t)) as [->|]; [rewrite lookup_insert_eq in Hl; naive_solver|].
      rewrite lookup_insert_ne in Hl by done. by eapply (gr_own _ _ _ Hgr).
Qed.

(** *** The steps of the copying *)

Lemma put_dst_same σ : put_dst (gx_dst σ) σ = σ.
Proof. by destruct σ. Qed.
Lemma put_src_same σ : put_src (gx_src σ) σ = σ.
Proof. by destruct σ. Qed.

Lemma not_package any v σ : ginv σ → gx_modules σ0 !! v = None →
  gxcopy_package_loaded any v σ = Some (None, σ).
Proof.
  intros Hg Hv. unfold gxcopy_package_loaded. m_unfold.
  rewrite (gi_ignore _ Hg), (gi_modules _ Hg), Hv. done.
Qed.

Lemma no_preloader any name σ : l_preload (gx_src σ) !! name = None →
  gxcopy_package_preloader any name σ = Some (true, σ).
Proof. intros Hn. unfold gxcopy_package_preloader, m_bind, m_get. by rewrite Hn. Qed.

Lemma package_known any o σ : ginv σ → o ∈ P →
  ∃ v', gxcopy_package_loaded any (VObj o) σ = Some (Some v', σ) ∧ image σ (VObj o) = Some v'.
Proof.
  intros Hg Ho. destruct (cp_package _ Hσ0 o Ho) as (name & o' & Hm & Hd & Hp & Hl & _ & Hdom & Hty & _).
  exists (VObj o'). split.
  - rewrite <- (gi_src _ Hg) in Hd, Hp. unfold gxcopy_package_loaded. unfold m_bind at 1, m_get at 1.
    rewrite (gi_ignore _ Hg), (gi_modules _ Hg), (gi_preloading _ Hg), Hm, Hd. cbn [Z.ltb Z.compare].
    rewrite bool_decide_eq_false_2 by set_solver. unfold m_bind, m_assert. simpl.
    rewrite no_preloader by done. unfold on_dst, lua_require.
    rewrite (gi_loaded _ Hg), Hl. simpl. unfold m_get. rewrite bool_decide_eq_true_2.
    + by destruct σ.
    + rewrite (gi_src _ Hg). simpl in Hty |- *. rewrite Hty.
      apply elem_of_dom in Hdom as [x Hx]. rewrite Hx.
      by rewrite (lookup_weaken _ _ _ _ Hx (gi_objs _ Hg)).
  - destruct (image_P _ _ Hg Ho) as (n & q & Hn & Hq & Hl' & _). congruence.
Qed.

Lemma cache_hit σ v v' : cached σ v v' → gxcopy_cache_load v σ = Some (Some v', σ).
Proof. intros (i & Hi & _ & Hv). unfold gxcopy_cache_load. m_unfold. by rewrite Hi, Hv. Qed.

Lemma cache_miss σ v : gx_copies σ !! v = None → gxcopy_cache_load v σ = Some (None, σ).
Proof. intros Hv. unfold gxcopy_cache_load. m_unfold. by rewrite Hv. Qed.

Lemma image_nil σ v : ginv σ → known σ0 v → image σ v = Some VNil → v = VNil.
Proof. intros Hg Hk Hi. by apply (image_inj σ v VNil VNil). Qed.

Lemma upvalues_ok n any vs σ :
  any_ok n any → ginv σ → Forall (known σ0) vs → (missing σ < n)%nat →
  ∃ vs' σ', gxcopy_upvalues any vs σ = Some (Some vs', σ') ∧ ginv σ' ∧ grow None σ σ' ∧
            Forall2 (λ v v', image σ' v = Some v') vs vs'.
Proof.
  intros Hany. revert σ. induction vs as [|v vs IH]; intros σ Hg Hk Hm.
  { exists [], σ. split_and!; [done..|apply grow_refl|constructor]. }
  apply Forall_cons in Hk as [Hv Hk].
  destruct (Hany v σ Hg Hv Hm) as (v' & σ1 & Hr & Hg1 & Hgr1 & Hi).
  pose proof (missing_grow _ _ _ Hg Hgr1).
  destruct (IH σ1) as (vs' & σ2 & Hr2 & Hg2 & Hgr2 & Hf); [done|done|lia|].
  exists (v' :: vs'), σ2. split_and!; [|done|by apply (grow_trans _ _ σ1)|constructor; [|done]].
  - simpl. unfold m_bind. rewrite Hr, Hr2. done.
  - by apply (image_grow None σ1).
Qed.

(** What a list of a table's entries has become *)
Definition entries_image (σ : gx) (l : list (value * value)) (e' : gmap value value) : Prop :=
  Forall (λ kv, ∃ k' v', image σ kv.1 = Some k' ∧ image σ kv.2 = Some v' ∧ e' !! k' = Some v') l ∧
  ∀ k' v', e' !! k' = Some v' → ∃ kv, kv ∈ l ∧ image σ kv.1 = Some k' ∧ image σ kv.2 = Some v'.

Definition known_entry (kv : value * value) : Prop :=
  (known σ0 kv.1 ∧ kv.1 ≠ VNil) ∧ (known σ0 kv.2 ∧ kv.2 ≠ VNil).

Lemma entries_image_keeps σ σ' l e' : keeps_images σ σ' → Forall known_entry l →
  entries_image σ l e' → entries_image σ' l e'.
Proof.
  intros Hi Hk [Hf Hb]. rewrite Forall_forall in Hk, Hf. split.
  - apply Forall_forall. intros kv Hin.
    destruct (Hk _ Hin) as [[K1 _] [K2 _]], (Hf _ Hin) as (k' & v' & H1 & H2 & H3).
    exists k', v'. auto.
  - intros k' v' He. destruct (Hb _ _ He) as (kv & Hin & H1 & H2). exists kv.
    destruct (Hk _ Hin) as [[K1 _] [K2 _]]. auto.
Qed.

(** One more entry: its key has not been set yet, as no other key has the same copy. *)
Lemma entries_image_insert σ l e' k v k' v' : ginv σ → Forall (known_entry) ((k, v) :: l) →
  k ∉ l.*1 → entries_image σ l e' → image σ k = Some k' → image σ v = Some v' →
  entries_image σ ((k, v) :: l) (<[k' := v']> e').
Proof.
  intros Hg Hk Hnew [Hf Hb] Hik Hiv. apply Forall_cons in Hk as [[[Hkk _] _] Hk]. split.
  - constructor; [exists k', v'; split_and!; [done..|apply lookup_insert_eq]|].
    apply Forall_forall. intros [k2 v2] Hin. rewrite Forall_forall in Hk, Hf.
    destruct (Hf _ Hin) as (k2' & v2' & H1 & H2 & H3), (Hk _ Hin) as [[K1 _] _]. simpl in *.
    exists k2', v2'. split_and!; [done..|]. rewrite lookup_insert_ne; [done|]. intros <-.
    rewrite (image_inj σ k k2 k') in Hnew by done. apply Hnew, list_elem_of_fmap. by exists (k2, v2).
  - intros q w Hq. destruct (decide (q = k')) as [->|Hne].
    + rewrite lookup_insert_eq in Hq. injection Hq as <-. exists (k, v). split_and!; [left|done..].
    + rewrite lookup_insert_ne in Hq by done. destruct (Hb _ _ Hq) as (kv & Hin & ? & ?).
      exists kv. split_and!; [by right|done..].
Qed.

Lemma entries_image_perm σ l1 l2 e' : l1 ≡ₚ l2 → entries_image σ l1 e' → entries_image σ l2 e'.
Proof.
  intros Hp [Hf Hb]. split; [by rewrite <- Hp|]. intros k' v' He.
  destruct (Hb _ _ He) as (kv & Hin & ?). exists kv. by rewrite <- Hp.
Qed.

(** Where the filling of [t], the copy of [o], stands *)
Record filling (n : nat) (σe : gx) (o t : Z) (x : obj) (σ : gx) : Prop := {
  fi_inv : ginv σ;
  fi_grow : grow (Some o) σe σ;
  fi_cached : cached σ (VObj o) (VObj t);
  fi_new : l_objs (gx_dst σe) !! t = None;
  fi_obj : l_objs (gx_dst σ) !! t = Some x;
  fi_missing : (missing σ < n)%nat
}.

Lemma filling_grow n σe o t x σ σ' : ginv σe → filling n σe o t x σ → ginv σ' → grow None σ σ' →
  filling n σe o t x σ'.
Proof.
  intros Hge [] Hg' Hgr. split; [done|by apply (grow_trans _ _ σ)|by apply (gr_cached _ _ _ Hgr)|done| |].
  - by apply (lookup_weaken _ _ _ _ fi_obj0 (gr_objs _ _ _ Hgr)).
  - pose proof (missing_grow _ _ _ fi_inv0 Hgr). lia.
Qed.

Lemma set_objs_same t x L : l_objs L !! t = Some x → set_objs <[t := x]> L = L.
Proof. intros Ht. destruct L; unfold set_objs; simpl in *. by rewrite insert_id. Qed.

(** A table in the making gets other contents. *)
Lemma filling_set n σe o t e m e' m' σ : filling n σe o t (OTable e m) σ →
  let σ' := put_dst (set_objs <[t := OTable e' m']> (gx_dst σ)) σ in
  filling n σe o t (OTable e' m') σ' ∧ (∀ v, image σ' v = image σ v).
Proof.
  intros [Hg Hgr Hc Hn Ho Hm] σ'.
  destruct (fill_obj σe σ o t (OTable e' m') (set_objs <[t := OTable e' m']> (gx_dst σ)))
    as (? & ? & ? & ?); try done; [apply Hgr|].
  split; [|done]. split; try done. simpl. apply lookup_insert_eq.
Qed.

Lemma entries_image_ext σ σ' l e' : (∀ v, image σ' v = image σ v) → entries_image σ l e' → entries_image σ' l e'.
Proof. intros Hi [Hf Hb]. split; by repeat setoid_rewrite Hi. Qed.

Lemma entries_ok n any σe o t l : any_ok n any → ginv σe → ∀ pre e' σ,
  filling n σe o t (OTable e' None) σ → Forall (known_entry) (l ++ pre) → NoDup (l ++ pre).*1 →
  entries_image σ pre e' →
  ∃ e'' σ', gxcopy_entries any t l σ = Some (Some tt, σ') ∧
    filling n σe o t (OTable e'' None) σ' ∧ entries_image σ' (l ++ pre) e''.
Proof.
  intros Hany Hge. induction l as [|[k v] l IH]; intros pre e' σ Hfi Hk Hnd Hpre.
  { by exists e', σ. }
  simpl in Hnd. pose proof Hk as Hall. apply Forall_cons in Hk as [[[Kk Nk] [Kv Nv]] Hk].
  apply NoDup_cons in Hnd as [Hnew Hnd]. simpl in Kk, Nk, Kv, Nv.
  destruct (Hany k σ (fi_inv _ _ _ _ _ _ Hfi) Kk (fi_missing _ _ _ _ _ _ Hfi)) as (k' & σ1 & Hr1 & Hg1 & Hgr1 & Hi1).
  pose proof (filling_grow _ _ _ _ _ _ _ Hge Hfi Hg1 Hgr1) as Hfi1.
  destruct (Hany v σ1 Hg1 Kv (fi_missing _ _ _ _ _ _ Hfi1)) as (v' & σ2 & Hr2 & Hg2 & Hgr2 & Hi2).
  pose proof (filling_grow _ _ _ _ _ _ _ Hge Hfi1 Hg2 Hgr2) as Hfi2.
  assert (grow None σ σ2) as Hgr by (apply (grow_trans _ _ σ1); try done; apply Hfi).
  assert (image σ2 k = Some k') as Hik by (by apply (image_grow None σ1)).
  assert (k' ≠ VNil) as Nk' by (intros ->; by apply Nk, (image_nil σ2)).
  assert (v' ≠ VNil) as Nv' by (intros ->; by apply Nv, (image_nil σ2)).
  destruct (filling_set _ _ _ _ _ _ (<[k' := v']> e') None _ Hfi2) as [Hfi3 Him3].
  set (σ3 := put_dst _ σ2) in *.
  destruct (IH ((k, v) :: pre) (<[k' := v']> e') σ3) as (e'' & σ' & Hr & Hfi' & Him'); [done| | | |].
  - by rewrite <- Permutation_middle.
  - rewrite <- Permutation_middle. by apply NoDup_cons.
  - eapply entries_image_ext; [exact Him3|]. apply entries_image_insert; try done.
    + apply Forall_cons. split; [done|]. by apply Forall_app in Hk as [_ ?].
    + intros Hin. apply Hnew. rewrite fmap_app. set_solver.
    + apply (entries_image_keeps σ); [|by apply Forall_app in Hk as [_ ?]|done].
      apply (grow_keeps None); [apply Hfi|done|done].
  - exists e'', σ'. split_and!; [|done|].
    + simpl. unfold m_bind, do_dst, on_dst. rewrite Hr1, Hr2. unfold lua_rawset.
      rewrite (fi_obj _ _ _ _ _ _ Hfi2), !bool_decide_eq_false_2 by done. exact Hr.
    + eapply entries_image_perm; [|exact Him']. by rewrite <- Permutation_middle.
Qed.

Definition meta_image (σ : gx) (m m' : option Z) : Prop :=
  match m, m' with
  | None, None => True
  | Some o, Some o' => image σ (VObj o) = Some (VObj o')
  | _, _ => False
  end.

Lemma meta_known m : copyable_meta σ0 m → known σ0 (VObj m).
Proof. intros [Hm|[Hm _]]; right; [by right|by left]. Qed.

(** The metatable's copy is set, however it was found. *)
Lemma set_meta n σe o t e' mt mt' σ : filling n σe o t (OTable e' None) σ → copyable_meta σ0 mt →
  image σ (VObj mt) = Some mt' →
  ∃ m' σ', do_dst (lua_setmetatable t mt') σ = Some (tt, σ') ∧
    filling n σe o t (OTable e' (Some m')) σ' ∧ meta_image σ' (Some mt) (Some m') ∧ keeps_images σ σ'.
Proof.
  intros Hfi Hmt Hi. destruct (image_obj σ mt mt') as [m' ->]; [apply Hfi|by apply meta_known|done|].
  destruct (filling_set _ _ _ _ _ _ e' (Some m') _ Hfi) as [Hfi' Him]. exists m'. eexists. split_and!.
  - unfold do_dst, on_dst, lua_setmetatable. by rewrite (fi_obj _ _ _ _ _ _ Hfi).
  - exact Hfi'.
  - simpl. by rewrite Him.
  - intros v w _ Hv. by rewrite Him.
Qed.

Lemma metatable_ok n any σe o t e' m σ :
  any_ok n any → ginv σe → filling n σe o t (OTable e' None) σ →
  lua_getmetatable (gx_src σ) (VObj o) = m → match m with None => True | Some m => copyable_meta σ0 m end →
  ∃ m' σ', gxcopy_metatable any (VObj o) t σ = Some (Some tt, σ') ∧
    filling n σe o t (OTable e' m') σ' ∧ meta_image σ' m m' ∧ keeps_images σ σ'.
Proof.
  intros Hany Hge Hfi Hm Hmt. pose proof (fi_inv _ _ _ _ _ _ Hfi) as Hg.
  unfold gxcopy_metatable, m_bind at 1, m_get at 1. rewrite Hm. destruct m as [mt|].
  2: { exists None, σ. split_and!; [done..|]. by intros v w. }
  destruct Hmt as [HP|(HD & f & Hf & Hnf)].
  - destruct (package_known any mt σ Hg HP) as (v' & Hp & Hi).
    destruct (set_meta _ _ _ _ _ mt v' _ Hfi) as (m' & σ' & Hr & ?); [by left|done|].
    exists (Some m'), σ'. split; [|done]. unfold m_bind. by rewrite Hp, Hr.
  - destruct (cp_obj _ Hσ0 mt HD) as [Hmod _].
    destruct (Hany (VObj mt) σ Hg) as (v' & σ1 & Hr & Hg1 & Hgr1 & Hi); [by right; left|apply Hfi|].
    pose proof (filling_grow _ _ _ _ _ _ _ Hge Hfi Hg1 Hgr1) as Hfi1.
    destruct (set_meta _ _ _ _ _ mt v' _ Hfi1) as (m' & σ' & Hr' & Hfi' & Hmi & Hk); [right; eauto|done|].
    exists (Some m'), σ'. split_and!; [|done|done|].
    + unfold m_bind. rewrite not_package by done. unfold on_src, m_get.
      rewrite (gi_src _ Hg), Hf, <- (gi_src _ Hg), put_src_same, (gi_src _ Hg), Hnf, Hr, Hr'. done.
    + intros v w Hv Hw. apply Hk; [done|]. by apply (image_grow None σ).
Qed.

(** *** Objects *)

Lemma fresh_lookup {A} (h : gmap Z A) : h !! fresh (dom h) = None.
Proof. apply not_elem_of_dom, is_fresh. Qed.

(** The entries that [lua_next] lists are the table's. *)
Lemma listed_entries σ e e' m m' :
  entries_image σ (next_order e ++ []) e' → meta_image σ m m' → mirrors σ (OTable e m) (OTable e' m').
Proof.
  rewrite app_nil_r. intros [Hf Hb] Hm. split_and!; [| |done].
  - intros k v Hk. rewrite Forall_forall in Hf. apply (Hf (k, v)).
    rewrite next_order_perm. by apply elem_of_map_to_list.
  - intros k' v' Hk. destruct (Hb _ _ Hk) as ([k v] & Hin & ? & ?). exists k, v.
    rewrite next_order_perm in Hin. by apply elem_of_map_to_list in Hin.
Qed.

Lemma filled_table n σe o t e m e' m' σ : filling n σe o t (OTable e' m') σ →
  l_objs (gx_src σ) !! o = Some (OTable e m) → mirrors σ (OTable e m) (OTable e' m') → grow None σe σ.
Proof.
  intros Hfi Hx Hmi. apply (grow_close _ _ o); [apply Hfi|].
  exists t, (OTable e m), (OTable e' m').
  destruct Hfi. done.
Qed.

Lemma table_ok n any o σ e m : any_ok n any → ginv σ → o ∈ D →
  l_objs (gx_src σ0) !! o = Some (OTable e m) → (missing σ < S n)%nat →
  ∃ v' σ', gxcopy_table any (VObj o) σ = Some (Some v', σ') ∧ ginv σ' ∧ grow None σ σ' ∧
           image σ' (VObj o) = Some v'.
Proof.
  intros Hany Hg Ho Hx Hmiss. destruct (cp_apart _ Hσ0 o) as [_ Heq]; [set_solver|].
  destruct (cp_obj _ Hσ0 o Ho) as (Hmod & x & Hx' & Hco). rewrite Hx in Hx'. injection Hx' as <-.
  destruct Hco as [He Hmt]. rewrite <- (gi_src _ Hg) in Heq, Hx.
  unfold gxcopy_table, m_bind, on_src. rewrite Heq by (simpl; by rewrite Hx). rewrite put_src_same.
  unfold m_get. rewrite not_package by done.
  destruct (gx_copies σ !! VObj o) eqn:Hc.
  { destruct (copies_cached σ (VObj o) Hg) as [v' Hv']; [congruence|].
    exists v', σ. rewrite (cache_hit _ _ _ Hv'). split_and!; [done..|apply grow_refl|by apply image_D]. }
  rewrite cache_miss by done. unfold on_dst, lua_new. set (t := fresh _).
  pose proof (fresh_lookup (l_objs (gx_dst σ))) as Ht. fold t in Ht.
  destruct (store_new σ o t (OTable ∅ None) (set_objs <[t := OTable ∅ None]> (gx_dst σ)))
    as (σ1 & Hst & Hg1 & Hgr1 & Hd1 & Hs1 & Hc1 & Hm1); try done.
  assert (filling n σ o t (OTable ∅ None) σ1) as Hfi.
  { split; [done..| |lia]. rewrite Hd1. simpl. apply lookup_insert_eq. }
  rewrite Hst, Hs1. simpl. rewrite Hx.
  assert (Forall known_entry (next_order e ++ [])) as Hke.
  { rewrite app_nil_r, next_order_perm. apply map_Forall_to_list in He.
    eapply Forall_impl; [exact He|]. by intros []. }
  destruct (entries_ok n any σ o t (next_order e) Hany Hg [] ∅ σ1 Hfi Hke) as (e' & σ2 & Hr2 & Hfi2 & Hen).
  - rewrite app_nil_r, next_order_perm. apply NoDup_fst_map_to_list.
  - split; [constructor|]. intros k' v'. by rewrite lookup_empty.
  - assert (∀ σ', ginv σ' → l_objs (gx_src σ') !! o = Some (OTable e m)) as Hxs.
    { intros σ' Hg'. by rewrite (gi_src _ Hg'), <- (gi_src _ Hg). }
    pose proof (fi_inv _ _ _ _ _ _ Hfi2) as Hg2.
    destruct (metatable_ok n any σ o t e' m σ2) as (m' & σ3 & Hr3 & Hfi3 & Hmi & Hk); try done.
    { simpl. by rewrite Hxs. }
    pose proof (fi_inv _ _ _ _ _ _ Hfi3) as Hg3.
    exists (VObj t), σ3. rewrite Hr2, Hr3. split_and!; [done|done| |apply image_D; [done..|exact (fi_cached _ _ _ _ _ _ Hfi3)]].
    eapply filled_table; [exact Hfi3|by apply Hxs|apply listed_entries; [|exact Hmi]].
    by apply (entries_image_keeps σ2).
Qed.

(** The closure that [lua_load] makes has upvalues of its own. *)
Lemma new_cells_spec vs L cs L' : new_cells vs L = (cs, L') →
  length cs = length vs ∧ NoDup cs ∧ Forall (λ c, l_cells L !! c = None) cs ∧
  Forall (λ c, is_Some (l_cells L' !! c)) cs ∧ l_cells L ⊆ l_cells L' ∧
  l_objs L' = l_objs L ∧ l_globals L' = l_globals L ∧ l_loaded L' = l_loaded L ∧
  l_preload L' = l_preload L ∧ l_gxcopy L' = l_gxcopy L.
Proof.
  revert L cs L'. induction vs as [|v vs IH]; intros L cs L' Hn; simpl in Hn.
  { injection Hn as <- <-. split_and!; try done; [apply NoDup_nil_2|apply Forall_nil_2..]. }
  set (c := fresh (dom (l_cells L))) in *.
  assert (l_cells L !! c = None) as Hc by apply fresh_lookup.
  destruct (new_cells vs _) as [cs1 L1] eqn:E. injection Hn as <- <-.
  destruct (IH _ _ _ E) as (Hl & Hnd & Hf & Hs & Hsub & Ho & Hg & Hld & Hp & Hx). simpl in *.
  assert (l_cells L ⊆ <[c := v]> (l_cells L)) as Hins by by apply insert_subseteq.
  split_and!; try done; [lia| | | |by etrans].
  - constructor; [|done]. intros Hin. rewrite Forall_forall in Hf. specialize (Hf _ Hin).
    by rewrite lookup_insert_eq in Hf.
  - constructor; [done|]. eapply Forall_impl; [exact Hf|]. intros d Hd. by apply (lookup_weaken_None _ _ _ Hd).
  - constructor; [|done]. exists v. eapply lookup_weaken; [apply lookup_insert_eq|done].
Qed.

(** [lua_setupvalue] for the first upvalues, the last one first: the other cells stay. *)
Lemma setupvalues_ok o proto cs vs σ :
  l_objs (gx_dst σ) !! o = Some (OLFun proto cs) → NoDup cs → (length vs ≤ length cs)%nat →
  ∃ h, setupvalues o (reverse vs) σ = Some (Some tt, put_dst (set_cells (λ _, h) (gx_dst σ)) σ) ∧
    (∀ i c v, cs !! i = Some c → vs !! i = Some v → h !! c = Some v) ∧
    (∀ c, (∀ i, cs !! i = Some c → (length vs ≤ i)%nat) → h !! c = l_cells (gx_dst σ) !! c).
Proof.
  intros Ho Hnd. revert σ Ho. induction vs as [|v vs IH] using rev_ind; intros σ Ho Hle.
  { exists (l_cells (gx_dst σ)). split_and!; [by destruct σ as [? [] ? ? ? ? ? ?]|done|done]. }
  rewrite length_app in Hle. simpl in Hle.
  destruct (lookup_lt_is_Some_2 cs (length vs)) as [c Hc]; [lia|].
  set (σ1 := put_dst (set_cells <[c := v]> (gx_dst σ)) σ).
  destruct (IH σ1) as (h & Hr & Hin & Hout); [done|lia|].
  exists h. split_and!.
  - rewrite reverse_app. simpl. unfold m_bind, m_get, m_put, lua_setupvalue.
    rewrite length_reverse, Ho, Hc. exact Hr.
  - intros i d w Hd Hw. apply lookup_app_Some in Hw as [Hw|[Hi Hw]]; [by eapply Hin|].
    apply list_lookup_singleton_Some in Hw as [Hz <-]. assert (i = length vs) as -> by lia.
    rewrite Hc in Hd. injection Hd as <-. rewrite Hout; [apply lookup_insert_eq|].
    intros j Hj. by rewrite (NoDup_lookup _ _ _ _ Hnd Hj Hc).
  - intros d Hd. rewrite length_app in Hd. simpl in Hd. rewrite Hout.
    + apply lookup_insert_ne. intros <-. specialize (Hd _ Hc). lia.
    + intros i Hi. specialize (Hd i Hi). lia.
Qed.

(** The closure's cells, once they are set, hold the copies of the upvalues. *)
Lemma cells_image σ σ' cs cs' vs' :
  gx_src σ' = gx_src σ → (∀ v, image σ' v = image σ v) →
  Forall (λ c, ∃ w, l_cells (gx_src σ) !! c = Some w ∧ known σ0 w) cs → length cs' = length cs →
  Forall2 (λ v v', image σ v = Some v') (upvalues_of (gx_src σ) cs) vs' →
  (∀ i c v, cs' !! i = Some c → vs' !! i = Some v → l_cells (gx_dst σ') !! c = Some v) →
  Forall2 (λ c c', ∃ w w', l_cells (gx_src σ') !! c = Some w ∧ l_cells (gx_dst σ') !! c' = Some w' ∧
                           image σ' w = Some w') cs cs'.
Proof.
  intros Hs Him Hc Hlen Hv Hh. apply Forall2_same_length_lookup. split; [done|].
  intros i c c' Hi Hi'. destruct (Forall_lookup_1 _ _ _ _ Hc Hi) as (w & Hw & _).
  assert (upvalues_of (gx_src σ) cs !! i = Some w) as Hu.
  { unfold upvalues_of. rewrite list_lookup_fmap, Hi. simpl. by rewrite Hw. }
  destruct (Forall2_lookup_l _ _ _ _ _ Hv Hu) as (w' & Hw' & Hi2).
  exists w, w'. rewrite Hs, Him. eauto.
Qed.

Lemma fresh_closure σe σ1 σ2 o t proto cs' (h : gmap Z value) :
  ginv σe → ginv σ1 → ginv σ2 → grow (Some o) σe σ1 → grow None σ1 σ2 → cached σ1 (VObj o) (VObj t) →
  l_objs (gx_dst σe) !! t = None → l_objs (gx_dst σ1) = <[t := OLFun proto cs']> (l_objs (gx_dst σe)) →
  Forall (λ c, l_cells (gx_dst σe) !! c = None) cs' → Forall (λ c, is_Some (l_cells (gx_dst σ1) !! c)) cs' →
  (∀ c, c ∉ cs' → h !! c = l_cells (gx_dst σ2) !! c) →
  let σ3 := put_dst (set_cells (λ _, h) (gx_dst σ2)) σ2 in
  ginv σ3 ∧ grow (Some o) σe σ3 ∧ cached σ3 (VObj o) (VObj t) ∧ (∀ v, image σ3 v = image σ2 v) ∧
  l_objs (gx_dst σ3) !! t = Some (OLFun proto cs').
Proof.
  intros Hge Hg1 Hg2 Hgr1 Hgr2 Hc Ht Ho1 Hnew Hsome Hh σ3. rewrite Forall_forall in Hnew, Hsome.
  assert (grow (Some o) σe σ2) as Hgr by by apply (grow_trans _ _ σ1).
  assert (l_objs (gx_dst σ2) !! t = Some (OLFun proto cs')) as Ht2.
  { eapply lookup_weaken; [|apply (gr_objs _ _ _ Hgr2)]. rewrite Ho1. apply lookup_insert_eq. }
  destruct (fill_obj σe σ2 o t (OLFun proto cs') (set_cells (λ _, h) (gx_dst σ2))) as (? & ? & ? & ?);
    try done.
  - by apply (gr_cached _ _ _ Hgr2).
  - simpl. by rewrite insert_id.
  - apply map_subseteq_spec. intros c w Hw. simpl. rewrite Hh.
    + by apply (lookup_weaken _ _ _ _ Hw (gr_cells _ _ _ Hgr)).
    + intros Hin. specialize (Hnew c Hin). congruence.
  - intros p cs c [= <- <-] Hin. auto.
  - intros o' p cs c w Hne Hn Ho' Hin Hw. simpl. rewrite Hh; [done|]. intros Hin'.
    destruct (Hsome c Hin') as [w1 Hw1].
    rewrite (gr_own _ _ _ Hgr2 o' p cs c) in Hw1; [done..| |done].
    by rewrite Ho1, lookup_insert_ne.
Qed.

Lemma function_ok n any o σ proto cs : any_ok n any → ginv σ → o ∈ D →
  l_objs (gx_src σ0) !! o = Some (OLFun proto cs) → (missing σ < S n)%nat →
  ∃ v' σ', gxcopy_function any (VObj o) true σ = Some (Some v', σ') ∧ ginv σ' ∧ grow None σ σ' ∧
           image σ' (VObj o) = Some v'.
Proof.
  intros Hany Hg Ho Hx Hmiss.
  destruct (cp_obj _ Hσ0 o Ho) as (Hmod & x & Hx' & Hco). rewrite Hx in Hx'. injection Hx' as <-.
  rewrite <- (gi_src _ Hg) in Hx. simpl in Hco.
  unfold gxcopy_function, m_bind, m_get. rewrite not_package by done.
  destruct (gx_copies σ !! VObj o) eqn:Hc.
  { destruct (copies_cached σ (VObj o) Hg) as [v' Hv']; [congruence|].
    exists v', σ. rewrite (cache_hit _ _ _ Hv'). split_and!; [done..|apply grow_refl|by apply image_D]. }
  rewrite cache_miss by done. cbv beta iota. rewrite Hx. unfold on_dst, lua_load.
  destruct (new_cells _ (gx_dst σ)) as [cs' L1] eqn:Hnc.
  destruct (new_cells_spec _ _ _ _ Hnc) as (Hlen & Hnd & Hnew & Hsome & Hsub & Ho1 & Hg1 & Hl1 & Hp1 & Hx1).
  unfold lua_new. set (t := fresh _).
  pose proof (fresh_lookup (l_objs L1)) as Ht. fold t in Ht. rewrite Ho1 in Ht.
  destruct (store_new σ o t (OLFun proto cs') (set_objs <[t := OLFun proto cs']> L1))
    as (σ1 & Hst & Hgi1 & Hgr1 & Hd1 & Hs1 & Hc1 & Hm1); try done.
  { simpl. by rewrite Ho1. }
  { intros p cs0 c [= <- <-] Hin. rewrite Forall_forall in Hnew. auto. }
  assert (l_objs (gx_dst σ1) = <[t := OLFun proto cs']> (l_objs (gx_dst σ))) as Hod1.
  { rewrite Hd1. simpl. by rewrite Ho1. }
  rewrite Hst, Hs1, (gi_src _ Hg).
  destruct (upvalues_ok n any (upvalues_of (gx_src σ0) cs) σ1) as (vs' & σ2 & Hr2 & Hg2 & Hgr2 & Hf2);
    [done|done| |lia|].
  { apply Forall_fmap. eapply Forall_impl; [exact Hco|]. intros c (w & Hw & Hk). simpl. by rewrite Hw. }
  assert (length vs' = length cs') as Hlv.
  { apply Forall2_length in Hf2. unfold upvalues_of in Hf2. rewrite length_fmap in Hf2.
    rewrite Hlen. destruct (length cs); simpl; rewrite ?length_replicate; lia. }
  destruct (setupvalues_ok t proto cs' vs' σ2) as (h & Hr3 & Hin & Hout); [|done|lia|].
  { eapply lookup_weaken; [|apply (gr_objs _ _ _ Hgr2)]. rewrite Hod1. apply lookup_insert_eq. }
  destruct (fresh_closure σ σ1 σ2 o t proto cs' h) as (Hg3 & Hgr3 & Hc3 & Him3 & Ht3); try done.
  { by rewrite Hd1. }
  { intros c Hc'. apply Hout. intros i Hi. apply list_elem_of_lookup_2 in Hi. done. }
  rewrite Hr2, Hr3. eexists (VObj t), _. split_and!; [done|done| |by apply image_D].
  apply (grow_close _ _ o); [done|]. exists t, (OLFun proto cs), (OLFun proto cs').
  split; [done|]. split; [by rewrite (gi_src _ Hg3), <- (gi_src _ Hg)|]. split; [done|].
  split; [done|]. apply (cells_image σ2 _ cs cs' vs'); try done.
  - by rewrite (gi_src _ Hg2).
  - rewrite Hlen. destruct (length cs); simpl; by rewrite ?length_replicate.
  - by rewrite (gi_src _ Hg2).
Qed.

(** *** Everything *)

Lemma cfunction_ok any f σ : ginv σ → gx_modules σ0 !! VCFun f = None →
  ∃ v' σ', gxcopy_function any (VCFun f) true σ = Some (Some v', σ') ∧ ginv σ' ∧ grow None σ σ' ∧
           image σ' (VCFun f) = Some v'.
Proof.
  intros Hg Hm. unfold gxcopy_function, m_bind, m_get. rewrite not_package by done.
  exists (VCFun f). destruct (gx_copies σ !! VCFun f) as [i|] eqn:Hc.
  - destruct (gi_cache _ Hg _ _ Hc) as (Hle & v' & Hv' & Hv). simpl in Hv. subst v'.
    rewrite (cache_hit σ _ (VCFun f)) by (by exists i). eexists.
    split_and!; [done|done|apply grow_refl|done].
  - rewrite cache_miss by done. eexists. split_and!; [done| | |done]; fold (stored (VCFun f) (VCFun f) σ);
      destruct (stored_cached σ (VCFun f) (VCFun f) Hg Hc) as (Hold & Hnew & Hinv).
    + split; simpl; try apply Hg.
      * intros u i Hi. destruct (decide (u = VCFun f)) as [->|Hne].
        -- destruct Hnew as (j & Hj & Hle & Hw). simpl in Hj, Hw.
           assert (j = i) as -> by congruence. eauto.
        -- rewrite lookup_insert_ne in Hi by done. destruct (gi_cache _ Hg _ _ Hi) as (Hle & w & Hw & Hu).
           split; [done|]. exists w. split; [by apply lookup_app_l_Some|done].
      * intros o1 o2 w H1 H2. destruct (Hinv _ _ H1) as [H1'|[? _]]; [|done].
        destruct (Hinv _ _ H2) as [H2'|[? _]]; [|done]. by eapply (gi_inj _ Hg).
    + split; simpl; try done.
      * intros o o' Hc' Hno. destruct (Hinv _ _ Hc') as [Hc''|[? _]]; [by destruct (Hno _ Hc'')|done].
      * intros o o' Hc' Hno. destruct (Hinv _ _ Hc') as [Hc''|[? _]]; [by destruct (Hno _ Hc'')|done].
      * intros. congruence.
Qed.

Lemma globals_ok any σ : ginv σ → let v := VObj (l_globals (gx_src σ)) in
  ∃ v' σ', gxcopy_table any v σ = Some (Some v', σ') ∧ ginv σ' ∧ grow None σ σ' ∧ image σ' v = Some v'.
Proof.
  intros Hg v. exists (VObj (l_globals (gx_dst σ))), σ.
  split_and!; [|done|apply grow_refl|apply image_globals].
  unfold gxcopy_table, m_bind, on_src, lua_compare_eq, m_get. rewrite bool_decide_eq_true_2 by done.
  by rewrite put_src_same.
Qed.

Lemma package_value_ok any o σ : ginv σ → o ∈ P →
  ∃ v' σ', any_body any (VObj o) σ = Some (Some v', σ') ∧ ginv σ' ∧ grow None σ σ' ∧
           image σ' (VObj o) = Some v'.
Proof.
  intros Hg Ho. destruct (package_known any o σ Hg Ho) as (v' & Hp & Hi).
  destruct (cp_apart _ Hσ0 o) as [_ Heq]; [set_solver|].
  destruct (cp_package _ Hσ0 o Ho) as (_ & _ & _ & _ & _ & _ & _ & _ & _ & Hty).
  rewrite <- (gi_src _ Hg) in Hty, Heq. exists v', σ. split_and!; [|done|apply grow_refl|done].
  unfold any_body, m_bind at 1, m_get at 1. rewrite !elem_of_cons, elem_of_nil in Hty.
  destruct Hty as [Hty|[Hty|[Hty|[]]]]; rewrite Hty.
  - unfold gxcopy_table, m_bind, on_src, m_get. rewrite Heq, put_src_same, Hp by done. done.
  - unfold gxcopy_function, m_bind. by rewrite Hp.
  - unfold gxcopy_userdata, m_bind. by rewrite Hp.
Qed.

(** With one level of recursion for every object that has no copy yet, and one more, the
    copying of a value succeeds. *)
Lemma gxcopy_any_ok n : any_ok n (gxcopy_any n).
Proof.
  induction n as [|n IH]; intros v σ Hg Hk Hm; [lia|]. simpl.
  destruct (object_or_not v) as [[o ->]|Hv].
  - destruct Hk as [->|[Ho|Ho]]; [| |by apply package_value_ok].
    + unfold any_body, m_bind at 1, m_get at 1. rewrite (gi_src _ Hg), (cp_globals _ Hσ0).
      rewrite <- (gi_src _ Hg). by apply globals_ok.
    + destruct (cp_obj _ Hσ0 o Ho) as (_ & x & Hx & Hco).
      unfold any_body, m_bind at 1, m_get at 1. rewrite (gi_src _ Hg). simpl. rewrite Hx.
      destruct x; simpl; try done; [by eapply table_ok|by eapply function_ok].
  - destruct v as [| | | | | |f|o]; try (eexists _, σ; split_and!; [done|done|apply grow_refl|done]).
    + by apply cfunction_ok.
    + by destruct (Hv o).
Qed.

(** *** The whole copying *)

Lemma start_inv : gx_copies σ0 = ∅ → gx_preloading σ0 = ∅ → gx_ignore σ0 = 0 → ginv σ0.
Proof.
  intros Hc Hp Hi. split; try done.
  - intros v i. by rewrite Hc, lookup_empty.
  - intros o1 o2 w (i & Hi1 & _). by rewrite Hc, lookup_empty in Hi1.
Qed.

Lemma luaS_gxcopy_ok n : l_gxcopy (gx_src σ0) = true → any_ok n (luaS_gxcopy n).
Proof.
  intros Hgx v σ Hg Hk Hm. destruct (gxcopy_any_ok n v σ Hg Hk Hm) as (v' & σ' & Hr & Hrest).
  exists v', σ'. split; [|exact Hrest]. unfold luaS_gxcopy, m_bind, m_get. by rewrite (gi_src _ Hg), Hgx.
Qed.

Lemma copy_values_upvalues n vs σ : copy_values n vs σ = gxcopy_upvalues (luaS_gxcopy n) vs σ.
Proof.
  revert σ. induction vs as [|v vs IH]; intros σ; [done|]. simpl. unfold m_bind.
  destruct (luaS_gxcopy n v σ) as [[[v'|] σ1]|]; [|done..]. by rewrite IH.
Qed.

(** What a copying of values is: [image] maps the objects of [D] one to one to new objects of the
    destination that mirror them; nothing else is changed. *)
Record faithful_copy (σ' : gx) : Prop := {
  fc_src : gx_src σ' = gx_src σ0;
  fc_objs : l_objs (gx_dst σ0) ⊆ l_objs (gx_dst σ');
  fc_cells : l_cells (gx_dst σ0) ⊆ l_cells (gx_dst σ');
  fc_globals : l_globals (gx_dst σ') = l_globals (gx_dst σ0);
  fc_packages : l_loaded (gx_dst σ') = l_loaded (gx_dst σ0) ∧ l_preload (gx_dst σ') = l_preload (gx_dst σ0);
  fc_errors : gx_errors σ' = gx_errors σ0;
  fc_inj : ∀ v1 v2 w, known σ0 v1 → known σ0 v2 → image σ' v1 = Some w → image σ' v2 = Some w → v1 = v2;
  fc_new : ∀ o w, o ∈ D → image σ' (VObj o) = Some w →
    ∃ o' x x', w = VObj o' ∧ l_objs (gx_dst σ0) !! o' = None ∧
      l_objs (gx_src σ') !! o = Some x ∧ l_objs (gx_dst σ') !! o' = Some x' ∧ mirrors σ' x x'
}.

Lemma grown_faithful σ' : gx_copies σ0 = ∅ → ginv σ' → grow None σ0 σ' → faithful_copy σ'.
Proof.
  intros Hc Hg Hgr. split; try apply Hgr; try apply Hg.
  - split; [apply Hg|apply Hgr].
  - intros v1 v2 w. by apply image_inj.
  - intros o w Ho Hi. apply image_D in Hi; [|done..].
    assert (∀ w, ¬ cached σ0 (VObj o) w) as Hno.
    { intros u (i & Hi' & _). by rewrite Hc, lookup_empty in Hi'. }
    destruct (cached_fresh _ _ _ Hg Hi) as (_ & o' & -> & _ & Hf%not_elem_of_dom).
    destruct (gr_done _ _ _ Hgr o o' Hi Hno) as (o2 & x & x' & Hc2 & Hx & Hx' & Hm); [done|].
    pose proof (cached_fun _ _ _ _ Hi Hc2) as [= <-]. by exists o', x, x'.
Qed.

Lemma missing_le : (missing σ0 ≤ size D)%nat.
Proof. unfold missing. apply subseteq_size. set_solver. Qed.

Lemma copying_faithful n vs : gx_copies σ0 = ∅ → gx_preloading σ0 = ∅ → gx_ignore σ0 = 0 →
  l_gxcopy (gx_src σ0) = true → Forall (known σ0) vs → (size D < n)%nat →
  ∃ vs' σ', copy_values n vs σ0 = Some (Some vs', σ') ∧ faithful_copy σ' ∧
            Forall2 (λ v v', image σ' v = Some v') vs vs'.
Proof.
  intros Hc Hp Hi Hgx Hk Hn. pose proof missing_le.
  destruct (upvalues_ok n (luaS_gxcopy n) vs σ0) as (vs' & σ' & Hr & Hg & Hgr & Hf);
    [by apply luaS_gxcopy_ok|by apply start_inv|done|lia|].
  exists vs', σ'. rewrite copy_values_upvalues. split_and!; [done|by apply grown_faithful|done].
Qed.

(** ** Reading *)

(** A step from a value to another one: the entry of a table, raw; the metatable; an upvalue *)
Inductive access := AKey (k : value) | AMeta | AUpvalue (i : nat).

Definition access_value (L : lstate) (v : value) (a : access) : option value :=
  match v with
  | VObj o =>
      match a, l_objs L !! o with
      | AKey k, Some (OTable e _) => e !! k
      | AMeta, Some (OTable _ m) => VObj <$> m
      | AUpvalue i, Some (OLFun _ cs) => c ← cs !! i; l_cells L !! c
      | AUpvalue i, Some (OCClosure _ vs) => vs !! i
      | _, _ => None
      end
  | _ => None
  end.

Definition read (L : lstate) (v : value) (path : list access) : option value :=
  foldl (λ r a, r ≫= λ w, access_value L w a) (Some v) path.

(** The keys are not objects, and no step goes from the globals or from a package. *)
Definition simple_access (a : access) : Prop :=
  match a with AKey (VObj _) => False | AKey k => known σ0 k | _ => True end.

Fixpoint stays_in (L : lstate) (v : value) (path : list access) : Prop :=
  match path with
  | [] => True
  | a :: path' =>
      simple_access a ∧ (∀ o, v = VObj o → o ∈ D) ∧
      ∀ w, access_value L v a = Some w → stays_in L w path'
  end.

(** A value and its copy: both are missing, or the one is the other's copy. *)
Definition copy_of (σ' : gx) (r r' : option value) : Prop :=
  match r, r' with
  | Some w, Some w' => image σ' w = Some w'
  | None, None => True
  | _, _ => False
  end.

Lemma entry_copy σ' (e e' : gmap value value) k : faithful_copy σ' → known σ0 k → (∀ o, k ≠ VObj o) →
  map_Forall (λ k v, (known σ0 k ∧ k ≠ VNil) ∧ (known σ0 v ∧ v ≠ VNil)) e →
  (∀ k v, e !! k = Some v → ∃ k' v', image σ' k = Some k' ∧ image σ' v = Some v' ∧ e' !! k' = Some v') →
  (∀ k' v', e' !! k' = Some v' → ∃ k v, e !! k = Some v ∧ image σ' k = Some k' ∧ image σ' v = Some v') →
  copy_of σ' (e !! k) (e' !! k).
Proof.
  intros Hfc Hk Hno He Hf Hb. pose proof (image_simple σ' k Hno) as Hi. unfold copy_of.
  destruct (e !! k) as [w|] eqn:Ek.
  - destruct (Hf _ _ Ek) as (k' & w' & Hk' & Hw & He').
    rewrite Hi in Hk'. injection Hk' as <-. by rewrite He'.
  - destruct (e' !! k) as [w'|] eqn:Ek'; [|done]. destruct (Hb _ _ Ek') as (k2 & w & Hk2 & Hi2 & _).
    destruct (He _ _ Hk2) as [[K2 _] _]. assert (k2 = k) as -> by (by apply (fc_inj _ Hfc k2 k k)).
    congruence.
Qed.

Lemma access_copy σ' v v' a : faithful_copy σ' → (∀ o, v = VObj o → o ∈ D) → simple_access a →
  image σ' v = Some v' →
  copy_of σ' (access_value (gx_src σ') v a) (access_value (gx_dst σ') v' a).
Proof.
  intros Hfc Hv Ha Hi. destruct (object_or_not v) as [[o ->]|Hno].
  2: { rewrite image_simple in Hi by done. injection Hi as <-. destruct v; try done. by destruct (Hno o). }
  destruct (fc_new _ Hfc o v' (Hv _ eq_refl) Hi) as (o' & x & x' & -> & _ & Hx & Hx' & Hm).
  destruct (cp_obj _ Hσ0 o (Hv _ eq_refl)) as (_ & x0 & Hx0 & Hco).
  pose proof Hx as Hx1. rewrite (fc_src _ Hfc), Hx0 in Hx1. injection Hx1 as <-.
  unfold access_value. rewrite Hx, Hx'.
  destruct x0 as [e m|p cs| | |], x' as [e' m'|p' cs'| | |]; try done; simpl in Hm; destruct a as [k| |i]; try done.
  - destruct Hm as (Hf & Hb & _), Hco as [He _].
    apply entry_copy; try done; destruct k; try done; by destruct Ha.
  - destruct Hm as (_ & _ & Hm). by destruct m, m'.
  - destruct Hm as [_ Hm]. destruct (cs !! i) as [c|] eqn:Hc.
    + destruct (Forall2_lookup_l _ _ _ _ _ Hm Hc) as (c' & Hc' & w & w' & Hw & Hw' & Hiw).
      rewrite Hc'. simpl. by rewrite Hw, Hw'.
    + destruct (cs' !! i) as [c'|] eqn:Hc'; [|done].
      destruct (Forall2_lookup_r _ _ _ _ _ Hm Hc') as (c & ? & _). congruence.
Qed.

Lemma read_cons L v a path : read L v (a :: path) = access_value L v a ≫= λ w, read L w path.
Proof.
  unfold read. simpl. destruct (access_value L v a) as [w|]; [done|]. simpl.
  induction path as [|b path IH]; [done|]. simpl. exact IH.
Qed.

Lemma read_copy σ' path : faithful_copy σ' → ∀ v v', stays_in (gx_src σ') v path →
  image σ' v = Some v' → copy_of σ' (read (gx_src σ') v path) (read (gx_dst σ') v' path).
Proof.
  intros Hfc. induction path as [|a path IH]; intros v v' Hs Hi; [done|].
  destruct Hs as (Ha & Hv & Hs). rewrite !read_cons.
  pose proof (access_copy σ' v v' a Hfc Hv Ha Hi) as Hc. unfold copy_of in Hc.
  destruct (access_value (gx_src σ') v a) as [w|], (access_value (gx_dst σ') v' a) as [w'|]; try done.
  by apply IH; [apply Hs|].
Qed.
End spec.
