(* ===== verification/GxcopySpec.v ===== *)
(** What the copying of Lua values (Gxcopy.v) promises: it ends and is faithful to tables and Lua functions,
    and where it is not. *)

From stdpp Require Import strings.
From S2P Require Import Prelude Lua Gxcopy GxcopyInv.

Lemma started Ls Ld `{LuaVM} σ0 : luaS_gxcopy_start Ls Ld = Some σ0 →
  gx_copies σ0 = ∅ ∧ gx_preloading σ0 = ∅ ∧ gx_ignore σ0 = 0 ∧ l_gxcopy (gx_src σ0) = true.
Proof. unfold luaS_gxcopy_start. destruct (_ || _); [done|]. by intros [= <-]. Qed.

(** ** The theorems *)

(** C1: the copying of values terminates and is faithful.  If the tables and Lua functions the values reach
    (the set [D], closed under keys, entries, metatables and upvalues; no userdata, no coroutine and no C
    closure with upvalues) are apart from the globals and the loaded packages
    [P], all of which the destination has loaded too, then a depth of recursion of one more than there are
    objects is enough for all values to be copied, without an error.  Every object has one copy, a new one, whichever
    way and however often it is reached, in cycles too; different objects have different copies, each mirrors its
    original, and nothing else is changed in either state. *)
Theorem gxcopy_isomorphic `{LuaVM} (D P : gset Z) Ls Ld σ0 vs n
  (Hstart : luaS_gxcopy_start Ls Ld = Some σ0)
  (Hcopyable : copyable D P σ0)
  (Hknown : Forall (known D P σ0) vs)
  (Hfuel : (size D < n)%nat) :
  ∃ vs' σ', copy_values n vs σ0 = Some (Some vs', σ') ∧ faithful_copy D P σ0 σ' ∧
            Forall2 (λ v v', image σ' v = Some v') vs vs'.
Proof.
  destruct (started _ _ _ Hstart) as (Hc & Hp & Hi & Hgx). by apply copying_faithful.
Qed.

(** C16: a copy cannot be told from its original by reading it.  Under the hypotheses of the copying's
    faithfulness, along any path of raw table accesses with keys that are not
    objects, metatables and upvalues, which stays inside of the objects that are copied, the copy has a value if
    and only if the original has one, and then its copy: the same one if it is not an object. *)
Theorem gxcopy_same_reads `{LuaVM} (D P : gset Z) Ls Ld σ0 v n path
  (Hstart : luaS_gxcopy_start Ls Ld = Some σ0)
  (Hcopyable : copyable D P σ0)
  (Hknown : known D P σ0 v)
  (Hfuel : (size D < n)%nat)
  (Hpath : stays_in D P σ0 (gx_src σ0) v path) :
  ∃ v' σ', luaS_gxcopy n v σ0 = Some (Some v', σ') ∧
           copy_of σ' (read (gx_src σ0) v path) (read (gx_dst σ') v' path).
Proof.
  destruct (started _ _ _ Hstart) as (Hc & Hp & Hi & Hgx).
  destruct (copying_faithful D P σ0 Hcopyable n [v]) as (vs' & σ' & Hr & Hfc & Hf);
    [done..|by constructor|done|].
  apply Forall2_cons_inv_l in Hf as (v' & [|? ?] & Hv' & Hf & ->); [|by inversion Hf].
  exists v', σ'. split.
  - simpl in Hr. unfold m_bind, m_ret in Hr.
    destruct (luaS_gxcopy n v σ0) as [[[w|] σ1]|]; simplify_eq. done.
  - rewrite <- (fc_src _ _ _ _ Hfc). apply (read_copy D P σ0); [done|done| |done].
    by rewrite (fc_src _ _ _ _ Hfc).
Qed.

(** ** A cyclic table with a metatable, a closure and a package *)

Module Sample.
(** The order of [lua_next] is that of the map; no Lua code is run. *)
#[export] Instance vm : LuaVM := {
  next_order := map_to_list; next_order_perm := λ e, reflexivity _;
  next_names := map_to_list; next_names_perm := λ e, reflexivity _;
  lua_call := λ _ _ _, None;
  load_module := λ _ _, None
}.

(** The table 1 holds itself, the closure 2 and the package 4, under the table 3, which is also its
    metatable; the closure's upvalues are the globals and the table 1. *)
Definition src : lstate := LState
  (list_to_map [
    (0, OTable ∅ None);
    (1, OTable (list_to_map [(VStr "self", VObj 1); (VStr "f", VObj 2); (VObj 3, VObj 4); (VInt 1, VNum 77)]) (Some 3));
    (2, OLFun "body" [10; 11]);
    (3, OTable (list_to_map [(VStr "__index", VObj 3)]) None);
    (4, OTable ∅ None)])
  (list_to_map [(10, VObj 0); (11, VObj 1)]) 0
  (list_to_map [("string", VObj 4)]) ∅ false.

Definition dst : lstate := LState
  (list_to_map [(0, OTable ∅ None); (7, OTable ∅ None)]) ∅ 0 (list_to_map [("string", VObj 7)]) ∅ false.

Definition D : gset Z := {[1; 2; 3]}.
Definition P : gset Z := {[4]}.
Definition σ0 : gx :=
  Gx (set_gxcopy true src) (set_gxcopy true dst) ∅ [] {[VObj 4 := "string"]} ∅ 0 [].

Lemma copyable_σ0 : copyable D P σ0.
Proof.
  split.
  - by apply (bool_decide_unpack _); vm_compute.
  - by apply (bool_decide_unpack _); vm_compute.
  - intros o Ho. unfold D, P in Ho. set_unfold. destruct Ho as [[[->| ->]| ->]| ->];
      (split; [by apply (bool_decide_unpack _); vm_compute|intros _; by apply (bool_decide_unpack _); vm_compute]).
  - intros o Ho. unfold D in Ho. set_unfold. destruct Ho as [[->| ->]| ->];
      (split; [by apply (bool_decide_unpack _); vm_compute|]); eexists; (split; [reflexivity|]).
    + split; [by apply (bool_decide_unpack _); vm_compute|]. right. split; [set_solver|].
      exists VNil. split; by apply (bool_decide_unpack _); vm_compute.
    + repeat constructor; eexists; (split; [reflexivity|by apply (bool_decide_unpack _); vm_compute]).
    + split; [by apply (bool_decide_unpack _); vm_compute|done].
  - intros o Ho. apply elem_of_singleton in Ho as ->. exists "string", 7.
    split_and!; by apply (bool_decide_unpack _); vm_compute.
  - intros o1 o2 n1 n2 ->%elem_of_singleton ->%elem_of_singleton. done.
Qed.

Lemma sample_start : luaS_gxcopy_start src dst = Some σ0.
Proof. by apply (bool_decide_unpack _); vm_compute. Qed.

(** self.self.f, its second upvalue, the metatable, its __index, the number *)
Definition path : list access :=
  [AKey (VStr "self"); AKey (VStr "f"); AUpvalue 1; AKey (VInt 1)].
End Sample.

#[local] Existing Instance Sample.vm.

Lemma gxcopy_isomorphic_witness :
  ∃ vs' σ', copy_values 4 [VObj 1; VStr "x"; VObj 2] Sample.σ0 = Some (Some vs', σ') ∧
            faithful_copy Sample.D Sample.P Sample.σ0 σ' ∧
            Forall2 (λ v v', image σ' v = Some v') [VObj 1; VStr "x"; VObj 2] vs'.
Proof.
  apply (gxcopy_isomorphic Sample.D Sample.P Sample.src Sample.dst).
  - exact Sample.sample_start.
  - exact Sample.copyable_σ0.
  - apply (bool_decide_unpack _). by vm_compute.
  - vm_compute. lia.
Defined.

Lemma gxcopy_same_reads_witness :
  ∃ v' σ', luaS_gxcopy 4 (VObj 1) Sample.σ0 = Some (Some v', σ') ∧
           copy_of σ' (read (gx_src Sample.σ0) (VObj 1) Sample.path) (read (gx_dst σ') v' Sample.path).
Proof.
  apply (gxcopy_same_reads Sample.D Sample.P Sample.src Sample.dst).
  - exact Sample.sample_start.
  - exact Sample.copyable_σ0.
  - apply (bool_decide_unpack _). by vm_compute.
  - vm_compute. lia.
  - unfold Sample.path.
    do 4 (split; [done|split; [intros o [= <-]; set_solver|intros w Hw; vm_compute in Hw; injection Hw as <-]]).
    done.
Defined.

(** ** Where a copy is not as its original *)

Module Sharing.
(** Calls: the C function 50 saves a userdata as a pointer, 51 loads one; any other function returns
    a new table. *)
Definition call (L : lstate) (f : value) (args : list value) : option (list value * lstate) :=
  match f with
  | VCFun 50 => Some ([VLight 1000], L)
  | VCFun 51 => let '(o, L') := lua_new (OUserdata 1000 None) L in Some ([VObj o], L')
  | _ => let '(o, L') := lua_new (OTable ∅ None) L in Some ([VObj o], L')
  end.

Definition vm : LuaVM := {|
  next_order := map_to_list; next_order_perm := λ e, reflexivity _;
  next_names := map_to_list; next_names_perm := λ e, reflexivity _;
  lua_call := call;
  load_module := λ _ _, None
|}.

Definition state (objs : list (Z * obj)) (cells : list (Z * value)) : lstate :=
  LState (list_to_map ((0, OTable ∅ None) :: objs)) (list_to_map cells) 0 ∅ ∅ false.

(** Two closures with one upvalue, in a table *)
Definition closures : lstate :=
  state [(1, OTable (list_to_map [(VStr "get", VObj 2); (VStr "inc", VObj 3)]) None);
         (2, OLFun "get" [10]); (3, OLFun "inc" [10])] [(10, VInt 5)].

(** A C closure whose upvalue is a table with the closure in it *)
Definition cclosure : lstate :=
  state [(1, OCClosure 99 [VObj 2]); (2, OTable (list_to_map [(VStr "c", VObj 1)]) None)] [].

(** A userdata that is in a table twice *)
Definition userdata : lstate :=
  state [(1, OTable (list_to_map [(VStr "a", VObj 2); (VStr "b", VObj 2)]) None); (2, OUserdata 7 (Some 3));
         (3, OTable (list_to_map [(VStr "__gxcopy_save", VCFun 50); (VStr "__gxcopy_load", VCFun 51)]) None)] [].

(** A table with a metatable that makes its own copy *)
Definition hook : lstate :=
  state [(1, OTable ∅ (Some 2)); (2, OTable (list_to_map [(VStr "__gxcopy_metatable", VObj 3)]) None);
         (3, OLFun "hook" [10])] [(10, VStr "secret")].

Definition copied (L : lstate) (vs : list value) : option (list value * lstate) :=
  match luaS_gxcopy_start L (state [] []) with
  | Some σ => match @copy_values vm 9 vs σ with
              | Some (Some vs', σ') => Some (vs', gx_dst σ')
              | _ => None
              end
  | None => None
  end.

Lemma copied_then L vs (Q : list value * lstate → Prop) `{∀ r, Decision (Q r)} :
  match copied L vs with Some r => bool_decide (Q r) | None => false end = true →
  ∃ r, copied L vs = Some r ∧ Q r.
Proof. destruct (copied L vs) as [r|]; [|done]. intros Hq%bool_decide_eq_true. eauto. Qed.
End Sharing.

(** The cell of an upvalue of the Lua function at the end of a path *)
Definition cell_at (L : lstate) (v : value) (path : list access) (i : nat) : option Z :=
  match read L v path with
  | Some (VObj o) => match l_objs L !! o with Some (OLFun _ cs) => cs !! i | _ => None end
  | _ => None
  end.

(** The copy of one of the values *)
Definition nth_copy (r : list value * lstate) (i : nat) : value := default VNil (r.1 !! i).

Notation differ x y := (is_Some x ∧ is_Some y ∧ x ≠ y).

(** What a copy does not keep.  Two closures with one upvalue get one each.  A C closure that its upvalue's
    table holds is stored as copied only when its upvalues are, so that it is copied twice.  A userdata is never
    stored: every occurrence is loaded again. *)
Theorem gxcopy_loses_sharing :
  (let get := [AKey (VStr "get")] in let inc := [AKey (VStr "inc")] in
   cell_at Sharing.closures (VObj 1) get 0 = cell_at Sharing.closures (VObj 1) inc 0 ∧
   ∃ r, Sharing.copied Sharing.closures [VObj 1] = Some r ∧
        differ (cell_at r.2 (nth_copy r 0) get 0) (cell_at r.2 (nth_copy r 0) inc 0)) ∧
  (let self := [AUpvalue 0; AKey (VStr "c")] in
   read Sharing.cclosure (VObj 1) self = Some (VObj 1) ∧
   ∃ r, Sharing.copied Sharing.cclosure [VObj 1] = Some r ∧
        differ (read r.2 (nth_copy r 0) self) (Some (nth_copy r 0))) ∧
  (let a := [AKey (VStr "a")] in let b := [AKey (VStr "b")] in
   read Sharing.userdata (VObj 1) a = read Sharing.userdata (VObj 1) b ∧
   ∃ r, Sharing.copied Sharing.userdata [VObj 1] = Some r ∧
        differ (read r.2 (nth_copy r 0) a) (read r.2 (nth_copy r 0) b)).
Proof.
  cbv zeta. split_and!; try (by apply (bool_decide_unpack _); vm_compute);
    apply (Sharing.copied_then _ _ _); by vm_compute.
Qed.

(** A function that was copied as a metatable's [__gxcopy_metatable], without its upvalues, is
    stored as copied: when it is copied as a value later in the same copying, its first upvalue is the
    globals instead of what it was. *)
Theorem gxcopy_hook_without_upvalues :
  access_value Sharing.hook (VObj 3) (AUpvalue 0) = Some (VStr "secret") ∧
  (∃ r, Sharing.copied Sharing.hook [VObj 3] = Some r ∧
        access_value r.2 (nth_copy r 0) (AUpvalue 0) = Some (VStr "secret")) ∧
  ∃ r, Sharing.copied Sharing.hook [VObj 1; VObj 3] = Some r ∧
       access_value r.2 (nth_copy r 1) (AUpvalue 0) = Some (VObj (l_globals r.2)).
Proof.
  split; [by apply (bool_decide_unpack _); vm_compute|].
  split; apply (Sharing.copied_then _ _ _); by vm_compute.
Qed.
