(* ===== verification/LazyAtomics.v ===== *)
(** Values shared between Lua states, src/src/modules/lua_bridge/api/lazy_atomics.c, with their atomic
    accesses interleaved: setting, getting and incrementing by any number of processes at once, each access
    to a C11 atomic one step, and the creation and destruction of a value. *)

From stdpp Require Import strings.
From S2P Require Import Prelude Lua.

Definition SHATOMIC_NIL : Z := 0.
Definition SHATOMIC_BOOLEAN : Z := 1.
Definition SHATOMIC_STRING : Z := 2.
Definition SHATOMIC_INTEGER : Z := 3.
Definition SHATOMIC_NUMBER : Z := 4.
Definition SHATOMIC_POINTER : Z := 5.

(** [shuso_lua_lazy_atomic_value_t]; a null string pointer is 0, a double is its bits. *)
Record atomic_value := AV {
  av_typemix : Z;
  av_string : Z;
  av_integer : Z;
  av_number : Z;
  av_boolean : bool;
  av_pointer : Z
}.

(** The value and the [sized_string_t] blocks that are allocated in shared memory *)
Record shm := Shm { sm_value : atomic_value; sm_strings : gmap Z string }.

Definition put_typemix t s :=
  let a := sm_value s in
  Shm (AV t (av_string a) (av_integer a) (av_number a) (av_boolean a) (av_pointer a)) (sm_strings s).
Definition put_string p s :=
  let a := sm_value s in
  Shm (AV (av_typemix a) p (av_integer a) (av_number a) (av_boolean a) (av_pointer a)) (sm_strings s).
Definition put_integer i s :=
  let a := sm_value s in
  Shm (AV (av_typemix a) (av_string a) i (av_number a) (av_boolean a) (av_pointer a)) (sm_strings s).
Definition put_number x s :=
  let a := sm_value s in
  Shm (AV (av_typemix a) (av_string a) (av_integer a) x (av_boolean a) (av_pointer a)) (sm_strings s).
Definition put_boolean b s :=
  let a := sm_value s in
  Shm (AV (av_typemix a) (av_string a) (av_integer a) (av_number a) b (av_pointer a)) (sm_strings s).
Definition put_pointer p s :=
  let a := sm_value s in
  Shm (AV (av_typemix a) (av_string a) (av_integer a) (av_number a) (av_boolean a) p) (sm_strings s).
Definition put_strings h s := Shm (sm_value s) h.

(** What the shared memory's allocator promises (SlabSpec.v): a block that is not in use, or none.
    The size is that of the block. *)
Class ShmAlloc := {
  shm_alloc : gmap Z string → Z → option Z;
  shm_alloc_ok : ∀ h n p, shm_alloc h n = Some p → p ≠ 0 ∧ h !! p = None
}.

(** [free] of an address that is not allocated is undefined. *)
Definition shm_free (p : Z) (s : shm) : option shm :=
  match sm_strings s !! p with Some _ => Some (put_strings (delete p (sm_strings s)) s) | None => None end.

Definition next_typemix (old_typemix new_type : Z) : Z :=
  u32 (Z.shiftl (Z.shiftr old_typemix 8 + 1) 8 + new_type).

(** One step: it gives whether the exchange took place. *)
Definition update_type_safely (old_typemix new_type : Z) (s : shm) : bool * shm :=
  if av_typemix (sm_value s) =? old_typemix
  then (true, put_typemix (next_typemix old_typemix new_type) s) else (false, s).

Definition get_type (s : shm) : Z := Z.land (av_typemix (sm_value s)) 15.

(** ** Operations in progress

    Where a call of [Lua_lazy_atomics_value_set], [_get] or [_increment] stands, on a value that is not
    destroyed; what it returned *)
Inductive call :=
| SetStart (v : value)
| SetStore (v : value) (old_typemix : Z)
| SetString (str : string) (old_typemix : Z)
| SetExchange (shared_str old_typemix : Z)
| SetFree (old_shared_str old_typemix : Z)
| SetType (new_atype old_typemix : Z)
| GetStart
| GetSlot (valtype : Z)
| GetData (str : Z)
| IncStart (n : Z)
| IncAdd (n : Z)
| Returned (r : list value).

Definition error_return (msg : string) : call := Returned [VNil; VStr msg].

Definition value_type (v : value) : Z :=
  match v with
  | VBool _ => SHATOMIC_BOOLEAN
  | VStr _ => SHATOMIC_STRING
  | VInt _ => SHATOMIC_INTEGER
  | VNum _ => SHATOMIC_NUMBER
  | VLight _ => SHATOMIC_POINTER
  | _ => SHATOMIC_NIL
  end.

(** The store before the type is changed; a Lua integer becomes an [int]. *)
Definition store_slot (v : value) (s : shm) : shm :=
  match v with
  | VBool b => put_boolean b s
  | VInt i => put_integer (s32 i) s
  | VNum x => put_number x s
  | VLight p => put_pointer p s
  | _ => s
  end.

Definition load_slot (valtype : Z) (s : shm) : value :=
  let a := sm_value s in
  if valtype =? SHATOMIC_BOOLEAN then VBool (av_boolean a)
  else if valtype =? SHATOMIC_INTEGER then VInt (av_integer a)
  else if valtype =? SHATOMIC_NUMBER then VNum (av_number a)
  else VLight (av_pointer a).

Section atomics.
Context `{ShmAlloc}.

(** Why a value of another type is not incremented *)
Definition increment_error (type : Z) : call :=
  error_return
    (if type =? SHATOMIC_NUMBER then "can't increment atomic floating-point number"
     else if type =? SHATOMIC_BOOLEAN then "can't increment atomic boolean"
     else if type =? SHATOMIC_NIL then "can't increment atomic nil"
     else if type =? SHATOMIC_POINTER then "can't increment atomic pointer"
     else if type =? SHATOMIC_STRING then "can't increment atomic string"
     else "invalid atomic value type").

(** The next step of a call; none: undefined behaviour, the use of memory that is not allocated. *)
Definition call_step (c : call) (s : shm) : option (call * shm) :=
  let typemix := av_typemix (sm_value s) in
  match c with
  | SetStart v =>
      match v with
      | VNil => Some (SetType SHATOMIC_NIL typemix, s)
      | VBool _ | VInt _ | VNum _ | VLight _ => Some (SetStore v typemix, s)
      | VStr str => Some (SetString str typemix, s)
      | VCFun _ | VObj _ => Some (error_return "can't set atomic value type", s)
      end
  | SetStore v old => Some (SetType (value_type v) old, store_slot v s)
  | SetString str old =>
      let sz := Z.of_nat (String.length str) in
      let shared_str := shm_alloc (sm_strings s) (8 + sz) in
      let s' := match shared_str with Some p => put_strings (<[p := str]> (sm_strings s)) s | None => s end in
      if sz =? 0 then Some (error_return "failed to allocate shared string for atomic value", s')
      else match shared_str with Some p => Some (SetExchange p old, s') | None => None end
  | SetExchange p old =>
      let old_str := av_string (sm_value s) in
      Some (if old_str =? 0 then SetType SHATOMIC_STRING old else SetFree old_str old, put_string p s)
  | SetFree p old => match shm_free p s with Some s' => Some (SetType SHATOMIC_STRING old, s') | None => None end
  | SetType t old => let '(ok, s') := update_type_safely old t s in Some (Returned [VBool ok], s')
  | GetStart =>
      let valtype := get_type s in
      if valtype =? SHATOMIC_NIL then Some (Returned [VNil], s)
      else if valtype <=? SHATOMIC_POINTER then Some (GetSlot valtype, s)
      else Some (error_return "invalid atomic value type", s)
  | GetSlot valtype =>
      if valtype =? SHATOMIC_STRING then Some (GetData (av_string (sm_value s)), s)
      else Some (Returned [load_slot valtype s], s)
  | GetData p => match sm_strings s !! p with Some str => Some (Returned [VStr str], s) | None => None end
  | IncStart n =>
      if get_type s =? SHATOMIC_INTEGER then Some (IncAdd n, s)
      else Some (increment_error (get_type s), s)
  | IncAdd n =>
      let old := av_integer (sm_value s) in
      Some (Returned [VInt old], put_integer (s32 (old + n)) s)
  | Returned r => Some (c, s)
  end.

(** Calls that run at the same time, each in its process; the schedule says whose step is next. *)
Definition system : Type := list call * shm.

Definition sys_step (i : nat) (st : system) : option system :=
  match st.1 !! i with
  | Some c => match call_step c st.2 with Some (c', s') => Some (<[i := c']> st.1, s') | None => None end
  | None => Some st
  end.

Fixpoint sys_run (sched : list nat) (st : system) : option system :=
  match sched with
  | [] => Some st
  | i :: sched' => match sys_step i st with Some st' => sys_run sched' st' | None => None end
  end.

(** A call that nobody disturbs takes at most six steps. *)
Definition run_call (c : call) (s : shm) : option (list value * shm) :=
  match sys_run (replicate 6 0%nat) ([c], s) with
  | Some ([Returned r], s') => Some (r, s')
  | _ => None
  end.

(** A call on a value: [atomicval] is null once the value is destroyed. *)
Definition call_on (atomicval : option shm) (c : call) : option (list value * option shm) :=
  match atomicval with
  | None => Some ([VNil; VStr "can't set destroyed atomic value"], None)
  | Some s => match run_call c s with Some (r, s') => Some (r, Some s') | None => None end
  end.

(** ** Creation and destruction

    [Lua_lazy_atomics_value_create], given what the new block of memory holds and the userdata that is made
    for it.  With arguments it calls [Lua_lazy_atomics_value_set] with its own first and second argument, or
    the userdata if there is one: the second result is that call, none when there is none or the first
    argument is not a lazy atomic, which is an error that is logged. *)
Definition value_create (mem : atomic_value) (strings : gmap Z string) (ud : value) (args : list value)
    (lazy_atomic : value → bool) : shm * option (value * value) :=
  let s := Shm mem strings in
  match args with
  | [] => (put_typemix SHATOMIC_NIL s, None)
  | v :: rest => (s, if lazy_atomic v then Some (v, default ud (rest !! 0%nat)) else None)
  end.

(** [Lua_lazy_atomics_value_destroy]: the strings that are still allocated *)
Definition value_destroy (s : shm) : option (gmap Z string) :=
  if av_string (sm_value s) =? 0 then Some (sm_strings s)
  else match shm_free (av_string (sm_value s)) s with
       | Some s' => Some (sm_strings s')
       | None => None
       end.
End atomics.

(** ** One call after the other *)

(** What is stored of a value *)
Definition stored_value (v : value) : value :=
  match v with VInt i => VInt (s32 i) | _ => v end.

Lemma get_type_next s old t ok s' : 0 ≤ t < 16 → update_type_safely old t s = (ok, s') → ok = true →
  get_type s' = t.
Proof.
  unfold update_type_safely. intros Ht Hu ->. destruct (_ =? _); [|done]. injection Hu as <-.
  unfold get_type, next_typemix, u32, wrap. simpl.
  change 15 with (Z.ones 4). rewrite Z.land_ones by lia. rewrite Z.shiftl_mul_pow2 by lia.
  change (2 ^ 32) with 4294967296. change (2 ^ 8) with 256. change (2 ^ 4) with 16.
  Z.div_mod_to_equations. lia.
Qed.

Definition settable (v : value) : Prop :=
  match v with VCFun _ | VObj _ => False | VStr s => s ≠ "" | _ => True end.

(** The string pointer is null or that of an allocated string. *)
Definition string_ok (s : shm) : Prop :=
  sm_strings s !! 0 = None ∧
  (av_string (sm_value s) = 0 ∨ is_Some (sm_strings s !! av_string (sm_value s))).

Section sequential.
Context `{ShmAlloc}.

Lemma run_step n c s c' s' : call_step c s = Some (c', s') →
  sys_run (replicate (S n) 0%nat) ([c], s) = sys_run (replicate n 0%nat) ([c'], s').
Proof. intros Hs. simpl. unfold sys_step. simpl. by rewrite Hs. Qed.

Lemma run_returned n r s : sys_run (replicate n 0%nat) ([Returned r], s) = Some ([Returned r], s).
Proof. induction n as [|n IH]; [done|]. by rewrite (run_step n _ s (Returned r) s). Qed.

Lemma type_step t s : 0 ≤ t < 16 → ∃ s',
  call_step (SetType t (av_typemix (sm_value s))) s = Some (Returned [VBool true], s') ∧
  get_type s' = t ∧ sm_strings s' = sm_strings s ∧ av_string (sm_value s') = av_string (sm_value s) ∧
  ∀ u, load_slot u s' = load_slot u s.
Proof.
  intros Ht. destruct (update_type_safely (av_typemix (sm_value s)) t s) as [ok s'] eqn:Hu.
  simpl. rewrite Hu. pose proof Hu as Hu2. unfold update_type_safely in Hu. rewrite Z.eqb_refl in Hu.
  injection Hu as <- <-. eexists. split; [done|]. split; [by eapply get_type_next|]. done.
Qed.

Lemma get_slot_run v s : (∀ str, v ≠ VStr str) → settable v → get_type s = value_type v →
  load_slot (value_type v) s = stored_value v → v ≠ VNil → run_call GetStart s = Some ([stored_value v], s).
Proof.
  intros Hstr Hv Ht Hl Hn. unfold run_call.
  rewrite (run_step _ _ s (GetSlot (value_type v)) s), (run_step _ _ s (Returned [stored_value v]) s), run_returned.
  - done.
  - simpl. rewrite Hl. by destruct v; try done; edestruct Hstr.
  - simpl. rewrite Ht. by destruct v.
Qed.

(** A value that needs no memory *)
Lemma set_get_plain v s : (∀ str, v ≠ VStr str) → settable v → ∃ s',
  run_call (SetStart v) s = Some ([VBool true], s') ∧ run_call GetStart s' = Some ([stored_value v], s') ∧
  sm_strings s' = sm_strings s ∧ av_string (sm_value s') = av_string (sm_value s).
Proof.
  intros Hstr Hv.
  assert (0 ≤ value_type v < 16) as Ht by (destruct v; by vm_compute).
  destruct (decide (v = VNil)) as [->|Hn].
  - destruct (type_step SHATOMIC_NIL s) as (s' & Hst & Hty & Hss & Has & _); [done|].
    exists s'. split_and!; [| |done..]; unfold run_call.
    + rewrite (run_step _ _ s (SetType SHATOMIC_NIL (av_typemix (sm_value s))) s) by done.
      by rewrite (run_step _ _ _ _ _ Hst), run_returned.
    + rewrite (run_step _ _ s' (Returned [VNil]) s'), run_returned; [done|]. simpl. by rewrite Hty.
  - destruct (type_step (value_type v) (store_slot v s)) as (s' & Hst & Hty & Hss & Has & Hl); [done|].
    assert (av_typemix (sm_value (store_slot v s)) = av_typemix (sm_value s)) as Hmix by by destruct v.
    exists s'. split_and!.
    + unfold run_call. rewrite (run_step _ _ s (SetStore v (av_typemix (sm_value s))) s).
      2: { destruct v; try done. by edestruct Hstr. }
      rewrite (run_step _ _ s (SetType (value_type v) (av_typemix (sm_value s))) (store_slot v s)) by done.
      rewrite <- Hmix. by rewrite (run_step _ _ _ _ _ Hst), run_returned.
    + apply get_slot_run; try done. rewrite Hl. destruct v; try done. by edestruct Hstr.
    + rewrite Hss. by destruct v.
    + rewrite Has. by destruct v.
Qed.

(** A string: the new block takes the place of the old one, which is freed. *)
Lemma set_get_string str p s : str ≠ "" → string_ok s →
  shm_alloc (sm_strings s) (8 + Z.of_nat (String.length str)) = Some p → ∃ s',
  run_call (SetStart (VStr str)) s = Some ([VBool true], s') ∧
  run_call GetStart s' = Some ([VStr str], s') ∧ av_string (sm_value s') = p ∧
  sm_strings s' = <[p := str]> (delete (av_string (sm_value s)) (sm_strings s)).
Proof.
  intros Hne Hok Ha. destruct (shm_alloc_ok _ _ _ Ha) as [Hp Hfree].
  set (old := av_typemix (sm_value s)). set (q := av_string (sm_value s)).
  set (s1 := put_strings (<[p := str]> (sm_strings s)) s).
  set (s2 := put_strings (<[p := str]> (delete q (sm_strings s))) (put_string p s)).
  assert (Z.of_nat (String.length str) ≠ 0) as Hsz by by destruct str.
  assert (call_step (SetStart (VStr str)) s = Some (SetString str old, s)) as H1 by done.
  assert (call_step (SetString str old) s = Some (SetExchange p old, s1)) as H2.
  { simpl. rewrite Ha. by rewrite (proj2 (Z.eqb_neq _ _) Hsz). }
  destruct (type_step SHATOMIC_STRING s2) as (s' & Hst & Hty & Hss & Has & _); [done|].
  exists s'. split_and!; [| |done|done].
  - unfold run_call. rewrite (run_step _ _ _ _ _ H1), (run_step _ _ _ _ _ H2).
    destruct (decide (q = 0)) as [Hq|Hq].
    + rewrite (run_step _ _ _ (SetType SHATOMIC_STRING old) s2).
      2: { simpl. fold q. rewrite Hq. unfold s2. rewrite Hq, delete_id by apply Hok. done. }
      change old with (av_typemix (sm_value s2)). by rewrite (run_step _ _ _ _ _ Hst), run_returned.
    + destruct Hok as [_ [?|[w Hw]]]; [done|]. fold q in Hw.
      rewrite (run_step _ _ _ (SetFree q old) (put_string p s1)).
      2: { simpl. fold q. by rewrite (proj2 (Z.eqb_neq _ _) Hq). }
      rewrite (run_step _ _ _ (SetType SHATOMIC_STRING old) s2).
      2: { simpl. unfold shm_free. simpl. rewrite lookup_insert_ne by congruence. rewrite Hw.
           unfold s2. rewrite <- delete_insert_ne by congruence. done. }
      change old with (av_typemix (sm_value s2)). by rewrite (run_step _ _ _ _ _ Hst), run_returned.
  - unfold run_call. rewrite (run_step _ _ s' (GetSlot SHATOMIC_STRING) s') by (simpl; by rewrite Hty).
    rewrite (run_step _ _ s' (GetData p) s') by (simpl; by rewrite Has).
    rewrite (run_step _ _ s' (Returned [VStr str]) s'), run_returned; [done|].
    simpl. rewrite Hss. simpl. by rewrite lookup_insert_eq.
Qed.

(** What is set can be got.  A set that nobody disturbs, of a value that can be set and, if it is a string, for
    which there is memory, succeeds; a get after it returns the value, an integer as the C [int] it was
    converted to; and a string that was replaced is freed, so that the strings that are allocated are as
    before but for the value's. *)
Theorem lazy_set_get v s p
  (Hv : settable v)
  (Hs : string_ok s)
  (Hmem : ∀ str, v = VStr str → shm_alloc (sm_strings s) (8 + Z.of_nat (String.length str)) = Some p) :
  ∃ s', call_on (Some s) (SetStart v) = Some ([VBool true], Some s') ∧
        call_on (Some s') GetStart = Some ([stored_value v], Some s') ∧ string_ok s' ∧
        sm_strings s' = match v with
                        | VStr str => <[p := str]> (delete (av_string (sm_value s)) (sm_strings s))
                        | _ => sm_strings s
                        end.
Proof.
  assert ((∃ str, v = VStr str) ∨ ∀ str, v ≠ VStr str) as [[str ->]|Hstr] by (destruct v; naive_solver).
  - destruct (set_get_string str p s) as (s' & Hr & Hg & Hp & Hss); [done|done|by apply Hmem|].
    exists s'. unfold call_on. rewrite Hr, Hg. split_and!; [done..| |done]. destruct Hs as [H0 _].
    destruct (shm_alloc_ok _ _ _ (Hmem _ eq_refl)) as [Hp0 _]. split; rewrite Hss.
    + by rewrite lookup_insert_ne, lookup_delete_None by done; right.
    + right. rewrite Hp, lookup_insert_eq. eauto.
  - destruct (set_get_plain v s Hstr Hv) as (s' & Hr & Hg & Hss & Has).
    exists s'. unfold call_on. rewrite Hr, Hg. split_and!; [done..| |rewrite Hss; destruct v; try done; by edestruct Hstr].
    unfold string_ok. by rewrite Hss, Has.
Qed.
End sequential.

(** ** Calls at the same time *)

Section concurrent.
Context `{ShmAlloc} (cs0 : list call).

(** Any number of gets, and of sets of values that are not strings *)
Definition plain_call (c : call) : Prop :=
  match c with SetStart v => ∀ str, v ≠ VStr str | GetStart => True | _ => False end.

(** The slot of a type holds what one of the calls set. *)
Definition slot_set (t : Z) (s : shm) : Prop :=
  ∃ v, SetStart v ∈ cs0 ∧ value_type v = t ∧ load_slot t s = stored_value v.

Definition plain_type (t : Z) : Prop := t = 0 ∨ t = 1 ∨ t = 3 ∨ t = 4 ∨ t = 5.

Definition call_inv (c0 c : call) (s : shm) : Prop :=
  match c0 with
  | SetStart v =>
      match c with
      | SetStart w => w = v
      | SetStore w _ => w = v ∧ value_type v ≠ SHATOMIC_NIL
      | SetType t _ => plain_type t ∧ (t ≠ SHATOMIC_NIL → slot_set t s)
      | Returned _ => True
      | _ => False
      end
  | GetStart =>
      match c with
      | GetStart => True
      | GetSlot t => plain_type t ∧ t ≠ SHATOMIC_NIL ∧ slot_set t s
      | Returned r => r = [VNil] ∨ ∃ v, SetStart v ∈ cs0 ∧ r = [stored_value v]
      | _ => False
      end
  | _ => False
  end.

Definition shm_inv (s : shm) : Prop :=
  plain_type (get_type s) ∧ (get_type s ≠ SHATOMIC_NIL → slot_set (get_type s) s).

(** Slots that were set stay so. *)
Definition keeps_slots (s s' : shm) : Prop :=
  ∀ t, plain_type t → t ≠ SHATOMIC_NIL → slot_set t s → slot_set t s'.

Lemma call_inv_keep c0 c s s' : keeps_slots s s' → call_inv c0 c s → call_inv c0 c s'.
Proof.
  intros Hk. unfold call_inv. destruct c0; try done; destruct c; try done.
  - intros [Ht Hs]. split; [done|]. auto.
  - intros (Ht & Hn & Hs). auto.
Qed.

Lemma store_keeps v s : SetStart v ∈ cs0 → (∀ str, v ≠ VStr str) → value_type v ≠ SHATOMIC_NIL →
  slot_set (value_type v) (store_slot v s) ∧ keeps_slots s (store_slot v s) ∧
  get_type (store_slot v s) = get_type s.
Proof.
  intros Hin Hstr Hn.
  assert (slot_set (value_type v) (store_slot v s)) as Hown.
  { exists v. split_and!; [done..|]. destruct v; try done; by edestruct Hstr. }
  split_and!; [done| |by destruct v].
  intros t Ht Hnil (w & Hw & Hwt & Hl). destruct (decide (t = value_type v)) as [->|Hne]; [done|].
  exists w. split_and!; [done..|]. rewrite <- Hl.
  destruct v; try reflexivity; destruct Ht as [->|[->|[->|[->| ->]]]];
    first [reflexivity|by destruct Hne|by destruct Hnil].
Qed.

Lemma load_types t v : value_type v = t → plain_type t → t ≠ SHATOMIC_NIL → ∀ str, v ≠ VStr str.
Proof. intros <- Ht Hn str ->. destruct Ht as [?|[?|[?|[?|?]]]]; done. Qed.

Lemma plain_step c0 c s : c0 ∈ cs0 → plain_call c0 → call_inv c0 c s → shm_inv s →
  ∃ c' s', call_step c s = Some (c', s') ∧ call_inv c0 c' s' ∧ keeps_slots s s' ∧ shm_inv s'.
Proof.
  intros Hin Hp Hc Hs.
  assert (keeps_slots s s) as Hrefl by by intros t.
  destruct c0 as [v| | | | | | | | | | |]; try done; simpl in Hp, Hc; destruct c; try done; simpl.
  - subst v0. destruct v; try by destruct (Hp _ eq_refl).
    1: by (eexists _, s; split; [done|split; [split; [by left|done]|done]]).
    all: eexists _, s; split; [done|split; [split; done|done]].
  - destruct Hc as [-> Hn]. destruct (store_keeps v s Hin Hp Hn) as (Hown & Hk & Hty).
    eexists _, (store_slot v s). split; [done|]. split; [split; [|done]|split; [done|]].
    + unfold plain_type. destruct v; try by destruct (Hp _ eq_refl). all: vm_compute; tauto.
    + destruct Hs as [Ht Hs]. unfold shm_inv. rewrite Hty. split; [done|]. intros Hn'. auto.
  - destruct Hc as [Ht Hsl]. destruct (update_type_safely _ _ s) as [ok s'] eqn:Hu.
    eexists _, s'. split; [done|]. split; [done|].
    assert (keeps_slots s s') as Hk.
    { unfold update_type_safely in Hu. by destruct (_ =? _); simplify_eq. }
    split; [done|]. destruct ok.
    + assert (get_type s' = new_atype) as Hty.
      { eapply get_type_next; [|exact Hu|done]. unfold plain_type in Ht. lia. }
      unfold shm_inv. rewrite Hty. split; [done|]. intros Hn. by apply Hk, Hsl.
    + unfold update_type_safely in Hu. by destruct (_ =? _); simplify_eq.
  - by eexists _, s.
  - destruct Hs as [Ht Hs]. pose proof Ht as Ht'. destruct (Z.eqb_spec (get_type s) SHATOMIC_NIL) as [E|E].
    + eexists _, s. split; [done|]. split; [by left|done].
    + rewrite (proj2 (Z.leb_le _ _)) by (unfold plain_type, SHATOMIC_POINTER in *; lia).
      eexists _, s. split; [done|]. split; [|done]. split; [done|]. split; [done|auto].
  - destruct Hc as (Ht & Hn & v & Hv & Hvt & Hl). eexists _, s. rewrite (proj2 (Z.eqb_neq _ _)).
    + split; [done|]. split; [right; exists v; by rewrite Hl|done].
    + unfold plain_type in Ht. unfold SHATOMIC_STRING. lia.
  - by eexists _, s.
Qed.

Definition sys_inv (st : system) : Prop :=
  Forall2 (λ c0 c, call_inv c0 c st.2) cs0 st.1 ∧ shm_inv st.2.

Lemma sys_step_inv i st : Forall plain_call cs0 → sys_inv st → ∃ st', sys_step i st = Some st' ∧ sys_inv st'.
Proof.
  intros Hp [Hf Hs]. unfold sys_step. destruct (st.1 !! i) as [c|] eqn:Hi; [|by exists st].
  destruct (Forall2_lookup_r _ _ _ _ _ Hf Hi) as (c0 & Hc0 & Hc).
  destruct (plain_step c0 c st.2) as (c' & s' & Hst & Hc' & Hk & Hs'); [|by eapply Forall_lookup_1|done|done|].
  { by eapply list_elem_of_lookup_2. }
  exists (<[i := c']> st.1, s'). rewrite Hst. split; [done|]. split; [|done]. simpl.
  apply Forall2_same_length_lookup. split; [by rewrite length_insert, (Forall2_length _ _ _ Hf)|].
  intros j d0 d Hd0 Hd. destruct (decide (j = i)) as [->|Hne].
  - rewrite list_lookup_insert_eq in Hd by by eapply lookup_lt_Some. by simplify_eq.
  - rewrite list_lookup_insert_ne in Hd by done.
    apply (call_inv_keep _ _ st.2); [done|]. by apply (Forall2_lookup_lr _ _ _ _ _ _ Hf Hd0 Hd).
Qed.

Lemma sys_run_inv sched st : Forall plain_call cs0 → sys_inv st →
  ∃ st', sys_run sched st = Some st' ∧ sys_inv st'.
Proof.
  intros Hp. revert st. induction sched as [|i sched IH]; intros st Hi; [by exists st|].
  destruct (sys_step_inv i st Hp Hi) as (st1 & Hst & Hi1). simpl. rewrite Hst. by apply IH.
Qed.
End concurrent.


(** ** Increments *)

(** What the calls that have returned were to add *)
Fixpoint returned_sum (ns : list Z) (cs : list call) : Z :=
  match ns, cs with
  | n :: ns', c :: cs' => (match c with Returned _ => n | _ => 0 end) + returned_sum ns' cs'
  | _, _ => 0
  end.

Lemma returned_sum_update ns : ∀ cs i n c c', ns !! i = Some n → cs !! i = Some c →
  (∀ r, c ≠ Returned r) →
  returned_sum ns (<[i := c']> cs) = returned_sum ns cs + match c' with Returned _ => n | _ => 0 end.
Proof.
  induction ns as [|m ns IH]; intros [|d cs] [|i] n c c' Hn Hc Hr; simplify_eq/=.
  - destruct c; simpl; try lia. by destruct (Hr r).
  - rewrite (IH cs i n c c') by done. lia.
Qed.

Lemma s32_add a b : s32 (s32 a + b) = s32 (a + b).
Proof. unfold s32, swrap. f_equal. Z.div_mod_to_equations. lia. Qed.

Section increments.
Context `{ShmAlloc} (ns : list Z) (s0 : shm).

Definition inc_inv (st : system) : Prop :=
  Forall2 (λ n c, c = IncStart n ∨ c = IncAdd n ∨ ∃ r, c = Returned r) ns st.1 ∧
  get_type st.2 = SHATOMIC_INTEGER ∧
  av_integer (sm_value st.2) = s32 (av_integer (sm_value s0) + returned_sum ns st.1).

Lemma inc_step i st : inc_inv st → ∃ st', sys_step i st = Some st' ∧ inc_inv st'.
Proof.
  intros (Hf & Ht & Hi). unfold sys_step. destruct (st.1 !! i) as [c|] eqn:Hc; [|by exists st].
  destruct (Forall2_lookup_r _ _ _ _ _ Hf Hc) as (n & Hn & Hcase).
  assert (∀ c', (c' = IncAdd n ∨ ∃ r, c' = Returned r) →
    Forall2 (λ n c, c = IncStart n ∨ c = IncAdd n ∨ ∃ r, c = Returned r) ns (<[i := c']> st.1)) as Hset.
  { intros c' Hc'. apply Forall2_same_length_lookup. split; [by rewrite length_insert, (Forall2_length _ _ _ Hf)|].
    intros j m d Hm Hd. destruct (decide (j = i)) as [->|Hne].
    - rewrite list_lookup_insert_eq in Hd by by eapply lookup_lt_Some. simplify_eq. tauto.
    - rewrite list_lookup_insert_ne in Hd by done. exact (Forall2_lookup_lr _ _ _ _ _ _ Hf Hm Hd). }
  destruct Hcase as [->|[->|[r ->]]]; simpl; rewrite ?Ht; eexists; (split; [done|]);
    (split; [apply Hset; eauto|split; [done|]]); simpl.
  - by rewrite (returned_sum_update ns st.1 i n (IncStart n) (IncAdd n)), Z.add_0_r by done.
  - rewrite (returned_sum_update ns st.1 i n (IncAdd n)) by done. by rewrite Hi, s32_add, Z.add_assoc.
  - by rewrite list_insert_id.
Qed.
End increments.

(** No increment is lost.  However the increments of an integer by any number of processes are interleaved, the
    value is at every point what it was plus, as a C [int], the sum of those that have returned. *)
Theorem lazy_increments_add_up `{ShmAlloc} ns s sched
  (Htype : get_type s = SHATOMIC_INTEGER)
  (Hint : - 2 ^ 31 ≤ av_integer (sm_value s) < 2 ^ 31) :
  ∃ cs' s', sys_run sched (IncStart <$> ns, s) = Some (cs', s') ∧
    av_integer (sm_value s') = s32 (av_integer (sm_value s) + returned_sum ns cs').
Proof.
  assert (inc_inv ns s (IncStart <$> ns, s)) as Hi.
  { split_and!; [|done|].
    - simpl. induction ns as [|n ns IH]; constructor; auto.
    - simpl. assert (returned_sum ns (IncStart <$> ns) = 0) as -> by (induction ns; done).
      rewrite Z.add_0_r. symmetry. by apply (swrap_small 32). }
  revert Hi. generalize (IncStart <$> ns, s). induction sched as [|i sched IH]; intros st Hi.
  { destruct st as [cs' s']. exists cs', s'. split; [done|]. apply Hi. }
  destruct (inc_step ns s i st Hi) as (st' & Hst & Hi'). simpl. rewrite Hst. by apply IH.
Qed.

(** ** Examples *)

(** Strings at addresses that are not in use *)
#[local] Program Instance fresh_alloc : ShmAlloc := {
  shm_alloc h _ := Some (fresh (dom h ∪ {[0]}))
}.
Next Obligation.
  intros h n p [= <-]. pose proof (is_fresh (dom h ∪ {[0 : Z]} : gset Z)) as Hf.
  revert Hf. generalize (fresh (dom h ∪ {[0 : Z]} : gset Z)). intros p Hf.
  rewrite not_elem_of_union, not_elem_of_singleton, not_elem_of_dom in Hf. tauto.
Qed.

(** The value "a", at the address 16, and the integer 7 *)
Definition sample_string : shm := Shm (AV (256 + 2) 16 0 0 false 0) {[16 := "a"]}.
Definition sample_integer : shm := Shm (AV (256 + 3) 0 7 0 false 0) ∅.

Lemma lazy_set_get_witness :
  ∃ s', call_on (Some sample_string) (SetStart (VStr "b")) = Some ([VBool true], Some s') ∧
        call_on (Some s') GetStart = Some ([stored_value (VStr "b")], Some s') ∧ string_ok s' ∧
        sm_strings s' = <[17 := "b"]> (delete (av_string (sm_value sample_string)) (sm_strings sample_string)).
Proof.
  apply (lazy_set_get (VStr "b") sample_string 17).
  - done.
  - split; [by vm_compute|]. right. exists "a". by vm_compute.
  - intros str [= <-]. by vm_compute.
Defined.


Lemma lazy_increments_add_up_witness :
  ∃ cs' s', sys_run [0; 1; 1; 0; 2]%nat (IncStart <$> [10; -3; 2147483647], sample_integer) = Some (cs', s') ∧
    av_integer (sm_value s') = s32 (7 + returned_sum [10; -3; 2147483647] cs').
Proof. by apply (lazy_increments_add_up [10; -3; 2147483647] sample_integer). Defined.

(** What can go wrong.  A get that has read the pointer of a string reads freed memory if the string is
    replaced in between.  A set that fails (returns false) because another one got in between has
    changed the value all the same: a get after both gives what the failed one set.  A value that was created
    with an initial one holds what its memory held, as the set that creation calls gets the wrong
    arguments; and one created without any frees, when it is destroyed, whatever address its memory held. *)
Theorem lazy_races :
  sys_run [0; 0; 1; 1; 1; 1; 0]%nat ([GetStart; SetStart (VStr "b")], sample_string) = None ∧
  (∃ s', sys_run [0; 1; 1; 1; 0; 0; 2; 2]%nat ([SetStart (VInt 1); SetStart (VInt 2); GetStart], sample_integer) =
    Some ([Returned [VBool false]; Returned [VBool true]; Returned [VInt 1]], s')) ∧
  (∀ mem strings ud v args lazy_atomic, lazy_atomic v = false →
     value_create mem strings ud (v :: args) lazy_atomic = (Shm mem strings, None)) ∧
  (∀ mem strings ud lazy_atomic, av_string mem ≠ 0 → strings !! av_string mem = None →
     value_destroy (value_create mem strings ud [] lazy_atomic).1 = None).
Proof.
  split_and!.
  - by vm_compute.
  - eexists. by vm_compute.
  - intros mem strings ud v args lazy_atomic Hl. simpl. by rewrite Hl.
  - intros mem strings ud lazy_atomic Hn Hs. unfold value_destroy, shm_free. simpl.
    by rewrite (proj2 (Z.eqb_neq _ _) Hn), Hs.
Qed.
