(* ===== verification/Instring.v ===== *)
(** Strings with variables, src/src/instring.c: their making from the tokens of the parser
    (instring.lua), their copies for workers, their interpolation, and the values they are converted to, which are
    cached. *)

From stdpp Require Import strings.
From S2P Require Import Prelude.

(** A token of the parser: a literal's [value], or a variable, which may have a [value] too *)
Inductive lua_token :=
| LuaLiteral (val : string)
| LuaVariable (name : string) (module_name : option string) (params : list string) (val : option string).

(** [shuso_variable_t]: what identifies it to its [eval] *)
Record variable := Var { var_name : string; var_params : list string }.

(** [shuso_instring_token_t] *)
Inductive token := TokenLiteral (literal : string) | TokenVariable (v : variable).

Inductive value_state := VALUE_UNKNOWN | VALUE_INVALID | VALUE_VALID.

#[export] Instance value_state_eq_dec : EqDecision value_state.
Proof. solve_decision. Defined.

(** [cached_value]: for each type of value its state and the value, which means nothing unless it is valid; the string
    that the registry holds *)
Record cache := Cache {
  c_boolean : value_state * bool;
  c_integer : value_state * Z;
  c_number : value_state * Z;
  c_size : value_state * Z;
  c_string : value_state * string;
  c_string_lua_ref : option string
}.

Definition put_boolean x c :=
  Cache x (c_integer c) (c_number c) (c_size c) (c_string c) (c_string_lua_ref c).
Definition put_integer x c :=
  Cache (c_boolean c) x (c_number c) (c_size c) (c_string c) (c_string_lua_ref c).
Definition put_number x c :=
  Cache (c_boolean c) (c_integer c) x (c_size c) (c_string c) (c_string_lua_ref c).
Definition put_size x c :=
  Cache (c_boolean c) (c_integer c) (c_number c) x (c_string c) (c_string_lua_ref c).
Definition put_string x c :=
  Cache (c_boolean c) (c_integer c) (c_number c) (c_size c) x (c_string_lua_ref c).
Definition put_ref r c :=
  Cache (c_boolean c) (c_integer c) (c_number c) (c_size c) (c_string c) r.

(** [state = reset_state]: every value is unknown. *)
Definition reset_state c :=
  Cache (VALUE_UNKNOWN, (c_boolean c).2) (VALUE_UNKNOWN, (c_integer c).2) (VALUE_UNKNOWN, (c_number c).2)
        (VALUE_UNKNOWN, (c_size c).2) (VALUE_UNKNOWN, (c_string c).2) (c_string_lua_ref c).

(** [shuso_instring_t]: an element of [variables.array] that is not initialised is [None]; the
    iovec of the buffer is the list of the strings its elements point to. *)
Record instring := Instring {
  i_variables : list (option variable);
  i_tokens : list token;
  i_iov : list string;
  i_cached_value : cache
}.

Definition set_iov v i := Instring (i_variables i) (i_tokens i) v (i_cached_value i).
Definition set_cache c i := Instring (i_variables i) (i_tokens i) (i_iov i) c.

(** What the code relies on: the variables that modules have declared ([find_variable]; whether one is
    constant), their [eval] functions, which may change the state [E] of their modules and give a value if it is
    a new one; the conversions of instring.lua that use Lua's own; the memory left after the
    requests so far. *)
Class InstringEnv (E : Type) := {
  find_variable : string → option bool;
  eval : variable → E → option string * E;
  lua_tonumber : string → option Z;
  lua_tointeger : string → option Z;
  lua_tosize : string → option Z;
  has_memory : list Z → Z → bool
}.

(** [Instring.toboolean] and [Instring.tostring] of instring.lua *)
Definition lua_toboolean (str : string) : option bool :=
  if bool_decide (str ∈ ["yes"; "1"; "true"; "on"]) then Some true
  else if bool_decide (str ∈ ["no"; "0"; "false"; "off"]) then Some false
  else None.
Definition lua_tostring (str : string) : option string := Some str.

(** A size goes through a double: an integer rounded to 53 bits, ties to even. *)
Definition double_of (i : Z) : Z :=
  let a := Z.abs i in
  if a <? 2 ^ 53 then i
  else
    let sh := Z.log2 a - 52 in
    let q := a / 2 ^ sh in
    let r := a mod 2 ^ sh in
    let half := 2 ^ (sh - 1) in
    let q' := if (half <? r) || ((half =? r) && Z.odd q) then q + 1 else q in
    Z.sgn i * (q' * 2 ^ sh).

Record world (E : Type) := World { w_env : E; w_allocs : list Z; w_errors : list string }.
Arguments World {E}. Arguments w_env {E}. Arguments w_allocs {E}. Arguments w_errors {E}.

Section instring.
Context {E : Type} `{!InstringEnv E}.

Definition shuso_set_error {A} (msg : string) : M (world E) (option A) :=
  m_modify (λ w, World (w_env w) (w_allocs w) (msg :: w_errors w)) ;;; m_ret None.

(** [shuso_palloc]: whether there was memory *)
Definition palloc (sz : Z) : M (world E) bool :=
  w <- m_get ;;
  m_put (World (w_env w) (sz :: w_allocs w) (w_errors w)) ;;;
  m_ret (has_memory (w_allocs w) sz).

Definition str_len (s : string) : Z := Z.of_nat (String.length s).

(** ** Making *)

(** The token and what its iovec points to; without a [value] null is copied from. *)
Definition instring_token_literal_lua_to_c (val : option string) : M (world E) (option (token * string)) :=
  match val with
  | None => m_abort
  | Some str =>
      ok <- palloc (str_len str + 1) ;;
      if ok : bool then m_ret (Some (TokenLiteral str, str))
      else shuso_set_error "no memory for instring literal"
  end.

(** The loop over the parameters: the [j]th one's pointer is stored in an array for one pointer. *)
Fixpoint params_loop (j : Z) (params : list string) : M (world E) (option unit) :=
  match params with
  | [] => m_ret (Some tt)
  | p :: params' =>
      ok <- palloc (str_len p + 1) ;;
      m_assert (8 * (j + 1) <=? 8) ;;;
      if ok : bool then params_loop (j + 1) params'
      else shuso_set_error "no memory for instring variable index"
  end.

Definition instring_token_variable_lua_to_c (name : string) (module_name : option string)
    (params : list string) (val : option string) : M (world E) (option (token * string)) :=
  (** [var->module], which is not set yet, is followed for a module's variable. *)
  m_assert (bool_decide (module_name = None)) ;;;
  match find_variable name with
  | None => shuso_set_error "unable to find variable"
  | Some constant =>
      ok <- palloc (str_len name + 1) ;;
      if negb ok then shuso_set_error "no memory for instring variable name" else
      ok <- (if 0 <? Z.of_nat (length params) then palloc 8 else m_ret true) ;;
      if negb ok then shuso_set_error "no memory for instring variable index array" else
      r <- params_loop 0 params ;;
      match r with
      | None => m_ret None
      | Some _ =>
          let var := Var name params in
          if constant : bool then
            w <- m_get ;;
            let '(v, e) := eval var (w_env w) in
            m_put (World e (w_allocs w) (w_errors w)) ;;;
            match v with
            | None => shuso_set_error "constant variable evaluation failed"
            | Some _ => instring_token_literal_lua_to_c val
            end
          else m_ret (Some (TokenVariable var, ""))
      end
  end.

Definition token_lua_to_c (t : lua_token) : M (world E) (option (token * string)) :=
  match t with
  | LuaLiteral v => instring_token_literal_lua_to_c (Some v)
  | LuaVariable name module_name params v => instring_token_variable_lua_to_c name module_name params v
  end.

Fixpoint tokens_loop (ts : list lua_token) : M (world E) (option (list (token * string))) :=
  match ts with
  | [] => m_ret (Some [])
  | t :: ts' =>
      r <- token_lua_to_c t ;;
      match r with
      | None => m_ret None
      | Some x =>
          rs <- tokens_loop ts' ;;
          m_ret (match rs with Some xs => Some (x :: xs) | None => None end)
      end
  end.

Definition is_variable (t : lua_token) : bool :=
  match t with LuaVariable _ _ _ _ => true | LuaLiteral _ => false end.

Definition token_variable (t : token) : option variable :=
  match t with TokenVariable v => Some v | TokenLiteral _ => None end.

(** ** Interpolation and values *)

(** The loop over the variables from the [n]th one on: whether one has a new value.  The value becomes
    that of the iovec's element with the number of the variable. *)
Fixpoint interpolate_loop (n : nat) (vars : list (option variable)) (iov : list string) (reset : bool) :
    M (world E) (list string * bool) :=
  match vars with
  | [] => m_ret (iov, reset)
  | None :: _ => m_abort
  | Some var :: vars' =>
      w <- m_get ;;
      let '(v, e) := eval var (w_env w) in
      m_put (World e (w_allocs w) (w_errors w)) ;;;
      match v with
      | Some s => interpolate_loop (S n) vars' (<[n := s]> iov) true
      | None => interpolate_loop (S n) vars' iov reset
      end
  end.

Definition shuso_instring_interpolate (i : instring) : M (world E) instring :=
  r <- interpolate_loop 0 (i_variables i) (i_iov i) false ;;
  let '(iov, reset) := r in
  m_ret (set_cache (if reset : bool then reset_state (put_ref None (i_cached_value i)) else i_cached_value i)
                   (set_iov iov i)).

(** [luaS_push_iovec_as_string] *)
Definition iovec_as_string (iov : list string) : M (world E) string :=
  m_assert (forallb (λ s, str_len s <? 1000) iov) ;;; m_ret (String.concat "" iov).

(** What the five functions share: the cached value if its state is known, else the conversion. *)
Definition cached_value {A} (get : cache → value_state * A) (put : value_state * A → cache → cache)
    (convert : string → option A) (i : instring) : M (world E) (option A * instring) :=
  i <- shuso_instring_interpolate i ;;
  let c := i_cached_value i in
  match (get c).1 with
  | VALUE_VALID => m_ret (Some (get c).2, i)
  | VALUE_INVALID => m_ret (None, i)
  | VALUE_UNKNOWN =>
      str <- iovec_as_string (i_iov i) ;;
      match convert str with
      | None => m_ret (None, set_cache (put (VALUE_INVALID, (get c).2) c) i)
      | Some x => m_ret (Some x, set_cache (put (VALUE_VALID, x) c) i)
      end
  end.

Definition shuso_instring_boolean_value := cached_value c_boolean put_boolean lua_toboolean.

(** The value is a C [int]. *)
Definition to_int (str : string) : option Z := s32 <$> lua_tointeger str.
Definition shuso_instring_integer_value := cached_value c_integer put_integer to_int.

Definition shuso_instring_number_value := cached_value c_number put_number lua_tonumber.

(** The value is a [double] before it is a [size_t]. *)
Definition to_size (str : string) : option Z := (λ x, u64 (double_of x)) <$> lua_tosize str.
Definition shuso_instring_size_value := cached_value c_size put_size to_size.

(** [retval]: whether the caller wants the string; the string's state becomes valid in any case. *)
Definition shuso_instring_string_value (retval : bool) (i : instring) : M (world E) (option string * instring) :=
  i <- shuso_instring_interpolate i ;;
  let c := i_cached_value i in
  match (c_string c).1 with
  | VALUE_VALID => m_ret (Some (c_string c).2, i)
  | VALUE_INVALID => m_ret (None, i)
  | VALUE_UNKNOWN =>
      str <- iovec_as_string (i_iov i) ;;
      match lua_tostring str with
      | None => m_ret (None, set_cache (put_string (VALUE_INVALID, (c_string c).2) c) i)
      | Some s =>
          m_assert (bool_decide (c_string_lua_ref c = None)) ;;;
          m_ret (Some s, set_cache (put_ref (Some s) (put_string (VALUE_VALID, if retval then s else (c_string c).2) c)) i)
      end
  end.

(** What the links of the buffer's head hold: none was ever queued. *)
Definition shuso_instring_buffer_value (i : instring) : M (world E) (list string * instring) :=
  i <- shuso_instring_interpolate i ;; m_ret ([], i).

Definition reset_cache : cache :=
  Cache (VALUE_UNKNOWN, false) (VALUE_UNKNOWN, 0) (VALUE_UNKNOWN, 0) (VALUE_UNKNOWN, 0) (VALUE_UNKNOWN, "") None.

(** The sizes of the structs on LP64 *)
Definition sizeof_instring : Z := 176.
Definition sizeof_token : Z := 80.
Definition sizeof_iovec : Z := 16.

(** The tokens' variables; there are as many as the parser had variables, and a constant one has become a
    literal. *)
Definition variables_array (var_count : nat) (ts : list token) : list (option variable) :=
  let vars := omap token_variable ts in
  (Some <$> vars) ++ replicate (var_count - length vars) None.

(** A string without variables gets its values at once. *)
Definition literal_values (i : instring) : M (world E) instring :=
  match i_tokens i with
  | [TokenLiteral str] =>
      let c := put_ref (Some str) (put_string (VALUE_VALID, str) (i_cached_value i)) in
      r <- shuso_instring_boolean_value (set_cache c (set_iov [str] i)) ;;
      r <- shuso_instring_integer_value r.2 ;;
      r <- shuso_instring_number_value r.2 ;;
      r <- shuso_instring_size_value r.2 ;;
      m_ret r.2
  | _ => m_abort
  end.

(** [luaS_instring_lua_to_c_generic] of a table's tokens; none: not an instring.  (What it does if the
    first slot of the Lua stack happens to hold a pointer is left out.) *)
Definition luaS_instring_lua_to_c_generic (preallocd : bool) (ts : option (list lua_token)) :
    M (world E) (option instring) :=
  match ts with
  | None => shuso_set_error "not an instring object"
  | Some ts =>
      let token_count := Z.of_nat (length ts) in
      ok <- (if preallocd then m_ret true else palloc sizeof_instring) ;;
      if negb ok then shuso_set_error "no memory for instring" else
      ok <- palloc (sizeof_iovec * token_count) ;;
      if negb ok then shuso_set_error "no memory for instring iovec" else
      ok <- palloc (sizeof_token * token_count) ;;
      if negb ok then shuso_set_error "no memory for instring token" else
      r <- tokens_loop ts ;;
      match r with
      | None => m_ret None
      | Some xs =>
          let var_count := length (filter (λ t, is_variable t = true) ts) in
          ok <- (if bool_decide (var_count = 0%nat) then m_ret true else palloc (8 * Z.of_nat var_count)) ;;
          m_assert ok ;;;
          let i := Instring (variables_array var_count xs.*1) xs.*1 xs.*2 reset_cache in
          if bool_decide (var_count = 0%nat) then
            i <- literal_values i ;; m_ret (Some i)
          else m_ret (Some i)
      end
  end.

Definition luaS_instring_lua_to_c := luaS_instring_lua_to_c_generic false.

Fixpoint instrings_loop (tss : list (option (list lua_token))) : M (world E) (option (list instring)) :=
  match tss with
  | [] => m_ret (Some [])
  | ts :: tss' =>
      r <- luaS_instring_lua_to_c_generic true ts ;;
      match r with
      | None => m_ret None
      | Some i => rs <- instrings_loop tss' ;; m_ret (match rs with Some l => Some (i :: l) | None => None end)
      end
  end.

Definition luaS_instrings_lua_to_c (tss : list (option (list lua_token))) : M (world E) (option (list instring)) :=
  ok <- palloc (8 + sizeof_instring * Z.of_nat (length tss)) ;;
  if ok : bool then instrings_loop tss else shuso_set_error "no memory for instrings array".

(** ** Copies for workers *)

Definition token_iov (t : token) : string :=
  match t with TokenLiteral s => s | TokenVariable _ => "" end.

Definition shuso_instring_copy_for_worker (old : instring) : M (world E) (option instring) :=
  if bool_decide (i_variables old = []) then m_ret (Some old)
  else
    m_assert (negb (bool_decide (i_tokens old = []))) ;;;
    ok1 <- palloc (8 * Z.of_nat (length (i_variables old))) ;;
    ok2 <- palloc (sizeof_token * Z.of_nat (length (i_tokens old))) ;;
    if negb (ok1 && ok2) then shuso_set_error "no memory for instring copy" else
    ok <- palloc (sizeof_iovec * Z.of_nat (length (i_tokens old))) ;;
    if negb ok then shuso_set_error "no memory for instring iovec" else
    let vars := omap token_variable (i_tokens old) in
    m_assert (bool_decide (length vars = length (i_variables old))) ;;;
    m_ret (Some (Instring (Some <$> vars) (i_tokens old) (token_iov <$> i_tokens old) (i_cached_value old))).

Fixpoint copies_loop (l : list instring) : M (world E) (option (list instring)) :=
  match l with
  | [] => m_ret (Some [])
  | i :: l' =>
      r <- shuso_instring_copy_for_worker i ;;
      match r with
      | None => m_ret None
      | Some i' => rs <- copies_loop l' ;; m_ret (match rs with Some l => Some (i' :: l) | None => None end)
      end
  end.

Definition shuso_instrings_copy_for_worker (old : list instring) : M (world E) (option (list instring)) :=
  if forallb (λ i, bool_decide (i_variables i = [])) old then m_ret (Some old)
  else
    ok <- palloc (8 + sizeof_instring * Z.of_nat (length old)) ;;
    if ok : bool then copies_loop old else shuso_set_error "no memory for instrings array".

(** ** The cache *)

Definition short (s : string) : Prop := str_len s < 1000.

(** What is cached of one type of value is the conversion of the string. *)
Definition slot_ok {A} (x : value_state * A) (convert : string → option A) (str : string) : Prop :=
  match x.1 with
  | VALUE_UNKNOWN => True
  | VALUE_INVALID => convert str = None
  | VALUE_VALID => convert str = Some x.2
  end.

Definition coherent (str : string) (c : cache) : Prop :=
  slot_ok (c_boolean c) lua_toboolean str ∧ slot_ok (c_integer c) to_int str ∧
  slot_ok (c_number c) lua_tonumber str ∧ slot_ok (c_size c) to_size str ∧
  slot_ok (c_string c) lua_tostring str ∧
  ((c_string c).1 = VALUE_UNKNOWN → c_string_lua_ref c = None).

Record good (i : instring) : Prop := {
  go_variables : Forall is_Some (i_variables i);
  go_length : (length (i_variables i) ≤ length (i_iov i))%nat;
  go_short : Forall short (i_iov i);
  go_cache : coherent (String.concat "" (i_iov i)) (i_cached_value i)
}.

(** Modules give strings of less than 1000 bytes. *)
Hypothesis eval_short : ∀ v e s e', eval v e = (Some s, e') → short s.

Lemma interpolate_loop_ok n vars iov reset w : Forall is_Some vars → Forall short iov →
  ∃ iov' reset' w', interpolate_loop n vars iov reset w = Some ((iov', reset'), w') ∧
    length iov' = length iov ∧ Forall short iov' ∧ (reset' = false → reset = false ∧ iov' = iov).
Proof.
  intros Hv. revert n iov reset w. induction Hv as [|v vars [var ->] Hv IH]; intros n iov reset w Hs.
  { by exists iov, reset, w. }
  simpl. unfold m_bind, m_get, m_put. destruct (eval var (w_env w)) as [[s|] e] eqn:Hev.
  - destruct (IH (S n) (<[n := s]> iov) true (World e (w_allocs w) (w_errors w)))
      as (iov' & reset' & w' & Hr & Hl & Hs' & Hn).
    { apply Forall_insert; [done|]. by eapply eval_short. }
    exists iov', reset', w'. rewrite length_insert in Hl. split_and!; [done..|].
    intros ->. by destruct Hn.
  - apply IH, Hs.
Qed.

Lemma interpolate_good i w : good i →
  ∃ iov reset w' i', interpolate_loop 0 (i_variables i) (i_iov i) false w = Some ((iov, reset), w') ∧
    shuso_instring_interpolate i w = Some (i', w') ∧ good i' ∧ i_iov i' = iov ∧
    i_variables i' = i_variables i ∧ i_tokens i' = i_tokens i.
Proof.
  intros [Hv Hl Hs Hc].
  destruct (interpolate_loop_ok 0 (i_variables i) (i_iov i) false w Hv Hs) as (iov & reset & w' & Hr & Hl' & Hs' & Hn).
  exists iov, reset, w'. eexists. unfold shuso_instring_interpolate, m_bind. rewrite Hr.
  split; [done|]. split; [done|]. split; [|done]. split; simpl; [done|lia|done|].
  destruct reset; [|by destruct (Hn eq_refl) as [_ ->]]. by repeat split.
Qed.

Lemma iovec_as_string_short iov w : Forall short iov → iovec_as_string iov w = Some (String.concat "" iov, w).
Proof.
  intros Hs. unfold iovec_as_string, m_bind, m_assert. rewrite (proj2 (forallb_forall _ _)); [done|].
  intros s Hin. rewrite Forall_forall in Hs. apply Z.ltb_lt, Hs. by apply list_elem_of_In.
Qed.

(** A part of the cache *)
Record slot_laws {A} (get : cache → value_state * A) (put : value_state * A → cache → cache)
    (convert : string → option A) : Prop := {
  sl_get : ∀ str c, coherent str c → slot_ok (get c) convert str;
  sl_put : ∀ str c x, coherent str c → slot_ok x convert str → coherent str (put x c)
}.

Lemma good_cache i c : good i → coherent (String.concat "" (i_iov i)) c → good (set_cache c i).
Proof. by intros [] ?. Qed.

(** The cached value is what the conversion gives without a cache. *)
Lemma cached_value_ok {A} get put (convert : string → option A) i w :
  slot_laws get put convert → good i →
  ∃ iov reset w' i', interpolate_loop 0 (i_variables i) (i_iov i) false w = Some ((iov, reset), w') ∧
    cached_value get put convert i w = Some ((convert (String.concat "" iov), i'), w') ∧ good i' ∧
    i_iov i' = iov ∧ i_variables i' = i_variables i ∧ i_tokens i' = i_tokens i.
Proof.
  intros [Hget Hput] Hg.
  destruct (interpolate_good i w Hg) as (iov & reset & w' & i1 & Hr & Hi & Hg1 & <- & Hv & Ht).
  exists (i_iov i1), reset, w'. unfold cached_value, m_bind. rewrite Hi.
  pose proof (Hget _ _ (go_cache _ Hg1)) as Hsl. unfold slot_ok in Hsl.
  destruct (get (i_cached_value i1)).1.
  - rewrite iovec_as_string_short by apply Hg1.
    destruct (convert _) as [x|] eqn:Hconv; eexists; (split; [done|]); (split; [done|]);
      (split; [|done]); apply good_cache; try done; apply Hput; try done; apply Hg1.
  - exists i1. rewrite Hsl. done.
  - exists i1. by rewrite Hsl.
Qed.

Lemma slots_laws :
  slot_laws c_boolean put_boolean lua_toboolean ∧ slot_laws c_integer put_integer to_int ∧
  slot_laws c_number put_number lua_tonumber ∧ slot_laws c_size put_size to_size.
Proof. split_and!; split; unfold coherent; simpl; tauto. Qed.

Lemma string_value_ok i w : good i →
  ∃ iov reset w' i', interpolate_loop 0 (i_variables i) (i_iov i) false w = Some ((iov, reset), w') ∧
    shuso_instring_string_value true i w = Some ((Some (String.concat "" iov), i'), w') ∧ good i' ∧
    i_iov i' = iov ∧ i_variables i' = i_variables i ∧ i_tokens i' = i_tokens i.
Proof.
  intros Hg. destruct (interpolate_good i w Hg) as (iov & reset & w' & i1 & Hr & Hi & Hg1 & <- & Hv & Ht).
  exists (i_iov i1), reset, w'. unfold shuso_instring_string_value, m_bind. rewrite Hi.
  pose proof (go_cache _ Hg1) as (Hb & Hin & Hnu & Hsz & Hst & Href). unfold slot_ok in Hst.
  destruct (c_string (i_cached_value i1)).1 eqn:Hs.
  - rewrite iovec_as_string_short by apply Hg1. simpl. unfold m_assert, m_ret.
    rewrite bool_decide_eq_true_2 by auto. eexists. split; [done|]. split; [done|].
    split; [|done]. apply good_cache; [done|]. by repeat split.
  - done.
  - exists i1. injection Hst as <-. done.
Qed.

(** *** Queries *)

Inductive query := AskBoolean | AskInteger | AskNumber | AskSize | AskString.
Inductive answer :=
| Boolean (r : option bool) | Integer (r : option Z) | Number (r : option Z) | Size (r : option Z)
| Str (r : option string).

Definition ask (q : query) (i : instring) : M (world E) (answer * instring) :=
  match q with
  | AskBoolean => r <- shuso_instring_boolean_value i ;; m_ret (Boolean r.1, r.2)
  | AskInteger => r <- shuso_instring_integer_value i ;; m_ret (Integer r.1, r.2)
  | AskNumber => r <- shuso_instring_number_value i ;; m_ret (Number r.1, r.2)
  | AskSize => r <- shuso_instring_size_value i ;; m_ret (Size r.1, r.2)
  | AskString => r <- shuso_instring_string_value true i ;; m_ret (Str r.1, r.2)
  end.

Fixpoint ask_all (qs : list query) (i : instring) : M (world E) (list answer) :=
  match qs with
  | [] => m_ret []
  | q :: qs' => r <- ask q i ;; l <- ask_all qs' r.2 ;; m_ret (r.1 :: l)
  end.

(** The answer that a string gives, and the answers without a cache *)
Definition direct_answer (q : query) (str : string) : answer :=
  match q with
  | AskBoolean => Boolean (lua_toboolean str)
  | AskInteger => Integer (to_int str)
  | AskNumber => Number (lua_tonumber str)
  | AskSize => Size (to_size str)
  | AskString => Str (Some str)
  end.

Fixpoint direct_answers (qs : list query) (vars : list (option variable)) (iov : list string) :
    M (world E) (list answer) :=
  match qs with
  | [] => m_ret []
  | q :: qs' =>
      r <- interpolate_loop 0 vars iov false ;;
      l <- direct_answers qs' vars r.1 ;;
      m_ret (direct_answer q (String.concat "" r.1) :: l)
  end.

Lemma ask_ok q i w : good i →
  ∃ iov reset w' i', interpolate_loop 0 (i_variables i) (i_iov i) false w = Some ((iov, reset), w') ∧
    ask q i w = Some ((direct_answer q (String.concat "" iov), i'), w') ∧ good i' ∧
    i_iov i' = iov ∧ i_variables i' = i_variables i.
Proof.
  intros Hg. destruct slots_laws as (Lb & Li & Ln & Ls).
  assert (∀ A (f : instring → M (world E) (option A * instring)) (mk : option A → answer) r,
    (∃ iov reset w' i', interpolate_loop 0 (i_variables i) (i_iov i) false w = Some ((iov, reset), w') ∧
       f i w = Some ((r iov, i'), w') ∧ good i' ∧ i_iov i' = iov ∧ i_variables i' = i_variables i ∧
       i_tokens i' = i_tokens i) →
    ∃ iov reset w' i', interpolate_loop 0 (i_variables i) (i_iov i) false w = Some ((iov, reset), w') ∧
       (x <- f i ;; m_ret (mk x.1, x.2)) w = Some ((mk (r iov), i'), w') ∧ good i' ∧ i_iov i' = iov ∧
       i_variables i' = i_variables i) as Hwrap.
  { intros A f mk r (iov & reset & w' & i' & Hr & Hf & Hg' & Hi & Hv & _).
    exists iov, reset, w', i'. unfold m_bind. by rewrite Hf. }
  destruct q; simpl.
  - apply (Hwrap _ _ Boolean (λ iov, lua_toboolean (String.concat "" iov))). by apply cached_value_ok.
  - apply (Hwrap _ _ Integer (λ iov, to_int (String.concat "" iov))). by apply cached_value_ok.
  - apply (Hwrap _ _ Number (λ iov, lua_tonumber (String.concat "" iov))). by apply cached_value_ok.
  - apply (Hwrap _ _ Size (λ iov, to_size (String.concat "" iov))). by apply cached_value_ok.
  - apply (Hwrap _ _ Str (λ iov, Some (String.concat "" iov))). by apply string_value_ok.
Qed.

Lemma ask_all_ok qs : ∀ i w, good i → ask_all qs i w = direct_answers qs (i_variables i) (i_iov i) w ∧
  is_Some (ask_all qs i w).
Proof.
  induction qs as [|q qs IH]; intros i w Hg; [by eauto|].
  destruct (ask_ok q i w Hg) as (iov & reset & w' & i' & Hr & Ha & Hg' & Hi & Hv).
  destruct (IH i' w' Hg') as [Heq [[l w2] Hs]].
  rewrite Hv, Hi in Heq. simpl. unfold m_bind. rewrite Hr, Ha. simpl. rewrite <- Heq, Hs. eauto.
Qed.

(** *** What is made is good *)

Definition plain_token (t : lua_token) : Prop :=
  match t with LuaLiteral s => short s | LuaVariable name _ _ _ => find_variable name ≠ Some true end.

(** The token of a literal or of a variable that is not constant *)
Definition token_of (t : lua_token) : token :=
  match t with LuaLiteral s => TokenLiteral s | LuaVariable name _ params _ => TokenVariable (Var name params) end.

Lemma literal_made v w x w' : instring_token_literal_lua_to_c v w = Some (Some x, w') →
  ∃ s, v = Some s ∧ x = (TokenLiteral s, s).
Proof.
  unfold instring_token_literal_lua_to_c. destruct v as [s|]; [|done]. unfold m_bind, palloc, m_get, m_put, m_ret.
  simpl. destruct (has_memory _ _); [|done]. intros [= <- <-]. eauto.
Qed.

Lemma token_made t w x w' : plain_token t → token_lua_to_c t w = Some (Some x, w') →
  x = (token_of t, token_iov (token_of t)).
Proof.
  destruct t as [s|name mo params v]; simpl; intros Hp Ht.
  - apply (literal_made (Some s)) in Ht as (? & [= <-] & ->). done.
  - unfold instring_token_variable_lua_to_c, m_bind, m_assert in Ht.
    destruct (bool_decide _); [|done]. cbv beta iota delta [m_ret] in Ht.
    destruct (find_variable name) as [[]|]; [done| |done].
    destruct (palloc _ w) as [[[] w1]|]; [|done..]. cbv beta iota delta [negb] in Ht.
    destruct (0 <? _); [destruct (palloc 8 w1) as [[[] w2]|]; [|done..]|]; cbv beta iota delta [negb] in Ht;
      destruct (params_loop 0 params _) as [[[[]|] ?]|]; unfold m_ret in Ht; by simplify_eq.
Qed.

Lemma tokens_made ts : ∀ w xs w', Forall plain_token ts → tokens_loop ts w = Some (Some xs, w') →
  xs = (λ t, (token_of t, token_iov (token_of t))) <$> ts.
Proof.
  induction ts as [|t ts IH]; intros w xs w' Hp Ht; simpl in Ht; [by injection Ht as <-|].
  apply Forall_cons in Hp as [Hpt Hp]. unfold m_bind in Ht.
  destruct (token_lua_to_c t w) as [[[x|] w1]|] eqn:Hx; [|done..].
  destruct (tokens_loop ts w1) as [[[ys|] w2]|] eqn:Hys; unfold m_ret in Ht; simplify_eq.
  rewrite fmap_cons. f_equal; [by eapply token_made|by eapply IH].
Qed.

Lemma count_variables ts :
  length (filter (λ t, is_variable t = true) ts) = length (omap token_variable (token_of <$> ts)).
Proof.
  induction ts as [|[s|name mo params v] ts IH]; [done|rewrite filter_cons_False by done; exact IH|].
  rewrite filter_cons_True by done. simpl. by rewrite IH.
Qed.

Lemma reset_coherent str : coherent str reset_cache.
Proof. by repeat split. Qed.

Lemma literal_good str w i w' : short str →
  literal_values (Instring [] [TokenLiteral str] [str] reset_cache) w = Some (i, w') →
  good i ∧ i_tokens i = [TokenLiteral str] ∧ i_iov i = [str] ∧ i_variables i = [].
Proof.
  intros Hs. unfold literal_values. simpl. set (i0 := set_cache _ _).
  assert (good i0) as Hg0 by (split; simpl; [done|lia|by constructor|by repeat split]).
  assert (∀ j, good j → i_variables j = [] → i_iov j = [str] → i_tokens j = [TokenLiteral str] →
    ∀ A get put (convert : string → option A) w, slot_laws get put convert →
    ∃ r w', cached_value get put convert j w = Some (r, w') ∧ good r.2 ∧ i_variables r.2 = [] ∧
            i_iov r.2 = [str] ∧ i_tokens r.2 = [TokenLiteral str]) as Hstep.
  { intros j Hj Hv Hi Ht A get put convert w1 Hl.
    destruct (cached_value_ok get put convert j w1 Hl Hj) as (iov & reset & w2 & j' & Hr & Hc & Hg & Hi' & Hv' & Ht').
    rewrite Hv, Hi in Hr. simpl in Hr. injection Hr as <- _ _. eexists _, w2. split; [exact Hc|]. simpl. by rewrite Hv', Ht'. }
  destruct slots_laws as (Lb & Li & Ln & Ls). unfold m_bind.
  destruct (Hstep i0 Hg0 eq_refl eq_refl eq_refl _ _ _ _ w Lb) as (r1 & w1 & Hr1 & G1 & V1 & I1 & T1).
  unfold shuso_instring_boolean_value. rewrite Hr1.
  destruct (Hstep r1.2 G1 V1 I1 T1 _ _ _ _ w1 Li) as (r2 & w2 & Hr2 & G2 & V2 & I2 & T2).
  unfold shuso_instring_integer_value. rewrite Hr2.
  destruct (Hstep r2.2 G2 V2 I2 T2 _ _ _ _ w2 Ln) as (r3 & w3 & Hr3 & G3 & V3 & I3 & T3).
  unfold shuso_instring_number_value. rewrite Hr3.
  destruct (Hstep r3.2 G3 V3 I3 T3 _ _ _ _ w3 Ls) as (r4 & w4 & Hr4 & G4 & V4 & I4 & T4).
  unfold shuso_instring_size_value. rewrite Hr4. unfold m_ret. intros [= <- <-]. done.
Qed.

Lemma token_iov_short ts : Forall plain_token ts → Forall short (token_iov <$> (token_of <$> ts)).
Proof. induction 1 as [|[s|? ? ? ?] ts Ht Hts IH]; simpl; constructor; done. Qed.

Lemma omap_length_le (tk : list token) : (length (omap token_variable tk) ≤ length tk)%nat.
Proof. induction tk as [|[] tk IH]; [done|exact (le_S _ _ IH)|exact (le_n_S _ _ IH)]. Qed.

(** What is made of tokens without constant variables *)
Lemma made_good pre ts w i w' : Forall plain_token ts →
  luaS_instring_lua_to_c_generic pre (Some ts) w = Some (Some i, w') →
  good i ∧ i_tokens i = token_of <$> ts ∧ i_iov i = token_iov <$> (token_of <$> ts) ∧
  i_variables i = Some <$> omap token_variable (token_of <$> ts).
Proof.
  intros Hp Hm. unfold luaS_instring_lua_to_c_generic in Hm. unfold m_bind in Hm.
  destruct ((if pre then m_ret true else palloc sizeof_instring) w) as [[[] w1]|]; [|done..].
  cbv beta iota delta [negb] in Hm.
  destruct (palloc _ w1) as [[[] w2]|]; [|done..]. cbv beta iota delta [negb] in Hm.
  destruct (palloc _ w2) as [[[] w3]|]; [|done..]. cbv beta iota delta [negb] in Hm.
  destruct (tokens_loop ts w3) as [[[xs|] w4]|] eqn:Hx; [|done..].
  apply tokens_made in Hx; [|done].
  assert (xs.*1 = token_of <$> ts ∧ xs.*2 = token_iov <$> (token_of <$> ts)) as [H1 H2].
  { subst xs. rewrite <- !list_fmap_compose. done. }
  rewrite H1, H2, count_variables in Hm.
  set (tk := token_of <$> ts) in *. unfold variables_array in Hm. rewrite Nat.sub_diag, app_nil_r in Hm.
  destruct ((if bool_decide _ then m_ret true else palloc _) w4) as [[ok w5]|]; [|done].
  unfold m_assert in Hm. destruct ok; [|done]. unfold m_ret at 1 in Hm.
  destruct (bool_decide_reflect (length (omap token_variable tk) = 0%nat)) as [Hz|Hz].
  - apply nil_length_inv in Hz. rewrite Hz in Hm |- *. simpl in Hm.
    destruct (literal_values _ w5) as [[i' w6]|] eqn:Hl; [|done]. injection Hm as -> _.
    assert (∃ str, tk = [TokenLiteral str]) as [str Htk].
    { unfold literal_values in Hl. simpl in Hl. destruct tk as [|[str|] [|]]; try done. eauto. }
    pose proof (token_iov_short ts Hp) as Hsh. fold tk in Hsh. rewrite Htk in Hl, Hsh |- *. simpl in *.
    apply Forall_cons in Hsh as [Hsh _]. by apply literal_good in Hl.
  - injection Hm as <- _. split; [|done]. split; simpl.
    + apply Forall_fmap, Forall_true. eauto.
    + rewrite !length_fmap. apply omap_length_le.
    + by apply token_iov_short.
    + apply reset_coherent.
Qed.

(** *** Strings that begin with their variables *)

(** What the variables have as values, evaluated again *)
Fixpoint refresh (vars : list variable) (vals : list string) : M (world E) (list string) :=
  match vars, vals with
  | var :: vars', old :: vals' =>
      w <- m_get ;;
      let '(v, e) := eval var (w_env w) in
      m_put (World e (w_allocs w) (w_errors w)) ;;;
      rest <- refresh vars' vals' ;;
      m_ret (default old v :: rest)
  | _, _ => m_ret []
  end.

(** The tokens with the variables' values in their places *)
Fixpoint fill (vals : list string) (ts : list token) : list string :=
  match ts with
  | [] => []
  | TokenLiteral s :: ts' => s :: fill vals ts'
  | TokenVariable _ :: ts' => default "" (head vals) :: fill (tail vals) ts'
  end.

(** What a reader expects: every time all variables are evaluated, and their values stand where they are
    written. *)
Fixpoint expected_answers (qs : list query) (ts : list token) (vals : list string) : M (world E) (list answer) :=
  match qs with
  | [] => m_ret []
  | q :: qs' =>
      vals' <- refresh (omap token_variable ts) vals ;;
      l <- expected_answers qs' ts vals' ;;
      m_ret (direct_answer q (String.concat "" (fill vals' ts)) :: l)
  end.

Lemma interpolate_refresh vs : ∀ pre vals rest reset w, length vals = length vs →
  ∃ vals' reset' w', refresh vs vals w = Some (vals', w') ∧ length vals' = length vs ∧
    interpolate_loop (length pre) (Some <$> vs) (pre ++ vals ++ rest) reset w
    = Some ((pre ++ vals' ++ rest, reset'), w').
Proof.
  induction vs as [|v vs IH]; intros pre [|old vals] rest reset w Hl; try done.
  { by exists [], reset, w. }
  simpl in Hl. injection Hl as Hl. simpl. unfold m_bind, m_get, m_put.
  destruct (eval v (w_env w)) as [o e].
  assert (∀ s reset, ∃ vals' reset' w', refresh vs vals (World e (w_allocs w) (w_errors w)) = Some (vals', w') ∧
    length vals' = length vs ∧
    interpolate_loop (S (length pre)) (Some <$> vs) (pre ++ s :: vals ++ rest) reset
      (World e (w_allocs w) (w_errors w)) = Some ((pre ++ s :: vals' ++ rest, reset'), w')) as Hs.
  { intros s rs. destruct (IH (pre ++ [s]) vals rest rs (World e (w_allocs w) (w_errors w)) Hl)
      as (vals' & reset' & w' & Hr & Hl' & Hi).
    exists vals', reset', w'. rewrite length_app, Nat.add_1_r, <- !app_assoc in Hi. done. }
  destruct o as [s|]; simpl.
  - destruct (Hs s true) as (vals' & reset' & w' & -> & Hl' & Hi).
    exists (s :: vals'), reset', w'. simpl. split_and!; [done|by rewrite Hl'|].
    rewrite <- Hi. f_equal. by rewrite insert_app_r_alt, Nat.sub_diag by done.
  - destruct (Hs old reset) as (vals' & reset' & w' & -> & Hl' & Hi).
    exists (old :: vals'), reset', w'. simpl. by rewrite Hl'.
Qed.

Lemma fill_variables_first vs ls vals : length vals = length vs →
  fill vals ((TokenVariable <$> vs) ++ (TokenLiteral <$> ls)) = vals ++ ls.
Proof.
  revert vals. induction vs as [|v vs IH]; intros [|s vals] Hl; try done; simpl.
  - induction ls as [|l ls IHl]; [done|].
    change (l :: fill [] (TokenLiteral <$> ls) = l :: ls). by rewrite IHl.
  - change (s :: fill vals ((TokenVariable <$> vs) ++ (TokenLiteral <$> ls)) = s :: (vals ++ ls)).
    rewrite IH; [done|]. simpl in Hl. lia.
Qed.

Lemma omap_variables_first vs ls : omap token_variable ((TokenVariable <$> vs) ++ (TokenLiteral <$> ls)) = vs.
Proof.
  induction vs as [|v vs IH]; simpl; [|by f_equal]. by induction ls.
Qed.

Lemma token_iov_variables (vs : list variable) : token_iov <$> (TokenVariable <$> vs) = replicate (length vs) "".
Proof. induction vs as [|v vs IH]; [done|]. by rewrite !fmap_cons, IH. Qed.

Lemma token_iov_literals (ls : list string) : token_iov <$> (TokenLiteral <$> ls) = ls.
Proof. induction ls as [|l ls IH]; [done|]. by rewrite !fmap_cons, IH. Qed.

Lemma direct_expected qs vs ls : ∀ vals w, length vals = length vs →
  direct_answers qs (Some <$> vs) (vals ++ ls) w
  = expected_answers qs ((TokenVariable <$> vs) ++ (TokenLiteral <$> ls)) vals w.
Proof.
  induction qs as [|q qs IH]; intros vals w Hl; [done|]. simpl. rewrite omap_variables_first.
  destruct (interpolate_refresh vs [] vals ls false w Hl) as (vals' & reset' & w' & Hr & Hl' & Hi).
  simpl in Hi. unfold m_bind. rewrite Hr, Hi. simpl. rewrite IH by done. by rewrite fill_variables_first.
Qed.
End instring.

(** ** The theorems *)


(** A string that begins with its variables has the value it should.  If all variables come before the
    literals, every answer is the conversion of the variables' current values (what an evaluation gave last, nothing
    before the first) followed by the literals. *)
Theorem instring_values_current {E} `{!InstringEnv E} ts vs ls w i w1 qs w2
  (Heval : ∀ v (e : E) s e', eval v e = (Some s, e') → short s)
  (Htokens : Forall plain_token ts)
  (Hfirst : token_of <$> ts = (TokenVariable <$> vs) ++ (TokenLiteral <$> ls))
  (Hmade : luaS_instring_lua_to_c (Some ts) w = Some (Some i, w1)) :
  is_Some (ask_all qs i w2) ∧
  ask_all qs i w2 = expected_answers qs (i_tokens i) (replicate (length vs) "") w2.
Proof.
  destruct (made_good Heval false ts w i w1 Htokens Hmade) as (Hg & Ht & Hi & Hv).
  destruct (ask_all_ok Heval qs i w2 Hg) as [Heq Hs]. split; [done|].
  rewrite Heq, Hv, Hi, Ht, Hfirst, omap_variables_first.
  rewrite <- (direct_expected qs vs ls) by apply length_replicate. f_equal.
  by rewrite fmap_app, token_iov_variables, token_iov_literals.
Qed.

(** ** Examples *)

(** Variables whose values are the elements of a list, none when it is used up *)
#[local] Instance sample_env : InstringEnv (list (option string)) := {
  find_variable name := if bool_decide (name = "host") then Some false else None;
  eval _ e := match e with Some s :: e' => (if str_len s <? 1000 then Some s else None, e') | _ => (None, tail e) end;
  lua_tonumber _ := None;
  lua_tointeger s := if bool_decide (s = "7") then Some 7 else None;
  lua_tosize _ := None;
  has_memory _ _ := true
}.

Lemma sample_short : ∀ v (e : list (option string)) s e', eval v e = (Some s, e') → short s.
Proof.
  intros v [|[s0|] e] s e' Hev; simpl in Hev; simplify_eq. destruct (str_len s0 <? 1000) eqn:Hl; simplify_eq.
  by apply Z.ltb_lt.
Qed.

Definition sample_world (e : list (option string)) : world (list (option string)) := World e [] [].

Definition made (ts : list lua_token) (e : list (option string)) : instring :=
  match luaS_instring_lua_to_c (Some ts) (sample_world e) with
  | Some (Some i, _) => i
  | _ => Instring [] [] [] reset_cache
  end.

Definition host : lua_token := LuaVariable "host" None [] None.
Definition made_allocs (ts : list lua_token) : list Z :=
  match luaS_instring_lua_to_c (Some ts) (sample_world []) with Some (_, w) => w_allocs w | None => [] end.


Lemma instring_values_current_witness :
  let ts := [host; host; LuaLiteral "/"] in
  is_Some (ask_all [AskString; AskString] (made ts []) (sample_world [Some "x"; Some "y"; None; Some "z"])) ∧
  ask_all [AskString; AskString] (made ts []) (sample_world [Some "x"; Some "y"; None; Some "z"])
  = expected_answers [AskString; AskString] (i_tokens (made ts [])) [""; ""]
      (sample_world [Some "x"; Some "y"; None; Some "z"]).
Proof.
  intros ts. apply (instring_values_current ts [Var "host" []; Var "host" []] ["/"] (sample_world []) _
                      (World [] (made_allocs ts) [])).
  - exact sample_short.
  - by repeat constructor.
  - done.
  - by vm_compute.
Defined.

(** The answers of a call on a made string *)
Definition answers {A} (r : option (A * world (list (option string)))) : option A := fst <$> r.

