(* ===== verification/Modules.v ===== *)
(** Modules, src/src/module.c with the tables of src/src/module.lua and src/src/event.lua that it works on: adding a
    module, freezing it (its place among the modules that depend on another, which indexes its contexts),
    its initialization (which declares its events and listens to others'), and the finalization of events. *)

From Stdlib Require Import Ascii.
From stdpp Require Import strings.
From S2P Require Import Prelude Heap System.

#[local] Open Scope string_scope.
#[local] Open Scope Z_scope.

(** ** Strings, as module.lua's patterns take them apart *)

Definition is_digit (c : ascii) : bool := let n := nat_of_ascii c in (48 <=? n)%nat && (n <=? 57)%nat.
(** [%w_] *)
Definition is_word (c : ascii) : bool :=
  let n := nat_of_ascii c in
  is_digit c || ((65 <=? n)%nat && (n <=? 90)%nat) || ((97 <=? n)%nat && (n <=? 122)%nat) || (n =? 95)%nat.
(** [%s] *)
Definition is_space (c : ascii) : bool := let n := nat_of_ascii c in (n =? 32)%nat || ((9 <=? n)%nat && (n <=? 13)%nat).
Definition is_char (k : ascii) (c : ascii) : bool := bool_decide (c = k).
(** [%w_.] *)
Definition is_dotted (c : ascii) : bool := is_word c || is_char "." c.

(** [^[class]+$] *)
Definition all_chars (p : ascii → bool) (s : string) : bool :=
  negb (bool_decide (s = "")) && forallb p (String.list_ascii_of_string s).

(** The parts of a list between the characters that separate: at least one part *)
Fixpoint split_at (sep : ascii → bool) (l acc : list ascii) : list string :=
  match l with
  | [] => [String.string_of_list_ascii (rev acc)]
  | c :: l' =>
      if sep c then String.string_of_list_ascii (rev acc) :: split_at sep l' []
      else split_at sep l' (c :: acc)
  end.
Definition split_string (sep : ascii → bool) (s : string) : list string :=
  split_at sep (String.list_ascii_of_string s) [].

(** [gmatch("%S+")] *)
Definition words (s : string) : list string :=
  List.filter (λ w, negb (bool_decide (w = ""))) (split_string is_space s).

(** [^(%d+)%.(%d+)%.(%d+)$] *)
Definition valid_version (s : string) : bool :=
  match split_string (is_char ".") s with
  | [a; b; c] => all_chars is_digit a && all_chars is_digit b && all_chars is_digit c
  | _ => false
  end.

(** [^([%w_]+):([%w_.]+)$] *)
Definition valid_event_name (s : string) : bool :=
  match split_string (is_char ":") s with
  | [m; e] => all_chars is_word m && all_chars is_dotted e
  | _ => false
  end.

Definition full_name (module_name event_name : string) : string := module_name ++ ":" ++ event_name.

(** A name in a subscribe list: whether it is optional, its module and its event; none: invalid.  (A module's
    name cannot have a dot, so that the check of the second pattern decides.) *)
Definition parse_subscription (w : string) : option (bool * string * string) :=
  let '(optional, name) :=
    match w with
    | String c w' => if is_char "~" c then (true, w') else (false, w)
    | EmptyString => (false, w)
    end in
  match split_string (is_char ":") name with
  | [m; e] => if all_chars is_word m && all_chars is_dotted e then Some (optional, m, e) else None
  | _ => None
  end.

(** ** The tables of module.lua and event.lua *)

(** An entry of [events.subscribe]: its key, the event's module and name, whether it is required *)
Record subscription := Subscription { su_key : string; su_module : string; su_event : string; su_required : bool }.

(** A module's table *)
Record lmodule := LModule {
  lm_name : string;
  lm_ptr : Z;
  lm_parents : list string;
  lm_subscribe : list subscription;
  lm_publish : list string;
  lm_index : Z;
  lm_frozen : bool
}.

(** [Module]: the module tables are told apart by their [ptr]. *)
Record registry := Registry {
  r_by_name : gmap string Z;
  r_by_ptr : gmap Z lmodule;
  r_index_counter : Z;
  r_core : option string;          (* the core module's name *)
  r_coreless : bool;
  r_dependents : gmap string (list string);
  r_dependents_indexed : gmap string (gmap string Z);
  r_providers : gmap string (gset string)
}.
Definition registry_init : registry := Registry ∅ ∅ 0 None false ∅ ∅ ∅.

Definition max_module_count : Z := 255.

(** A listener's table, and an event's; [ev_ready]: initialized, with its [module] and [ptr]. *)
Record llistener := LListener { ll_module : Z; ll_fn : Z; ll_pd : Z; ll_priority : Z }.
Record levent := LEvent {
  le_name : string;
  le_module_name : string;
  le_listeners : list llistener;
  le_ptr : option Z;           (* once it is initialized *)
  le_data_type : option string;
  le_handler : option Z
}.

(** ** The C structs *)

Record event_init := EventInit { ei_name : string; ei_event : Z; ei_data_type : option string; ei_handler : option Z }.

(** What the [initialize] function of a module does: it declares events, listens to some (by name,
    after a [~] or not, or by pointer), reports errors; then it returns. *)
Inductive init_action :=
| ActInitialize (events : list event_init)
| ActListen (name : string) (fn pd priority : Z)
| ActListenPtr (event fn pd priority : Z)
| ActError (msg : string).
Record init_fn := InitFn { if_actions : list init_action; if_result : bool }.

(** [shuso_module_t] *)
Record cmodule := CModule {
  cm_name : option string;
  cm_version : option string;
  cm_subscribe : string;
  cm_publish : string;
  cm_parent_modules : string;
  cm_settings : list string;
  cm_variables : list string;
  cm_initialize : option init_fn;
  cm_initialize_worker : option init_fn;
  cm_index : Z;
  cm_parent_modules_index_map : list Z;
  cm_submodules : list Z
}.

(** [shuso_event_t], and [shuso_event_listener_t] without the sentinel *)
Record clistener := CListener { cl_module : Z; cl_fn : Z; cl_pd : Z }.
Record cevent := CEvent {
  ce_name : string;
  ce_data_type : option string;
  ce_handler : option Z;
  ce_module_index : Z;
  ce_listeners : list clistener
}.

Record mworld := MWorld {
  mw_sys : world;
  mw_registry : registry;
  mw_events : gmap string levent;         (* [events_by_name] *)
  mw_events_by_ptr : gmap Z string;       (* [events_by_ptr]: the event's key in [events_by_name] *)
  mw_mods : gmap Z cmodule;
  mw_array : list Z;                      (* [S->common->modules.array] *)
  mw_events_array : bool;
  mw_cevents : gmap Z cevent;
  mw_active : option Z;
  mw_allocs : list Z
}.

Definition put_sys (s : world) (w : mworld) : mworld :=
  MWorld s (mw_registry w) (mw_events w) (mw_events_by_ptr w) (mw_mods w) (mw_array w) (mw_events_array w)
    (mw_cevents w) (mw_active w) (mw_allocs w).
Definition put_registry (r : registry) (w : mworld) : mworld :=
  MWorld (mw_sys w) r (mw_events w) (mw_events_by_ptr w) (mw_mods w) (mw_array w) (mw_events_array w)
    (mw_cevents w) (mw_active w) (mw_allocs w).
Definition put_events (e : gmap string levent) (w : mworld) : mworld :=
  MWorld (mw_sys w) (mw_registry w) e (mw_events_by_ptr w) (mw_mods w) (mw_array w) (mw_events_array w)
    (mw_cevents w) (mw_active w) (mw_allocs w).
Definition put_events_by_ptr (e : gmap Z string) (w : mworld) : mworld :=
  MWorld (mw_sys w) (mw_registry w) (mw_events w) e (mw_mods w) (mw_array w) (mw_events_array w)
    (mw_cevents w) (mw_active w) (mw_allocs w).
Definition put_mods (m : gmap Z cmodule) (w : mworld) : mworld :=
  MWorld (mw_sys w) (mw_registry w) (mw_events w) (mw_events_by_ptr w) m (mw_array w) (mw_events_array w)
    (mw_cevents w) (mw_active w) (mw_allocs w).
Definition put_array (a : list Z) (w : mworld) : mworld :=
  MWorld (mw_sys w) (mw_registry w) (mw_events w) (mw_events_by_ptr w) (mw_mods w) a (mw_events_array w)
    (mw_cevents w) (mw_active w) (mw_allocs w).
Definition put_events_array (b : bool) (w : mworld) : mworld :=
  MWorld (mw_sys w) (mw_registry w) (mw_events w) (mw_events_by_ptr w) (mw_mods w) (mw_array w) b
    (mw_cevents w) (mw_active w) (mw_allocs w).
Definition put_cevents (c : gmap Z cevent) (w : mworld) : mworld :=
  MWorld (mw_sys w) (mw_registry w) (mw_events w) (mw_events_by_ptr w) (mw_mods w) (mw_array w) (mw_events_array w)
    c (mw_active w) (mw_allocs w).
Definition put_active (a : option Z) (w : mworld) : mworld :=
  MWorld (mw_sys w) (mw_registry w) (mw_events w) (mw_events_by_ptr w) (mw_mods w) (mw_array w) (mw_events_array w)
    (mw_cevents w) a (mw_allocs w).
Definition put_allocs (l : list Z) (w : mworld) : mworld :=
  MWorld (mw_sys w) (mw_registry w) (mw_events w) (mw_events_by_ptr w) (mw_mods w) (mw_array w) (mw_events_array w)
    (mw_cevents w) (mw_active w) l.

(** What the code relies on: the order in which [pairs] goes through a module's table; whether the
    configuration takes a module's setting or variable; the memory left after the requests so far. *)
Class ModuleEnv := {
  pairs_order : ∀ {A : Type}, string → list A → list A;
  pairs_order_perm : ∀ {A : Type} (name : string) (l : list A), pairs_order name l ≡ₚ l;
  setting_ok : string → string → bool;
  variable_ok : string → string → bool;
  has_memory : list Z → Z → bool
}.

Section modules.
Context `{Malloc, ModuleEnv}.
(** The process: [S] *)
Variable p : Z.

Definition on_sys {A} (m : M world A) : M mworld A :=
  λ w, match m (mw_sys w) with Some (x, s) => Some (x, put_sys s w) | None => None end.
Definition set_error (msg : string) : M mworld bool := on_sys (shuso_set_error p msg).
Definition error_count : M mworld Z := on_sys (e <- get_err p ;; m_ret (e_count e)).

(** [shuso_palloc]: whether there was memory *)
Definition palloc (sz : Z) : M mworld bool :=
  w <- m_get ;; m_put (put_allocs (sz :: mw_allocs w) w) ;;; m_ret (has_memory (mw_allocs w) sz).

(** A Lua function's result: nil and a message, or a value.  A Lua error is an abort. *)
Definition lua_result (A : Type) : Type := string + A.
Definition fails {A} (msg : string) : M mworld (lua_result A) := m_ret (inl msg).
Definition returns {A} (x : A) : M mworld (lua_result A) := m_ret (inr x).
Local Notation "x <-? m ;; k" :=
  (m_bind m (λ r, match r with inl msg => fails msg | inr x => k end))
  (at level 100, m at next level, right associativity).

(** [luaS_function_call_result_ok] *)
Definition result_ok {A} (r : lua_result A) : M mworld (option A) :=
  match r with inl msg => set_error msg ;;; m_ret None | inr x => m_ret (Some x) end.

(** ** module.lua *)

Definition mod_registry (f : registry → registry) : M mworld unit := m_modify (λ w, put_registry (f (mw_registry w)) w).

Definition find_name (name : string) (r : registry) : option lmodule := r_by_name r !! name ≫= λ ptr, r_by_ptr r !! ptr.
Definition find_ptr (ptr : Z) (r : registry) : option lmodule := r_by_ptr r !! ptr.

Definition add_dependency (provider dependent : string) (r : registry) : registry :=
  let '(ds, ix) := match r_dependents r !! provider with
                   | Some ds => (ds, default ∅ (r_dependents_indexed r !! provider))
                   | None => ([], ∅)
                   end in
  let '(ds, ix) := match ix !! dependent with
                   | Some _ => (ds, ix)
                   | None => ((ds ++ [dependent])%list, <[dependent := Z.of_nat (length ds) + 1]> ix)
                   end in
  Registry (r_by_name r) (r_by_ptr r) (r_index_counter r) (r_core r) (r_coreless r)
    (<[provider := ds]> (r_dependents r)) (<[provider := ix]> (r_dependents_indexed r))
    (<[dependent := {[provider]} ∪ default ∅ (r_providers r !! dependent)]> (r_providers r)).

Definition dependency_index (provider dependent : string) (r : registry) : lua_result Z :=
  match r_dependents r !! provider with
  | None => inl ("unknown provider module " ++ provider)
  | Some _ =>
      match default ∅ (r_dependents_indexed r !! provider) !! dependent with
      | None => inl ("unknown dependent module " ++ dependent)
      | Some i => inr i
      end
  end.

(** [Event.get]: the event's key *)
Definition event_get (module_name event_name : string) : M mworld string :=
  let key := full_name module_name event_name in
  w <- m_get ;;
  match mw_events w !! key with
  | Some _ => m_ret key
  | None =>
      m_put (put_events (<[key := LEvent event_name module_name [] None None None]> (mw_events w)) w) ;;;
      m_ret key
  end.

Fixpoint subscribe_loop (ws : list string) (acc : list subscription) : M mworld (lua_result (list subscription)) :=
  match ws with
  | [] => returns acc
  | w :: ws' =>
      match parse_subscription w with
      | None => fails ("invalid subscribe event name " ++ w)
      | Some (optional, m, e) =>
          if bool_decide (w ∈ su_key <$> acc) then fails ("duplicate value " ++ w ++ " in subscribe event name")
          else event_get m e ;;; subscribe_loop ws' (acc ++ [Subscription w m e (negb optional)])
      end
  end.

Definition split_subscribe_list_string (s : string) : M mworld (lua_result (list subscription)) :=
  if forallb (λ c, is_char "~" c || is_space c || is_dotted c || is_char ":" c) (String.list_ascii_of_string s)
  then subscribe_loop (words s) []
  else fails "invalid character in subscribe string".

Fixpoint publish_loop (module_name : string) (ws : list string) (acc : list string) : M mworld (lua_result (list string)) :=
  match ws with
  | [] => returns acc
  | w :: ws' =>
      if negb (all_chars is_dotted w) then fails ("invalid event name " ++ w ++ " in publish string")
      else if bool_decide (w ∈ acc) then fails ("duplicate value " ++ w ++ " in publish string")
      else event_get module_name w ;;; publish_loop module_name ws' (acc ++ [w])
  end.

Definition split_publish_list_string (module_name s : string) : M mworld (lua_result (list string)) :=
  if forallb (λ c, is_space c || is_dotted c || is_char ":" c) (String.list_ascii_of_string s)
  then publish_loop module_name (words s) []
  else fails "invalid character in publish string".

Definition split_parent_modules_string (s : string) : lua_result (list string) :=
  if forallb (λ c, is_space c || is_word c) (String.list_ascii_of_string s)
  then if bool_decide (NoDup (words s)) then inr (words s) else inl "duplocate value in parent_modules string"
  else inl "invalid character in parent_modules string".

Definition register (m : lmodule) (r : registry) : registry :=
  Registry (<[lm_name m := lm_ptr m]> (r_by_name r)) (<[lm_ptr m := m]> (r_by_ptr r)) (lm_index m) (r_core r)
    (r_coreless r) (r_dependents r) (r_dependents_indexed r) (r_providers r).

Definition add_dependencies (providers : list string) (name : string) (r : registry) : registry :=
  foldl (λ r provider, add_dependency provider name r) r providers.

Definition required_modules (subs : list subscription) : list string := su_module <$> List.filter su_required subs.

(** [Module.new]: the module's number *)
Definition module_new (name : string) (ptr : Z) (version subscribe publish parents : string) : M mworld (lua_result Z) :=
  r <- m_gets mw_registry ;;
  if max_module_count <=? r_index_counter r then fails "number of modules cannot exceed 255"
  else if bool_decide (is_Some (find_name name r) ∨ is_Some (find_ptr ptr r))
  then fails ("module " ++ name ++ " has already been added")
  else if negb (valid_version version) then fails ("module " ++ name ++ " has an invalid version string")
  else if bool_decide (r_core r = None) && negb (r_coreless r) then fails "core module not set"
  else
    parent_names <-? m_ret (split_parent_modules_string parents) ;;
    subs <-? split_subscribe_list_string subscribe ;;
    let subs := pairs_order name subs in
    mod_registry (add_dependencies (required_modules subs) name) ;;;
    events <-? split_publish_list_string name publish ;;
    mod_registry (λ r, register
      (LModule name ptr parent_names subs (pairs_order name events) (r_index_counter r + 1) false) r) ;;;
    mod_registry (λ r, add_dependencies (parent_names ++ option_list (r_core r) ++ ["core"])%list name r) ;;;
    r <- m_gets mw_registry ;;
    returns (r_index_counter r).

Definition put_core (coreless : bool) (core : option string) (r : registry) : registry :=
  Registry (r_by_name r) (r_by_ptr r) (r_index_counter r) core coreless (r_dependents r)
    (r_dependents_indexed r) (r_providers r).

Definition new_core_module (name : string) (ptr : Z) (version subscribe publish parents : string) :
    M mworld (lua_result Z) :=
  r <- m_gets mw_registry ;;
  if bool_decide (is_Some (find_name name r)) then fails ("module " ++ name ++ " has already been added as a non-core module")
  else if bool_decide (is_Some (r_core r)) then fails "core module is already set"
  else
    mod_registry (λ r, put_core true (r_core r) r) ;;;
    i <- module_new name ptr version subscribe publish parents ;;
    mod_registry (λ r, put_core false (r_core r) r) ;;;
    i <-? m_ret i ;;
    mod_registry (put_core false (Some name)) ;;;
    returns i.

Definition put_lmodule (m : lmodule) (r : registry) : registry :=
  Registry (r_by_name r) (<[lm_ptr m := m]> (r_by_ptr r)) (r_index_counter r) (r_core r)
    (r_coreless r) (r_dependents r) (r_dependents_indexed r) (r_providers r).

(** [module:freeze].  An event's [optional] field is nil whenever a listener was added from C. *)
Fixpoint freeze_parents (name : string) (parents : list string) : M mworld (lua_result unit) :=
  match parents with
  | [] => returns tt
  | parent :: parents' =>
      r <- m_gets mw_registry ;;
      match find_name parent r with
      | None => fails ("module " ++ name ++ " requires parent module " ++ parent ++ ", which was not found")
      | Some m => mod_registry (add_dependency (lm_name m) name) ;;; freeze_parents name parents'
      end
  end.

Fixpoint freeze_subscriptions (name : string) (subs : list subscription) : M mworld (lua_result unit) :=
  match subs with
  | [] => returns tt
  | su :: subs' =>
      r <- m_gets mw_registry ;;
      match find_name (su_module su) r with
      | None =>
          if su_required su
          then fails ("module " ++ name ++ " depends on event " ++ su_key su ++ ", but its module was not found")
          else m_abort
      | Some m =>
          if bool_decide (su_event su ∈ lm_publish m) then
            mod_registry (add_dependency (lm_name m) name) ;;; freeze_subscriptions name subs'
          else if su_required su
          then fails ("module " ++ name ++ " depends on event " ++ su_key su ++ ", but its module does not publish it")
          else freeze_subscriptions name subs'
      end
  end.

Definition frozen (m : lmodule) : lmodule :=
  LModule (lm_name m) (lm_ptr m) (lm_parents m) (lm_subscribe m) (lm_publish m) (lm_index m) true.

Definition module_freeze (m : lmodule) : M mworld (lua_result unit) :=
  if lm_frozen m then returns tt
  else
    _ <-? freeze_parents (lm_name m) (lm_parents m) ;;
    _ <-? freeze_subscriptions (lm_name m) (lm_subscribe m) ;;
    mod_registry (put_lmodule (frozen m)) ;;;
    returns tt.

(** [module:dependent_modules]; one that is not found fails an assertion. *)
Definition dependent_modules (name : string) (r : registry) : option (list lmodule) :=
  mapM (λ n, find_name n r) (default [] (r_dependents r !! name)).

(** The loop that looks for the module among its provider's dependents: the last place, from 1; 0: none *)
Fixpoint place_among (ptr : Z) (deps : list lmodule) (i : Z) : Z :=
  match deps with
  | [] => 0
  | d :: deps' =>
      let rest := place_among ptr deps' (i + 1) in
      if rest =? 0 then if lm_ptr d =? ptr then i else 0 else rest
  end.

Fixpoint index_map_loop (ptr : Z) (providers : list string) (map : list Z) : M mworld (lua_result (list Z)) :=
  match providers with
  | [] => returns map
  | name :: providers' =>
      r <- m_gets mw_registry ;;
      match find_name name r with
      | None => m_abort
      | Some parent =>
          match dependent_modules (lm_name parent) r with
          | None => m_abort
          | Some deps =>
              let i := place_among ptr deps 1 in
              if i =? 0 then fails "failed to create parent_modules_index_map"
              else index_map_loop ptr providers' (<[Z.to_nat (lm_index parent - 1) := i]> map)
          end
      end
  end.

(** [module:create_parent_modules_index_map], of a frozen module *)
Definition create_parent_modules_index_map (m : lmodule) : M mworld (lua_result (list Z)) :=
  r <- m_gets mw_registry ;;
  match r_providers r !! lm_name m with
  | None => m_abort
  | Some ps => index_map_loop (lm_ptr m) (elements ps) (replicate (Z.to_nat (r_index_counter r)) 0)
  end.

(** ** event.lua *)

Definition FIRST_PRIORITY : Z := 127.
Definition LAST_PRIORITY : Z := -127.

Fixpoint insert_listener (l : llistener) (ls : list llistener) : list llistener :=
  match ls with
  | [] => [l]
  | v :: ls' => if ll_priority v <=? ll_priority l then l :: ls else v :: insert_listener l ls'
  end.

Definition place_listener (l : llistener) (ls : list llistener) : list llistener :=
  if ll_priority l =? LAST_PRIORITY then (ls ++ [l])%list
  else if ll_priority l =? FIRST_PRIORITY then l :: ls
  else insert_listener l ls.

Definition subscribes_to_event (m : lmodule) (name : string) : bool :=
  bool_decide (name ∈ su_key <$> lm_subscribe m) || bool_decide ("~" ++ name ∈ su_key <$> lm_subscribe m).

Definition set_listeners (ls : list llistener) (e : levent) : levent :=
  LEvent (le_name e) (le_module_name e) ls (le_ptr e) (le_data_type e) (le_handler e).

(** [event:add_listener] of the event with the key.  (No module has ever the field [finalized].) *)
Definition add_listener (key : string) (e : levent) (module_ptr fn pd priority : Z) : M mworld (lua_result unit) :=
  m_assert ((LAST_PRIORITY <=? priority) && (priority <=? FIRST_PRIORITY)) ;;;
  w <- m_get ;;
  let name := full_name (le_module_name e) (le_name e) in
  match find_ptr module_ptr (mw_registry w), le_ptr e with
  | None, _ => fails "unknown receiver module"
  | Some m, None => fails ("module " ++ lm_name m ++ " tried to listen to nonexistent event " ++ name)
  | Some m, Some _ =>
      if negb (subscribes_to_event m name)
      then fails ("module " ++ lm_name m ++ " has not declared event " ++ name ++ " in its 'subscribe' list, so it cannot be used.")
      else
        let ls := place_listener (LListener module_ptr fn pd priority) (le_listeners e) in
        m_put (put_events (<[key := set_listeners ls e]> (mw_events w)) w) ;;;
        returns tt
  end.

(** [Module.initialize_event] *)
Definition initialize_event (module_ptr : Z) (ei : event_init) : M mworld (lua_result unit) :=
  w <- m_get ;;
  match find_ptr module_ptr (mw_registry w) with
  | None => fails "no module known by that pointer"
  | Some m =>
      if negb (bool_decide (ei_name ei ∈ lm_publish m))
      then fails ("unknown event " ++ ei_name ei ++ " in module " ++ lm_name m)
      else
        let key := full_name (lm_name m) (ei_name ei) in
        match mw_events w !! key with
        | None => m_abort
        | Some e =>
            match le_ptr e with
            | Some _ => fails ("module " ++ le_module_name e ++ " has already registered event " ++ le_name e)
            | None =>
                let e' := LEvent (ei_name ei) (le_module_name e) (le_listeners e) (Some (ei_event ei))
                            (ei_data_type ei) (ei_handler ei) in
                m_put (put_events_by_ptr (<[ei_event ei := key]> (mw_events_by_ptr w))
                         (put_events (<[key := e']> (mw_events w)) w)) ;;;
                returns tt
            end
        end
  end.

(** ** event.c: declaring events and listening *)

Definition runstate_check (doing : string) : M mworld bool := on_sys (shuso_runstate_check p STATE_CONFIGURING doing).

Definition shuso_event_initialize (module_ptr : Z) (ei : event_init) : M mworld bool :=
  ok <- runstate_check "initialize event" ;;
  if negb ok then m_ret false
  else r <- initialize_event module_ptr ei ;; r <- result_ok r ;; m_ret (bool_decide (is_Some r)).

Fixpoint shuso_events_initialize (module_ptr : Z) (eis : list event_init) : M mworld bool :=
  match eis with
  | [] => m_ret true
  | ei :: eis' =>
      ok <- shuso_event_initialize module_ptr ei ;;
      if ok : bool then shuso_events_initialize module_ptr eis' else m_ret false
  end.

(** [event_listen_continue], with what [Event.find] gave *)
Definition event_listen_continue (found : lua_result string) (optional : bool) (fn pd priority : Z) : M mworld bool :=
  match found with
  | inl msg => if optional then m_ret true else set_error msg
  | inr key =>
      w <- m_get ;;
      match mw_events w !! key with
      | Some e =>
          r <- add_listener key e (default 0 (mw_active w)) fn pd priority ;;
          match r with
          | inl msg => if optional then m_ret true else set_error msg
          | inr _ => m_ret true
          end
      | None => m_abort
      end
  end.

(** [Event.find] of a full name, and of a pointer *)
Definition event_find (name : string) (w : mworld) : lua_result string :=
  if negb (valid_event_name name) then inl ("invalid event name " ++ name)
  else match mw_events w !! name with Some _ => inr name | None => inl ("event " ++ name ++ " not found") end.
Definition event_find_ptr (event : Z) (w : mworld) : lua_result string :=
  match mw_events_by_ptr w !! event with Some key => inr key | None => inl "event not found" end.

Definition shuso_event_by_name_listen_with_priority (name : string) (fn pd priority : Z) : M mworld bool :=
  let '(optional, name) := match name with
                           | String c name' => if is_char "~" c then (true, name') else (false, name)
                           | EmptyString => (false, name)
                           end in
  w <- m_get ;; event_listen_continue (event_find name w) optional fn pd priority.

Definition shuso_event_by_pointer_listen_with_priority (event fn pd priority : Z) : M mworld bool :=
  w <- m_get ;; event_listen_continue (event_find_ptr event w) false fn pd priority.

(** ** module.c *)

Definition get_cmodule (a : Z) : M mworld cmodule :=
  w <- m_get ;; match mw_mods w !! a with Some m => m_ret m | None => m_abort end.
Definition mod_cmodule (a : Z) (f : cmodule → cmodule) : M mworld unit :=
  m_modify (λ w, put_mods (alter f a (mw_mods w)) w).
Definition set_cm_index (i : Z) (m : cmodule) : cmodule :=
  CModule (cm_name m) (cm_version m) (cm_subscribe m) (cm_publish m) (cm_parent_modules m) (cm_settings m)
    (cm_variables m) (cm_initialize m) (cm_initialize_worker m) i (cm_parent_modules_index_map m) (cm_submodules m).
Definition set_cm_map (l : list Z) (m : cmodule) : cmodule :=
  CModule (cm_name m) (cm_version m) (cm_subscribe m) (cm_publish m) (cm_parent_modules m) (cm_settings m)
    (cm_variables m) (cm_initialize m) (cm_initialize_worker m) (cm_index m) l (cm_submodules m).
Definition set_cm_submodules (l : list Z) (m : cmodule) : cmodule :=
  CModule (cm_name m) (cm_version m) (cm_subscribe m) (cm_publish m) (cm_parent_modules m) (cm_settings m)
    (cm_variables m) (cm_initialize m) (cm_initialize_worker m) (cm_index m) (cm_parent_modules_index_map m) l.

Definition set_runstate (s : runstate) : M mworld unit :=
  on_sys (m_modify (upd_common p (λ c, Common s (c_handlers c) (c_log_fd c) (c_all_workers_running c)
    (c_manager_pid c) (c_sig_manager c) (c_sig_last c) (c_config_workers c) (c_retry_delay c)))).

(** [add_module]; [core]: with [new_core_module] instead of [new] *)
Definition add_module (core : bool) (a : Z) : M mworld bool :=
  ok <- runstate_check "add module" ;;
  if negb ok then m_ret false else
  m <- get_cmodule a ;;
  match cm_name m, cm_version m with
  | None, _ => set_error "module name missing"
  | Some name, None => set_error ("module " ++ name ++ " version string is missing")
  | Some name, Some version =>
      r <- (if core then new_core_module else module_new) name a version (cm_subscribe m) (cm_publish m)
             (cm_parent_modules m) ;;
      r <- result_ok r ;;
      match r with
      | None => set_runstate STATE_MISCONFIGURED ;;; m_ret false
      | Some index =>
          let i := index - 1 in
          mod_cmodule a (set_cm_index i) ;;;
          arr <- m_gets mw_array ;;
          ok <- (if Z.of_nat (length arr) <=? i then
                   m_assert (Z.of_nat (length arr) =? i) ;;;
                   ok <- palloc (8 * (i + 1)) ;;
                   if ok : bool then m_modify (λ w, put_array (mw_array w ++ [a])%list w) ;;; m_ret true
                   else set_error "failed to allocate memory for modules array" ;;;
                        set_runstate STATE_MISCONFIGURED ;;; m_ret false
                 else m_ret true) ;;
          if negb ok then m_ret false
          else m_ret (forallb (λ s, setting_ok s name) (cm_settings m) && forallb (λ v, variable_ok v name) (cm_variables m))
      end
  end.

Definition shuso_add_module : Z → M mworld bool := add_module false.

(** [shuso_module_freeze] *)
Definition shuso_module_freeze (a : Z) : M mworld bool :=
  r <- m_gets mw_registry ;;
  found <- result_ok (match find_ptr a r with Some m => inr m | None => inl "no module known by that pointer" end) ;;
  match found with
  | None => m_ret false
  | Some lm =>
      r <- module_freeze lm ;; r <- result_ok r ;;
      match r with
      | None => m_ret false
      | Some _ =>
          map <- create_parent_modules_index_map lm ;; map <- result_ok map ;;
          match map with
          | None => m_ret false
          | Some map =>
              ok <- palloc (Z.of_nat (length map)) ;;
              if negb ok then set_error "failed to allocate parent_modules_index_map" else
              mod_cmodule a (set_cm_map ((λ i, u8 (if 0 <? i then i - 1 else 255)) <$> map)) ;;;
              r <- m_gets mw_registry ;;
              match dependent_modules (lm_name lm) r with
              | None => m_abort
              | Some [] => mod_cmodule a (set_cm_submodules []) ;;; m_ret true
              | Some deps =>
                  ok <- palloc (8 * Z.of_nat (length deps)) ;;
                  if negb ok then set_error "failed to allocate memory for submodules array" else
                  mod_cmodule a (set_cm_submodules (lm_ptr <$> deps)) ;;; m_ret true
              end
          end
      end
  end.

(** [module:all_events_initialized] *)
Definition uninitialized_events (m : lmodule) (evs : gmap string levent) : list string :=
  List.filter (λ e, match evs !! full_name (lm_name m) e with Some ev => bool_decide (le_ptr ev = None) | None => true end)
    (lm_publish m).

(** The check of the listeners' modules in [shuso_module_finalize]; the modules' names are those of
    their structs. *)
Fixpoint check_listeners (name : string) (ls : list llistener) : M mworld bool :=
  match ls with
  | [] => m_ret true
  | l :: ls' =>
      m <- get_cmodule (ll_module l) ;;
      match cm_name m with
      | None => m_abort
      | Some subscriber =>
          r <- m_gets mw_registry ;;
          r <- result_ok (dependency_index name subscriber r) ;;
          match r with Some _ => check_listeners name ls' | None => m_ret false end
      end
  end.

Fixpoint finalize_events (m : lmodule) (events : list string) : M mworld bool :=
  match events with
  | [] => m_ret true
  | e :: events' =>
      w <- m_get ;;
      match mw_events w !! full_name (lm_name m) e with
      | Some (LEvent name _ listeners (Some ptr) data_type handler) =>
          let old := from_option ce_listeners [] (mw_cevents w !! ptr) in
          let put ls := m_modify (λ w, put_cevents
                          (<[ptr := CEvent name data_type handler (lm_index m - 1) ls]> (mw_cevents w)) w) in
          put old ;;;
          ok <- palloc (24 * (Z.of_nat (length listeners) + 1)) ;;
          if negb ok then set_error "failed to allocate memory for event listeners" else
          ok <- check_listeners (lm_name m) listeners ;;
          if negb ok then m_ret false else
          put ((λ l, CListener (ll_module l) (ll_fn l) (ll_pd l)) <$> listeners) ;;;
          finalize_events m events'
      | _ => m_abort
      end
  end.

(** [shuso_module_finalize] *)
Definition shuso_module_finalize (a : Z) : M mworld bool :=
  w <- m_get ;;
  found <- result_ok (match find_ptr a (mw_registry w) with
                      | Some m => inr m | None => inl "no module known by that pointer" end) ;;
  match found with
  | None => m_ret false
  | Some lm =>
      r <- result_ok (match uninitialized_events lm (mw_events w) with
                      | [] => inr tt
                      | _ => inl ("module " ++ lm_name lm ++ " has uninitialized events")
                      end) ;;
      match r with
      | None => m_ret false
      | Some _ => finalize_events lm (lm_publish lm)
      end
  end.

(** A module's own function, called with the module *)
Definition run_action (a : Z) (act : init_action) : M mworld unit :=
  match act with
  | ActInitialize eis => shuso_events_initialize a eis ;;; m_ret tt
  | ActListen name fn pd priority => shuso_event_by_name_listen_with_priority name fn pd priority ;;; m_ret tt
  | ActListenPtr event fn pd priority => shuso_event_by_pointer_listen_with_priority event fn pd priority ;;; m_ret tt
  | ActError msg => set_error msg ;;; m_ret tt
  end.

Fixpoint run_actions (a : Z) (acts : list init_action) : M mworld unit :=
  match acts with
  | [] => m_ret tt
  | act :: acts' => run_action a act ;;; run_actions a acts'
  end.

Definition run_init (a : Z) (f : init_fn) : M mworld bool := run_actions a (if_actions f) ;;; m_ret (if_result f).

(** The loops of [shuso_master_initialize_modules] and [shuso_worker_initialize_modules] *)
Fixpoint freeze_loop (l : list Z) : M mworld bool :=
  match l with
  | [] => m_ret true
  | a :: l' => ok <- shuso_module_freeze a ;; if ok : bool then freeze_loop l' else m_ret false
  end.

Definition set_active (a : option Z) : M mworld unit := m_modify (put_active a).

(** [always_active]: the module becomes active even if it has no function to call. *)
Fixpoint initialize_loop (fn_of : cmodule → option init_fn) (always_active : bool) (prev : option Z) (l : list Z) :
    M mworld bool :=
  match l with
  | [] => m_ret true
  | a :: l' =>
      m <- get_cmodule a ;;
      (if always_active then set_active (Some a) else m_ret tt) ;;;
      match fn_of m with
      | None => initialize_loop fn_of always_active prev l'
      | Some f =>
          set_active (Some a) ;;;
          errcount <- error_count ;;
          ok <- run_init a f ;;
          n <- error_count ;;
          if negb ok || (errcount <? n) then
            set_error ("module " ++ default "" (cm_name m) ++ " failed to initialize") ;;;
            set_active prev ;;; m_ret false
          else initialize_loop fn_of always_active prev l'
      end
  end.

Fixpoint finalize_loop (prev : option Z) (l : list Z) : M mworld bool :=
  match l with
  | [] => m_ret true
  | a :: l' =>
      set_active (Some a) ;;;
      ok <- shuso_module_finalize a ;;
      if ok : bool then finalize_loop prev l' else set_active prev ;;; m_ret false
  end.

Definition shuso_master_initialize_modules : M mworld bool :=
  w <- m_get ;;
  ok <- (if mw_events_array w then m_ret true
         else ok <- palloc (8 * Z.of_nat (length (mw_array w))) ;; m_modify (put_events_array ok) ;;; m_ret ok) ;;
  if negb ok then set_error "failed to allocate memory for modules' events array" else
  arr <- m_gets mw_array ;;
  ok <- freeze_loop arr ;;
  if negb ok then m_ret false else
  prev <- m_gets mw_active ;;
  ok <- initialize_loop cm_initialize false prev arr ;;
  if negb ok then m_ret false else
  ok <- finalize_loop prev arr ;;
  if negb ok then m_ret false else
  set_active prev ;;; m_ret true.

Definition shuso_worker_initialize_modules : M mworld bool :=
  prev <- m_gets mw_active ;;
  arr <- m_gets mw_array ;;
  initialize_loop cm_initialize_worker true prev arr.

Definition shuso_manager_initialize_modules : M mworld bool := m_ret true.

(** ** Contexts

    A context list is the memory for its pointers; a cell that was not written is [None]. *)

Definition shuso_context_list_initialize (parent : Z) (old : list (option Z)) : M mworld (bool * list (option Z)) :=
  m <- get_cmodule parent ;;
  match cm_submodules m with
  | [] => m_ret (true, old)
  | subs =>
      ok <- palloc (8 * Z.of_nat (length subs)) ;;
      if ok : bool then m_ret (true, replicate (length subs) None)
      else set_error "failed to allocate context_list" ;;; m_ret (false, old)
  end.

Definition context_offset (parent module : Z) : M mworld (option Z) :=
  m <- get_cmodule module ;;
  pm <- get_cmodule parent ;;
  match cm_parent_modules_index_map m !! Z.to_nat (cm_index pm) with
  | None => m_abort
  | Some offset =>
      if offset =? 255 then set_error "No context for module" ;;; m_ret None else m_ret (Some offset)
  end.

(** A cell that was never written holds anything: reading it has no result here. *)
Definition shuso_context (parent module : Z) (cl : list (option Z)) : M mworld (option Z) :=
  o <- context_offset parent module ;;
  match o with
  | None => m_ret None
  | Some o => match cl !! Z.to_nat o with Some (Some ctx) => m_ret (Some ctx) | _ => m_abort end
  end.

Definition shuso_set_context (parent module ctx : Z) (cl : list (option Z)) : M mworld (bool * list (option Z)) :=
  o <- context_offset parent module ;;
  match o with
  | None => m_ret (false, cl)
  | Some o =>
      m_assert (o <? Z.of_nat (length cl)) ;;;
      m_ret (true, <[Z.to_nat o := Some ctx]> cl)
  end.

Definition shuso_get_module_by_name (name : string) : M mworld (option Z) :=
  r <- m_gets mw_registry ;;
  found <- result_ok (match find_name name r with Some m => inr m | None => inl ("no module " ++ name) end) ;;
  m_ret (lm_ptr <$> found).

Definition shuso_get_module_by_index (i : Z) : M mworld Z :=
  arr <- m_gets mw_array ;;
  match arr !! Z.to_nat i with Some a => m_ret a | None => m_abort end.
End modules.

(** ** The tables of dependencies *)

(** The modules that depend on one, in the order of their places; the modules that one depends on *)
Definition deps (r : registry) (provider : string) : list string := default [] (r_dependents r !! provider).
Definition provs (r : registry) (dependent : string) : gset string := default ∅ (r_providers r !! dependent).
Definition indexed (r : registry) (provider : string) : gmap string Z := default ∅ (r_dependents_indexed r !! provider).

(** No module has two places, [dependents_indexed] gives the places, and [providers] is the inverse. *)
Record deps_ok (r : registry) : Prop := DepsOk {
  do_nodup : ∀ q, NoDup (deps r q);
  do_index : ∀ q d i, indexed r q !! d = Some i ↔ 1 ≤ i ∧ deps r q !! Z.to_nat (i - 1) = Some d;
  do_providers : ∀ q d, q ∈ provs r d ↔ d ∈ deps r q
}.

Lemma indexed_none r q d : deps_ok r → indexed r q !! d = None ↔ d ∉ deps r q.
Proof.
  intros Hok. split; intros Hn.
  - intros [i Hi]%list_elem_of_lookup.
    assert (indexed r q !! d = Some (Z.of_nat i + 1)) as Hs; [|by rewrite Hn in Hs].
    apply do_index; [done|]. split; [lia|]. by replace (Z.to_nat _) with i by lia.
  - destruct (indexed r q !! d) as [i|] eqn:Hi; [|done]. apply (do_index _ Hok) in Hi as [_ Hi].
    destruct Hn. by eapply list_elem_of_lookup_2.
Qed.

(** The tables after a dependency was added *)
Definition deps_add (q d : string) (r : registry) : list string :=
  if bool_decide (d ∈ deps r q) then deps r q else (deps r q ++ [d])%list.

Lemma add_dependency_tables q d r : deps_ok r →
  (∀ q', deps (add_dependency q d r) q' = if bool_decide (q' = q) then deps_add q d r else deps r q') ∧
  (∀ q', indexed (add_dependency q d r) q' =
     if bool_decide (q' = q) then
       if bool_decide (d ∈ deps r q) then indexed r q
       else <[d := Z.of_nat (length (deps r q)) + 1]> (indexed r q)
     else indexed r q') ∧
  (∀ d', provs (add_dependency q d r) d' = if bool_decide (d' = d) then {[q]} ∪ provs r d else provs r d').
Proof.
  intros Hok. pose proof (indexed_none r q d Hok) as Hnone.
  assert (match r_dependents r !! q with Some ds => (ds, indexed r q) | None => ([], ∅) end = (deps r q, indexed r q)) as Hm.
  { unfold deps. destruct (r_dependents r !! q) eqn:Hd; [done|]. f_equal. symmetry. apply map_empty. intros d'.
    apply (indexed_none r q d' Hok). unfold deps. rewrite Hd. apply not_elem_of_nil. }
  unfold add_dependency. fold (indexed r q). rewrite Hm.
  destruct (indexed r q !! d) as [i|] eqn:Hi.
  - assert (d ∈ deps r q) as Hin by (apply dec_stable; rewrite <- Hnone; done).
    split_and!; intros q'; unfold deps_add, deps, indexed, provs; simpl.
    all: try rewrite (bool_decide_eq_true_2 (d ∈ _)) by done.
    all: case_bool_decide; subst; rewrite ?lookup_insert_eq, ?lookup_insert_ne by done; done.
  - assert (d ∉ deps r q) as Hin by (by apply Hnone).
    split_and!; intros q'; unfold deps_add, deps, indexed, provs; simpl.
    all: try rewrite (bool_decide_eq_false_2 (d ∈ _)) by done.
    all: case_bool_decide; subst; rewrite ?lookup_insert_eq, ?lookup_insert_ne by done; done.
Qed.

Lemma deps_add_in q d r d' : d' ∈ deps_add q d r ↔ d' ∈ deps r q ∨ d' = d.
Proof.
  unfold deps_add. case_bool_decide; [split; [auto|by intros [?| ->]]|].
  by rewrite elem_of_app, list_elem_of_singleton.
Qed.

Lemma lookup_snoc_place {A} (l : list A) x i y :
  (l ++ [x])%list !! i = Some y ↔ l !! i = Some y ∨ (i = length l ∧ y = x).
Proof.
  rewrite lookup_app_Some, list_lookup_singleton_Some. split.
  - intros [?|(? & ? & ->)]; [auto|]. right. split; [lia|done].
  - intros [?|[-> ->]]; [auto|]. right. split; [lia|]. split; [lia|done].
Qed.

Lemma add_dependency_ok q d r : deps_ok r → deps_ok (add_dependency q d r).
Proof.
  intros Hok. destruct (add_dependency_tables q d r Hok) as (Hd & Hi & Hp). split.
  - intros q'. rewrite Hd. clear Hd Hi Hp. case_bool_decide; [|apply Hok]. unfold deps_add. case_bool_decide as Hin; [apply Hok|].
    apply NoDup_app. split; [apply Hok|]. split; [|apply NoDup_singleton].
    intros x Hx ->%list_elem_of_singleton. done.
  - intros q' d' i. rewrite Hd, Hi. clear Hd Hi Hp. case_bool_decide as Hq; [|apply Hok]. unfold deps_add.
    case_bool_decide as Hin; [by apply do_index|].
    rewrite lookup_insert_Some, lookup_snoc_place, (do_index _ Hok). split.
    + intros [[<- <-]|[? [? ?]]]; [|by auto]. split; [lia|]. right. split; [lia|done].
    + intros [? [Hl|[? ->]]]; [|left; split; [done|lia]]. right. split; [|done]. intros <-.
      by apply list_elem_of_lookup_2 in Hl.
  - intros q' d'. rewrite Hd, Hp. clear Hd Hi Hp. repeat case_bool_decide; subst.
    + rewrite elem_of_union, elem_of_singleton, deps_add_in, (do_providers _ Hok). naive_solver.
    + rewrite elem_of_union, elem_of_singleton, (do_providers _ Hok). naive_solver.
    + rewrite deps_add_in, (do_providers _ Hok). naive_solver.
    + apply Hok.
Qed.

(** The tables of modules do not change with those of dependencies. *)
Definition same_modules (r r' : registry) : Prop :=
  r_by_name r' = r_by_name r ∧ r_by_ptr r' = r_by_ptr r ∧ r_index_counter r' = r_index_counter r ∧
  r_core r' = r_core r ∧ r_coreless r' = r_coreless r.

Lemma add_dependency_same q d r : same_modules r (add_dependency q d r).
Proof. unfold add_dependency. repeat case_match; by repeat split. Qed.

Lemma add_dependencies_same qs d r : same_modules r (add_dependencies qs d r).
Proof.
  revert r. induction qs as [|q qs IH]; intros r; [by repeat split|]. simpl.
  destruct (IH (add_dependency q d r)) as (?&?&?&?&?), (add_dependency_same q d r) as (?&?&?&?&?).
  repeat split; congruence.
Qed.

Lemma add_dependencies_ok qs d r : deps_ok r → deps_ok (add_dependencies qs d r).
Proof. revert r. induction qs as [|q qs IH]; intros r Hok; [done|]. apply IH. by apply add_dependency_ok. Qed.

(** What a module's new dependencies do to the places: it comes behind the others, unless it had a place. *)
Lemma add_dependencies_deps qs d r : deps_ok r →
  ∀ q, deps (add_dependencies qs d r) q = if bool_decide (q ∈ qs) then deps_add q d r else deps r q.
Proof.
  revert r. induction qs as [|q qs IH]; intros r Hok q'; [done|]. simpl.
  rewrite IH by by apply add_dependency_ok. destruct (add_dependency_tables q d r Hok) as (Hd & _).
  unfold deps_add. rewrite Hd. unfold deps_add.
  repeat case_bool_decide; subst; rewrite ?elem_of_cons, ?elem_of_app, ?list_elem_of_singleton in *;
    try done; naive_solver.
Qed.

Lemma add_dependencies_provs qs d r : deps_ok r →
  ∀ q d', d' ∈ deps (add_dependencies qs d r) q ↔ d' ∈ deps r q ∨ (d' = d ∧ q ∈ qs).
Proof.
  intros Hok q d'. rewrite add_dependencies_deps by done. case_bool_decide; [rewrite deps_add_in|]; tauto.
Qed.

(** ** The tables of modules *)

(** What a module depends on from the start *)
Definition declared (m : lmodule) : list string := (lm_parents m ++ required_modules (lm_subscribe m) ++ ["core"])%list.

(** Modules are found by their names and pointers, their numbers are their places in the array, of which there are
    at most 255, and they depend on the modules they declare. *)
Record reg_ok (r : registry) (arr : list Z) : Prop := RegOk {
  ro_deps : deps_ok r;
  ro_name : ∀ n a, r_by_name r !! n = Some a → ∃ m, r_by_ptr r !! a = Some m ∧ lm_name m = n;
  ro_ptr : ∀ a m, r_by_ptr r !! a = Some m →
    lm_ptr m = a ∧ r_by_name r !! lm_name m = Some a ∧ 1 ≤ lm_index m ∧ arr !! Z.to_nat (lm_index m - 1) = Some a;
  ro_array : ∀ i a, arr !! i = Some a → ∃ m, r_by_ptr r !! a = Some m ∧ lm_index m = Z.of_nat i + 1;
  ro_count : r_index_counter r = Z.of_nat (length arr);
  ro_max : Z.of_nat (length arr) ≤ max_module_count;
  ro_declared : ∀ a m q, r_by_ptr r !! a = Some m → q ∈ declared m → lm_name m ∈ deps r q
}.

Lemma same_modules_find r r' : same_modules r r' →
  (∀ n, find_name n r' = find_name n r) ∧ (∀ a, find_ptr a r' = find_ptr a r).
Proof. intros (Hn & Hp & _). unfold find_name, find_ptr. by rewrite Hn, Hp. Qed.

Lemma reg_ok_add qs d r arr : reg_ok r arr → reg_ok (add_dependencies qs d r) arr.
Proof.
  intros [Hd Hn Hp Ha Hc Hm Hdec]. destruct (add_dependencies_same qs d r) as (Hbn & Hbp & Hic & _).
  split; rewrite ?Hbn, ?Hbp, ?Hic; try done; [by apply add_dependencies_ok|].
  intros a m q Hl Hq. apply add_dependencies_provs; [done|]. left. by eapply Hdec.
Qed.

Lemma find_name_spec r arr n m : reg_ok r arr → find_name n r = Some m ↔ r_by_ptr r !! lm_ptr m = Some m ∧ lm_name m = n.
Proof.
  intros [_ Hn Hp _ _ _ _]. unfold find_name. split.
  - intros (a & Hna & Ha)%bind_Some. destruct (Hn _ _ Hna) as (m' & Hm' & <-). simplify_eq.
    destruct (Hp _ _ Ha) as (-> & _). done.
  - intros [Ha <-]. destruct (Hp _ _ Ha) as (_ & -> & _). done.
Qed.

Lemma arr_nodup r arr : reg_ok r arr → NoDup arr.
Proof.
  intros Hr. apply NoDup_alt. intros i j a Hi Hj.
  destruct (ro_array _ _ Hr _ _ Hi) as (m & Hm & Hmi), (ro_array _ _ Hr _ _ Hj) as (m' & Hm' & Hmj).
  simplify_eq. lia.
Qed.

(** A new module *)
Lemma register_ok m r arr : reg_ok r arr → Z.of_nat (length arr) < max_module_count →
  r_by_name r !! lm_name m = None → r_by_ptr r !! lm_ptr m = None → lm_index m = r_index_counter r + 1 →
  (∀ q, q ∈ declared m → lm_name m ∈ deps r q) → reg_ok (register m r) (arr ++ [lm_ptr m]).
Proof.
  intros [Hd Hn Hp Ha Hc Hm Hdec] Hlen Hnn Hpn Hi Hq. split; simpl; try done.
  - by destruct Hd.
  - intros n a. rewrite lookup_insert_Some. intros [[<- <-]|[Hne Hl]]; [exists m; by rewrite lookup_insert_eq|].
    destruct (Hn _ _ Hl) as (m' & Hm' & <-). exists m'. rewrite lookup_insert_ne by congruence. done.
  - intros a m'. rewrite lookup_insert_Some. intros [[<- <-]|[Hne Hl]].
    + rewrite lookup_insert_eq, Hi, Hc. split_and!; [done..|lia|].
      replace (Z.to_nat _) with (length arr) by lia. by rewrite lookup_app_r, Nat.sub_diag by lia.
    + destruct (Hp _ _ Hl) as (Hptr & Hnm & Hge & Hl'). rewrite lookup_insert_ne by congruence.
      split_and!; [done..|]. by apply lookup_app_l_Some.
  - intros i a. rewrite lookup_snoc_place. intros [Hl|[-> ->]].
    + destruct (Ha _ _ Hl) as (m' & Hm' & Hi'). exists m'. rewrite lookup_insert_ne by congruence. done.
    + exists m. rewrite lookup_insert_eq. split; [done|lia].
  - rewrite length_app. simpl. lia.
  - rewrite length_app. simpl. lia.
  - intros a m' q. rewrite lookup_insert_Some. intros [[_ <-]|[_ Hl]]; [apply Hq|exact (Hdec a m' q Hl)].
Qed.

Lemma add_register q d m r : add_dependency q d (register m r) = register m (add_dependency q d r).
Proof. unfold add_dependency. simpl. by repeat case_match. Qed.

Lemma adds_register qs d m r : add_dependencies qs d (register m r) = register m (add_dependencies qs d r).
Proof. revert r. induction qs as [|q qs IH]; intros r; [done|]. simpl. by rewrite add_register, IH. Qed.

Section module_new.
Context `{Malloc, ModuleEnv}.

(** What parsing changes: events appear. *)
Lemma event_get_run m n w : ∃ e, event_get m n w = Some (full_name m n, put_events e w).
Proof.
  unfold event_get, m_bind, m_get. destruct (mw_events w !! _).
  - exists (mw_events w). by destruct w.
  - by eexists.
Qed.

Lemma subscribe_loop_run ws : ∀ acc w, ∃ e res, subscribe_loop ws acc w = Some (res, put_events e w).
Proof.
  induction ws as [|s ws IH]; intros acc w; simpl.
  { exists (mw_events w), (inr acc). by destruct w. }
  destruct (parse_subscription s) as [[[opt m] n]|]; [|exists (mw_events w); eexists (inl _); by destruct w].
  case_bool_decide; [exists (mw_events w); eexists (inl _); by destruct w|].
  unfold m_bind. destruct (event_get_run m n w) as [e ->].
  destruct (IH (acc ++ [Subscription s m n (negb opt)])%list (put_events e w)) as (e' & res & ->). eauto.
Qed.

Lemma publish_loop_run name ws : ∀ acc w, ∃ e res, publish_loop name ws acc w = Some (res, put_events e w).
Proof.
  induction ws as [|s ws IH]; intros acc w; simpl.
  { exists (mw_events w), (inr acc). by destruct w. }
  destruct (negb _); [exists (mw_events w); eexists (inl _); by destruct w|].
  case_bool_decide; [exists (mw_events w); eexists (inl _); by destruct w|].
  unfold m_bind. destruct (event_get_run name s w) as [e ->].
  destruct (IH (acc ++ [s])%list (put_events e w)) as (e' & res & ->). eauto.
Qed.

Lemma split_subscribe_run s w : ∃ e res, split_subscribe_list_string s w = Some (res, put_events e w).
Proof.
  unfold split_subscribe_list_string. destruct (forallb _ _); [apply subscribe_loop_run|].
  exists (mw_events w); eexists (inl _). by destruct w.
Qed.

Lemma split_publish_run name s w : ∃ e res, split_publish_list_string name s w = Some (res, put_events e w).
Proof.
  unfold split_publish_list_string. destruct (forallb _ _); [apply publish_loop_run|].
  exists (mw_events w); eexists (inl _). by destruct w.
Qed.

(** What [Module.new] leaves of a registry that was in order *)
Definition module_added (name : string) (a : Z) (r : registry) (arr : list Z) (res : lua_result Z) (r' : registry) : Prop :=
  r_core r' = r_core r ∧ r_coreless r' = r_coreless r ∧
  match res with
  | inl _ => reg_ok r' arr ∧ r_by_ptr r' = r_by_ptr r
  | inr i => reg_ok r' (arr ++ [a]) ∧ i = Z.of_nat (length arr) + 1 ∧ r_by_ptr r !! a = None ∧
             ∃ m, r_by_ptr r' = <[a := m]> (r_by_ptr r) ∧ lm_name m = name ∧ lm_index m = i
  end.

Lemma module_new_ok name a version subscribe publish parents w arr : reg_ok (mw_registry w) arr →
  ∃ res e r', module_new name a version subscribe publish parents w = Some (res, put_registry r' (put_events e w)) ∧
    module_added name a (mw_registry w) arr res r'.
Proof.
  intros Hr. set (r := mw_registry w) in *.
  assert (∀ (msg : string), ∃ res e r', fails msg w = Some (res, put_registry r' (put_events e w)) ∧
    module_added name a r arr res r') as Hfail.
  { intros msg. exists (inl msg), (mw_events w), r. split; [by destruct w|]. done. }
  unfold module_new, m_bind at 1, m_gets at 1. fold r.
  destruct (Z.leb_spec max_module_count (r_index_counter r)) as [?|Hcount]; [apply Hfail|].
  case_bool_decide as Hfind; [apply Hfail|].
  destruct (negb (valid_version version)); [apply Hfail|].
  destruct (_ && _); [apply Hfail|].
  unfold m_bind at 1, m_ret at 1. destruct (split_parent_modules_string parents) as [msg|ps]; [apply Hfail|].
  unfold m_bind at 1. destruct (split_subscribe_run subscribe w) as (e1 & [msg|subs] & ->).
  { exists (inl msg), e1, r. split; [by destruct w|done]. }
  cbv beta zeta. unfold m_bind at 1, mod_registry at 1, m_modify at 1. cbn [mw_registry put_events]. fold r.
  set (sub := pairs_order name subs). set (r1 := add_dependencies (required_modules sub) name r).
  assert (reg_ok r1 arr) as Hr1 by by apply reg_ok_add.
  destruct (add_dependencies_same (required_modules sub) name r) as (Hbn1 & Hbp1 & Hic1 & Hco1 & Hcl1).
  fold r1 in Hbn1, Hbp1, Hic1, Hco1, Hcl1.
  unfold m_bind at 1.
  destruct (split_publish_run name publish (put_registry r1 (put_events e1 w))) as (e2 & [msg|evs] & ->).
  { exists (inl msg), e2, r1. split; [by destruct w|]. done. }
  unfold m_bind, mod_registry, m_modify, m_gets. cbn [mw_registry put_events put_registry].
  set (m := LModule name a ps sub (pairs_order name evs) (r_index_counter r1 + 1) false).
  set (r2 := register m r1). set (qs := (ps ++ option_list (r_core r2) ++ ["core"])%list).
  exists (inr (r_index_counter (add_dependencies qs name r2))), e2, (add_dependencies qs name r2).
  split; [by destruct w|].
  destruct (add_dependencies_same qs name r2) as (Hbn2 & Hbp2 & Hic2 & Hco2 & Hcl2).
  assert (reg_ok (add_dependencies qs name r2) (arr ++ [a])) as Hr2.
  { unfold r2. rewrite adds_register. destruct (add_dependencies_same qs name r1) as (Hbn & Hbp & Hic & _).
    change a with (lm_ptr m). apply register_ok.
    - by apply reg_ok_add.
    - rewrite <- (ro_count _ _ Hr). done.
    - rewrite Hbn, Hbn1. destruct (r_by_name r !! lm_name m) as [b|] eqn:Hb; [|done]. destruct Hfind. left.
      destruct (ro_name _ _ Hr _ _ Hb) as (mb & Hmb & Hnb). exists mb. apply (find_name_spec r arr); [done|].
      destruct (ro_ptr _ _ Hr _ _ Hmb) as (-> & _). done.
    - rewrite Hbp, Hbp1. destruct (r_by_ptr r !! lm_ptr m) eqn:Hb; [|done]. destruct Hfind. right. unfold find_ptr.
      change (lm_ptr m) with a in Hb. by rewrite Hb.
    - by rewrite Hic.
    - intros q. unfold declared. rewrite !elem_of_app. intros Hq. apply add_dependencies_provs; [apply Hr1|].
      unfold qs. rewrite !elem_of_app. destruct Hq as [?|[?|?]]; [by auto| |by auto].
      left. apply add_dependencies_provs; [apply Hr|]. by auto. }
  unfold module_added. rewrite Hco2, Hcl2, Hic2, Hbp2. split; [exact Hco1|]. split; [exact Hcl1|].
  split; [done|]. unfold r2, register. cbn [r_index_counter r_by_ptr lm_index].
  split; [change (r_index_counter r1 + 1 = Z.of_nat (length arr) + 1); rewrite Hic1; by rewrite (ro_count _ _ Hr)|].
  split.
  { destruct (r_by_ptr r !! a) eqn:Hb; [|done]. destruct Hfind. right. unfold find_ptr. by rewrite Hb. }
  exists m. by rewrite Hbp1.
Qed.

(** [new_core_module] does the same. *)
Lemma new_core_module_ok name a version subscribe publish parents w arr : reg_ok (mw_registry w) arr →
  ∃ res e r', new_core_module name a version subscribe publish parents w = Some (res, put_registry r' (put_events e w)) ∧
    match res with
    | inl _ => reg_ok r' arr ∧ r_by_ptr r' = r_by_ptr (mw_registry w)
    | inr i => reg_ok r' (arr ++ [a]) ∧ i = Z.of_nat (length arr) + 1 ∧ r_by_ptr (mw_registry w) !! a = None ∧
               ∃ m, r_by_ptr r' = <[a := m]> (r_by_ptr (mw_registry w)) ∧ lm_name m = name ∧ lm_index m = i
    end.
Proof.
  intros Hr. set (r := mw_registry w) in *.
  assert (∀ b c r arr, reg_ok r arr → reg_ok (put_core b c r) arr) as Hcore.
  { intros b c r0 arr0 [[] ? ? ? ? ? ?]. by split; [split|..]. }
  unfold new_core_module, m_bind at 1, m_gets at 1. fold r.
  case_bool_decide; [by exists (inl ("module " ++ name ++ " has already been added as a non-core module")), (mw_events w), r; destruct w|].
  case_bool_decide; [by exists (inl "core module is already set"), (mw_events w), r; destruct w|].
  unfold m_bind at 1, mod_registry at 1, m_modify at 1. fold r.
  set (w1 := put_registry (put_core true (r_core r) r) w).
  destruct (module_new_ok name a version subscribe publish parents w1 arr) as (res & e & r' & Hm & Hco & Hcl & Hres).
  { by apply Hcore. }
  unfold m_bind at 1. rewrite Hm. unfold mod_registry, m_modify, m_bind, m_ret.
  destruct res as [msg|i]; (eexists _, e, _; split; [by destruct w|]).
  - destruct Hres. split; [by apply Hcore|done].
  - destruct Hres as (? & ? & ? & ?). split; [by apply Hcore, Hcore|done].
Qed.

Section adding.
Variable p : Z.
Variable base : heap.

Definition state_of (w : mworld) : runstate := c_state (common_of p (mw_sys w)).

Lemma set_error_run msg w : err_inv p base (mw_sys w) →
  ∃ s, set_error p msg w = Some (false, put_sys s w) ∧ err_inv p base s ∧ w_common s = w_common (mw_sys w).
Proof.
  intros Hi. destruct (set_error_spec p msg base _ Hi) as (s & Hs & [Hinv _ _ _ _ _ _ Hfr]).
  exists s. unfold set_error, on_sys. rewrite Hs. split; [done|]. split; [done|]. by apply Hfr.
Qed.

(** The structs agree with the tables. *)
Record modules_ok (w : mworld) : Prop := ModulesOk {
  mo_registry : reg_ok (mw_registry w) (mw_array w);
  mo_mods : ∀ a lm, r_by_ptr (mw_registry w) !! a = Some lm →
    ∃ m, mw_mods w !! a = Some m ∧ cm_name m = Some (lm_name lm) ∧ cm_index m = lm_index lm - 1
}.

(** The state between two calls: in order, as long as the configuration has not failed *)
Definition configuring (w : mworld) : Prop :=
  err_inv p base (mw_sys w) ∧
  (state_of w = STATE_CONFIGURING ∧ modules_ok w ∨ state_of w = STATE_MISCONFIGURED).

Lemma runstate_check_run doing w : configuring w →
  state_of w = STATE_CONFIGURING ∧ runstate_check p doing w = Some (true, w) ∨
  state_of w = STATE_MISCONFIGURED ∧
    ∃ s, runstate_check p doing w = Some (false, put_sys s w) ∧ configuring (put_sys s w).
Proof.
  intros [Hi [[Hs Hok]|Hs]]; unfold state_of in *; [left|right]; (split; [done|]);
    unfold runstate_check, on_sys, shuso_runstate_check; unfold m_bind at 1, m_get at 1; rewrite Hs.
  - rewrite bool_decide_eq_true_2 by done. by destruct w.
  - rewrite bool_decide_eq_false_2 by done. cbv zeta.
    unfold shuso_last_error, get_err, m_bind, m_gets, m_ret.
    match goal with |- context [shuso_set_error p ?msg _] =>
      destruct (set_error_spec p msg base _ Hi) as (s & -> & [Hinv _ _ _ _ _ _ Hfr]) end.
    exists s. split; [done|]. split; [done|]. right. unfold state_of, common_of in *. simpl.
    assert (w_common s = w_common (mw_sys w)) as -> by apply Hfr. done.
Qed.

Lemma configuring_failed s w : err_inv p base s → c_state (common_of p s) = STATE_MISCONFIGURED →
  configuring (put_sys s w).
Proof. intros Hi Hs. split; [done|]. by right. Qed.

(** [set_error] and then [set_runstate] *)
Lemma misconfigured_run w : err_inv p base (mw_sys w) →
  ∃ s, (set_runstate p STATE_MISCONFIGURED ;;; m_ret false) w = Some (false, put_sys s w) ∧
    err_inv p base s ∧ c_state (common_of p s) = STATE_MISCONFIGURED.
Proof.
  intros [Hwf Ho]. unfold set_runstate, on_sys, m_modify, m_bind, m_ret. eexists. split; [done|]. split; [done|].
  unfold common_of, upd_common. simpl. by destruct (in_master p).
Qed.

Lemma err_fails_run msg w : err_inv p base (mw_sys w) →
  ∃ s, (set_error p msg ;;; set_runstate p STATE_MISCONFIGURED ;;; m_ret false) w = Some (false, put_sys s w) ∧
    configuring (put_sys s w).
Proof.
  intros Hi. destruct (set_error_run msg w Hi) as (s1 & He & Hi1 & _). unfold m_bind at 1. rewrite He.
  destruct (misconfigured_run (put_sys s1 w)) as (s & Hs & Hi2 & Hst); [done|]. exists s. rewrite Hs.
  split; [by destruct w|]. by apply configuring_failed.
Qed.

(** A module that came into the tables, with its number, and at the end of the array *)
Lemma modules_ok_added a m name lm r' e al w :
  modules_ok w → reg_ok r' (mw_array w ++ [a]) → r_by_ptr (mw_registry w) !! a = None →
  r_by_ptr r' = <[a := lm]> (r_by_ptr (mw_registry w)) → lm_name lm = name →
  lm_index lm = Z.of_nat (length (mw_array w)) + 1 → mw_mods w !! a = Some m → cm_name m = Some name →
  modules_ok (MWorld (mw_sys w) r' e (mw_events_by_ptr w)
    (alter (set_cm_index (lm_index lm - 1)) a (mw_mods w)) (mw_array w ++ [a]) (mw_events_array w) (mw_cevents w)
    (mw_active w) al).
Proof.
  intros [Hr Hmods] Hr' Hnew Hbp Hn Hi Hm Hnm. split; simpl; [done|]. intros b lm'.
  rewrite Hbp, lookup_insert_Some. intros [[<- <-]|[Hne Hl]].
  - rewrite lookup_alter_eq, Hm. eexists. split; [done|]. by rewrite Hn.
  - rewrite lookup_alter_ne by done. by apply Hmods.
Qed.

Lemma lua_new_run (core : bool) name a version subscribe publish parents w : modules_ok w →
  ∃ res e r', (if core then new_core_module else module_new) name a version subscribe publish parents w
      = Some (res, put_registry r' (put_events e w)) ∧
    match res with
    | inl _ => True
    | inr i => reg_ok r' (mw_array w ++ [a]) ∧ i = Z.of_nat (length (mw_array w)) + 1 ∧
               r_by_ptr (mw_registry w) !! a = None ∧
               ∃ lm, r_by_ptr r' = <[a := lm]> (r_by_ptr (mw_registry w)) ∧ lm_name lm = name ∧ lm_index lm = i
    end.
Proof.
  intros [Hr _]. destruct core.
  - destruct (new_core_module_ok name a version subscribe publish parents w _ Hr) as (res & e & r' & Hrun & Hres).
    exists res, e, r'. split; [done|]. by destruct res.
  - destruct (module_new_ok name a version subscribe publish parents w _ Hr) as (res & e & r' & Hrun & _ & _ & Hres).
    exists res, e, r'. split; [done|]. by destruct res.
Qed.

(** A call of [add_module] on a module's struct *)
Lemma add_module_run core a w : configuring w → is_Some (mw_mods w !! a) →
  ∃ b w', add_module p core a w = Some (b, w') ∧ configuring w' ∧ dom (mw_mods w') = dom (mw_mods w).
Proof.
  intros Hc [m Hm]. unfold add_module. unfold m_bind at 1.
  destruct (runstate_check_run "add module" w Hc) as [[Hst ->]|(Hst & s & -> & Hc')];
    [|by exists false, (put_sys s w)].
  destruct Hc as [Hi [[_ Hok]|Hbad]]; [|congruence].
  cbv beta iota delta [negb]. unfold get_cmodule, m_bind at 1 2, m_get at 1. rewrite Hm. unfold m_ret at 1.
  assert (∀ msg, ∃ b w', set_error p msg w = Some (b, w') ∧ configuring w' ∧ dom (mw_mods w') = dom (mw_mods w)) as Herr.
  { intros msg. destruct (set_error_run msg w Hi) as (s & -> & His & Hcom). exists false, (put_sys s w).
    split_and!; [done| |done]. split; [done|]. left. unfold state_of, common_of in *. simpl. rewrite Hcom.
    split; [done|]. by destruct Hok. }
  destruct (cm_name m) as [name|] eqn:Hname; [|apply Herr]. destruct (cm_version m) as [version|]; [|apply Herr].
  destruct (lua_new_run core name a version (cm_subscribe m) (cm_publish m) (cm_parent_modules m) w Hok)
    as (res & e & r' & Hnew & Hres).
  unfold m_bind at 1. rewrite Hnew. destruct res as [msg|i].
  { unfold result_ok. unfold m_bind at 1 2.
    destruct (set_error_run msg (put_registry r' (put_events e w)) Hi) as (s1 & -> & Hi1 & _). unfold m_ret at 1.
    destruct (misconfigured_run (put_sys s1 (put_registry r' (put_events e w)))) as (s & -> & Hi2 & Hst2); [done|].
    eexists false, _. split; [done|]. split; [by apply configuring_failed|done]. }
  destruct Hres as (Hr' & -> & Hnone & lm & Hbp & Hln & Hli).
  unfold result_ok. unfold m_bind at 1, m_ret at 1. cbv beta iota zeta.
  unfold mod_cmodule, m_bind at 1, m_modify at 1. cbn [mw_mods put_registry put_events put_mods].
  unfold m_bind at 1, m_gets at 1. cbn [mw_array put_registry put_events put_mods].
  destruct (Z.leb_spec (Z.of_nat (length (mw_array w))) (Z.of_nat (length (mw_array w)) + 1 - 1)); [|lia].
  rewrite (proj2 (Z.eqb_eq _ _)) by lia. unfold m_assert. unfold m_bind at 2. unfold m_ret at 1.
  unfold palloc. unfold m_bind at 2 3 4, m_get, m_put, m_ret at 1.
  unfold m_bind at 1. destruct (has_memory _ _).
  - unfold m_bind at 1, m_modify, m_ret. cbv beta iota delta [negb]. eexists _, _. split; [done|].
    split; [|simpl; apply dom_alter_L]. split; [done|]. left. split; [done|].
    rewrite <- Hli. exact (modules_ok_added a m name lm r' e _ w Hok Hr' Hnone Hbp Hln Hli Hm Hname).
  - match goal with |- context [set_error p ?msg] => match goal with |- context [match ?f ?w0 with _ => _ end] =>
      destruct (err_fails_run msg w0 Hi) as (s & -> & Hcs) end end.
    cbv beta iota delta [negb]. eexists _, _. split; [done|]. split; [done|]. simpl. apply dom_alter_L.
Qed.

(** Calls of [add_module]: with [new_core_module] or not, on a module *)
Fixpoint add_modules (l : list (bool * Z)) : M mworld (list bool) :=
  match l with
  | [] => m_ret []
  | (core, a) :: l' => b <- add_module p core a ;; bs <- add_modules l' ;; m_ret (b :: bs)
  end.

Lemma add_modules_run l w : configuring w → Forall (λ x, is_Some (mw_mods w !! x.2)) l →
  ∃ bs w', add_modules l w = Some (bs, w') ∧ configuring w'.
Proof.
  revert w. induction l as [|[core a] l IH]; intros w Hc Hl; [by exists [], w|].
  apply Forall_cons in Hl as [Ha Hl]. simpl in Ha. unfold add_modules; fold add_modules.
  destruct (add_module_run core a w Hc Ha) as (b & w1 & Hrun & Hc1 & Hdom).
  destruct (IH w1 Hc1) as (bs & w2 & Hrun2 & Hc2).
  { eapply Forall_impl; [done|]. intros [c b'] Hb. simpl in *. rewrite <- elem_of_dom in *. by rewrite Hdom. }
  exists (b :: bs), w2. unfold m_bind, m_ret. by rewrite Hrun, Hrun2.
Qed.
End adding.
End module_new.

(** The invariant holds before the first module. *)
Lemma registry_init_ok : reg_ok registry_init [].
Proof.
  assert (∀ q, deps registry_init q = []) as Hd by (intros; unfold deps; simpl; by rewrite lookup_empty).
  split; try done.
  - split.
    + intros q. rewrite Hd. apply NoDup_nil_2.
    + intros q d i. rewrite Hd. unfold indexed. simpl. rewrite lookup_empty. simpl.
      rewrite lookup_empty, lookup_nil. naive_solver.
    + intros q d. rewrite Hd. unfold provs. simpl. rewrite lookup_empty. set_solver.
Qed.


