(* ===== verification/ModulesInit.v ===== *)
(** The initialization of modules, [shuso_master_initialize_modules] of src/src/module.c: what freezing gives every module,
    the places of modules' contexts, and the listeners of events. *)

From stdpp Require Import strings.
From S2P Require Import Prelude Heap System Modules.

#[local] Open Scope string_scope.
#[local] Open Scope Z_scope.

(** ** Freezing *)

Lemma frozen_name m : lm_name (frozen m) = lm_name m. Proof. done. Qed.

(** The registry after a module was frozen: its dependencies are added, its table is marked. *)
Record froze (qs : list string) (lm : lmodule) (r r' : registry) : Prop := Froze {
  fz_by_name : r_by_name r' = r_by_name r;
  fz_by_ptr : r_by_ptr r' = <[lm_ptr lm := frozen lm]> (r_by_ptr r);
  fz_count : r_index_counter r' = r_index_counter r;
  fz_deps : ∀ q, deps r' q = if bool_decide (q ∈ qs) then deps_add q (lm_name lm) r else deps r q;
  fz_deps_ok : deps_ok r → deps_ok r'
}.

(** Where a module's dependencies come from: it declared them, or it may subscribe to their events. *)
Definition dependency_of (r : registry) (lm : lmodule) (q : string) : Prop :=
  q ∈ declared lm ∨
  ∃ su, su ∈ lm_subscribe lm ∧ su_required su = false ∧ su_module su = q ∧ is_Some (find_name q r).

Section init.
Context `{Malloc, ModuleEnv}.
Variable p : Z.

Lemma freeze_parents_run name ps : ∀ w arr x w', reg_ok (mw_registry w) arr →
  freeze_parents name ps w = Some (inr x, w') →
  w' = put_registry (add_dependencies ps name (mw_registry w)) w.
Proof.
  induction ps as [|q ps IH]; intros w arr x w' Hr Hrun; simpl in Hrun.
  { injection Hrun as _ <-. by destruct w. }
  unfold m_bind at 1, m_gets at 1 in Hrun. destruct (find_name q (mw_registry w)) as [m|] eqn:Hm; [|done].
  apply (find_name_spec _ arr) in Hm as [_ Hn]; [|done]. rewrite Hn in Hrun.
  unfold m_bind at 1, mod_registry, m_modify in Hrun. apply (IH _ arr) in Hrun; [by rewrite Hrun; destruct w|].
  exact (reg_ok_add [q] name _ _ Hr).
Qed.

Lemma freeze_subscriptions_run name subs : ∀ w arr x w', reg_ok (mw_registry w) arr →
  freeze_subscriptions name subs w = Some (inr x, w') →
  ∃ qs, w' = put_registry (add_dependencies qs name (mw_registry w)) w ∧
    ∀ q, q ∈ qs → ∃ su, su ∈ subs ∧ su_module su = q ∧ is_Some (find_name q (mw_registry w)).
Proof.
  induction subs as [|su subs IH]; intros w arr x w' Hr Hrun; simpl in Hrun.
  { injection Hrun as _ <-. exists []. split; [by destruct w|set_solver]. }
  unfold m_bind at 1, m_gets at 1 in Hrun. destruct (find_name (su_module su) (mw_registry w)) as [m|] eqn:Hm;
    [|by destruct (su_required su)].
  pose proof Hm as Hm'. apply (find_name_spec _ arr) in Hm' as [_ Hn]; [|done].
  case_bool_decide.
  - unfold m_bind at 1, mod_registry, m_modify in Hrun. rewrite Hn in Hrun. apply (IH _ arr) in Hrun as (qs & -> & Hqs);
      [|exact (reg_ok_add [su_module su] name _ _ Hr)].
    exists (su_module su :: qs). split; [by destruct w|]. intros q [->|Hq]%elem_of_cons.
    + exists su. rewrite elem_of_cons, Hm. eauto.
    + destruct (Hqs q Hq) as (su' & Hin & Hsu & Hf). exists su'. rewrite elem_of_cons. split_and!; [auto|done|].
      destruct (same_modules_find _ _ (add_dependency_same (su_module su) name (mw_registry w))) as [Hfn _].
      simpl in Hf. by rewrite Hfn in Hf.
  - destruct (su_required su); [done|]. apply (IH _ arr) in Hrun as (qs & -> & Hqs); [|done].
    exists qs. split; [done|]. intros q Hq. destruct (Hqs q Hq) as (su' & ? & ? & ?). exists su'. set_solver.
Qed.

Lemma module_freeze_run lm x w arr w' : reg_ok (mw_registry w) arr → r_by_ptr (mw_registry w) !! lm_ptr lm = Some lm →
  module_freeze lm w = Some (inr x, w') →
  ∃ qs r', w' = put_registry r' w ∧ froze qs lm (mw_registry w) r' ∧ ∀ q, q ∈ qs → dependency_of (mw_registry w) lm q.
Proof.
  intros Hr Hlm Hrun. unfold module_freeze in Hrun. destruct (lm_frozen lm) eqn:Hf.
  { injection Hrun as _ <-. exists [], (mw_registry w). split; [by destruct w|]. split; [|set_solver].
    split; try done. rewrite insert_id; [done|]. rewrite Hlm. destruct lm. simpl in *. by subst. }
  unfold m_bind at 1 in Hrun.
  destruct (freeze_parents (lm_name lm) (lm_parents lm) w) as [[[?|[]] w1]|] eqn:Hp; try done.
  apply (freeze_parents_run _ _ _ arr) in Hp; [|done]. subst w1.
  unfold m_bind at 1 in Hrun.
  destruct (freeze_subscriptions (lm_name lm) (lm_subscribe lm) _) as [[[?|[]] w2]|] eqn:Hs; try done.
  apply (freeze_subscriptions_run _ _ _ arr) in Hs as (qs & -> & Hqs); [|by apply reg_ok_add].
  unfold m_bind, mod_registry, m_modify, returns, m_ret in Hrun. injection Hrun as _ <-.
  set (r := mw_registry w) in *. cbn [mw_registry put_registry] in *.
  assert (add_dependencies qs (lm_name lm) (add_dependencies (lm_parents lm) (lm_name lm) r)
    = add_dependencies (lm_parents lm ++ qs) (lm_name lm) r) as Heq by (unfold add_dependencies; by rewrite foldl_app).
  rewrite Heq. set (qs' := (lm_parents lm ++ qs)%list).
  destruct (add_dependencies_same qs' (lm_name lm) r) as (Hbn & Hbp & Hic & _).
  exists qs', (put_lmodule (frozen lm) (add_dependencies qs' (lm_name lm) r)).
  split; [by destruct w|]. split.
  - split; simpl; [done|by rewrite Hbp|done| |].
    + intros q. unfold deps at 1. simpl. apply add_dependencies_deps, Hr.
    + intros Hok. by destruct (add_dependencies_ok qs' (lm_name lm) r Hok).
  - intros q [Hq|Hq]%elem_of_app; [left; unfold declared; set_solver|].
    destruct (Hqs q Hq) as (su & Hin & Hsu & Hfind). destruct (su_required su) eqn:Hreq.
    + left. unfold declared, required_modules. rewrite !elem_of_app. right. left. apply list_elem_of_fmap.
      exists su. split; [done|]. rewrite list_elem_of_In, filter_In, <- list_elem_of_In. done.
    + right. exists su. split_and!; try done.
      destruct (same_modules_find _ _ (add_dependencies_same (lm_parents lm) (lm_name lm) r)) as [Hfn _].
      by rewrite Hfn in Hfind.
Qed.

Section froze.
Context (qs : list string) (lm : lmodule) (r r' : registry) (arr : list Z).
Hypothesis Hr : reg_ok r arr.
Hypothesis Hlm : r_by_ptr r !! lm_ptr lm = Some lm.
Hypothesis Hfz : froze qs lm r r'.

(** The tables of the same modules, frozen or not *)
Lemma froze_lookup a m' : r_by_ptr r' !! a = Some m' → ∃ m, r_by_ptr r !! a = Some m ∧ (m' = m ∨ m' = frozen m).
Proof.
  rewrite (fz_by_ptr _ _ _ _ Hfz), lookup_insert_Some. intros [[<- <-]|[_ Hl]]; eauto.
Qed.

Lemma froze_lookup_r a m : r_by_ptr r !! a = Some m → ∃ m', r_by_ptr r' !! a = Some m' ∧ (m' = m ∨ m' = frozen m).
Proof.
  intros Hm. rewrite (fz_by_ptr _ _ _ _ Hfz). destruct (decide (a = lm_ptr lm)) as [->|Hne].
  - rewrite lookup_insert_eq. simplify_eq. eauto.
  - rewrite lookup_insert_ne by done. eauto.
Qed.

Lemma froze_deps_mono q d : d ∈ deps r q → d ∈ deps r' q.
Proof. rewrite (fz_deps _ _ _ _ Hfz). case_bool_decide; [rewrite deps_add_in|]; auto. Qed.

Lemma froze_ok : reg_ok r' arr.
Proof.
  destruct Hr as [Hd Hn Hp Ha Hc Hm Hdec]. split.
  - by apply Hfz.
  - intros n a. rewrite (fz_by_name _ _ _ _ Hfz). intros Hna. destruct (Hn _ _ Hna) as (m & Hma & <-).
    destruct (froze_lookup_r _ _ Hma) as (m' & Hm' & [->| ->]); eauto.
  - intros a m' Hm'. rewrite (fz_by_name _ _ _ _ Hfz).
    destruct (froze_lookup _ _ Hm') as (m & Hma & [->| ->]); exact (Hp _ _ Hma).
  - intros i a Hi. destruct (Ha _ _ Hi) as (m & Hma & Hmi).
    destruct (froze_lookup_r _ _ Hma) as (m' & Hm' & [->| ->]); eauto.
  - by rewrite (fz_count _ _ _ _ Hfz).
  - done.
  - intros a m' q Hm' Hq. apply froze_deps_mono. destruct (froze_lookup _ _ Hm') as (m & Hma & [->| ->]);
      exact (Hdec _ _ _ Hma Hq).
Qed.

(** Only the module itself got places, behind the others. *)
Lemma froze_deps q : deps r' q = deps r q ∨ (deps r' q = deps r q ++ [lm_name lm])%list ∧ lm_name lm ∉ deps r q ∧ q ∈ qs.
Proof.
  rewrite (fz_deps _ _ _ _ Hfz). case_bool_decide; [|auto]. unfold deps_add. case_bool_decide; auto.
Qed.
End froze.

(** ** Places *)

(** The place of a module among those that depend on another; 255: none *)
Definition offset_of (r : registry) (provider dependent : string) : Z :=
  match list_find (λ d, d = dependent) (deps r provider) with Some (i, _) => Z.of_nat i | None => 255 end.

Lemma offset_of_found r q d i : deps_ok r → deps r q !! i = Some d → offset_of r q d = Z.of_nat i.
Proof.
  intros Hok Hi. unfold offset_of. assert (list_find (λ d', d' = d) (deps r q) = Some (i, d)) as ->; [|done].
  apply list_find_Some. split_and!; [done..|]. intros j y Hj Hlt ->.
  pose proof (NoDup_lookup _ _ _ _ (do_nodup _ Hok q) Hi Hj). lia.
Qed.

Lemma offset_of_none r q d : d ∉ deps r q → offset_of r q d = 255.
Proof.
  intros Hn. unfold offset_of. destruct (list_find _ _) as [[i y]|] eqn:Hf; [|done].
  apply list_find_Some in Hf as (Hi & -> & _). by apply list_elem_of_lookup_2 in Hi.
Qed.

Lemma offset_of_eq r r' q d : (deps r' q = deps r q ∨ ∃ d', deps r' q = (deps r q ++ [d'])%list ∧ d' ≠ d) →
  offset_of r' q d = offset_of r q d.
Proof.
  unfold offset_of. intros [->|(d' & -> & Hne)]; [done|].
  destruct (list_find (λ x, x = d) (deps r q)) as [[i y]|] eqn:Hf.
  - rewrite (list_find_app_l _ _ _ _ _ Hf). done.
  - rewrite list_find_app_r by done. simpl. by rewrite decide_False.
Qed.

(** The modules that depend on one, as pointers *)
Definition dep_ptrs (r : registry) (name : string) : option (list Z) := mapM (λ n, r_by_name r !! n) (deps r name).

Lemma dependent_modules_ptrs r arr name dl : reg_ok r arr → dependent_modules name r = Some dl →
  dep_ptrs r name = Some (lm_ptr <$> dl) ∧ deps r name = lm_name <$> dl.
Proof.
  intros Hr. unfold dependent_modules, dep_ptrs. fold (deps r name). intros Hm%mapM_Some.
  assert (Forall2 (λ n m, r_by_name r !! n = Some (lm_ptr m) ∧ n = lm_name m) (deps r name) dl) as Hf.
  { eapply Forall2_impl; [done|]. intros n m Hn. apply (find_name_spec r arr) in Hn as [Hptr <-]; [|done].
    split; [|done]. by destruct (ro_ptr _ _ Hr _ _ Hptr) as (_ & ? & _). }
  clear Hm. split.
  - apply mapM_Some. induction Hf as [|n m l dl' [Hn _] _ IH]; constructor; done.
  - induction Hf as [|n m l dl' [_ ->] _ IH]; [done|]. by rewrite fmap_cons, IH.
Qed.

Lemma place_among_spec ptr dl : NoDup (lm_ptr <$> dl) → ∀ i, 1 ≤ i →
  (∀ k d, dl !! k = Some d → lm_ptr d = ptr → place_among ptr dl i = i + Z.of_nat k) ∧
  ((∀ d, d ∈ dl → lm_ptr d ≠ ptr) → place_among ptr dl i = 0).
Proof.
  induction dl as [|d dl IH]; intros Hnd i Hi; [by split|]. simpl in *.
  apply NoDup_cons in Hnd as [Hd Hnd]. destruct (IH Hnd (i + 1)) as [IH1 IH2]; [lia|]. split.
  - intros [|k] d' Hk Hptr; simpl in Hk; simplify_eq.
    + rewrite IH2; [simpl; rewrite Z.eqb_refl; lia|]. intros d2 Hd2 Heq. destruct Hd. rewrite <- Heq.
      by apply list_elem_of_fmap_2.
    + rewrite (IH1 k d' Hk eq_refl). destruct (Z.eqb_spec (i + 1 + Z.of_nat k) 0); lia.
  - intros Hn. rewrite IH2 by set_solver. simpl. destruct (Z.eqb_spec (lm_ptr d) ptr); [|done]. by destruct (Hn d); [set_solver|].
Qed.

Lemma dependent_modules_found r arr name dl : reg_ok r arr → dependent_modules name r = Some dl →
  ∀ m, m ∈ dl → r_by_ptr r !! lm_ptr m = Some m.
Proof.
  intros Hr Hm%mapM_Some m Hin. apply list_elem_of_lookup in Hin as [i Hi].
  destruct (Forall2_lookup_r _ _ _ _ _ Hm Hi) as (n & _ & Hn).
  by apply (find_name_spec r arr) in Hn as [? _].
Qed.

Lemma dependent_modules_nodup r arr name dl : reg_ok r arr → dependent_modules name r = Some dl →
  NoDup (lm_ptr <$> dl) ∧ (length dl ≤ length arr)%nat.
Proof.
  intros Hr Hdl. destruct (dependent_modules_ptrs r arr name dl Hr Hdl) as [_ Hnames].
  pose proof (dependent_modules_found r arr name dl Hr Hdl) as Hfound.
  assert (NoDup (lm_ptr <$> dl)) as Hnd.
  { apply NoDup_fmap_2_strong.
    - intros m1 m2 H1 H2 Heq. pose proof (Hfound _ H1) as L1. rewrite Heq, (Hfound _ H2) in L1. by injection L1 as ->.
    - apply (NoDup_fmap_1 lm_name). rewrite <- Hnames. apply (do_nodup _ (ro_deps _ _ Hr)). }
  split; [done|]. rewrite <- (length_fmap lm_ptr). apply submseteq_length, NoDup_submseteq; [done|].
  intros a (m & -> & Hm)%list_elem_of_fmap. destruct (ro_ptr _ _ Hr _ _ (Hfound _ Hm)) as (_ & _ & _ & Ha).
  by apply list_elem_of_lookup_2 in Ha.
Qed.

Lemma place_offset r arr lm q dl : reg_ok r arr → r_by_ptr r !! lm_ptr lm = Some lm → dependent_modules q r = Some dl →
  place_among (lm_ptr lm) dl 1 ≠ 0 →
  place_among (lm_ptr lm) dl 1 - 1 = offset_of r q (lm_name lm) ∧ 1 ≤ place_among (lm_ptr lm) dl 1 ≤ 255.
Proof.
  intros Hr Hlm Hdl Hne. destruct (dependent_modules_nodup r arr q dl Hr Hdl) as [Hnd Hlen].
  destruct (dependent_modules_ptrs r arr q dl Hr Hdl) as [_ Hnames].
  destruct (place_among_spec (lm_ptr lm) dl Hnd 1) as [Hfound Hnone]; [lia|].
  destruct (decide (lm_ptr lm ∈ lm_ptr <$> dl)) as [Hin|Hn].
  2:{ destruct Hne. apply Hnone. intros d Hd Heq. apply Hn. rewrite <- Heq. by apply list_elem_of_fmap_2. }
  apply list_elem_of_fmap in Hin as (d & Heq & Hd).
  pose proof (dependent_modules_found r arr q dl Hr Hdl d Hd) as Hl. rewrite <- Heq, Hlm in Hl. injection Hl as <-.
  apply list_elem_of_lookup in Hd as [k Hk]. rewrite (Hfound k lm Hk eq_refl).
  assert (deps r q !! k = Some (lm_name lm)) as Hdk by by rewrite Hnames, list_lookup_fmap, Hk.
  rewrite (offset_of_found r q _ k (ro_deps _ _ Hr) Hdk).
  pose proof (ro_max _ _ Hr). unfold max_module_count in *. apply lookup_lt_Some in Hk. lia.
Qed.

(** The map of a module's places *)
Lemma index_map_run lm names : ∀ map w arr res w', reg_ok (mw_registry w) arr →
  r_by_ptr (mw_registry w) !! lm_ptr lm = Some lm → length map = length arr →
  index_map_loop (lm_ptr lm) names map w = Some (inr res, w') →
  w' = w ∧ length res = length arr ∧
  ∀ b P, r_by_ptr (mw_registry w) !! b = Some P →
    let k := Z.to_nat (lm_index P - 1) in
    if bool_decide (lm_name P ∈ names)
    then ∃ i, res !! k = Some i ∧ i - 1 = offset_of (mw_registry w) (lm_name P) (lm_name lm) ∧ 1 ≤ i ≤ 255
    else res !! k = map !! k.
Proof.
  induction names as [|q names IH]; intros map w arr res w' Hr Hlm Hlen Hrun; simpl in Hrun.
  { injection Hrun as <- <-. done. }
  unfold m_bind at 1, m_gets at 1 in Hrun. set (r := mw_registry w) in *.
  destruct (find_name q r) as [Q|] eqn:HQ; [|done].
  apply (find_name_spec r arr) in HQ as [HQl HQn]; [|done]. rewrite HQn in Hrun.
  destruct (dependent_modules q r) as [dl|] eqn:Hdl; [|done].
  destruct (Z.eqb_spec (place_among (lm_ptr lm) dl 1) 0) as [|Hne]; [done|].
  destruct (place_offset r arr lm q dl Hr Hlm Hdl Hne) as [Hoff Hrange].
  apply (IH _ w arr) in Hrun as (-> & Hl & Hmap); [|done..|by rewrite length_insert].
  split_and!; [done..|]. intros b P HP. specialize (Hmap b P HP). cbv zeta in Hmap |- *.
  destruct (decide (lm_name P ∈ names)) as [Hin|Hn].
  { rewrite bool_decide_eq_true_2 in Hmap by done. by rewrite bool_decide_eq_true_2 by set_solver. }
  rewrite bool_decide_eq_false_2 in Hmap by done. rewrite Hmap.
  destruct (ro_ptr _ _ Hr _ _ HP) as (HPp & HPn & HPi & HPa). destruct (ro_ptr _ _ Hr _ _ HQl) as (_ & HQn' & HQi & HQa).
  case_bool_decide as HPq.
  - assert (lm_name P = q) as HPeq by set_solver. rewrite HPeq, <- HQn, HQn' in HPn. injection HPn as <-.
    rewrite HQl in HP. injection HP as <-. exists (place_among (lm_ptr lm) dl 1).
    rewrite list_lookup_insert_eq; [by rewrite HQn|]. rewrite Hlen. by eapply lookup_lt_Some.
  - apply list_lookup_insert_ne. intros Heq. rewrite Heq, HPa in HQa. injection HQa as HQa.
    rewrite <- HQa, HP in HQl. injection HQl as ->. set_solver.
Qed.

(** [create_parent_modules_index_map], converted to C's numbers *)
Definition to_offset (i : Z) : Z := u8 (if 0 <? i then i - 1 else 255).

Lemma create_map_run lm w arr res w' : reg_ok (mw_registry w) arr → r_by_ptr (mw_registry w) !! lm_ptr lm = Some lm →
  create_parent_modules_index_map lm w = Some (inr res, w') →
  w' = w ∧ ∀ b P, r_by_ptr (mw_registry w) !! b = Some P →
    (to_offset <$> res) !! Z.to_nat (lm_index P - 1) = Some (offset_of (mw_registry w) (lm_name P) (lm_name lm)).
Proof.
  intros Hr Hlm Hrun. unfold create_parent_modules_index_map in Hrun. unfold m_bind, m_gets in Hrun.
  destruct (r_providers (mw_registry w) !! lm_name lm) as [ps|] eqn:Hps; [|done].
  apply (index_map_run _ _ _ _ arr) in Hrun as (-> & Hl & Hmap); [|done..|].
  2:{ rewrite length_replicate, (ro_count _ _ Hr). lia. }
  split; [done|]. intros b P HP. specialize (Hmap b P HP). cbv zeta in Hmap.
  destruct (ro_ptr _ _ Hr _ _ HP) as (_ & _ & HPi & HPa).
  rewrite list_lookup_fmap. case_bool_decide as Hin.
  - destruct Hmap as (i & -> & <- & Hi). simpl. f_equal. unfold to_offset.
    rewrite (proj2 (Z.ltb_lt 0 i)) by lia. apply u8_small. lia.
  - rewrite Hmap, lookup_replicate_2. 2:{ rewrite (ro_count _ _ Hr). apply lookup_lt_Some in HPa. lia. }
    simpl. rewrite offset_of_none; [done|]. rewrite <- (do_providers _ (ro_deps _ _ Hr)). unfold provs. rewrite Hps.
    simpl. by rewrite elem_of_elements in Hin.
Qed.

(** ** Freezing one module *)

Lemma result_ok_some {A} (res : lua_result A) w x w' : result_ok p res w = Some (Some x, w') → res = inr x ∧ w' = w.
Proof.
  unfold result_ok, m_bind, m_ret. destruct res as [msg|y]; [by destruct (set_error p msg w) as [[? ?]|]|].
  by intros [= -> ->].
Qed.

Lemma result_ok_cases {A B} (res : lua_result A) w (k : option A → M mworld B) y w' :
  (r <- result_ok p res ;; k r) w = Some (y, w') →
  (∃ x, res = inr x ∧ k (Some x) w = Some (y, w')) ∨ (∃ w1, k None w1 = Some (y, w')).
Proof.
  unfold result_ok, m_bind, m_ret. destruct res as [msg|x].
  - destruct (set_error p msg w) as [[? w1]|]; [|done]. eauto.
  - eauto.
Qed.

Lemma set_error_false msg w b w' : set_error p msg w = Some (b, w') → b = false.
Proof.
  unfold set_error, on_sys, shuso_set_error, shuso_set_error_errno, m_bind, m_ret.
  destruct (set_errno p 0 (mw_sys w)) as [[? ?]|]; [|done].
  by destruct (shuso_set_error_internal_vararg p msg _) as [[? ?]|]; [intros [= <- _]|].
Qed.

Lemma palloc_cases {B} sz w (k : bool → M mworld B) y w' : (ok <- palloc sz ;; k ok) w = Some (y, w') →
  ∃ ok al, k ok (put_allocs al w) = Some (y, w').
Proof. unfold palloc, m_bind, m_get, m_put, m_ret. eauto. Qed.

Lemma shuso_module_freeze_run a w w' arr m : reg_ok (mw_registry w) arr → mw_mods w !! a = Some m →
  shuso_module_freeze p a w = Some (true, w') →
  ∃ lm qs map subs, r_by_ptr (mw_registry w) !! a = Some lm ∧ froze qs lm (mw_registry w) (mw_registry w') ∧
    (∀ q, q ∈ qs → dependency_of (mw_registry w) lm q) ∧ mw_array w' = mw_array w ∧
    mw_mods w' = <[a := set_cm_submodules subs (set_cm_map map m)]> (mw_mods w) ∧
    dep_ptrs (mw_registry w') (lm_name lm) = Some subs ∧
    ∀ b P, r_by_ptr (mw_registry w') !! b = Some P →
      map !! Z.to_nat (lm_index P - 1) = Some (offset_of (mw_registry w') (lm_name P) (lm_name lm)).
Proof.
  intros Hr Hm Hrun. unfold shuso_module_freeze in Hrun. unfold m_bind at 1, m_gets at 1 in Hrun.
  destruct (find_ptr a (mw_registry w)) as [lm|] eqn:Hlm; apply result_ok_cases in Hrun as [(x & [= <-] & Hrun)|[w1 Hrun]];
    try done.
  unfold find_ptr in Hlm. destruct (ro_ptr _ _ Hr _ _ Hlm) as (Hptr & _). rewrite <- Hptr in Hlm.
  unfold m_bind at 1 in Hrun. destruct (module_freeze lm w) as [[res w1]|] eqn:Hf; [|done].
  apply result_ok_cases in Hrun as [(x & -> & Hrun)|[w2 Hrun]]; [|done].
  destruct (module_freeze_run lm x w arr w1 Hr Hlm Hf) as (qs & r1 & -> & Hfz & Hqs).
  pose proof (froze_ok qs lm _ r1 arr Hr Hlm Hfz) as Hr1.
  assert (r_by_ptr r1 !! lm_ptr lm = Some (frozen lm)) as Hlm1.
  { rewrite (fz_by_ptr _ _ _ _ Hfz). apply lookup_insert_eq. }
  unfold m_bind at 1 in Hrun. destruct (create_parent_modules_index_map lm _) as [[res w2]|] eqn:Hc; [|done].
  apply result_ok_cases in Hrun as [(map & -> & Hrun)|[w3 Hrun]]; [|done].
  apply (create_map_run (frozen lm) _ arr) in Hc as [-> Hmap]; [|done..].
  apply palloc_cases in Hrun as (ok & al & Hrun). destruct ok; [|by apply set_error_false in Hrun].
  cbv beta iota delta [negb] in Hrun.
  unfold mod_cmodule in Hrun. unfold m_bind at 1, m_modify at 1 in Hrun. unfold m_bind at 1, m_gets at 1 in Hrun.
  cbn [mw_registry put_mods put_allocs put_registry] in Hrun.
  destruct (dependent_modules (lm_name lm) r1) as [dl|] eqn:Hdl; [|done].
  destruct (dependent_modules_ptrs r1 arr _ dl Hr1 Hdl) as [Hptrs _].
  assert (alter (set_cm_map (to_offset <$> map)) a (mw_mods w) = <[a := set_cm_map (to_offset <$> map) m]> (mw_mods w)) as Halt.
  { apply map_eq. intros b. destruct (decide (b = a)) as [->|];
      [by rewrite lookup_alter_eq, lookup_insert_eq, Hm|by rewrite lookup_alter_ne, lookup_insert_ne]. }
  exists lm, qs, (to_offset <$> map), (lm_ptr <$> dl). rewrite Hptr in Hlm.
  assert (∃ al, w' = put_mods (alter (set_cm_submodules (lm_ptr <$> dl)) a
             (alter (set_cm_map (to_offset <$> map)) a (mw_mods w))) (put_allocs al (put_registry r1 w))) as [al' ->].
  { destruct dl as [|d dl].
    - unfold m_bind, m_modify, m_ret in Hrun. injection Hrun as <-. by exists al.
    - apply palloc_cases in Hrun as (ok & al' & Hrun). destruct ok; [|by apply set_error_false in Hrun].
      unfold m_bind, m_modify, m_ret in Hrun. injection Hrun as <-. by exists al'. }
  split_and!; try done. simpl. rewrite Halt. apply map_eq. intros b.
  destruct (decide (b = a)) as [->|]; [by rewrite lookup_alter_eq, !lookup_insert_eq|
    by rewrite lookup_alter_ne, !lookup_insert_ne].
Qed.

(** ** Freezing all modules *)

(** No module may subscribe to an event of a module that was added earlier unless it depends on that module in
    any case. *)
Definition no_late_subscription (r : registry) : Prop :=
  ∀ a m su P, r_by_ptr r !! a = Some m → su ∈ lm_subscribe m → su_required su = false →
    find_name (su_module su) r = Some P → lm_index P < lm_index m → lm_name m ∈ deps r (lm_name P).

(** What freezing gives a module: the modules that depend on it, and its own places with all modules *)
Definition has_places (r : registry) (lm : lmodule) (m : cmodule) : Prop :=
  dep_ptrs r (lm_name lm) = Some (cm_submodules m) ∧
  ∀ b P, r_by_ptr r !! b = Some P →
    cm_parent_modules_index_map m !! Z.to_nat (lm_index P - 1) = Some (offset_of r (lm_name P) (lm_name lm)).

Record freezing (F : list Z) (w : mworld) : Prop := Freezing {
  fr_ok : modules_ok w;
  fr_late : no_late_subscription (mw_registry w);
  fr_places : ∀ a lm m, a ∈ F → r_by_ptr (mw_registry w) !! a = Some lm → mw_mods w !! a = Some m →
    has_places (mw_registry w) lm m
}.

Lemma froze_late qs lm r r' arr : reg_ok r arr → r_by_ptr r !! lm_ptr lm = Some lm → froze qs lm r r' →
  no_late_subscription r → no_late_subscription r'.
Proof.
  intros Hr Hlm Hfz Hlate a m' su P' Hm' Hsu Hreq HP' Hlt.
  pose proof (froze_ok qs lm r r' arr Hr Hlm Hfz) as Hr'.
  apply (find_name_spec r' arr) in HP' as [HPl HPn]; [|done].
  destruct (froze_lookup qs lm r r' Hlm Hfz _ _ Hm') as (m & Hm & Hme).
  destruct (froze_lookup qs lm r r' Hlm Hfz _ _ HPl) as (P & HP & HPe).
  apply (froze_deps_mono qs lm r r' Hfz).
  assert (lm_name m ∈ deps r (lm_name P)) as Hin; [|by destruct Hme as [->| ->], HPe as [->| ->]].
  apply (Hlate a m su P); [done|by destruct Hme as [->| ->]|done| |by destruct Hme as [->| ->], HPe as [->| ->]].
  apply (find_name_spec r arr); [done|].
  destruct HPe as [->| ->]; (split; [|exact HPn]); [done|]. exact HP.
Qed.

(** A dependency of the module that is being frozen on one that was frozen before is not new. *)
Lemma early_dependency r arr lm q P : reg_ok r arr → no_late_subscription r → r_by_ptr r !! lm_ptr lm = Some lm →
  dependency_of r lm q → find_name q r = Some P → lm_index P < lm_index lm → lm_name lm ∈ deps r q.
Proof.
  intros Hr Hlate Hlm [Hq|(su & Hsu & Hreq & <- & _)] HP Hlt.
  - by eapply (ro_declared _ _ Hr).
  - pose proof HP as HP'. apply (find_name_spec r arr) in HP' as [_ HPn]; [|done]. rewrite <- HPn.
    by eapply Hlate.
Qed.

Lemma index_before r arr F a l b lm lm' : reg_ok r arr → arr = (F ++ a :: l)%list → b ∈ F →
  r_by_ptr r !! a = Some lm → r_by_ptr r !! b = Some lm' → lm_index lm' < lm_index lm.
Proof.
  intros Hr Harr Hb Hlm Hlm'. apply list_elem_of_lookup in Hb as [i Hi].
  destruct (ro_array _ _ Hr i b) as (m1 & Hm1 & Hi1). { rewrite Harr. by apply lookup_app_l_Some. }
  destruct (ro_array _ _ Hr (length F) a) as (m2 & Hm2 & Hi2). { rewrite Harr. by rewrite lookup_app_r, Nat.sub_diag. }
  simplify_eq. apply lookup_lt_Some in Hi. lia.
Qed.

(** The places that a module was given do not change when a later one is frozen. *)
Lemma has_places_kept r r' arr qs lm lm' m : reg_ok r arr → no_late_subscription r → r_by_ptr r !! lm_ptr lm = Some lm →
  froze qs lm r r' → (∀ q, q ∈ qs → dependency_of r lm q) →
  r_by_ptr r !! lm_ptr lm' = Some lm' → lm_index lm' < lm_index lm → has_places r lm' m → has_places r' lm' m.
Proof.
  intros Hr Hlate Hlm Hfz Hqs Hlm' Hlt [Hsub Hmap].
  assert (deps r' (lm_name lm') = deps r (lm_name lm')) as Hd.
  { destruct (froze_deps qs lm r r' Hfz (lm_name lm')) as [?|(_ & Hn & Hq)]; [done|]. destruct Hn.
    eapply early_dependency; try done; [by apply Hqs|]. by apply (find_name_spec r arr). }
  split.
  - unfold dep_ptrs. by rewrite Hd, (fz_by_name _ _ _ _ Hfz).
  - intros b P' HP'. destruct (froze_lookup qs lm r r' Hlm Hfz _ _ HP') as (P & HP & HPe).
    assert (offset_of r' (lm_name P) (lm_name lm') = offset_of r (lm_name P) (lm_name lm')) as Hoff.
    { apply offset_of_eq. destruct (froze_deps qs lm r r' Hfz (lm_name P)) as [?|(He & _)]; [by left|right].
      exists (lm_name lm). split; [done|]. intros Heq.
      destruct (ro_ptr _ _ Hr _ _ Hlm) as (_ & Hn1 & _), (ro_ptr _ _ Hr _ _ Hlm') as (_ & Hn2 & _).
      rewrite Heq, Hn2 in Hn1. injection Hn1 as Hn1. rewrite Hn1, Hlm in Hlm'. injection Hlm' as ->. lia. }
    specialize (Hmap b P HP). destruct HPe as [->| ->]; simpl; by rewrite Hoff.
Qed.

Lemma freezing_step F a l w w' : freezing F w → mw_array w = (F ++ a :: l)%list →
  shuso_module_freeze p a w = Some (true, w') → freezing (F ++ [a]) w' ∧ mw_array w' = mw_array w.
Proof.
  intros [[Hr Hmods] Hlate Hplaces] Harr Hrun.
  destruct (ro_array _ _ Hr (length F) a) as (lm & Hlm & _). { rewrite Harr. by rewrite lookup_app_r, Nat.sub_diag. }
  destruct (Hmods a lm Hlm) as (m & Hm & Hmn & Hmi).
  destruct (shuso_module_freeze_run a w w' _ m Hr Hm Hrun)
    as (lm0 & qs & map & subs & Hlm0 & Hfz & Hqs & Harr' & Hmods' & Hptrs & Hmap).
  rewrite Hlm in Hlm0. injection Hlm0 as <-. destruct (ro_ptr _ _ Hr _ _ Hlm) as (Hptr & _).
  assert (r_by_ptr (mw_registry w) !! lm_ptr lm = Some lm) as Hlmp by by rewrite Hptr.
  split; [|done]. split.
  - split; [rewrite Harr'; by eapply froze_ok|]. intros b lm' Hb.
    destruct (froze_lookup _ _ _ _ Hlmp Hfz _ _ Hb) as (lb & Hlb & Hlbe). rewrite Hmods'.
    destruct (decide (b = a)) as [->|Hne].
    + rewrite Hlm in Hlb. injection Hlb as <-. rewrite lookup_insert_eq. eexists. split; [done|].
      by destruct Hlbe as [->| ->].
    + rewrite lookup_insert_ne by done. destruct (Hmods b lb Hlb) as (mb & ? & ? & ?). exists mb.
      by destruct Hlbe as [->| ->].
  - by eapply froze_late.
  - intros b lm' mb Hb Hlb Hmb. rewrite Hmods' in Hmb.
    destruct (froze_lookup _ _ _ _ Hlmp Hfz _ _ Hlb) as (lb & Hlb0 & Hlbe).
    assert (has_places (mw_registry w') lb mb) as Hhp; [|by destruct Hlbe as [->| ->]].
    destruct (decide (b = a)) as [->|Hne].
    + rewrite lookup_insert_eq in Hmb. injection Hmb as <-. rewrite Hlm in Hlb0. injection Hlb0 as <-. by split.
    + rewrite lookup_insert_ne in Hmb by done.
      assert (b ∈ F) as HbF by (apply elem_of_app in Hb as [?|Hb%list_elem_of_singleton]; done).
      pose proof (index_before _ _ F a l b lm lb Hr Harr HbF Hlm Hlb0).
      destruct (ro_ptr _ _ Hr _ _ Hlb0) as (Hbp & _).
      eapply (has_places_kept (mw_registry w)); try done; [by rewrite Hbp|]. by eapply Hplaces.
Qed.

Lemma freeze_loop_run l : ∀ F w w', freezing F w → mw_array w = (F ++ l)%list → freeze_loop p l w = Some (true, w') →
  freezing (F ++ l) w' ∧ mw_array w' = mw_array w.
Proof.
  induction l as [|a l IH]; intros F w w' Hf Harr Hrun; simpl in Hrun.
  { injection Hrun as <-. by rewrite app_nil_r. }
  unfold m_bind in Hrun. destruct (shuso_module_freeze p a w) as [[[] w1]|] eqn:Ha; [|done..].
  destruct (freezing_step F a l w w1 Hf Harr Ha) as [Hf1 Harr1].
  rewrite cons_middle, app_assoc in Harr |- *. rewrite <- Harr1 in Harr |- *. by eapply IH.
Qed.

(** ** What initialization and finalization leave alone *)

Definition keeps {A} (m : M mworld A) : Prop :=
  ∀ w x w', m w = Some (x, w') →
    mw_registry w' = mw_registry w ∧ mw_mods w' = mw_mods w ∧ mw_array w' = mw_array w.

Lemma kept_ret {A} (x : A) : keeps (m_ret x).
Proof. by intros w y w' [= <- <-]. Qed.
Lemma kept_get : keeps m_get.
Proof. by intros w y w' [= <- <-]. Qed.
Lemma kept_gets {A} (f : mworld → A) : keeps (m_gets f).
Proof. by intros w y w' [= <- <-]. Qed.
Lemma kept_abort {A} : keeps (m_abort (A := A)).
Proof. by intros w y w' [=]. Qed.
Lemma kept_assert b : keeps (m_assert b).
Proof. destruct b; [apply kept_ret|apply kept_abort]. Qed.
Lemma kept_bind {A B} (m : M mworld A) (k : A → M mworld B) : keeps m → (∀ x, keeps (k x)) → keeps (x <- m ;; k x).
Proof.
  intros Hm Hk w y w' Hrun. unfold m_bind in Hrun. destruct (m w) as [[x w1]|] eqn:H1; [|done].
  destruct (Hm _ _ _ H1) as (?&?&?), (Hk _ _ _ _ Hrun) as (?&?&?). split_and!; congruence.
Qed.
Lemma keeps_get_bind {B} (k : mworld → M mworld B) : (∀ w, (∀ y w', k w w = Some (y, w') →
    mw_registry w' = mw_registry w ∧ mw_mods w' = mw_mods w ∧ mw_array w' = mw_array w)) → keeps (w <- m_get ;; k w).
Proof. intros Hk w y w' Hrun. by eapply Hk. Qed.
Lemma keeps_modify f : (∀ w, mw_registry (f w) = mw_registry w ∧ mw_mods (f w) = mw_mods w ∧ mw_array (f w) = mw_array w) →
  keeps (m_modify f).
Proof. intros Hf w y w' [= _ <-]. apply Hf. Qed.
Lemma keeps_on_sys {A} (m : M world A) : keeps (on_sys m).
Proof. intros w y w' Hrun. unfold on_sys in Hrun. destruct (m _) as [[? ?]|]; [|done]. by injection Hrun as _ <-. Qed.
Lemma keeps_palloc sz : keeps (palloc sz).
Proof. by intros w y w' [= _ <-]. Qed.
Lemma kept_set_error msg : keeps (set_error p msg).
Proof. apply keeps_on_sys. Qed.
Lemma keeps_result_ok {A} (r : lua_result A) : keeps (result_ok p r).
Proof. destruct r; [apply kept_bind; [apply kept_set_error|intros; apply kept_ret]|apply kept_ret]. Qed.
Lemma keeps_get_cmodule a : keeps (get_cmodule a).
Proof. apply kept_bind; [apply kept_get|]. intros w. destruct (mw_mods w !! a); [apply kept_ret|apply kept_abort]. Qed.

Create HintDb keeps.
Hint Resolve kept_ret kept_get kept_gets kept_abort kept_assert keeps_on_sys keeps_palloc kept_set_error
  keeps_result_ok keeps_get_cmodule : keeps.

(** Go through a computation; what it writes is left. *)
Ltac keeps :=
  repeat first
    [ progress (eauto with keeps nocore)
    | apply keeps_modify; by intros
    | apply kept_bind; [|intros]
    | progress cbv zeta
    | match goal with |- keeps (match ?x with _ => _ end) => destruct x end ].

Lemma keeps_add_listener key e a fn pd priority : keeps (add_listener key e a fn pd priority).
Proof.
  unfold add_listener. apply kept_bind; [keeps|]. intros _. apply keeps_get_bind. intros w y w'.
  destruct (find_ptr a (mw_registry w)); [destruct (le_ptr e)|]; [destruct (negb _)|..]; by intros [= _ <-].
Qed.

Lemma keeps_initialize_event a ei : keeps (initialize_event a ei).
Proof.
  unfold initialize_event. apply keeps_get_bind. intros w y w'. destruct (find_ptr a (mw_registry w)); [|by intros [= _ <-]].
  destruct (negb _); [by intros [= _ <-]|]. cbv zeta. destruct (mw_events w !! _) as [e|]; [|done].
  destruct (le_ptr e); by intros [= _ <-].
Qed.
Hint Resolve keeps_add_listener keeps_initialize_event : keeps.

Lemma keeps_event_initialize a ei : keeps (shuso_event_initialize p a ei).
Proof. unfold shuso_event_initialize, runstate_check. keeps. Qed.
Hint Resolve keeps_event_initialize : keeps.

Lemma keeps_events_initialize a eis : keeps (shuso_events_initialize p a eis).
Proof. induction eis as [|ei eis IH]; simpl; keeps. Qed.

Lemma keeps_listen_continue found optional fn pd priority : keeps (event_listen_continue p found optional fn pd priority).
Proof. unfold event_listen_continue. keeps. Qed.
Hint Resolve keeps_events_initialize keeps_listen_continue : keeps.

Lemma keeps_run_action a act : keeps (run_action p a act).
Proof.
  destruct act; simpl; [keeps| | |keeps].
  - unfold shuso_event_by_name_listen_with_priority. keeps.
  - unfold shuso_event_by_pointer_listen_with_priority. keeps.
Qed.
Hint Resolve keeps_run_action : keeps.

Lemma keeps_run_init a f : keeps (run_init p a f).
Proof.
  apply kept_bind; [|keeps]. induction (if_actions f) as [|act acts IH]; simpl; keeps.
Qed.

Lemma keeps_set_active a : keeps (set_active a).
Proof. unfold set_active. keeps. Qed.
Lemma keeps_error_count : keeps (error_count p).
Proof. apply keeps_on_sys. Qed.
Hint Resolve keeps_run_init keeps_set_active keeps_error_count : keeps.

Lemma keeps_initialize_loop fn_of always prev l : keeps (initialize_loop p fn_of always prev l).
Proof. induction l as [|a l IH]; simpl; keeps. Qed.

Lemma keeps_check_listeners name ls : keeps (check_listeners p name ls).
Proof. induction ls as [|l ls IH]; simpl; keeps. Qed.
Hint Resolve keeps_check_listeners : keeps.

Lemma keeps_finalize_events m es : keeps (finalize_events p m es).
Proof. induction es as [|e es IH]; simpl; keeps. Qed.
Hint Resolve keeps_finalize_events : keeps.

Lemma keeps_finalize_loop prev l : keeps (finalize_loop p prev l).
Proof. induction l as [|a l IH]; simpl; [keeps|]. unfold shuso_module_finalize. keeps. Qed.

(** ** Contexts *)

Lemma freezing_keeps F w w' : freezing F w →
  mw_registry w' = mw_registry w ∧ mw_mods w' = mw_mods w ∧ mw_array w' = mw_array w → freezing F w'.
Proof.
  intros [[Hr Hm] Hl Hp] (Er & Em & Ea). split; [split|..]; rewrite ?Er, ?Em, ?Ea; try done.
Qed.

Lemma master_initialized w w' : modules_ok w → no_late_subscription (mw_registry w) →
  shuso_master_initialize_modules p w = Some (true, w') → freezing (mw_array w') w' ∧ mw_array w' = mw_array w.
Proof.
  intros Hok Hlate Hrun. unfold shuso_master_initialize_modules in Hrun. unfold m_bind at 1, m_get at 1 in Hrun.
  set (ev := if mw_events_array w then _ else _) in Hrun.
  assert (keeps ev) as Hev by (unfold ev; keeps).
  unfold m_bind at 1 in Hrun. destruct (ev w) as [[[] w1]|] eqn:H1; [| |done].
  2:{ by apply set_error_false in Hrun. }
  pose proof (Hev _ _ _ H1) as Hk1. clear Hev H1 ev. cbv beta iota delta [negb] in Hrun.
  unfold m_bind at 1, m_gets at 1 in Hrun.
  unfold m_bind at 1 in Hrun. destruct (freeze_loop p (mw_array w1) w1) as [[[] w2]|] eqn:H2; [|done..].
  assert (freezing [] w1) as Hf1.
  { apply (freezing_keeps [] w); [|done]. split; [done..|]. intros a lm m Ha. by apply elem_of_nil in Ha. }
  apply (freeze_loop_run _ [] _ _ Hf1 eq_refl) in H2 as [Hf2 Ha2].
  cbv beta iota in Hrun. unfold m_bind at 1, m_gets at 1 in Hrun.
  unfold m_bind at 1 in Hrun. destruct (initialize_loop p cm_initialize false _ _ w2) as [[[] w3]|] eqn:H3; [|done..].
  apply keeps_initialize_loop in H3. cbv beta iota in Hrun.
  unfold m_bind at 1 in Hrun. destruct (finalize_loop p _ _ w3) as [[[] w4]|] eqn:H4; [|done..].
  apply keeps_finalize_loop in H4. cbv beta iota in Hrun. unfold m_bind, set_active, m_modify, m_ret in Hrun.
  injection Hrun as <-. simpl in *.
  assert (mw_array w4 = mw_array w) as -> by (destruct Hk1 as (_&_&?), H3 as (_&_&?), H4 as (_&_&?); congruence).
  split; [|done]. apply (freezing_keeps _ w4); [|done]. apply (freezing_keeps _ w3); [|done]. apply (freezing_keeps _ w2); [|done].
  destruct Hk1 as (_ & _ & <-). exact Hf2.
Qed.

(** Where a context is, which depends on the modules' structs only *)
Lemma context_offset_run v a P m M o : mw_mods v !! a = Some P → mw_mods v !! m = Some M →
  cm_parent_modules_index_map M !! Z.to_nat (cm_index P) = Some o → o ≠ 255 →
  context_offset p a m v = Some (Some o, v).
Proof.
  intros HP HM Ho Hne. unfold context_offset, get_cmodule, m_bind, m_get. rewrite HM. unfold m_ret. rewrite HP, Ho.
  by destruct (Z.eqb_spec o 255).
Qed.

Lemma dep_ptrs_bound r arr q l : reg_ok r arr → dep_ptrs r q = Some l →
  NoDup l ∧ (∀ m, m ∈ l → m ∈ arr) ∧ (length l ≤ 255)%nat.
Proof.
  intros Hr Hl%mapM_Some.
  assert (∀ j m, l !! j = Some m → ∃ lm, r_by_ptr r !! m = Some lm ∧ deps r q !! j = Some (lm_name lm)) as Hlook.
  { intros j m Hj. destruct (Forall2_lookup_r _ _ _ _ _ Hl Hj) as (n & Hn & Hm).
    destruct (ro_name _ _ Hr _ _ Hm) as (lm & ? & <-). eauto. }
  assert (NoDup l) as Hnd.
  { apply NoDup_alt. intros j1 j2 b Hj1 Hj2. destruct (Hlook _ _ Hj1) as (l1 & ? & ?), (Hlook _ _ Hj2) as (l2 & ? & ?).
    simplify_eq. eapply NoDup_lookup; [apply (do_nodup _ (ro_deps _ _ Hr))|done..]. }
  assert (∀ m, m ∈ l → m ∈ arr) as Hin.
  { intros m [j Hj]%list_elem_of_lookup. destruct (Hlook _ _ Hj) as (lm & Hlm & _).
    destruct (ro_ptr _ _ Hr _ _ Hlm) as (_ & _ & _ & Hm). by apply list_elem_of_lookup_2 in Hm. }
  split_and!; [done..|]. pose proof (submseteq_length _ _ (NoDup_submseteq _ _ Hnd Hin)).
  pose proof (ro_max _ _ Hr). unfold max_module_count in *. lia.
Qed.

(** The modules that a parent has are those with a place, each at its own. *)
Lemma submodule_offset w a P m i : freezing (mw_array w) w → a ∈ mw_array w → mw_mods w !! a = Some P →
  cm_submodules P !! i = Some m →
  ∃ M lm, r_by_ptr (mw_registry w) !! m = Some lm ∧ mw_mods w !! m = Some M ∧
    cm_parent_modules_index_map M !! Z.to_nat (cm_index P) = Some (Z.of_nat i) ∧ Z.of_nat i < 255 ∧ m ∈ mw_array w.
Proof.
  intros [[Hr Hmods] _ Hplaces] Ha HP Hi. apply list_elem_of_lookup in Ha as [k Hk].
  destruct (ro_array _ _ Hr _ _ Hk) as (lp & Hlp & _). destruct (Hmods _ _ Hlp) as (P' & HP' & _ & HPi). simplify_eq.
  destruct (Hplaces a lp P) as [Hsub _]; [by eapply list_elem_of_lookup_2|done..|].
  pose proof Hsub as Hsub'. apply mapM_Some in Hsub'. destruct (Forall2_lookup_r _ _ _ _ _ Hsub' Hi) as (n & Hn & Hnm).
  destruct (ro_name _ _ Hr _ _ Hnm) as (lm & Hlm & <-). destruct (Hmods _ _ Hlm) as (M & HM & _).
  destruct (ro_ptr _ _ Hr _ _ Hlm) as (_ & _ & _ & Hma). apply list_elem_of_lookup_2 in Hma.
  exists M, lm. split_and!; try done.
  - destruct (Hplaces m lm M Hma Hlm HM) as [_ Hmap]. rewrite HPi, (Hmap a lp Hlp). f_equal.
    apply offset_of_found; [apply Hr|done].
  - destruct (dep_ptrs_bound _ _ _ _ Hr Hsub) as (_ & _ & Hle). apply lookup_lt_Some in Hi. lia.
Qed.

End init.

(** ** Examples *)

#[export] Instance demo_env : ModuleEnv := {
  pairs_order _ _ l := l; pairs_order_perm _ _ l := Permutation_refl l;
  setting_ok _ _ := true; variable_ok _ _ := true; has_memory _ _ := true
}.

Definition demo_module (name subscribe publish parents : string) (init : list init_action) : cmodule :=
  CModule (Some name) (Some "1.0.0") subscribe publish parents [] [] (Some (InitFn init true)) None 0 [] [].

(** A core module with an event, a module that publishes two, one that listens to both, and a submodule of it *)
Definition demo_modules : list cmodule := [
  demo_module "core" "" "stop" "" [ActInitialize [EventInit "stop" 500 None None]];
  demo_module "a" "core:stop" " x y" ""
    [ActInitialize [EventInit "x" 600 None None; EventInit "y" 700 None None]; ActListen "core:stop" 11 12 0];
  demo_module "b" "a:x core:stop" "" "" [ActListen "a:x" 13 14 0; ActListen "core:stop" 15 16 (-127)];
  demo_module "c" "core:stop" "" "b" [ActListen "core:stop" 17 18 127] ].

(** The modules' structs are at the addresses 1, 2 and so on; the first is the core. *)
Definition demo_world (l : list cmodule) : mworld :=
  MWorld world_init registry_init ∅ ∅ (list_to_map (zip (Z.of_nat <$> seq 1 (length l)) l)) [] false ∅ None [].
Definition demo_calls (l : list cmodule) : list (bool * Z) :=
  (λ i, ((i =? 1)%nat, Z.of_nat i)) <$> seq 1 (length l).

Definition world_after {A} (m : M mworld A) (w : mworld) : mworld :=
  match m w with Some (_, w') => w' | None => w end.
Definition demo_added (l : list cmodule) : mworld :=
  world_after (add_modules SHUTTLESOCK_MASTER (demo_calls l)) (demo_world l).
Definition demo_initialized (l : list cmodule) : mworld :=
  world_after (shuso_master_initialize_modules SHUTTLESOCK_MASTER) (demo_added l).

Definition succeeds (r : option (bool * mworld)) : bool := match r with Some (true, _) => true | _ => false end.

Lemma run_succeeds (m : M mworld bool) w : succeeds (m w) = true → m w = Some (true, world_after m w).
Proof. unfold succeeds, world_after. by destruct (m w) as [[[] ?]|]. Qed.

Lemma demo_structs l : Forall (λ x, is_Some (mw_mods (demo_world l) !! x.2)) (demo_calls l).
Proof.
  apply Forall_fmap, Forall_forall. intros i Hi. simpl. apply elem_of_seq in Hi.
  set (ks := Z.of_nat <$> seq 1 (length l)).
  assert (Z.of_nat i ∈ dom (list_to_map (zip ks l) : gmap Z cmodule)) as Hd; [|by apply elem_of_dom].
  rewrite dom_list_to_map_L. apply elem_of_list_to_set. rewrite fst_zip by (unfold ks; by rewrite length_fmap, length_seq).
  apply list_elem_of_fmap. exists i. split; [done|]. apply elem_of_seq. lia.
Qed.

Lemma demo_added_ok l : bool_decide (state_of SHUTTLESOCK_MASTER (demo_added l) = STATE_CONFIGURING) = true →
  modules_ok (demo_added l).
Proof.
  intros Hst%bool_decide_eq_true.
  destruct (add_modules_run SHUTTLESOCK_MASTER ∅ (demo_calls l) (demo_world l)) as (bs & w' & Hrun & _ & Hw').
  - split; [apply world_init_errors|]. left. split; [done|]. split; [apply registry_init_ok|].
    intros a lm Ha. simpl in Ha. by rewrite lookup_empty in Ha.
  - apply demo_structs.
  - unfold demo_added, world_after in *. rewrite Hrun in Hst |- *. destruct Hw' as [[_ ?]|?]; [done|congruence].
Qed.

Lemma all_required r : bool_decide (map_Forall (λ _ m, Forall (λ su, su_required su = true) (lm_subscribe m)) (r_by_ptr r)) = true →
  no_late_subscription r.
Proof.
  intros Hall%bool_decide_eq_true a m su P Hm Hsu Hreq. specialize (Hall a m Hm). rewrite Forall_forall in Hall.
  specialize (Hall su Hsu). congruence.
Qed.


