(* ===== verification/ModulesEvents.v ===== *)
(** The listeners of events: the order in which event.lua keeps them and [shuso_module_finalize] of
    src/src/module.c writes them for [fire_event]; and where the module system goes wrong. *)

From Stdlib Require Import Sorted Ascii.
From stdpp Require Import strings.
From S2P Require Import Prelude Heap System Modules ModulesInit.

#[local] Open Scope string_scope.
#[local] Open Scope Z_scope.

(** ** The order of listeners *)

Definition with_priority (q : Z) (ls : list llistener) : list llistener :=
  List.filter (λ l, ll_priority l =? q) ls.

(** Listeners by falling priority; of those with the same one the last comes first, except that those with the
    lowest are in the order in which they came. *)
Definition by_priority (regs ls : list llistener) : Prop :=
  StronglySorted (λ x y, ll_priority y ≤ ll_priority x) ls ∧
  ∀ q, with_priority q ls = if q =? LAST_PRIORITY then with_priority q regs else rev (with_priority q regs).

(** Where a listener is put *)
Definition splits_at (l : llistener) (ls1 ls2 : list llistener) : Prop :=
  Forall (λ v, ll_priority l ≤ ll_priority v) ls1 ∧ Forall (λ v, ll_priority v ≤ ll_priority l) ls2 ∧
  if ll_priority l =? LAST_PRIORITY then ls2 = [] else Forall (λ v, ll_priority v ≠ ll_priority l) ls1.

Lemma insert_listener_split l ls : StronglySorted (λ x y, ll_priority y ≤ ll_priority x) ls →
  ll_priority l ≠ LAST_PRIORITY → ∃ ls1 ls2, ls = (ls1 ++ ls2)%list ∧ insert_listener l ls = (ls1 ++ l :: ls2)%list ∧ splits_at l ls1 ls2.
Proof.
  intros Hs Hne. unfold splits_at. rewrite (proj2 (Z.eqb_neq _ _) Hne).
  induction Hs as [|v ls Hs IH Hv]; [by exists [], []|]. simpl. destruct (Z.leb_spec (ll_priority v) (ll_priority l)) as [Hle|Hlt].
  - exists [], (v :: ls). split_and!; [done..| |done]. constructor; [done|]. eapply Forall_impl; [done|]. simpl. lia.
  - destruct IH as (ls1 & ls2 & -> & -> & H1 & H2 & H3). exists (v :: ls1), ls2.
    split_and!; [done..| | |]; [constructor; [lia|done]|done|constructor; [lia|done]].
Qed.

Lemma place_listener_split l ls : StronglySorted (λ x y, ll_priority y ≤ ll_priority x) ls →
  Forall (λ v, LAST_PRIORITY ≤ ll_priority v ≤ FIRST_PRIORITY) (l :: ls) →
  ∃ ls1 ls2, ls = (ls1 ++ ls2)%list ∧ place_listener l ls = (ls1 ++ l :: ls2)%list ∧ splits_at l ls1 ls2.
Proof.
  intros Hs [Hl Hr]%Forall_cons. unfold place_listener. destruct (Z.eqb_spec (ll_priority l) LAST_PRIORITY) as [He|Hne].
  - exists ls, []. unfold splits_at. rewrite app_nil_r, He. split_and!; [done..| |done|done].
    eapply Forall_impl; [done|]. simpl. lia.
  - destruct (Z.eqb_spec (ll_priority l) FIRST_PRIORITY) as [He|Hne2]; [|by apply insert_listener_split].
    exists [], ls. unfold splits_at. rewrite (proj2 (Z.eqb_neq _ _) Hne). split_and!; [done..| |done].
    rewrite He. eapply Forall_impl; [done|]. simpl. lia.
Qed.

Lemma sorted_middle l ls1 ls2 : StronglySorted (λ x y, ll_priority y ≤ ll_priority x) (ls1 ++ ls2) → splits_at l ls1 ls2 →
  StronglySorted (λ x y, ll_priority y ≤ ll_priority x) (ls1 ++ l :: ls2).
Proof.
  intros Hs (H1 & H2 & _). induction ls1 as [|v ls1 IH]; simpl in *; [by constructor|].
  apply StronglySorted_inv in Hs as [Hs Hv]. apply Forall_cons in H1 as [Hlv H1].
  constructor; [by apply IH|]. apply Forall_app in Hv as [Hv1 Hv2]. apply Forall_app. split; [done|by constructor].
Qed.

Lemma with_priority_none q ls : Forall (λ v, ll_priority v ≠ q) ls → with_priority q ls = [].
Proof. induction 1 as [|v ls Hv _ IH]; [done|]. simpl. by rewrite (proj2 (Z.eqb_neq _ _) Hv). Qed.

Lemma place_listener_ok l regs ls : Forall (λ v, LAST_PRIORITY ≤ ll_priority v ≤ FIRST_PRIORITY) (l :: ls) →
  by_priority regs ls → by_priority (regs ++ [l]) (place_listener l ls).
Proof.
  intros Hr [Hs Hq]. destruct (place_listener_split l ls Hs Hr) as (ls1 & ls2 & -> & -> & Hsp).
  split; [by apply sorted_middle|]. intros q. destruct Hsp as (_ & _ & Hsp). specialize (Hq q).
  unfold with_priority in *. rewrite !List.filter_app in *. simpl.
  destruct (Z.eqb_spec (ll_priority l) q) as [<-|Hne].
  - destruct (ll_priority l =? LAST_PRIORITY).
    + subst ls2. simpl in *. rewrite app_nil_r in Hq. by rewrite Hq.
    + rewrite rev_app_distr. simpl. apply with_priority_none in Hsp. unfold with_priority in Hsp. rewrite Hsp in *.
      simpl in *. by rewrite Hq.
  - rewrite app_nil_r. exact Hq.
Qed.

(** ** Listening and finalizing *)

Section listening.
Context `{Malloc, ModuleEnv}.
Variable p : Z.

(** Modules listen to an event, one after the other, until one fails. *)
Fixpoint listen_all (name : string) (regs : list llistener) : M mworld bool :=
  match regs with
  | [] => m_ret true
  | l :: regs' =>
      set_active (Some (ll_module l)) ;;;
      ok <- shuso_event_by_name_listen_with_priority p name (ll_fn l) (ll_pd l) (ll_priority l) ;;
      if ok : bool then listen_all name regs' else m_ret false
  end.

Lemma listen_run (name : string) fn pd priority a w w' : (∀ s, name ≠ String "~"%char s) → mw_active w = Some a →
  shuso_event_by_name_listen_with_priority p name fn pd priority w = Some (true, w') →
  ∃ e, mw_events w !! name = Some e ∧ LAST_PRIORITY ≤ priority ≤ FIRST_PRIORITY ∧
    w' = put_events (<[name := set_listeners (place_listener (LListener a fn pd priority) (le_listeners e)) e]> (mw_events w)) w.
Proof.
  intros Hname Ha. unfold shuso_event_by_name_listen_with_priority.
  assert (match name with
          | String c name' => if is_char "~" c then (true, name') else (false, name)
          | EmptyString => (false, name)
          end = (false, name)) as ->.
  { destruct name as [|c s]; [done|]. unfold is_char. case_bool_decide; [|done]. subst. by destruct (Hname s). }
  unfold m_bind at 1, m_get at 1. unfold event_listen_continue, event_find.
  destruct (negb _); [by intros ?%set_error_false|]. destruct (mw_events w !! name) as [e|] eqn:He; [|by intros ?%set_error_false].
  unfold m_bind at 1, m_get at 1. rewrite He, Ha. simpl. unfold m_bind at 1, add_listener, m_assert.
  destruct (_ && _) eqn:Hrange; [|done]. apply andb_true_iff in Hrange as [?%Z.leb_le ?%Z.leb_le].
  unfold m_ret at 1. unfold m_bind at 1 2, m_get. cbv zeta.
  destruct (find_ptr a (mw_registry w)); [destruct (le_ptr e)|]; [destruct (negb _)|..];
    try (unfold fails, m_ret; by intros ?%set_error_false).
  unfold m_bind, m_put, returns, m_ret. intros [= <-]. exists e. by split_and!.
Qed.

Definition listeners_at (name : string) (w : mworld) : list llistener := from_option le_listeners [] (mw_events w !! name).

(** An event with the same listeners apart *)
Definition same_event (e e' : levent) : Prop := e' = set_listeners (le_listeners e') e.

Lemma listen_all_run name regs : ∀ done w w' e, (∀ s, name ≠ String "~"%char s) → mw_events w !! name = Some e →
  Forall (λ v, LAST_PRIORITY ≤ ll_priority v ≤ FIRST_PRIORITY) (le_listeners e) → by_priority done (le_listeners e) →
  listen_all name regs w = Some (true, w') →
  mw_registry w' = mw_registry w ∧ mw_mods w' = mw_mods w ∧
  (∀ k, k ≠ name → mw_events w' !! k = mw_events w !! k) ∧
  ∃ e', mw_events w' !! name = Some e' ∧ same_event e e' ∧ by_priority (done ++ regs) (le_listeners e').
Proof.
  induction regs as [|l regs IH]; intros dn w w' e Hname He Hrange Hby Hrun; simpl in Hrun.
  { injection Hrun as <-. rewrite app_nil_r. split_and!; [done..|]. exists e. split_and!; [done| |done]. by destruct e. }
  unfold m_bind at 1, set_active, m_modify in Hrun. unfold m_bind in Hrun.
  destruct (shuso_event_by_name_listen_with_priority p name _ _ _ _) as [[[] w1]|] eqn:Hl; [|done..].
  apply (listen_run _ _ _ _ (ll_module l)) in Hl as (e0 & He0 & Hpr & ->); [|done..]. simpl in He0.
  rewrite He in He0. injection He0 as <-. destruct l as [a fn pd pr]. simpl in *.
  eapply (IH (dn ++ [LListener a fn pd pr])%list) in Hrun; [|done|apply lookup_insert_eq|..].
  - destruct Hrun as (Hreg & Hm & Hoth & e' & He' & Hse & Hb). simpl in *. split_and!; [done..| |].
    + intros k Hk. rewrite Hoth by done. by rewrite lookup_insert_ne.
    + exists e'. split_and!; [done|by rewrite Hse|by rewrite <- app_assoc in Hb].
  - simpl. destruct Hby as [Hs _].
    destruct (place_listener_split (LListener a fn pd pr) (le_listeners e) Hs) as (l1 & l2 & Heq & -> & _); [by constructor|].
    rewrite Heq in Hrange. apply Forall_app in Hrange as [? ?]. apply Forall_app. split; [done|by constructor].
  - simpl. apply place_listener_ok; [by constructor|done].
Qed.

Lemma check_listeners_run name ls : ∀ w b w', check_listeners p name ls w = Some (b, w') → ∃ s, w' = put_sys s w.
Proof.
  induction ls as [|l ls IH]; intros w b w' Hrun; simpl in Hrun.
  { injection Hrun as _ <-. exists (mw_sys w). by destruct w. }
  unfold get_cmodule, m_bind at 1 2, m_get at 1 in Hrun. destruct (mw_mods w !! _) as [m|]; [|done].
  unfold m_ret at 1 in Hrun. destruct (cm_name m) as [n|]; [|done]. unfold m_bind at 1, m_gets at 1 in Hrun.
  unfold m_bind, result_ok in Hrun. destruct (dependency_index name n (mw_registry w)) as [msg|i].
  - unfold set_error, m_bind, on_sys, m_ret in Hrun. destruct (shuso_set_error p msg (mw_sys w)) as [[? s]|]; [|done].
    injection Hrun as _ <-. by exists s.
  - by apply IH in Hrun.
Qed.

Definition to_clistener (l : llistener) : clistener := CListener (ll_module l) (ll_fn l) (ll_pd l).

(** What is written for one event *)
Definition event_written (m : lmodule) (ev : levent) (ptr : Z) (w : mworld) : Prop :=
  mw_cevents w !! ptr
  = Some (CEvent (le_name ev) (le_data_type ev) (le_handler ev) (lm_index m - 1) (to_clistener <$> le_listeners ev)).

Lemma finalize_events_run m es : ∀ w w', finalize_events p m es w = Some (true, w') →
  mw_events w' = mw_events w ∧
  (∀ q, (∀ e ev, e ∈ es → mw_events w !! full_name (lm_name m) e = Some ev → le_ptr ev ≠ Some q) →
     mw_cevents w' !! q = mw_cevents w !! q) ∧
  ∀ e ev ptr, e ∈ es → mw_events w !! full_name (lm_name m) e = Some ev → le_ptr ev = Some ptr →
    (∀ e2 ev2, e2 ∈ es → mw_events w !! full_name (lm_name m) e2 = Some ev2 → le_ptr ev2 = Some ptr → e2 = e) →
    event_written m ev ptr w'.
Proof.
  induction es as [|e es IH]; intros w w' Hrun; simpl in Hrun.
  { injection Hrun as <-. split_and!; [done..|]. intros e ev ptr He. by apply elem_of_nil in He. }
  unfold m_bind at 1, m_get at 1 in Hrun.
  destruct (mw_events w !! full_name (lm_name m) e) as [[n mn ls [ptr|] dt h]|] eqn:He; [|done..].
  cbv zeta in Hrun. unfold m_bind at 1, m_modify at 1 in Hrun. apply palloc_cases in Hrun as (ok & al & Hrun).
  destruct ok; [|by apply set_error_false in Hrun]. cbv beta iota delta [negb] in Hrun.
  unfold m_bind at 1 in Hrun. destruct (check_listeners p (lm_name m) ls _) as [[[] w1]|] eqn:Hc; [|done..].
  apply check_listeners_run in Hc as [s ->]. cbv beta iota in Hrun. unfold m_bind at 1, m_modify at 1 in Hrun.
  apply IH in Hrun as (Hev & Hq & Hw). simpl in Hev, Hq, Hw. split_and!; [done| |].
  - intros q Hnq. rewrite Hq by (intros; eapply Hnq; [by apply list_elem_of_further|done]).
    assert (ptr ≠ q) by (intros ->; by eapply (Hnq e); [apply list_elem_of_here|exact He|]).
    by rewrite !lookup_insert_ne.
  - intros e' ev ptr' Hin Hev' Hptr Huniq. destruct (decide (e' ∈ es)) as [Hin'|Hn].
    + apply (Hw e'); try done. intros e2 ev2 He2. apply Huniq. by apply list_elem_of_further.
    + apply elem_of_cons in Hin as [->|]; [|done]. rewrite He in Hev'. injection Hev' as <-. simpl in Hptr.
      injection Hptr as ->. unfold event_written. rewrite Hq; [by rewrite lookup_insert_eq|].
      intros e2 ev2 He2 Hev2 Hp2. assert (e2 = e) as -> by by eapply Huniq; [by apply list_elem_of_further|..]. done.
Qed.

(** C25: listeners are called by priority.  If modules listened to an event, each successfully and in whatever
    order and with whatever priorities, then the array that finalizing the publishing module
    writes into the event's struct, and that [fire_event] walks, has exactly these listeners: by falling priority,
    the later one first among equals, those with the lowest priority in the order in which they came. *)
Theorem listeners_by_priority name ev_name regs w w1 w2 a lm e ptr
  (Hname : name = full_name (lm_name lm) ev_name) (Htilde : ∀ s, name ≠ String "~"%char s)
  (Hlm : r_by_ptr (mw_registry w) !! a = Some lm) (Hpublish : ev_name ∈ lm_publish lm)
  (He : mw_events w !! name = Some e) (Hptr : le_ptr e = Some ptr) (Hnone : le_listeners e = [])
  (Hown : ∀ k ev, mw_events w !! k = Some ev → le_ptr ev = Some ptr → k = name)
  (Hlisten : listen_all name regs w = Some (true, w1))
  (Hfinal : shuso_module_finalize p a w1 = Some (true, w2)) :
  ∃ ls ce, mw_cevents w2 !! ptr = Some ce ∧ ce_listeners ce = to_clistener <$> ls ∧ by_priority regs ls.
Proof.
  apply (listen_all_run name regs [] w w1 e Htilde He) in Hlisten as (Hreg & _ & Hoth & e' & He' & Hsame & Hby);
    rewrite ?Hnone; [|by constructor|].
  2:{ split; [constructor|]. intros q. by destruct (q =? LAST_PRIORITY). }
  exists (le_listeners e'). unfold shuso_module_finalize in Hfinal. unfold m_bind at 1, m_get at 1 in Hfinal.
  rewrite Hreg in Hfinal. unfold find_ptr in Hfinal. rewrite Hlm in Hfinal.
  apply (result_ok_cases p) in Hfinal as [(x & [= <-] & Hfinal)|[? ?]]; [|done].
  apply (result_ok_cases p) in Hfinal as [(x & _ & Hfinal)|[? ?]]; [|done].
  apply finalize_events_run in Hfinal as (_ & _ & Hw).
  assert (event_written lm e' ptr w2) as Hwr.
  { apply (Hw ev_name); [done|by rewrite <- Hname|by rewrite Hsame|]. intros e2 ev2 Hin He2 Hp2.
    assert (full_name (lm_name lm) e2 = name) as Heq.
    { destruct (decide (full_name (lm_name lm) e2 = name)) as [|Hne]; [done|]. rewrite Hoth in He2 by done. by eapply Hown. }
    rewrite Hname in Heq. unfold full_name in Heq. by apply (inj (String.append _)), (inj (String.append _)) in Heq. }
  eexists. split; [exact Hwr|]. done.
Qed.
End listening.

(** ** Examples *)

(** Three modules listen to the event of the first. *)
Definition listening_world : mworld :=
  world_after (shuso_event_initialize SHUTTLESOCK_MASTER 1 (EventInit "stop" 500 None None)) (demo_added demo_modules).
Definition demo_regs : list llistener :=
  [LListener 2 11 12 0; LListener 3 13 14 (-127); LListener 4 15 16 0; LListener 2 17 18 (-127); LListener 3 19 20 127].
Definition listened_world : mworld := world_after (listen_all SHUTTLESOCK_MASTER "core:stop" demo_regs) listening_world.

Lemma listeners_by_priority_witness :
  ∃ ls ce, mw_cevents (world_after (shuso_module_finalize SHUTTLESOCK_MASTER 1) listened_world) !! 500 = Some ce ∧
    ce_listeners ce = to_clistener <$> ls ∧ by_priority demo_regs ls.
Proof.
  apply (listeners_by_priority SHUTTLESOCK_MASTER "core:stop" "stop" demo_regs listening_world listened_world _ 1
           (LModule "core" 1 [] [] ["stop"] 1 false) (LEvent "stop" "core" [] (Some 500) None None) 500).
  - done.
  - done.
  - by vm_compute.
  - by apply list_elem_of_singleton.
  - by vm_compute.
  - done.
  - done.
  - assert (bool_decide (map_Forall (λ k ev, le_ptr ev = Some 500 → k = "core:stop") (mw_events listening_world)) = true)
      as Hall%bool_decide_eq_true by by vm_compute. exact Hall.
  - apply run_succeeds. by vm_compute.
  - apply run_succeeds. by vm_compute.
Defined.

(** A module that may subscribe to an event of an earlier one, and one that may subscribe to one of a module that is
    not there *)
Definition late_modules : list cmodule := demo_modules ++ [demo_module "d" "~a:y" "" "" []].
Definition absent_modules : list cmodule := demo_modules ++ [demo_module "d" "~z:y" "" "" []].
(** A module whose initialization for a worker does nothing *)
Definition worker_module : cmodule :=
  CModule (Some "core") (Some "1.0.0") "" "" "" [] [] None (Some (InitFn [] true)) 0 [] [].

Definition contexts_of (w : mworld) (parent : Z) : list (option Z) :=
  match shuso_context_list_initialize SHUTTLESOCK_MASTER parent [] w with Some ((_, cl), _) => cl | None => [] end.

