(* ===== verification/IpcFd.v ===== *)
(** Passing file descriptors between processes: the coroutines of src/src/ipc.c that send and receive
    them over a process's socket, on the operations of Io.v, the buffer of messages of Buffer.v and the table of
    receivers that src/src/ipc.c keeps in Lua's registry. *)

From stdpp Require Import strings.
From S2P Require Import Prelude Heap Pool System Buffer Io.

#[local] Open Scope string_scope.
#[local] Open Scope Z_scope.

Definition SOL_SOCKET : Z := 1.
Definition SCM_RIGHTS : Z := 1.

(** ** Coroutines with state of their own

    [W] has a [shuso_io_t] in it.  What a coroutine does between its operations changes the rest of [W]. *)
Class HasIo (W : Type) := { the_io : W → iow; with_io : iow → W → W }.

Section has_io.
Context `{Malloc} `{HasIo W}.

Definition on_io {X} (m : M iow X) : M W X :=
  λ w, match m (the_io w) with Some (x, i) => Some (x, with_io i w) | None => None end.

(** The handler that only notes that it was called. *)
Definition note_handler : M iow unit :=
  io <- get_io ;; m_modify (log_handled (CallHandler (io_result io) (io_error io))).

(** Run an operation up to its last step, the call of the handler; whether it comes to it. *)
Definition completes (op : M iow unit → M iow unit) : M W bool :=
  n <- m_gets (λ w, length (w_handled (the_io w))) ;;
  on_io (op note_handler) ;;;
  m_gets (λ w, (n <? length (w_handled (the_io w)))%nat).

(** [shuso_io_run_handler]; the coroutines here have no error handler. *)
Definition run_coroutine (coroutine : M W unit) : M W unit := coroutine ;;; on_io shuso_io_watch_update.
End has_io.

(** ** A message with a descriptor *)

(** The first control message, [CMSG_FIRSTHDR]: its length, level and type, and the first [int] of its data *)
Record cmsg := Cmsg { cm_len : Z; cm_level : Z; cm_type : Z; cm_fd : Z }.
(** What [recvmsg] puts into [msghdr_buf]: the control message, if there is one, and the two words *)
Record rmsg := RMsg { rm_cmsg : option cmsg; rm_ref : Z; rm_pd : Z }.

Definition fd_message (fd ref pd : Z) : rmsg := RMsg (Some (Cmsg CMSG_LEN_int SOL_SOCKET SCM_RIGHTS fd)) ref pd.

(** ** Receiving *)

(** A table that [shuso_ipc_receive_fd_start] makes *)
Record receiver := Receiver { rc_callback : Z; rc_privdata : Z; rc_description : string }.
(** A timer in a userdata: the reference it was made for, whether it is started, whether its memory is still there *)
Record rtimer := RTimer { rt_ref : Z; rt_active : bool; rt_live : bool }.
(** A call of a receiver: the function and [ok], [ref], [fd], [received_pd] and [pd] *)
Record fd_call := FdCall { fc_callback : Z; fc_ok : bool; fc_ref : Z; fc_fd : Z; fc_received_pd : Z; fc_pd : Z }.

Record recvw := RecvW {
  rv_iow : iow;                       (* [S->ipc.io.receive.fd] *)
  rv_sys : world;
  rv_privdata : option Z;             (* [io->privdata] *)
  rv_incoming : list rmsg;            (* what the next calls of [recvmsg] that succeed find *)
  rv_receivers : gmap Z receiver;     (* "shuttlesock.ipc.fd_receivers" in Lua's registry *)
  rv_timer : option Z;                (* its field [timer] *)
  rv_freed : list Z;                  (* the references that were given back *)
  rv_timers : gmap Z rtimer;
  rv_calls : list fd_call;
  rv_closed : list Z                  (* descriptors that were closed *)
}.

Definition put_rv_iow (i : iow) (w : recvw) : recvw :=
  RecvW i (rv_sys w) (rv_privdata w) (rv_incoming w) (rv_receivers w) (rv_timer w) (rv_freed w) (rv_timers w)
    (rv_calls w) (rv_closed w).
Definition put_rv_sys (s : world) (w : recvw) : recvw :=
  RecvW (rv_iow w) s (rv_privdata w) (rv_incoming w) (rv_receivers w) (rv_timer w) (rv_freed w) (rv_timers w)
    (rv_calls w) (rv_closed w).
Definition put_rv_privdata (p : option Z) (w : recvw) : recvw :=
  RecvW (rv_iow w) (rv_sys w) p (rv_incoming w) (rv_receivers w) (rv_timer w) (rv_freed w) (rv_timers w)
    (rv_calls w) (rv_closed w).
Definition put_rv_incoming (l : list rmsg) (w : recvw) : recvw :=
  RecvW (rv_iow w) (rv_sys w) (rv_privdata w) l (rv_receivers w) (rv_timer w) (rv_freed w) (rv_timers w)
    (rv_calls w) (rv_closed w).
Definition put_rv_receivers (r : gmap Z receiver) (freed : list Z) (w : recvw) : recvw :=
  RecvW (rv_iow w) (rv_sys w) (rv_privdata w) (rv_incoming w) r (rv_timer w) freed (rv_timers w)
    (rv_calls w) (rv_closed w).
Definition put_rv_timers (t : option Z) (ts : gmap Z rtimer) (w : recvw) : recvw :=
  RecvW (rv_iow w) (rv_sys w) (rv_privdata w) (rv_incoming w) (rv_receivers w) t (rv_freed w) ts
    (rv_calls w) (rv_closed w).
Definition log_fd_call (c : fd_call) (w : recvw) : recvw :=
  RecvW (rv_iow w) (rv_sys w) (rv_privdata w) (rv_incoming w) (rv_receivers w) (rv_timer w) (rv_freed w) (rv_timers w)
    (rv_calls w ++ [c]) (rv_closed w).
Definition log_closed (fd : Z) (w : recvw) : recvw :=
  RecvW (rv_iow w) (rv_sys w) (rv_privdata w) (rv_incoming w) (rv_receivers w) (rv_timer w) (rv_freed w) (rv_timers w)
    (rv_calls w) (rv_closed w ++ [fd]).

#[export] Instance recvw_has_io : HasIo recvw := {| the_io := rv_iow; with_io := put_rv_iow |}.

(** [luaL_ref]: a key that is not in use, given those that are and those that were given back, the latest first *)
Class LuaRefs := {
  luaL_ref : gset Z → list Z → Z;
  luaL_ref_fresh : ∀ used freed, luaL_ref used freed ∉ used
}.

Section receiving.
Context `{Malloc, LuaRefs}.
(** The process that receives, and what the callbacks do: which references they give to
    [shuso_ipc_receive_fd_finish]. *)
Variable p : Z.
Variable finishes : fd_call → list Z.

Definition rv_set_error (msg : string) : M recvw bool :=
  λ w, match shuso_set_error p msg (rv_sys w) with Some (b, s) => Some (b, put_rv_sys s w) | None => None end.

(** *** The table of receivers *)

(** [timeout_sec] only matters for its sign. *)
Definition shuso_ipc_receive_fd_start (description : string) (timeout_sec callback pd : Z) : M recvw Z :=
  w <- m_get ;;
  let ref := luaL_ref (dom (rv_receivers w)) (rv_freed w) in
  m_put (put_rv_receivers (<[ref := Receiver callback pd description]> (rv_receivers w))
           (List.filter (λ r, negb (r =? ref)) (rv_freed w)) w) ;;;
  (if 0 <? timeout_sec then
     let timer := fresh (dom (rv_timers w)) in
     m_modify (λ w, put_rv_timers (Some timer) (<[timer := RTimer ref true true]> (rv_timers w)) w)
   else m_ret tt) ;;;
  m_ret ref.

(** The receiver's table has been popped when [callback], [privdata] and [timer] are read: they are those of the
    table of receivers, which has only a [timer]. *)
Definition shuso_ipc_receive_fd_stop_generic (call : fd_call → M recvw unit) (ref : Z) (run_callback : bool) :
    M recvw bool :=
  w <- m_get ;;
  match rv_receivers w !! ref with
  | None => rv_set_error "no ipc fd receiver found with that reference"
  | Some _ =>
      (if run_callback then call (FdCall 0 false ref (-1) 0 0) else m_ret tt) ;;;
      w <- m_get ;;
      (match rv_timer w with
       | None => m_ret tt
       | Some timer =>
           match rv_timers w !! timer with
           | Some (RTimer r true true) => m_modify (put_rv_timers (rv_timer w) (<[timer := RTimer r false true]> (rv_timers w)))
           | Some (RTimer _ false true) => m_ret tt
           | _ => m_abort
           end
       end) ;;;
      m_modify (λ w, put_rv_receivers (delete ref (rv_receivers w)) (ref :: rv_freed w) w) ;;;
      m_ret true
  end.

Definition shuso_ipc_receive_fd_finish (ref : Z) : M recvw bool :=
  shuso_ipc_receive_fd_stop_generic (λ _, m_ret tt) ref false.

(** A callback is called; what it does is to finish references. *)
Fixpoint finish_all (refs : list Z) : M recvw unit :=
  match refs with [] => m_ret tt | r :: refs' => shuso_ipc_receive_fd_finish r ;;; finish_all refs' end.
Definition call_back (c : fd_call) : M recvw unit :=
  m_assert (negb (fc_callback c =? 0)) ;;; m_modify (log_fd_call c) ;;; finish_all (finishes c).

Definition shuso_ipc_receive_fd_cancel (ref : Z) : M recvw bool :=
  shuso_ipc_receive_fd_stop_generic call_back ref true.

(** The event loop calls [ipc_receive_fd_timeout_cb] when a timer runs out; a timer without memory is undefined
    behaviour. *)
Definition ipc_receive_fd_timeout_cb (timer : Z) : M recvw unit :=
  w <- m_get ;;
  match rv_timers w !! timer with
  | Some (RTimer ref true true) =>
      m_put (put_rv_timers (rv_timer w) (<[timer := RTimer ref false true]> (rv_timers w)) w) ;;;
      shuso_ipc_receive_fd_finish ref ;;; m_ret tt
  | Some (RTimer _ false _) => m_ret tt
  | _ => m_abort
  end.

(** Lua's garbage collector keeps what can be reached: the timer in the table. *)
Definition collect_timers : M recvw unit :=
  m_modify (λ w, put_rv_timers (rv_timer w)
    (map_imap (λ a t, Some (RTimer (rt_ref t) (rt_active t) (rt_live t && bool_decide (rv_timer w = Some a))))
       (rv_timers w)) w).

(** The end of [shuso_ipc_channel_local_stop]: the loop over the table's keys, integers and the string [timer], looks
    for those that are tables. *)
Inductive lua_key := KeyInt (n : Z) | KeyString (s : string) | KeyTable.
Definition receiver_keys (w : recvw) : list lua_key :=
  ((λ kv, KeyInt kv.1) <$> map_to_list (rv_receivers w)) ++
  match rv_timer w with Some _ => [KeyString "timer"] | None => [] end.
Fixpoint cancel_receivers (keys : list lua_key) : M recvw unit :=
  match keys with
  | [] => m_ret tt
  | KeyTable :: keys' => shuso_ipc_receive_fd_cancel 0 ;;; cancel_receivers keys'
  | _ :: keys' => cancel_receivers keys'
  end.
Definition stop_receivers : M recvw unit := w <- m_get ;; cancel_receivers (receiver_keys w).

(** *** The coroutine *)

(** [ref] is an [int] here. *)
Definition ipc_handle_received_socket (fd ref pd : Z) : M recvw unit :=
  w <- m_get ;;
  match rv_receivers w !! s32 ref with
  | None => m_modify (log_closed fd)
  | Some rc => call_back (FdCall (rc_callback rc) true (s32 ref) fd (rc_privdata rc) pd)
  end.

(** What follows [recvmsg]: the message that was received, if one was. *)
Definition handle_message (m : rmsg) : M recvw unit :=
  match rm_cmsg m with
  | None => rv_set_error "bad cmsghdr while receiving fd" ;;; m_ret tt
  | Some c =>
      if negb (cm_len c =? CMSG_LEN_int) then rv_set_error "bad cmsghdr while receiving fd" ;;; m_ret tt
      else if negb (cm_level c =? SOL_SOCKET) then rv_set_error "bad cmsg_level while receiving fd" ;;; m_ret tt
      else if negb (cm_type c =? SCM_RIGHTS) then rv_set_error "bad cmsg_type while receiving fd" ;;; m_ret tt
      else ipc_handle_received_socket (cm_fd c) (rm_ref m) (rm_pd m)
  end.

(** [msghdr_buf_t]: the message, the two words, the iovec and the control message *)
Definition sizeof_msghdr_buf : Z := 112.
Definition iov_buf_of (buf : Z) : Z := buf + 56.
Definition iov_of (buf : Z) : Z := buf + 72.

Definition prepare_message (buf : Z) : M iow unit :=
  m_modify (λ i, put_msgs (<[buf := (iov_of buf, 1)]> (w_msgs i))
                   (put_mem (w_heap i) (<[iov_of buf := (iov_buf_of buf, 16)]> (w_iovs i)) i)).
Definition forget_message (buf : Z) : M iow unit :=
  m_modify (λ i, put_msgs (delete buf (w_msgs i)) (put_mem (w_heap i) (delete (iov_of buf) (w_iovs i)) i)).

Definition on_heap {X} (m : M heap X) : M iow X :=
  λ i, match m (w_heap i) with Some (x, h) => Some (x, put_mem h (w_iovs i) i) | None => None end.

(** The message that [recvmsg] found; there is none at the end of the stream. *)
Definition received : M recvw rmsg :=
  w <- m_get ;;
  if io_result (w_io (rv_iow w)) =? 0 then m_ret (RMsg None 0 0)
  else
    m_put (put_rv_incoming (tail (rv_incoming w)) w) ;;;
    m_ret (default (RMsg None 0 0) (head (rv_incoming w))).

Section coroutine.
Variable run_handler : M recvw unit.

(** The top of the loop *)
Definition receive_next (buf : Z) : M recvw unit :=
  on_io (prepare_message buf) ;;;
  on_io (mod_io (set_stage 1)) ;;;
  called <- completes (λ rh, shuso_io_recvmsg rh buf 0) ;;
  if called : bool then run_handler else m_ret tt.

Definition ipc_receive_msg_fd_coroutine : M recvw unit :=
  w <- m_get ;;
  buf <- (match rv_privdata w with
          | Some buf => m_ret buf
          | None =>
              r <- on_io (on_heap (h_malloc sizeof_msghdr_buf)) ;;
              match r with
              | Some buf => m_modify (put_rv_privdata (Some buf)) ;;; m_ret buf
              | None => m_abort
              end
          end) ;;
  io <- on_io get_io ;;
  match io_handler_stage io with
  | O => receive_next buf
  | S _ =>
      if negb (io_error io =? 0) then
        on_io (forget_message buf) ;;; on_io (on_heap (h_free buf)) ;;;
        m_modify (put_rv_privdata None) ;;;
        on_io (mod_io (set_stage 0))
      else if io_result io =? -1 then
        rv_set_error "recvmsg failed with code (-1)" ;;; receive_next buf
      else
        m <- received ;; handle_message m ;;; receive_next buf
  end.
End coroutine.

(** [fuel] bounds the messages that are received at once. *)
Fixpoint receive_handler (fuel : nat) : M recvw unit :=
  match fuel with
  | O => m_abort
  | S fuel' => run_coroutine (ipc_receive_msg_fd_coroutine (receive_handler fuel'))
  end.

(** [shuso_io_start(&S->ipc.io.receive.fd)] in [shuso_ipc_channel_local_start] *)
Definition receive_start (fuel : nat) : M recvw unit :=
  io <- on_io get_io ;;
  m_assert (bool_decide (io_handler_stage io = O)) ;;;
  on_io (mod_io (λ io, set_num 0 (set_data 0 io))) ;;;
  receive_handler fuel.

(** The event loop finds the socket readable; the kernel has these answers and messages. *)
Definition receive_ready (fuel : nat) (sys : list sysres) (msgs : list rmsg) : M recvw unit :=
  on_io (m_modify (Io.put_sys sys)) ;;;
  m_modify (λ w, put_rv_incoming (rv_incoming w ++ msgs) w) ;;;
  called <- completes (λ rh, ev_watcher_handler rh EV_READ) ;;
  if called : bool then receive_handler fuel else m_ret tt.
End receiving.

(** ** Sending *)

Record sendw (A : Type) := SendW {
  sw_iow : iow;                    (* [send->fd] *)
  sw_sys : world;
  sw_buf : buffer A;               (* [send->fd_msg_buf] *)
  sw_data : gmap Z (Z * Z);        (* the two words behind each message *)
  sw_socket : list rmsg            (* the messages the kernel has taken *)
}.
Arguments SendW {A}.
Arguments sw_iow {A}.
Arguments sw_sys {A}.
Arguments sw_buf {A}.
Arguments sw_data {A}.
Arguments sw_socket {A}.

Section sending.
Context `{Malloc} `{BM : BufMem A}.
Variable p : Z.

Definition put_sw_iow (i : iow) (w : sendw A) : sendw A := SendW i (sw_sys w) (sw_buf w) (sw_data w) (sw_socket w).
Definition put_sw_sys (s : world) (w : sendw A) : sendw A := SendW (sw_iow w) s (sw_buf w) (sw_data w) (sw_socket w).
Definition put_sw_buf (b : buffer A) (w : sendw A) : sendw A := SendW (sw_iow w) (sw_sys w) b (sw_data w) (sw_socket w).
Definition put_sw_data (d : gmap Z (Z * Z)) (w : sendw A) : sendw A :=
  SendW (sw_iow w) (sw_sys w) (sw_buf w) d (sw_socket w).
Definition put_sw_socket (l : list rmsg) (w : sendw A) : sendw A :=
  SendW (sw_iow w) (sw_sys w) (sw_buf w) (sw_data w) l.

#[export] Instance sendw_has_io : HasIo (sendw A) := {| the_io := sw_iow; with_io := put_sw_iow |}.

Definition on_buf {X} (m : M (buffer A) X) : M (sendw A) X :=
  λ w, match m (sw_buf w) with Some (x, b) => Some (x, put_sw_buf b w) | None => None end.
Definition sw_set_error (msg : string) : M (sendw A) bool :=
  λ w, match shuso_set_error p msg (sw_sys w) with Some (b, s) => Some (b, put_sw_sys s w) | None => None end.

(** A message in a link's block as [sendmsg] reads it: the [msghdr], its iovec after it.  It is gone when the
    link is freed. *)
Definition msg_iov_of (msg : Z) : Z := msg + 56.
Definition message_written (msg : Z) (mb : msgblob) : M iow unit :=
  m_modify (λ i, put_msgs (<[msg := (msg_iov_of msg, mb_iovlen mb)]> (w_msgs i))
                   (put_mem (w_heap i) (<[msg_iov_of msg := (mb_iov_base mb, mb_iov_len mb)]> (w_iovs i)) i)).
Definition message_freed (msg : Z) : M iow unit :=
  m_modify (λ i, put_msgs (delete msg (w_msgs i)) (put_mem (w_heap i) (delete (msg_iov_of msg) (w_iovs i)) i)).

(** The message whose data a system call was given: its [msgblob] is in front of its data. *)
Definition message_at (data : Z) (w : sendw A) : list rmsg :=
  match b_msgs (sw_buf w) !! (data - sizeof_msgblob), sw_data w !! data with
  | Some mb, Some (ref, pd) => [RMsg (Some (Cmsg (mb_cmsg_len mb) SOL_SOCKET SCM_RIGHTS (mb_cmsg_fd mb))) ref pd]
  | _, _ => []
  end.
(** The kernel takes the descriptor with the message's first bytes. *)
Definition call_message (w : sendw A) (c : syscall) : list rmsg :=
  match sc_mem c with
  | (data, _) :: _ => if 0 <? sc_moved c then message_at data w else []
  | [] => []
  end.
(** Run an operation on the socket, with what it sends. *)
Definition transmits (op : M iow unit → M iow unit) : M (sendw A) bool :=
  n <- m_gets (λ w, length (w_calls (sw_iow w))) ;;
  called <- completes op ;;
  m_modify (λ w, put_sw_socket (sw_socket w ++ (drop n (w_calls (sw_iow w)) ≫= call_message w)) w) ;;;
  m_ret called.

Section coroutine.
Variable run_handler : M (sendw A) unit.

Definition ipc_send_fd_coroutine : M (sendw A) unit :=
  io <- on_io get_io ;;
  (match io_handler_stage io with
   | O => m_ret tt
   | S _ =>
       link <- on_buf shuso_buffer_dequeue ;;
       match link with
       | None => m_abort
       | Some link =>
           k <- on_buf (link_get link) ;;
           on_buf (shuso_buffer_free link) ;;;
           on_io (message_freed (bl_ptr k))
       end
   end) ;;;
  io <- on_io get_io ;;
  next <- on_buf shuso_buffer_next ;;
  match next with
  | Some next =>
      if io_error io =? 0 then
        k <- on_buf (link_get next) ;;
        on_io (mod_io (set_stage 1)) ;;;
        called <- transmits (λ rh, shuso_io_sendmsg rh (bl_ptr k) 0) ;;
        if called : bool then run_handler else m_ret tt
      else on_io (mod_io (set_stage 0))
  | None => on_io (mod_io (set_stage 0))
  end.
End coroutine.

(** [fuel] bounds the messages that are sent at once. *)
Fixpoint send_handler (fuel : nat) : M (sendw A) unit :=
  match fuel with
  | O => m_abort
  | S fuel' => run_coroutine (ipc_send_fd_coroutine (send_handler fuel'))
  end.

(** [send] is the channel to [dst_proc]. *)
Definition shuso_ipc_send_fd (fuel : nat) (fd ref pd : Z) : M (sendw A) bool :=
  iov_bufspace <- on_buf (shuso_buffer_add_msg_fd fd 16) ;;
  match iov_bufspace with
  | None => sw_set_error "failed to send fd: no space for fd buffer link"
  | Some data =>
      let msg := data - sizeof_msgblob in
      mb <- m_gets (λ w, b_msgs (sw_buf w) !! msg) ;;
      match mb with
      | None => m_abort
      | Some mb =>
          on_io (message_written msg mb) ;;;
          m_modify (λ w, put_sw_data (<[data := (ref, pd)]> (sw_data w)) w) ;;;
          on_io (mod_io (λ io, set_num 0 (set_data 0 io))) ;;;
          send_handler fuel ;;;
          m_ret true
      end
  end.

(** The event loop finds the socket writable. *)
Definition send_ready (fuel : nat) : M (sendw A) unit :=
  called <- transmits (λ rh, ev_watcher_handler rh EV_WRITE) ;;
  if called : bool then send_handler fuel else m_ret tt.

(** Turns of the event loop while the socket is watched and the kernel has answers *)
Fixpoint send_turns (turns fuel : nat) : M (sendw A) unit :=
  w <- m_get ;;
  match turns, w_watcher (sw_iow w), w_sys (sw_iow w) with
  | S turns', true, _ :: _ => send_ready fuel ;;; send_turns turns' fuel
  | _, _, _ => m_ret tt
  end.
End sending.
