(* ===== verification/IpcFdSpec.v ===== *)
(** File descriptors that are sent reach their receivers; and the ways in which they do not. *)

From stdpp Require Import strings.
From S2P Require Import Prelude Heap Pool System Buffer Io IpcFd.

#[local] Open Scope Z_scope.

(** ** [sendmsg] and [recvmsg] of one message of two words *)

Definition message_op (op : io_opcode) : Prop := op = OP_SENDMSG ∨ op = OP_RECVMSG.

(** The operation is set up with the message [msg], and nothing of it has been done. *)
Record op_ready (op : io_opcode) (msg iov base : Z) (w : iow) : Prop := OpReady {
  or_op : message_op op;
  or_opcode : io_opcode_ (w_io w) = op;
  or_data : io_data (w_io w) = msg;
  or_aux : io_aux (w_io w) = 0;
  or_repeat : io_repeat (w_io w) = true;
  or_result : io_result (w_io w) = 0;
  or_error : io_error (w_io w) = 0;
  or_msg : w_msgs w !! msg = Some (iov, 1);
  or_iov : w_iovs w !! iov = Some (base, 16)
}.

Definition msg_call (op : io_opcode) (base : Z) (w : iow) (moved : Z) : syscall :=
  Syscall op (io_fd (w_io w)) [(base, 16)] 0 moved.

Section operations.
Context `{Malloc}.

Lemma msg_syscall op msg iov base w : op_ready op msg iov base w →
  run_syscall op (io_flags (w_io w)) w
  = Some (clamped 16 (one_answer (w_sys w)),
          with_calls (tail (w_sys w)) [msg_call op base w (moved 16 (one_answer (w_sys w)))] w).
Proof.
  intros [[->| ->] Ho Hd Ha _ _ _ Hm Hi]; unfold run_syscall, op_memory, get_io, m_bind, m_gets, m_get, m_put, m_modify, m_ret;
    rewrite Ho, Hd, Hm; simpl; unfold m_bind, read_iov; rewrite Hi; unfold m_ret, io_flags; rewrite Ha; simpl;
    (destruct (w_sys w) as [|[]]; simpl; done).
Qed.

Lemma op_ready_calls op msg iov base s calls w : op_ready op msg iov base w → op_ready op msg iov base (with_calls s calls w).
Proof. by intros []. Qed.

Lemma msg_call_once n op msg iov base w : op_ready op msg iov base w →
  call_until_uninterrupted n op w =
  let r := clamped 16 (one_answer (w_sys w)) in
  let w' := with_calls (tail (w_sys w)) [msg_call op base w (moved 16 (one_answer (w_sys w)))] w in
  match r, n with
  | SysErr e, S n' => if e =? EINTR then call_until_uninterrupted n' op w' else Some (r, w')
  | _, _ => Some (r, w')
  end.
Proof.
  intros Hr. pose proof (msg_syscall _ _ _ _ _ Hr) as Hrun. destruct (or_op _ _ _ _ _ Hr) as [-> | ->];
    (destruct n; simpl; unfold get_io at 1, m_bind at 1, m_gets, m_bind; rewrite Hrun;
     destruct (one_answer (w_sys w)) as [?|e|e]; simpl; try done; by destruct (e =? EINTR)).
Qed.

Definition unmoved (c : syscall) : Prop := sc_moved c = 0.

(** The system call, until it is not interrupted *)
Lemma msg_call_spec n op msg iov base w : op_ready op msg iov base w → (length (w_sys w) ≤ n)%nat →
  ∃ quiet, Forall unmoved quiet ∧
    call_until_uninterrupted n op w
    = Some (clamped 16 (answer (w_sys w)).1,
            with_calls (answer (w_sys w)).2 (quiet ++ [msg_call op base w (moved 16 (answer (w_sys w)).1)]) w).
Proof.
  revert w. induction n as [|n IH]; intros w Hr Hn; rewrite (msg_call_once _ _ _ _ _ _ Hr).
  { exists []. split; [done|]. by destruct (w_sys w); [|simpl in Hn; lia]. }
  destruct (w_sys w) as [|[m|e|e] sys] eqn:Hsys; cbv zeta; simpl; [by exists []|by exists []| |];
    (destruct (Z.eqb_spec e EINTR) as [->|]; simpl; [|by exists []];
     destruct (IH (with_calls sys [msg_call op base w 0] w)) as (q & Hq & ->);
       [by apply op_ready_calls|simpl; simpl in Hn; lia|];
     exists (msg_call op base w 0 :: q); split; [by constructor|];
     unfold with_calls; simpl; by rewrite <- app_assoc).
Qed.

Lemma put_msgs_same a v w : w_msgs w !! a = Some v → put_msgs (<[a := v]> (w_msgs w)) w = w.
Proof. intros Ha. unfold put_msgs. rewrite insert_id by done. by destruct w. Qed.

(** All of the message was moved. *)
Lemma msg_complete op msg iov base w : op_ready op msg iov base w →
  shuso_io_op_update_and_check_completion 16 w = Some (true, w).
Proof.
  intros Hr. destruct Hr as [Hop Ho Hd _ _ _ _ Hm Hi].
  assert (∀ io, io_opcode_ io = op →
    match io_opcode_ io with OP_RECVMSG | OP_SENDMSG => True | _ => False end) as Hcase
    by (intros io ->; by destruct Hop as [-> | ->]).
  specialize (Hcase _ Ho).
  assert (io_iovec_op_update_and_check_completion iov 1 16 w = Some ((true, iov, 1), w)) as Hscan.
  { unfold io_iovec_op_update_and_check_completion. unfold m_bind at 1. change (Z.to_nat 1) with 1%nat. simpl.
    unfold m_bind, read_iov, iov_at. rewrite Z.mul_0_r, Z.add_0_r, Hi. done. }
  unfold shuso_io_op_update_and_check_completion, get_io, m_bind, m_gets, m_get.
  destruct (io_opcode_ (w_io w)); try done; rewrite Hd, Hm, Hscan; unfold m_modify, m_ret; by rewrite put_msgs_same.
Qed.

Lemma msg_closed op result w : message_op op →
  ∃ c, shuso_io_update_fd_closed_status_from_op_result op result w = Some (tt, put_io (set_closed c (w_io w)) w).
Proof. intros [-> | ->]; by eexists. Qed.
Lemma op_ready_closed op msg iov base c w : op_ready op msg iov base w →
  op_ready op msg iov base (put_io (set_closed c (w_io w)) w).
Proof. by intros []. Qed.
Lemma msg_cleanup op msg iov base w : op_ready op msg iov base w → shuso_io_op_cleanup w = Some (tt, w).
Proof.
  intros Hr. unfold shuso_io_op_cleanup, get_io, m_bind, m_gets. rewrite (or_opcode _ _ _ _ _ Hr), (or_aux _ _ _ _ _ Hr).
  by destruct (or_op _ _ _ _ _ Hr) as [-> | ->].
Qed.

(** What an operation leaves as it was *)
Record op_frame (w w' : iow) : Prop := OpFrame {
  of_heap : w_heap w' = w_heap w;
  of_iovs : w_iovs w' = w_iovs w;
  of_msgs : w_msgs w' = w_msgs w;
  of_stage : io_handler_stage (w_io w') = io_handler_stage (w_io w)
}.

(** The operation waits for the socket: nothing was moved. *)
Definition op_waits (op : io_opcode) (msg iov base : Z) (w w' : iow) : Prop :=
  op_ready op msg iov base w' ∧ io_watch (w_io w') = WATCH_OP_RETRY ∧ w_watcher w' = true ∧
  w_handled w' = w_handled w ∧
  ∃ quiet, Forall unmoved quiet ∧ w_calls w' = w_calls w ++ quiet.
(** The operation moved the message and called the handler. *)
Definition op_moved (base : Z) (w w' : iow) : Prop :=
  io_error (w_io w') = 0 ∧ io_result (w_io w') = 16 ∧ io_watch (w_io w') = io_watch (w_io w) ∧
  w_watcher w' = w_watcher w ∧ w_handled w' = w_handled w ++ [CallHandler 16 0] ∧
  ∃ quiet c, Forall unmoved quiet ∧ sc_mem c = [(base, 16)] ∧ sc_moved c = 16 ∧ w_calls w' = w_calls w ++ quiet ++ [c].

Lemma msg_operation op msg iov base w : op_ready op msg iov base w →
  match answer (w_sys w) with
  | (SysOk n, s) => 16 ≤ n → ∃ w', shuso_io_ev_operation note_handler w = Some (tt, w') ∧ op_frame w w' ∧
      w_sys w' = s ∧ op_moved base w w'
  | (SysErr e, s) => e = EAGAIN → ∃ w', shuso_io_ev_operation note_handler w = Some (tt, w') ∧ op_frame w w' ∧
      w_sys w' = s ∧ op_waits op msg iov base w w'
  | _ => True
  end.
Proof.
  intros Hr. destruct (msg_call_spec (length (w_sys w)) _ _ _ _ _ Hr) as (q & Hq & Hcall); [lia|].
  assert (shuso_io_ev_operation note_handler w = _) as Hop
    by (unfold shuso_io_ev_operation, get_io; unfold m_bind at 1, m_gets at 1; unfold m_bind at 1, m_gets at 1;
        rewrite (or_opcode _ _ _ _ _ Hr); unfold m_bind at 1; rewrite Hcall; reflexivity).
  destruct (answer (w_sys w)) as [[n|e|e] s]; [| |done].
  - intros Hn. assert (moved 16 (SysOk n) = 16) as Hmv by (simpl; lia).
    simpl fst in *. simpl snd in *. rewrite Hmv in Hop. change (clamped 16 (SysOk n)) with (SysOk (moved 16 (SysOk n))) in Hop.
    rewrite Hmv in Hop. cbv iota in Hop.
    pose proof (op_ready_calls _ _ _ _ s (q ++ [msg_call op base w 16]) _ Hr) as Hr1.
    destruct (msg_closed op 16 (with_calls s (q ++ [msg_call op base w 16]) w) (or_op _ _ _ _ _ Hr)) as (c & Hc). unfold m_bind at 1 in Hop. rewrite Hc in Hop.
    apply (op_ready_closed _ _ _ _ c) in Hr1. set (w1 := put_io _ _) in *.
    change (16 =? -1) with false in Hop. cbv iota in Hop. unfold m_bind at 1, m_gets at 1 in Hop.
    rewrite (or_repeat _ _ _ _ _ Hr1) in Hop. change (negb (16 =? 0) && true) with true in Hop. cbv iota in Hop.
    unfold m_bind at 1 in Hop. rewrite (msg_complete _ _ _ _ _ Hr1) in Hop. cbv iota beta delta [negb] in Hop.
    unfold m_bind at 1 in Hop. rewrite (msg_cleanup _ _ _ _ _ Hr1) in Hop.
    rewrite Hop. eexists. split; [reflexivity|]. split_and!; [done|done|].
    split_and!; simpl; [apply Hr| |done|done| |].
    + by rewrite (or_result _ _ _ _ _ Hr).
    + rewrite (or_result _ _ _ _ _ Hr), (or_error _ _ _ _ _ Hr). done.
    + exists q, (msg_call op base w 16). by split_and!.
  - intros ->. simpl fst in *. simpl snd in *. cbn [clamped moved] in Hop.
    pose proof (op_ready_calls _ _ _ _ s (q ++ [msg_call op base w 0]) _ Hr) as Hr1.
    destruct (msg_closed op (-1) (with_calls s (q ++ [msg_call op base w 0]) w) (or_op _ _ _ _ _ Hr)) as (c & Hc). unfold m_bind at 1 in Hop. rewrite Hc in Hop.
    apply (op_ready_closed _ _ _ _ c) in Hr1. set (w1 := put_io _ _) in *.
    assert (bool_decide (op = OP_CONNECT) = false) as Hnc by (destruct (or_op _ _ _ _ _ Hr) as [-> | ->]; done).
    rewrite Hnc in Hop. cbn [Z.eqb EAGAIN Pos.eqb andb] in Hop. unfold m_bind, mod_io, m_modify in Hop.
    change shuso_io_ev_watch_update with shuso_io_watch_update in Hop. rewrite watch_update_settles in Hop.
    rewrite Hop. eexists. split; [reflexivity|]. split_and!; [done|done|].
    split_and!; simpl; [|done|done|done|].
    + destruct Hr1. by split.
    + exists (q ++ [msg_call op base w 0]). split; [|done]. apply Forall_app. split; [done|]. by constructor.
Qed.

(** [shuso_io_sendmsg] and [shuso_io_recvmsg] *)
Definition message_request (op : io_opcode) (rh : M iow unit) (msg : Z) : M iow unit :=
  match op with OP_SENDMSG => shuso_io_sendmsg rh msg 0 | _ => shuso_io_recvmsg rh msg 0 end.

Definition setup_message (op : io_opcode) (msg : Z) (w : iow) : iow :=
  put_io (set_repeat true (set_aux 0 (set_addr 0 (set_num 0 (set_data msg (set_opcode op (set_result 0 0 (set_flags 0 (w_io w))))))))) w.

Lemma setup_ready op msg iov base w : message_op op → w_msgs w !! msg = Some (iov, 1) → w_iovs w !! iov = Some (base, 16) →
  op_ready op msg iov base (setup_message op msg w).
Proof. intros. by split. Qed.

Lemma message_request_run op rh msg w : message_op op →
  message_request op rh msg w = shuso_io_ev_operation rh (setup_message op msg w).
Proof. by intros [-> | ->]. Qed.

(** What happens between two calls of the handler: an operation that is begun, or one that waited and is tried again *)
Lemma message_outcome (op : io_opcode) msg iov base (m : M iow unit) w w0 : m w = shuso_io_ev_operation note_handler w0 →
  op_ready op msg iov base w0 → op_frame w w0 → w_sys w0 = w_sys w →
  match answer (w_sys w) with
  | (SysOk n, s) => 16 ≤ n → ∃ w', m w = Some (tt, w') ∧ op_frame w w' ∧ w_sys w' = s ∧ op_moved base w0 w'
  | (SysErr e, s) => e = EAGAIN → ∃ w', m w = Some (tt, w') ∧ op_frame w w' ∧ w_sys w' = s ∧ op_waits op msg iov base w0 w'
  | _ => True
  end.
Proof.
  intros -> Hr Hf Hs. pose proof (msg_operation _ _ _ _ _ Hr) as Hop. rewrite Hs in Hop.
  destruct (answer (w_sys w)) as [[n|e|e] s]; [| |done]; intros Hn; destruct (Hop Hn) as (w' & -> & Hf' & Hs' & Hm);
    exists w'; (split_and!; [done| |done|done]); destruct Hf, Hf'; split; congruence.
Qed.

(** The event loop tries an operation that waited again. *)
Lemma watcher_message op rh flag msg iov base w : op_ready op msg iov base w → io_watch (w_io w) = WATCH_OP_RETRY →
  flag = (match op with OP_SENDMSG => EV_WRITE | _ => EV_READ end) →
  ev_watcher_handler rh flag w = shuso_io_ev_operation rh (put_io (set_watch WATCH_NONE (w_io w)) w).
Proof.
  intros Hr Hw ->. unfold ev_watcher_handler, get_io, mod_io, m_bind, m_gets, m_modify, m_assert.
  rewrite Hw, (or_opcode _ _ _ _ _ Hr). by destruct (or_op _ _ _ _ _ Hr) as [-> | ->].
Qed.

(** Interruptions before an answer *)
Definition interrupted (n : nat) : list sysres := replicate n (SysErr EINTR).
Lemma answer_interrupted n sys : answer (interrupted n ++ sys) = answer sys.
Proof. by induction n. Qed.

Context `{HasIo W}.
Hypothesis the_with : ∀ i w, the_io (with_io i w) = i.

Lemma completes_run (op : M iow unit → M iow unit) (w : W) i : op note_handler (the_io w) = Some (tt, i) →
  completes op w = Some ((length (w_handled (the_io w)) <? length (w_handled i))%nat, with_io i w).
Proof. intros Hop. unfold completes, m_bind, m_gets, on_io. by rewrite Hop, the_with. Qed.
End operations.

(** ** Receiving *)

(** The descriptor of a message whose control message is as it should be *)
Definition message_fd (m : rmsg) : option Z :=
  c ← rm_cmsg m;
  if (cm_len c =? CMSG_LEN_int) && (cm_level c =? SOL_SOCKET) && (cm_type c =? SCM_RIGHTS) then Some (cm_fd c) else None.

Section receiver.
Context `{Malloc, LuaRefs}.
Variables (p : Z) (base : heap) (finishes : fd_call → list Z).

(** What a message does: the call of its receiver, which finishes references; or its descriptor is closed. *)
Definition message_effect (R : gmap Z receiver) (m : rmsg) : list fd_call * list Z * gmap Z receiver :=
  match message_fd m with
  | None => ([], [], R)
  | Some fd =>
      match R !! s32 (rm_ref m) with
      | None => ([], [fd], R)
      | Some rc =>
          let c := FdCall (rc_callback rc) true (s32 (rm_ref m)) fd (rc_privdata rc) (rm_pd m) in
          ([c], [], foldl (λ R r, delete r R) R (finishes c))
      end
  end.
Fixpoint messages_effect (R : gmap Z receiver) (ms : list rmsg) : list fd_call * list Z * gmap Z receiver :=
  match ms with
  | [] => ([], [], R)
  | m :: ms' =>
      let '(cs, fds, R1) := message_effect R m in
      let '(cs', fds', R2) := messages_effect R1 ms' in (cs ++ cs', fds ++ fds', R2)
  end.

Definition callbacks_ok (R : gmap Z receiver) : Prop := ∀ r rc, R !! r = Some rc → rc_callback rc ≠ 0.

(** The state between two operations of the coroutine; no receiver has a timer. *)
Record recv_core (R : gmap Z receiver) (w : recvw) : Prop := RecvCore {
  rk_err : err_inv p base (rv_sys w);
  rk_timer : rv_timer w = None;
  rk_receivers : rv_receivers w = R;
  rk_callbacks : callbacks_ok R
}.
(** What the receivers do leaves the coroutine alone. *)
Record recv_effect (cs : list fd_call) (fds : list Z) (w w' : recvw) : Prop := RecvEffect {
  re_iow : rv_iow w' = rv_iow w;
  re_privdata : rv_privdata w' = rv_privdata w;
  re_incoming : rv_incoming w' = rv_incoming w;
  re_calls : rv_calls w' = rv_calls w ++ cs;
  re_closed : rv_closed w' = rv_closed w ++ fds
}.

Lemma recv_effect_none w : recv_effect [] [] w w.
Proof. by split; rewrite ?app_nil_r. Qed.
Lemma recv_effect_trans cs1 fds1 cs2 fds2 w1 w2 w3 :
  recv_effect cs1 fds1 w1 w2 → recv_effect cs2 fds2 w2 w3 → recv_effect (cs1 ++ cs2) (fds1 ++ fds2) w1 w3.
Proof. intros [] []. split; rewrite ?app_assoc; congruence. Qed.

Lemma callbacks_delete r R : callbacks_ok R → callbacks_ok (delete r R).
Proof. intros Hc q rc [_ Hq]%lookup_delete_Some. by eapply Hc. Qed.

Lemma rv_set_error_run msg R w : recv_core R w →
  ∃ w', rv_set_error p msg w = Some (false, w') ∧ recv_core R w' ∧ recv_effect [] [] w w'.
Proof.
  intros [He Ht Hr Hc]. destruct (set_error_spec p msg base _ He) as (s & Hs & Hi).
  eexists. split; [unfold rv_set_error; by rewrite Hs|]. split; [split; try done; apply Hi|by split; rewrite ?app_nil_r].
Qed.

Lemma finish_run r R w : recv_core R w →
  ∃ b w', shuso_ipc_receive_fd_finish p r w = Some (b, w') ∧ recv_core (delete r R) w' ∧ recv_effect [] [] w w'.
Proof.
  intros Hk. unfold shuso_ipc_receive_fd_finish, shuso_ipc_receive_fd_stop_generic. unfold m_bind at 1, m_get at 1.
  rewrite (rk_receivers _ _ Hk). destruct (R !! r) as [rc|] eqn:Hr.
  - unfold m_bind, m_ret, m_get, m_modify. rewrite (rk_timer _ _ Hk). simpl. eexists _, _. split; [reflexivity|].
    destruct Hk as [He Ht Hrr Hc]. split; [split; simpl; try done; [by rewrite Hrr|by apply callbacks_delete]|].
    by split; rewrite ?app_nil_r.
  - rewrite delete_id by done. destruct (rv_set_error_run "no ipc fd receiver found with that reference" R w Hk) as (w' & -> & ? & ?).
    by eexists _, _.
Qed.

Lemma finish_all_run refs R w : recv_core R w →
  ∃ w', finish_all p refs w = Some (tt, w') ∧ recv_core (foldl (λ R r, delete r R) R refs) w' ∧ recv_effect [] [] w w'.
Proof.
  revert R w. induction refs as [|r refs IH]; intros R w Hk; simpl.
  { exists w. split; [done|]. split; [done|apply recv_effect_none]. }
  destruct (finish_run r R w Hk) as (b & w1 & Hf & Hk1 & He1). destruct (IH _ _ Hk1) as (w2 & Hf2 & Hk2 & He2).
  exists w2. unfold m_bind. rewrite Hf. split; [done|]. split; [done|]. by apply (recv_effect_trans [] [] [] [] w w1 w2).
Qed.

Lemma handle_message_run m R w : recv_core R w →
  let '(cs, fds, R') := message_effect R m in
  ∃ w', handle_message p finishes m w = Some (tt, w') ∧ recv_core R' w' ∧ recv_effect cs fds w w'.
Proof.
  intros Hk. assert (∀ msg, ∃ w', (rv_set_error p msg ;;; m_ret tt) w = Some (tt, w') ∧ recv_core R w' ∧ recv_effect [] [] w w') as Hfail.
  { intros msg. destruct (rv_set_error_run msg R w Hk) as (w' & He & Hk' & Hf). exists w'. unfold m_bind. by rewrite He. }
  unfold message_effect, message_fd, handle_message. destruct (rm_cmsg m) as [c|]; simpl; [|apply Hfail].
  destruct (cm_len c =? CMSG_LEN_int); simpl; [|apply Hfail]. destruct (cm_level c =? SOL_SOCKET); simpl; [|apply Hfail].
  destruct (cm_type c =? SCM_RIGHTS); simpl; [|apply Hfail]. unfold ipc_handle_received_socket. unfold m_bind at 1, m_get at 1.
  rewrite (rk_receivers _ _ Hk). destruct (R !! s32 (rm_ref m)) as [rc|] eqn:Hrc.
  - unfold call_back, m_assert, fc_callback. rewrite (proj2 (Z.eqb_neq _ _) (rk_callbacks _ _ Hk _ _ Hrc)). cbn [negb].
    unfold m_bind at 1 2, m_ret at 1, m_modify at 1. set (c' := FdCall _ _ _ _ _ _).
    destruct (finish_all_run (finishes c') R (log_fd_call c' w)) as (w' & -> & Hk' & He); [by destruct Hk|].
    exists w'. split; [done|]. split; [done|]. destruct He as [? ? ? Hca Hcl]. split; try done; by rewrite ?Hca, ?Hcl, ?app_nil_r.
  - eexists. split; [reflexivity|]. split; [by destruct Hk|]. by split; rewrite ?app_nil_r.
Qed.

(** The coroutine waits in [recvmsg] for the next message. *)
Record receiving (buf : Z) (R : gmap Z receiver) (w : recvw) : Prop := Receiving {
  rg_core : recv_core R w;
  rg_privdata : rv_privdata w = Some buf;
  rg_incoming : rv_incoming w = [];
  rg_op : op_ready OP_RECVMSG buf (iov_of buf) (iov_buf_of buf) (rv_iow w);
  rg_watch : io_watch (w_io (rv_iow w)) = WATCH_OP_RETRY;
  rg_watcher : w_watcher (rv_iow w) = true;
  rg_stage : io_handler_stage (w_io (rv_iow w)) = 1%nat
}.

(** The kernel's answers when it has these messages, with interruptions before each of them and after the last one *)
Definition arrivals (l : list (nat * rmsg)) (k : nat) : list sysres :=
  (l ≫= λ x, interrupted x.1 ++ [SysOk 16]) ++ interrupted k.

Lemma arrivals_cons n m l k : arrivals ((n, m) :: l) k = interrupted n ++ SysOk 16 :: arrivals l k.
Proof. unfold arrivals. rewrite bind_cons. simpl. by rewrite <- !app_assoc. Qed.
Lemma answer_arrivals l k : answer (arrivals l k) = match l with [] => (SysErr EAGAIN, []) | _ :: l' => (SysOk 16, arrivals l' k) end.
Proof.
  destruct l as [|[n m] l]; [|by rewrite arrivals_cons, answer_interrupted].
  unfold arrivals. simpl. rewrite <- (app_nil_r (interrupted k)). by rewrite answer_interrupted.
Qed.

(** The state in which the loop begins again *)
Record at_loop (buf : Z) (R : gmap Z receiver) (l : list (nat * rmsg)) (k : nat) (w : recvw) : Prop := AtLoop {
  al_core : recv_core R w;
  al_privdata : rv_privdata w = Some buf;
  al_incoming : rv_incoming w = l.*2;
  al_sys : w_sys (rv_iow w) = arrivals l k
}.

Definition prepared (buf : Z) (i : iow) : iow :=
  put_io (set_stage 1 (w_io i))
    (put_msgs (<[buf := (iov_of buf, 1)]> (w_msgs i)) (put_mem (w_heap i) (<[iov_of buf := (iov_buf_of buf, 16)]> (w_iovs i)) i)).

Lemma receive_next_begins rh buf w :
  receive_next rh buf w =
  (called <- completes (λ rh, message_request OP_RECVMSG rh buf) ;; if called : bool then rh else m_ret tt) (put_rv_iow (prepared buf (rv_iow w)) w).
Proof. done. Qed.

(** Either the operation waits for a message, or the next one is there. *)
Lemma recv_operation (op : M iow unit → M iow unit) l k buf w i0 : op note_handler (rv_iow w) = shuso_io_ev_operation note_handler i0 →
  op_ready OP_RECVMSG buf (iov_of buf) (iov_buf_of buf) i0 → op_frame (rv_iow w) i0 → w_sys i0 = w_sys (rv_iow w) →
  w_handled i0 = w_handled (rv_iow w) → w_sys (rv_iow w) = arrivals l k → io_handler_stage (w_io (rv_iow w)) = 1%nat →
  ∃ i, completes op w = Some (match l with [] => false | _ => true end, put_rv_iow i w) ∧ io_handler_stage (w_io i) = 1%nat ∧
    match l with
    | [] => op_ready OP_RECVMSG buf (iov_of buf) (iov_buf_of buf) i ∧ io_watch (w_io i) = WATCH_OP_RETRY ∧ w_watcher i = true
    | _ :: l' => w_sys i = arrivals l' k ∧ io_error (w_io i) = 0 ∧ io_result (w_io i) = 16
    end.
Proof.
  intros Hop Hr Hf Hs Hh Hsys Hst. pose proof (message_outcome OP_RECVMSG _ _ _ _ _ _ Hop Hr Hf Hs) as Hout.
  rewrite Hsys, answer_arrivals in Hout.
  assert (∀ i, op_frame (rv_iow w) i → io_handler_stage (w_io i) = 1%nat) as Hst' by (intros i []; congruence).
  destruct l as [|x l].
  - destruct Hout as (i & Hrun & Hfr & _ & Hr' & Hw & Ha & Hh' & _); [done|]. exists i.
    rewrite (completes_run (W := recvw) ltac:(done) op w i Hrun). split_and!; try done; [|by apply Hst'].
    simpl. by rewrite Hh', Hh, Nat.ltb_irrefl.
  - destruct Hout as (i & Hrun & Hfr & Hs' & He & Hres & _ & _ & Hh' & _); [lia|]. exists i.
    rewrite (completes_run (W := recvw) ltac:(done) op w i Hrun). split_and!; try done; [|by apply Hst'].
    simpl. rewrite Hh', Hh, length_app. simpl. by rewrite (proj2 (Nat.ltb_lt _ _)) by lia.
Qed.

Lemma receive_next_op rh buf R l k w : at_loop buf R l k w →
  ∃ i, receive_next rh buf w = (match l with [] => m_ret tt | _ => rh end) (put_rv_iow i w) ∧ io_handler_stage (w_io i) = 1%nat ∧
    match l with
    | [] => op_ready OP_RECVMSG buf (iov_of buf) (iov_buf_of buf) i ∧ io_watch (w_io i) = WATCH_OP_RETRY ∧ w_watcher i = true
    | _ :: l' => w_sys i = arrivals l' k ∧ io_error (w_io i) = 0 ∧ io_result (w_io i) = 16
    end.
Proof.
  intros [_ _ _ Hsys]. set (w1 := put_rv_iow (prepared buf (rv_iow w)) w).
  destruct (recv_operation (λ rh, message_request OP_RECVMSG rh buf) l k buf w1 (setup_message OP_RECVMSG buf (rv_iow w1)))
    as (i & Hc & Hst & Hi).
  - apply message_request_run. by right.
  - apply setup_ready; [by right|apply lookup_insert_eq|apply lookup_insert_eq].
  - by split.
  - reflexivity.
  - reflexivity.
  - exact Hsys.
  - reflexivity.
  - exists i. rewrite receive_next_begins. fold w1. unfold m_bind at 1. rewrite Hc. by destruct l.
Qed.

(** The handler after a message was received *)
Lemma receive_handler_message fuel buf R m ms w : recv_core R w → rv_privdata w = Some buf → rv_incoming w = m :: ms →
  io_handler_stage (w_io (rv_iow w)) = 1%nat → io_error (w_io (rv_iow w)) = 0 → io_result (w_io (rv_iow w)) = 16 →
  let '(cs, fds, R1) := message_effect R m in
  ∃ w1, receive_handler p finishes (S fuel) w
        = run_coroutine (receive_next (receive_handler p finishes fuel) buf) w1 ∧
    recv_core R1 w1 ∧ recv_effect cs fds (put_rv_incoming ms w) w1.
Proof.
  intros Hk Hp Hin Hst He Hres.
  assert (recv_core R (put_rv_incoming ms w)) as Hk1 by by destruct Hk.
  pose proof (handle_message_run m R _ Hk1) as Hm. destruct (message_effect R m) as [[cs fds] R1].
  destruct Hm as (w1 & Hm & Hk2 & Hef). exists w1. split; [|done].
  assert (∀ rh : M recvw unit, ipc_receive_msg_fd_coroutine p finishes rh w = receive_next rh buf w1) as Hco.
  { intros rh. unfold ipc_receive_msg_fd_coroutine. unfold m_bind at 1, m_get at 1. rewrite Hp.
    unfold m_bind at 1, m_ret at 1. unfold m_bind at 1.
    replace (on_io get_io w) with (Some (w_io (rv_iow w), w)) by by destruct w.
    rewrite Hst, He, Hres. cbv iota beta delta [negb Z.eqb Pos.eqb]. unfold m_bind at 1.
    replace (received w) with (Some (m, put_rv_incoming ms w)).
    2:{ unfold received, m_bind, m_get, m_put, m_ret. by rewrite Hres, Hin. }
    unfold m_bind at 1. by rewrite Hm. }
  simpl receive_handler. unfold run_coroutine, m_bind. by rewrite Hco.
Qed.

Lemma receiving_settled buf R w : receiving buf R w → on_io shuso_io_watch_update w = Some (tt, w).
Proof.
  intros Hg. unfold on_io. simpl. rewrite watch_update_settled; [by destruct w|]. unfold settled.
  by rewrite (rg_watcher _ _ _ Hg), (rg_watch _ _ _ Hg).
Qed.

(** [r] is a state in which all messages have had their effect and the coroutine waits for the next. *)
Definition all_received (buf : Z) (R : gmap Z receiver) (ms : list rmsg) (w : recvw) (r : option (unit * recvw)) : Prop :=
  let '(cs, fds, R') := messages_effect R ms in
  ∃ w', r = Some (tt, w') ∧ receiving buf R' w' ∧ rv_calls w' = rv_calls w ++ cs ∧ rv_closed w' = rv_closed w ++ fds.

Lemma receive_handler_step l k fuel buf R m w :
  (∀ R w, at_loop buf R l k w → all_received buf R (l.*2) w (receive_next (receive_handler p finishes fuel) buf w)) →
  recv_core R w → rv_privdata w = Some buf → rv_incoming w = m :: l.*2 → io_handler_stage (w_io (rv_iow w)) = 1%nat →
  w_sys (rv_iow w) = arrivals l k → io_error (w_io (rv_iow w)) = 0 → io_result (w_io (rv_iow w)) = 16 →
  all_received buf R (m :: l.*2) w (receive_handler p finishes (S fuel) w).
Proof.
  intros Hnext Hk Hp Hin Hst Hs He Hres. pose proof (receive_handler_message fuel buf R m (l.*2) w Hk Hp Hin Hst He Hres) as Hm.
  unfold all_received. cbn [messages_effect]. destruct (message_effect R m) as [[cs fds] R1]. destruct Hm as (w1 & Hh & Hk2 & Hef).
  assert (at_loop buf R1 l k w1) as Hal1.
  { split; [done|by rewrite (re_privdata _ _ _ _ Hef)|by rewrite (re_incoming _ _ _ _ Hef)|].
    by rewrite (re_iow _ _ _ _ Hef). }
  specialize (Hnext R1 w1 Hal1). unfold all_received in Hnext.
  destruct (messages_effect R1 (l.*2)) as [[cs' fds'] R2]. destruct Hnext as (w2 & Hn & Hg & Hca & Hcl).
  exists w2. rewrite Hh. unfold run_coroutine, m_bind. rewrite Hn. split; [by eapply receiving_settled|].
  split; [done|]. rewrite Hca, Hcl, (re_calls _ _ _ _ Hef), (re_closed _ _ _ _ Hef). by rewrite !app_assoc.
Qed.

Lemma receive_next_run l k : ∀ fuel buf R w, at_loop buf R l k w → (length l ≤ fuel)%nat →
  all_received buf R (l.*2) w (receive_next (receive_handler p finishes fuel) buf w).
Proof.
  induction l as [|[n m] l IH]; intros fuel buf R w Hal Hfuel;
    destruct (receive_next_op (receive_handler p finishes fuel) _ _ _ _ _ Hal) as (i & -> & Hst & Hi).
  - destruct Hi as (Hr & Hw & Ha). exists (put_rv_iow i w). split; [done|]. destruct Hal as [[] Hp Hin _].
    split; [by split|]. by rewrite !app_nil_r.
  - destruct Hi as (Hs & He & Hres). destruct fuel as [|fuel]; [simpl in Hfuel; lia|]. destruct Hal as [Hk Hp Hin _].
    apply (receive_handler_step l k fuel buf R m (put_rv_iow i w)); try done; [|by destruct Hk].
    intros R' w' Hal. apply IH; [done|]. simpl in Hfuel. lia.
Qed.

(** The event loop finds the socket readable, and the kernel has messages. *)
Lemma receive_ready_run l k fuel buf R w : receiving buf R w → (length l < fuel)%nat →
  all_received buf R (l.*2) w (receive_ready p finishes fuel (arrivals l k) (l.*2) w).
Proof.
  intros Hg Hfuel. set (i1 := Io.put_sys (arrivals l k) (rv_iow w)).
  set (w1 := put_rv_incoming (l.*2) (put_rv_iow i1 w)).
  assert (receive_ready p finishes fuel (arrivals l k) (l.*2) w
          = (called <- completes (λ rh, ev_watcher_handler rh EV_READ) ;; if called : bool then receive_handler p finishes fuel else m_ret tt) w1) as ->.
  { unfold receive_ready, m_bind, on_io, m_modify. simpl. by rewrite (rg_incoming _ _ _ Hg). }
  assert (op_ready OP_RECVMSG buf (iov_of buf) (iov_buf_of buf) i1) as Hr by by destruct Hg as [_ _ _ []].
  destruct (recv_operation (λ rh, ev_watcher_handler rh EV_READ) l k buf w1 (put_io (set_watch WATCH_NONE (w_io i1)) i1))
    as (i & Hc & Hst & Hi).
  - apply (watcher_message OP_RECVMSG note_handler EV_READ _ _ _ _ Hr); [apply Hg|done].
  - by destruct Hr.
  - by split.
  - done.
  - done.
  - done.
  - apply Hg.
  - unfold m_bind at 1. rewrite Hc.
    destruct Hg as [Hk Hp Hin _ _ _ _]. destruct l as [|[n m] l].
    + destruct Hi as (Hr' & Hw & Ha). exists (put_rv_iow i w1). split; [done|]. destruct Hk.
      split; [by split|]. by rewrite !app_nil_r.
    + destruct Hi as (Hs & He & Hres). destruct fuel as [|fuel]; [simpl in Hfuel; lia|].
      apply (receive_handler_step l k fuel buf R m (put_rv_iow i w1)); try done; [|by destruct Hk].
      intros R' w' Hal. eapply receive_next_run; [done|]. simpl in Hfuel. lia.
Qed.
End receiver.

(** ** Sending *)

(** The kernel interrupts the call or has no room, some times, and then takes the message. *)
Inductive patient : list sysres → Prop :=
| patient_takes n : 16 ≤ n → patient [SysOk n]
| patient_interrupted sys : patient sys → patient (SysErr EINTR :: sys)
| patient_no_room sys : patient sys → patient (SysErr EAGAIN :: sys).

Lemma answer_patient sys : patient sys →
  (∃ n, 16 ≤ n ∧ answer sys = (SysOk n, [])) ∨
  ∃ s, answer sys = (SysErr EAGAIN, s) ∧ patient s ∧ (length s < length sys)%nat.
Proof.
  induction 1 as [n Hn|sys Hs IH|sys Hs IH]; simpl; [left; by eauto| |right; by eauto].
  destruct IH as [?|(s & ? & ? & ?)]; [by left|]. right. exists s. split_and!; [done..|lia].
Qed.

(** What a program sends, and the kernel's answers until it is sent *)
Record send := Send { sd_fd : Z; sd_ref : Z; sd_pd : Z; sd_sys : list sysres }.
Definition send_msg (s : send) : rmsg := fd_message (sd_fd s) (sd_ref s) (sd_pd s).

Section sender.
Context `{Malloc} `{BO : BufMemOk A SHUSO_BUF_HEAP}.
Variables (p : Z) (base : heap).

(** Send a descriptor, then let the event loop turn while the message waits. *)
Definition send_one (s : send) : M (sendw A) bool :=
  on_io (m_modify (Io.put_sys (sd_sys s))) ;;;
  b <- shuso_ipc_send_fd p 2 (sd_fd s) (sd_ref s) (sd_pd s) ;;
  send_turns (length (sd_sys s)) 2 ;;;
  m_ret b.
Fixpoint send_all (l : list send) : M (sendw A) (list bool) :=
  match l with [] => m_ret [] | s :: l' => b <- send_one s ;; bs <- send_all l' ;; m_ret (b :: bs) end.

(** Nothing is being sent. *)
Record send_idle (w : sendw A) : Prop := SendIdle {
  si_buf : buf_inv (mt := SHUSO_BUF_HEAP) [] (sw_buf w);
  si_err : err_inv p base (sw_sys w);
  si_stage : io_handler_stage (w_io (sw_iow w)) = O;
  si_error : io_error (w_io (sw_iow w)) = 0;
  si_watch : io_watch (w_io (sw_iow w)) = WATCH_NONE;
  si_watcher : w_watcher (sw_iow w) = false
}.

Definition fd_entry (fd data : Z) : entry := (AddMsgFd fd 16 0 0, data).

(** The message for [fd] at [data] is the only one in the buffer. *)
Record send_queued (fd ref pd data : Z) (w : sendw A) : Prop := SendQueued {
  sq_buf : buf_inv (mt := SHUSO_BUF_HEAP) [fd_entry fd data] (sw_buf w);
  sq_err : err_inv p base (sw_sys w);
  sq_data : sw_data w !! data = Some (ref, pd);
  sq_msg : w_msgs (sw_iow w) !! (data - sizeof_msgblob) = Some (msg_iov_of (data - sizeof_msgblob), 1);
  sq_iov : w_iovs (sw_iow w) !! msg_iov_of (data - sizeof_msgblob) = Some (data, 16)
}.

Lemma queued_blob fd ref pd data w : send_queued fd ref pd data w →
  b_msgs (sw_buf w) !! (data - sizeof_msgblob) = Some (MsgBlob data 16 1 CMSG_SPACE_int CMSG_LEN_int fd).
Proof. intros [[_ _ Hex _ _ _] _ _ _ _]. by apply Forall_singleton in Hex as (_ & _ & Hm). Qed.

Lemma queued_message fd ref pd data w : send_queued fd ref pd data w → message_at data w = [fd_message fd ref pd].
Proof. intros Hq. unfold message_at. by rewrite (queued_blob _ _ _ _ _ Hq), (sq_data _ _ _ _ _ Hq). Qed.

Lemma queued_iow fd ref pd data w i : send_queued fd ref pd data w → w_iovs i = w_iovs (sw_iow w) → w_msgs i = w_msgs (sw_iow w) →
  send_queued fd ref pd data (put_sw_iow i w).
Proof. intros [] Hi Hm. split; simpl; congruence. Qed.

(** What system calls that moved nothing, and then one that moved the message, sent *)
Lemma calls_sent fd ref pd data w quiet : send_queued fd ref pd data w → Forall unmoved quiet →
  quiet ≫= call_message w = [] ∧
  ∀ c, sc_mem c = [(data, 16)] → sc_moved c = 16 → (quiet ++ [c]) ≫= call_message w = [fd_message fd ref pd].
Proof.
  intros Hq Hu. assert (quiet ≫= call_message w = []) as Hn.
  { induction Hu as [|c l Hc _ IH]; [done|]. rewrite bind_cons, IH. unfold call_message.
    rewrite Hc. by destruct (sc_mem c) as [|[]]. }
  split; [done|]. intros c Hmem Hmv. rewrite bind_app, Hn. simpl. unfold call_message. rewrite Hmem, Hmv.
  rewrite (queued_message _ _ _ _ _ Hq). done.
Qed.

Local Abbreviation msg_of data := (data - sizeof_msgblob).
Local Abbreviation ready data := (op_ready OP_SENDMSG (msg_of data) (msg_iov_of (msg_of data)) data).

(** The message waits for the socket to become writable. *)
Record send_waits (fd ref pd data : Z) (w : sendw A) : Prop := SendWaits {
  sn_queued : send_queued fd ref pd data w;
  sn_op : ready data (sw_iow w);
  sn_watch : io_watch (w_io (sw_iow w)) = WATCH_OP_RETRY;
  sn_watcher : w_watcher (sw_iow w) = true;
  sn_stage : io_handler_stage (w_io (sw_iow w)) = 1%nat;
  sn_sys : patient (w_sys (sw_iow w))
}.

Lemma transmits_run op i0 fd ref pd data w : send_queued fd ref pd data w →
  op note_handler (sw_iow w) = shuso_io_ev_operation note_handler i0 → ready data i0 → op_frame (sw_iow w) i0 →
  w_sys i0 = w_sys (sw_iow w) → w_handled i0 = w_handled (sw_iow w) → w_calls i0 = w_calls (sw_iow w) →
  patient (w_sys (sw_iow w)) → io_handler_stage (w_io (sw_iow w)) = 1%nat → io_watch (w_io i0) = WATCH_NONE →
  ∃ b w', transmits op w = Some (b, w') ∧ send_queued fd ref pd data w' ∧ io_handler_stage (w_io (sw_iow w')) = 1%nat ∧
    if b : bool then sw_socket w' = sw_socket w ++ [fd_message fd ref pd] ∧ io_error (w_io (sw_iow w')) = 0 ∧
      io_watch (w_io (sw_iow w')) = WATCH_NONE
    else sw_socket w' = sw_socket w ∧ send_waits fd ref pd data w' ∧ (length (w_sys (sw_iow w')) < length (w_sys (sw_iow w)))%nat.
Proof.
  intros Hq Hop Hr Hf Hs Hh Hca Hp Hst Hw. pose proof (message_outcome OP_SENDMSG _ _ _ _ _ _ Hop Hr Hf Hs) as Hout.
  assert (∀ i b, op note_handler (sw_iow w) = Some (tt, i) → (length (w_handled (sw_iow w)) <? length (w_handled i))%nat = b →
    transmits op w = Some (b, put_sw_socket (sw_socket w ++ (drop (length (w_calls (sw_iow w))) (w_calls i) ≫= call_message (put_sw_iow i w))) (put_sw_iow i w))) as Htr.
  { intros i b Hi <-. unfold transmits, m_bind, m_gets. rewrite (completes_run (W := sendw A) ltac:(done) op w i Hi). done. }
  assert (∀ i, op_frame (sw_iow w) i → send_queued fd ref pd data (put_sw_iow i w) ∧ io_handler_stage (w_io i) = 1%nat) as Hkeep.
  { intros i []. split; [by apply queued_iow|congruence]. }
  destruct (answer_patient _ Hp) as [(n & Hn & Ha)|(s & Ha & Hps & Hlen)]; rewrite Ha in Hout.
  - destruct (Hout Hn) as (i & Hi & Hfi & _ & He & _ & Hwi & _ & Hhi & q & c & Hqu & Hmem & Hmv & Hci).
    destruct (Hkeep i Hfi) as [Hq' Hst']. eexists true, _. split; [apply (Htr i); [done|]|].
    { rewrite Hhi, Hh, length_app. apply Nat.ltb_lt. simpl. lia. }
    rewrite Hci, Hca, drop_app_length. destruct (calls_sent _ _ _ _ _ _ Hq' Hqu) as [_ Hc]. rewrite Hc by done.
    split; [by destruct Hq'|]. split; [done|]. split_and!; [done|done|]. simpl. congruence.
  - destruct (Hout eq_refl) as (i & Hi & Hfi & Hsi & Hri & Hwi & Hai & Hhi & q & Hqu & Hci).
    destruct (Hkeep i Hfi) as [Hq' Hst']. eexists false, _. split; [apply (Htr i); [done|]|].
    { by rewrite Hhi, Hh, Nat.ltb_irrefl. }
    rewrite Hci, Hca, drop_app_length. destruct (calls_sent _ _ _ _ _ _ Hq' Hqu) as [-> _]. rewrite app_nil_r.
    split; [by destruct Hq'|]. split; [done|]. split; [done|]. simpl. rewrite Hsi. split; [|done].
    split; simpl; try done; first [by destruct Hq'|by rewrite Hsi].
Qed.

Lemma sw_get_io (w : sendw A) : on_io get_io w = Some (w_io (sw_iow w), w).
Proof. by destruct w. Qed.
Lemma on_buf_run {X} (m : M (buffer A) X) x b (w : sendw A) : m (sw_buf w) = Some (x, b) → on_buf m w = Some (x, put_sw_buf b w).
Proof. intros Hm. unfold on_buf. by rewrite Hm. Qed.

(** The handler after the message was sent *)
Lemma send_handler_sent fuel fd ref pd data w : send_queued fd ref pd data w → io_handler_stage (w_io (sw_iow w)) = 1%nat →
  io_error (w_io (sw_iow w)) = 0 → io_watch (w_io (sw_iow w)) = WATCH_NONE →
  ∃ w', send_handler (S fuel) w = Some (tt, w') ∧ send_idle w' ∧ sw_socket w' = sw_socket w.
Proof.
  intros Hq Hst He Hw. set (e := fd_entry fd data). destruct (pop_spec _ _ _ (sq_buf _ _ _ _ _ Hq)) as (v & b & Hpop & _ & Hb & _).
  destruct (sq_buf _ _ _ _ _ Hq) as [_ [Hl _] _ Hf Hla _]. fold e in Hl, Hf, Hla. simpl in Hf, Hla.
  set (b1 := put_last None (put_first None (sw_buf w))).
  assert (shuso_buffer_dequeue (sw_buf w) = Some (Some (e_addr e), b1)) as Hdq.
  { by rewrite (dequeue_spec e [] (sw_buf w) Hl (not_elem_of_nil _) Hf Hla). }
  assert (∀ b' : buffer A, b_links b' = b_links (sw_buf w) → link_get (e_addr e) b' = Some (e_link e None, b')) as Hlg.
  { intros b' Hb'. unfold link_get. by rewrite Hb', Hl. }
  assert (shuso_buffer_free (e_addr e) b1 = Some (tt, b)) as Hfree.
  { unfold buffer_pop, shuso_buffer_next in Hpop. unfold m_bind at 1, m_gets at 1 in Hpop. rewrite Hf in Hpop.
    unfold m_bind at 1 in Hpop. rewrite (Hlg _ eq_refl) in Hpop. unfold m_bind at 1, m_gets at 1 in Hpop.
    unfold m_bind at 1 in Hpop. rewrite Hdq in Hpop. unfold m_bind in Hpop.
    destruct (shuso_buffer_free (e_addr e) b1) as [[[] b2]|]; [|done]. unfold m_ret in Hpop. by injection Hpop as _ ->. }
  set (i1 := put_msgs (delete (msg_of data) (w_msgs (sw_iow w)))
               (put_mem (w_heap (sw_iow w)) (delete (msg_iov_of (msg_of data)) (w_iovs (sw_iow w))) (sw_iow w))).
  set (w1 := put_sw_iow (put_io (set_stage 0 (w_io i1)) i1) (put_sw_buf b w)).
  assert (∀ rh, ipc_send_fd_coroutine rh w = Some (tt, w1)) as Hco.
  { intros rh. unfold ipc_send_fd_coroutine. unfold m_bind at 1. rewrite sw_get_io, Hst. unfold m_bind at 1 2.
    rewrite (on_buf_run _ _ _ _ Hdq). unfold m_bind at 1. rewrite (on_buf_run _ _ _ (put_sw_buf b1 w) (Hlg b1 eq_refl)).
    unfold m_bind at 1. rewrite (on_buf_run _ _ _ (put_sw_buf b1 (put_sw_buf b1 w)) Hfree).
    unfold on_io at 1, message_freed, m_modify. cbv iota beta. unfold m_bind at 1. rewrite sw_get_io.
    unfold m_bind, on_buf, shuso_buffer_next, m_gets. simpl. rewrite (bi_first _ _ Hb). done. }
  exists (put_sw_iow (put_watcher false (sw_iow w1)) w1). split; [|split].
  - simpl send_handler. unfold run_coroutine, m_bind. rewrite Hco. unfold on_io. rewrite watch_update_settles. simpl. by rewrite Hw.
  - split; try done; simpl. apply Hq.
  - done.
Qed.

Lemma sw_set_error_run msg (w : sendw A) : err_inv p base (sw_sys w) →
  ∃ s, sw_set_error p msg w = Some (false, put_sw_sys s w) ∧ err_inv p base s.
Proof.
  intros He. destruct (set_error_spec p msg base _ He) as (s & Hs & Hi). exists s. unfold sw_set_error. rewrite Hs.
  split; [done|apply Hi].
Qed.

(** The event loop turns while the message waits. *)
Lemma send_turns_run fd ref pd data turns : ∀ w, send_waits fd ref pd data w → (length (w_sys (sw_iow w)) ≤ turns)%nat →
  ∃ w', send_turns turns 2 w = Some (tt, w') ∧ send_idle w' ∧ sw_socket w' = sw_socket w ++ [fd_message fd ref pd].
Proof.
  induction turns as [|turns IH]; intros w [Hq Hr Hw Ha Hst Hp] Hlen.
  { destruct Hp; simpl in Hlen; lia. }
  destruct (transmits_run (λ rh, ev_watcher_handler rh EV_WRITE) (put_io (set_watch WATCH_NONE (w_io (sw_iow w))) (sw_iow w))
              fd ref pd data w) as (b & w1 & Htr & Hq1 & Hst1 & Hb); try done.
  { by apply (watcher_message OP_SENDMSG note_handler EV_WRITE _ _ _ _ Hr). }
  { by destruct Hr. }
  assert (∃ x l, w_sys (sw_iow w) = x :: l) as (x & l & Hs) by (destruct Hp; by do 2 eexists).
  assert (send_turns (S turns) 2 w = (send_ready 2 ;;; send_turns turns 2) w) as ->.
  { simpl send_turns. unfold m_bind at 1, m_get. by rewrite Ha, Hs. }
  unfold send_ready, m_bind. rewrite Htr. destruct b.
  - destruct Hb as (Hso & He & Hw1). destruct (send_handler_sent 1 _ _ _ _ _ Hq1 Hst1 He Hw1) as (w2 & -> & Hid & Hso2).
    exists w2. split; [|by rewrite Hso2]. clear -Hid. destruct turns; simpl; unfold m_bind, m_get; [done|].
    by rewrite (si_watcher _ Hid).
  - destruct Hb as (Hso & Hwa & Hlt). unfold m_ret. destruct (IH w1 Hwa) as (w2 & Hrun & Hid & Hso2); [lia|].
    exists w2. by rewrite Hso2, Hso.
Qed.

(** A message is put into the empty buffer. *)
Lemma send_fd_queues fd ref pd w : send_idle w →
  (∃ w', shuso_ipc_send_fd p 2 fd ref pd w = Some (false, w') ∧ send_idle w' ∧ sw_socket w' = sw_socket w) ∨
  ∃ data w', shuso_ipc_send_fd p 2 fd ref pd w = (send_handler 2 ;;; m_ret true) w' ∧ send_queued fd ref pd data w' ∧
    sw_socket w' = sw_socket w ∧ w_sys (sw_iow w') = w_sys (sw_iow w) ∧ io_handler_stage (w_io (sw_iow w')) = O ∧
    io_error (w_io (sw_iow w')) = 0 ∧ io_watch (w_io (sw_iow w')) = WATCH_NONE.
Proof.
  intros [Hb He Hst Her Hw Ha]. destruct (add_spec [] (AddMsgFd fd 16 0 0) (sw_buf w) Hb) as (r & b & Hadd & _ & Hr); [done|].
  change (add_to_buffer _) with (shuso_buffer_add_msg_fd (A := A) fd 16) in Hadd. unfold shuso_ipc_send_fd.
  destruct r as [data|].
  - right. change ([] ++ _) with [fd_entry fd data] in Hr.
    set (w1 := put_sw_buf b w). set (msg := msg_of data). set (mb := MsgBlob data 16 1 CMSG_SPACE_int CMSG_LEN_int fd).
    assert (b_msgs b !! msg = Some mb) as Hm.
    { destruct Hr as [_ _ Hex _ _ _]. by apply Forall_singleton in Hex as (_ & _ & Hm). }
    set (i := put_msgs (<[msg := (msg_iov_of msg, 1)]> (w_msgs (sw_iow w)))
                (put_mem (w_heap (sw_iow w)) (<[msg_iov_of msg := (data, 16)]> (w_iovs (sw_iow w))) (sw_iow w))).
    exists data, (put_sw_data (<[data := (ref, pd)]> (sw_data w)) (put_sw_iow (put_io (set_num 0 (set_data 0 (w_io i))) i) w1)).
    split_and!; try done.
    + unfold m_bind at 1. rewrite (on_buf_run _ _ _ _ Hadd). unfold m_bind at 1, m_gets at 1.
      fold w1 msg. change (b_msgs (sw_buf w1)) with (b_msgs b). by rewrite Hm.
    + split; simpl; [done|done|by rewrite lookup_insert_eq|by rewrite lookup_insert_eq|by rewrite lookup_insert_eq].
  - left. destruct (sw_set_error_run "failed to send fd: no space for fd buffer link" (put_sw_buf b w) He) as (s & Hse & Hs).
    eexists. split; [unfold m_bind; by rewrite (on_buf_run _ _ _ _ Hadd), Hse|]. by split.
Qed.

(** The handler of a message in the buffer *)
Lemma send_handler_begins fd ref pd data w : send_queued fd ref pd data w → patient (w_sys (sw_iow w)) →
  io_handler_stage (w_io (sw_iow w)) = O → io_error (w_io (sw_iow w)) = 0 → io_watch (w_io (sw_iow w)) = WATCH_NONE →
  ∃ w', send_handler 2 w = Some (tt, w') ∧
    (send_idle w' ∧ sw_socket w' = sw_socket w ++ [fd_message fd ref pd] ∨
     send_waits fd ref pd data w' ∧ sw_socket w' = sw_socket w ∧ (length (w_sys (sw_iow w')) < length (w_sys (sw_iow w)))%nat).
Proof.
  intros Hq Hp Hst He Hw. set (w1 := put_sw_iow (put_io (set_stage 1 (w_io (sw_iow w))) (sw_iow w)) w).
  set (op := λ rh : M iow unit, message_request OP_SENDMSG rh (msg_of data)).
  assert (∀ rh, ipc_send_fd_coroutine rh w = (called <- transmits op ;; if called : bool then rh else m_ret tt) w1) as Hco.
  { intros rh. destruct (sq_buf _ _ _ _ _ Hq) as [_ [Hl _] _ Hf _ _]. unfold ipc_send_fd_coroutine. unfold m_bind at 1.
    rewrite sw_get_io, Hst. unfold m_bind at 1, m_ret at 1. unfold m_bind at 1. rewrite sw_get_io. unfold m_bind at 1.
    rewrite (on_buf_run _ (Some (e_addr (fd_entry fd data))) (sw_buf w)) by (unfold shuso_buffer_next, m_gets; by rewrite Hf).
    rewrite He. cbn [Z.eqb]. unfold m_bind at 1.
    replace (put_sw_buf (sw_buf w) w) with w by by destruct w.
    rewrite (on_buf_run _ (e_link (fd_entry fd data) None) (sw_buf w)) by (unfold link_get; by rewrite Hl).
    replace (put_sw_buf (sw_buf w) w) with w by by destruct w. done. }
  destruct (transmits_run op (setup_message OP_SENDMSG (msg_of data) (sw_iow w1)) fd ref pd data w1)
    as (b & w2 & Htr & Hq2 & Hst2 & Hb).
  - by destruct Hq.
  - apply message_request_run. by left.
  - apply setup_ready; [by left|apply Hq|apply Hq].
  - by split.
  - reflexivity.
  - reflexivity.
  - reflexivity.
  - exact Hp.
  - reflexivity.
  - exact Hw.
  - assert (∀ w, settled (sw_iow w) → on_io (W := sendw A) shuso_io_watch_update w = Some (tt, w)) as Hup.
    { intros w' Hs. unfold on_io. simpl. rewrite watch_update_settled by done. by destruct w'. }
    change (send_handler 2) with (run_coroutine (W := sendw A) (ipc_send_fd_coroutine (send_handler 1))).
    unfold run_coroutine, m_bind at 1. rewrite Hco. unfold m_bind at 1. rewrite Htr. destruct b.
    + destruct Hb as (Hso & He2 & Hw2). destruct (send_handler_sent 0 _ _ _ _ _ Hq2 Hst2 He2 Hw2) as (w3 & -> & Hid & Hso3).
      exists w3. split; [|left; by rewrite Hso3]. apply Hup. unfold settled. by rewrite (si_watcher _ Hid), (si_watch _ Hid).
    + destruct Hb as (Hso & Hwa & Hlt). exists w2. split; [|by right]. apply Hup. unfold settled.
      by rewrite (sn_watcher _ _ _ _ _ Hwa), (sn_watch _ _ _ _ _ Hwa).
Qed.

Lemma send_one_run s w : patient (sd_sys s) → send_idle w →
  ∃ b w', send_one s w = Some (b, w') ∧ send_idle w' ∧
    sw_socket w' = sw_socket w ++ (if b : bool then [send_msg s] else []).
Proof.
  intros Hp Hid. set (w0 := put_sw_iow (Io.put_sys (sd_sys s) (sw_iow w)) w).
  assert (send_idle w0) as Hid0 by by destruct Hid.
  assert (send_one s w = (b <- shuso_ipc_send_fd p 2 (sd_fd s) (sd_ref s) (sd_pd s) ;;
                          send_turns (length (sd_sys s)) 2 ;;; m_ret b) w0) as -> by done.
  destruct (send_fd_queues (sd_fd s) (sd_ref s) (sd_pd s) w0 Hid0)
    as [(w1 & Hrun & Hid1 & Hso)|(data & w1 & Hrun & Hq & Hso & Hsys & Hst & He & Hw)]; unfold m_bind at 1; rewrite Hrun.
  - exists false, w1. rewrite app_nil_r. split_and!; [|done|done]. unfold m_bind.
    destruct (sd_sys s); simpl; unfold m_bind, m_get; [done|]. by rewrite (si_watcher _ Hid1).
  - assert (w_sys (sw_iow w1) = sd_sys s) as Hsys1 by (by rewrite Hsys).
    destruct (send_handler_begins _ _ _ _ _ Hq) as (w2 & Hh & Hcases); [by rewrite Hsys1|done..|].
    unfold m_bind at 1. rewrite Hh. unfold m_ret at 1. destruct Hcases as [[Hid2 Hso2]|(Hwa & Hso2 & Hlt)].
    + exists true, w2. rewrite Hso2, Hso. split_and!; [|done|done]. unfold m_bind.
      destruct (sd_sys s); simpl; unfold m_bind, m_get; [done|]. by rewrite (si_watcher _ Hid2).
    + destruct (send_turns_run _ _ _ _ (length (sd_sys s)) w2 Hwa) as (w3 & Ht & Hid3 & Hso3); [rewrite Hsys1 in Hlt; lia|].
      exists true, w3. unfold m_bind. rewrite Ht, Hso3, Hso2, Hso. by split_and!.
Qed.

(** The sends that were accepted *)
Fixpoint accepted (l : list send) (bs : list bool) : list send :=
  match l, bs with
  | s :: l', b :: bs' => if b : bool then s :: accepted l' bs' else accepted l' bs'
  | _, _ => []
  end.

Lemma send_all_run l : ∀ w, Forall (λ s, patient (sd_sys s)) l → send_idle w →
  ∃ bs w', send_all l w = Some (bs, w') ∧ length bs = length l ∧ send_idle w' ∧
    sw_socket w' = sw_socket w ++ (send_msg <$> accepted l bs).
Proof.
  induction l as [|s l IH]; intros w Hl Hid; [exists [], w; by rewrite app_nil_r|].
  apply Forall_cons in Hl as [Hs Hl]. destruct (send_one_run s w Hs Hid) as (b & w1 & H1 & Hid1 & Hso1).
  destruct (IH w1 Hl Hid1) as (bs & w2 & H2 & Hlen & Hid2 & Hso2). exists (b :: bs), w2.
  cbn [send_all]. unfold m_bind, m_ret. rewrite H1, H2. split_and!; [done|simpl; by rewrite Hlen|done|].
  rewrite Hso2, Hso1. destruct b; simpl; [by rewrite <- app_assoc|by rewrite app_nil_r].
Qed.
End sender.

(** Every descriptor that was sent is given to a callback or closed. *)
Lemma sent_effect finishes l : ∀ R,
  let '(cs, fds, _) := messages_effect finishes R (send_msg <$> l) in (fc_fd <$> cs) ++ fds ≡ₚ sd_fd <$> l.
Proof.
  induction l as [|s l IH]; intros R; [simpl; constructor|]. rewrite fmap_cons. cbn [messages_effect].
  unfold message_effect. change (message_fd (send_msg s)) with (Some (sd_fd s)). cbv iota beta.
  destruct (R !! _) as [rc|]; match goal with |- context [messages_effect finishes ?R' _] => specialize (IH R') end;
    destruct (messages_effect _ _ _) as [[cs fds] R2]; csimpl; [by f_equiv|].
  rewrite <- Permutation_middle. by f_equiv.
Qed.

Section delivery.
Context `{Malloc, LuaRefs} `{BO : BufMemOk A SHUSO_BUF_HEAP}.

End delivery.

(** ** Examples *)

(** References that were given back are used again, the last first; new ones are counted. *)
Definition lua_free_list (used : gset Z) (freed : list Z) : Z :=
  match List.find (λ r, negb (bool_decide (r ∈ used))) freed with
  | Some r => r
  | None => fresh used
  end.
Lemma lua_free_list_fresh used freed : lua_free_list used freed ∉ used.
Proof.
  unfold lua_free_list. destruct (List.find _ _) as [r|] eqn:Hf; [|apply is_fresh].
  apply List.find_some in Hf as [_ Hf]. by apply negb_true_iff, bool_decide_eq_false in Hf.
Qed.
#[local] Instance lua_refs : LuaRefs := {| luaL_ref := lua_free_list; luaL_ref_fresh := lua_free_list_fresh |}.

#[local] Instance fd_mem : BufMem (pw * unit) := process_mem (λ _, m_abort) (λ _, m_abort).
#[local] Instance fd_mem_ok : BufMemOk (pw * unit) SHUSO_BUF_HEAP := heap_mem_ok _ _ ∅.

Definition demo_channel (fd readwrite : Z) : iow :=
  IoW (Io fd 0 0 0 0 0 0 false 0 0 OP_NONE WATCH_NONE readwrite false) ∅ ∅ ∅ false [] [] [].
Definition demo_sender : sendw (pw * unit) :=
  SendW (demo_channel 8 SHUSO_IO_WRITE) world_init (Buffer (PW ∅ zero_pool, tt) ∅ ∅ ∅ None None SHUSO_BUF_HEAP None []) ∅ [].
Definition demo_receiver : recvw := RecvW (demo_channel 9 SHUSO_IO_READ) world_init None [] ∅ None [] ∅ [] [].
Definition demo_finishes (c : fd_call) : list Z := [fc_ref c].

(** The state after a computation that does not abort *)
Definition state_after {W X} (m : M W X) (w : W) : W := match m w with Some (_, w') => w' | None => w end.
Definition runs {W X} (m : M W X) (w : W) : bool := match m w with Some _ => true | None => false end.

(** One receiver, and the coroutine waits. *)
Definition demo_waiting : recvw :=
  state_after (shuso_ipc_receive_fd_start "sockets" 0 700 800 ;;; receive_start 0 demo_finishes 1) demo_receiver.
Definition demo_sends : list send :=
  [Send 5 0 60 [SysErr EINTR; SysErr EAGAIN; SysErr EAGAIN; SysOk 16]; Send 6 0 61 [SysOk 16]].


(** Two receivers with timeouts; the first one is finished, and a third one is made, which gets its reference. *)
Definition two_timers : M recvw unit :=
  shuso_ipc_receive_fd_start "first" 1 700 800 ;;; shuso_ipc_receive_fd_start "second" 5 701 801 ;;; m_ret tt.
Definition finish_first : M recvw unit :=
  two_timers ;;; shuso_ipc_receive_fd_finish 0 0 ;;; shuso_ipc_receive_fd_start "third" 0 702 802 ;;; m_ret tt.
Definition send_to (sys : list sysres) (fd ref pd : Z) : M (sendw (pw * unit)) bool :=
  on_io (m_modify (Io.put_sys sys)) ;;; shuso_ipc_send_fd 0 2 fd ref pd.

