(* ===== verification/Config.v ===== *)
(** The configuration: src/src/modules/config/config.c, which makes C structs of the settings that config.lua has
    parsed, and gives their values, with the functions of src/src/modules/config/config.lua it calls:
    matching of paths, looking settings up, and the values they have. *)

From Stdlib Require Import Ascii.
From stdpp Require Import strings.
From S2P Require Import Prelude Modules Instring.

#[local] Open Scope string_scope.
#[local] Open Scope Z_scope.

(** ** Paths *)

(** The parts that [gmatch("[^c]+")] finds *)
Definition parts (c : ascii) (s : string) : list string :=
  List.filter (λ w, negb (bool_decide (w = ""))) (split_string (is_char c) s).

Definition starts_with (c : ascii) (s : string) : bool :=
  match s with String c' _ => is_char c c' | EmptyString => false end.

(** [Config.split_path] of a path; what it caches in its table is left out. *)
Definition split_path (path : string) : list string :=
  let tbl := if starts_with "/" path then [] else ["**"] in
  if bool_decide (path = "*") || bool_decide (path = "*/") then tbl else (tbl ++ parts "/" path)%list.

(** [match("^([^:]+):(.*)$")] *)
Fixpoint split_colon (l acc : list ascii) : option (string * string) :=
  match l with
  | [] => None
  | c :: l' =>
      if is_char ":" c then
        match acc with [] => None | _ => Some (String.string_of_list_ascii (rev acc), String.string_of_list_ascii l') end
      else split_colon l' (c :: acc)
  end.
Definition module_and_name (s : string) : option (string * string) := split_colon (String.list_ascii_of_string s) [].

(** [match("^%((.*)%)$")] *)
Definition parenthesized (s : string) : option string :=
  match String.list_ascii_of_string s with
  | c :: l =>
      match rev l with
      | d :: r => if is_char "(" c && is_char ")" d then Some (String.string_of_list_ascii (rev r)) else None
      | [] => None
      end
  | [] => None
  end.

(** The end of [match_path_part], for a part of the pattern without parentheses *)
Definition match_names (ppart mpart : string) : bool :=
  if bool_decide (ppart = mpart) || bool_decide (mpart = "*") || bool_decide (mpart = "**") then true
  else
    let '(ppart_left, ppart_right) :=
      match module_and_name ppart with Some (l, r) => (Some l, r) | None => (None, ppart) end in
    let '(mpart_left, mpart_right) :=
      match module_and_name mpart with Some (l, r) => (l, r) | None => ("*", mpart) end in
    (bool_decide (mpart_left = "*") || bool_decide (Some mpart_left = ppart_left)) &&
    (bool_decide (mpart_right = "*") || bool_decide (mpart_right = ppart_right)).

(** Alternatives are shorter than what they are in: [n] is the length of the part. *)
Fixpoint match_part (n : nat) (ppart mpart : string) : bool :=
  match n, parenthesized mpart with
  | S n', Some inner => existsb (match_part n' ppart) (parts "|" inner)
  | _, _ => match_names ppart mpart
  end.
Definition match_path_part (ppart : string) (mpart : option string) : bool :=
  match mpart with None => false | Some mpart => match_part (String.length mpart) ppart mpart end.

(** [match[i]] of a Lua table that begins at 1 *)
Definition lua_index (l : list string) (i : Z) : option string := if 1 <=? i then l !! Z.to_nat (i - 1) else None.

(** The first [i > m] with [match[i] == "**"]: [n] elements are left to look at. *)
Fixpoint unwind_loop (n : nat) (match_ : list string) (i : Z) : option Z :=
  match n with
  | O => None
  | S n' => if bool_decide (lua_index match_ i = Some "**") then Some i else unwind_loop n' match_ (i + 1)
  end.
Definition unwind_to_last_doublestar (match_ : list string) (m : Z) : option Z :=
  unwind_loop (Z.to_nat (Z.of_nat (length match_) - m)) match_ (m + 1).

(** The loop over the path from its end: [m] is the place in the pattern; none: no match. *)
Fixpoint match_loop (rpath : list string) (match_ : list string) (m : Z) : option Z :=
  match rpath with
  | [] => Some m
  | ppart :: rpath' =>
      let mpart := lua_index match_ m in
      let m := if bool_decide (mpart = Some "**") then m - 1 else m in
      if match_path_part ppart mpart then match_loop rpath' match_ (m - 1)
      else
        match unwind_to_last_doublestar match_ m with
        | None => None
        | Some m => match_loop rpath' match_ (m - 1)
        end
  end.

(** The loop at the end: what is left of the pattern is all [**]. *)
Fixpoint all_doublestars (match_ : list string) (m : nat) : bool :=
  match m with
  | O => true
  | S m' => bool_decide (match_ !! m' = Some "**") && all_doublestars match_ m'
  end.

(** [Config.match_path], of paths that have been split *)
Definition match_parts (path match_ : list string) : bool :=
  if bool_decide (match_ = ["**"]) then true
  else
    match match_loop (rev path) match_ (Z.of_nat (length match_)) with
    | None => false
    | Some m => if m =? 0 then true else all_doublestars match_ (Z.to_nat m)
    end.
Definition match_path (path match_ : string) : bool := match_parts (split_path path) (split_path match_).

(** *** What a pattern means *)

(** Part by part; with a [**] in front, at the end of any path *)
Definition same_parts (path pattern : list string) : Prop := Forall2 (λ p m, match_path_part p (Some m) = true) path pattern.

Definition no_doublestar (l : list string) : Prop := Forall (λ m, m ≠ "**") l.

Lemma lua_index_app l1 x l2 : lua_index (l1 ++ x :: l2) (Z.of_nat (S (length l1))) = Some x.
Proof.
  unfold lua_index. rewrite (proj2 (Z.leb_le _ _)) by lia. replace (Z.to_nat _) with (length l1) by lia.
  by rewrite list_lookup_middle.
Qed.
Lemma lua_index_low l i : i ≤ 0 → lua_index l i = None.
Proof. intros. unfold lua_index. by rewrite (proj2 (Z.leb_gt _ _)) by lia. Qed.
Lemma lua_index_elem l i x : lua_index l i = Some x → x ∈ l.
Proof. unfold lua_index. destruct (1 <=? i); [|done]. apply list_elem_of_lookup_2. Qed.

(** Without a [**] there is nothing to go back to. *)
Lemma unwind_none l n : ∀ i, (∀ k, i ≤ k → lua_index l k ≠ Some "**") → unwind_loop n l i = None.
Proof.
  induction n as [|n IH]; intros i Hi; [done|]. simpl. rewrite bool_decide_eq_false_2 by (apply Hi; lia).
  apply IH. intros k ?. apply Hi. lia.
Qed.
Lemma no_doublestar_after l1 l2 k :
  no_doublestar l2 → Z.of_nat (length l1) < k → lua_index (l1 ++ l2) k ≠ Some "**".
Proof.
  intros Hl Hk. unfold lua_index. rewrite (proj2 (Z.leb_le _ _)) by lia. rewrite lookup_app_r by lia.
  intros Hi%list_elem_of_lookup_2. unfold no_doublestar in Hl. rewrite Forall_forall in Hl. by apply (Hl _ Hi).
Qed.
Lemma all_doublestars_none l m : no_doublestar l → (0 < m)%nat → all_doublestars l m = false.
Proof.
  intros Hl Hm. destruct m; [lia|]. simpl. rewrite bool_decide_eq_false_2; [done|].
  intros Hi%list_elem_of_lookup_2. unfold no_doublestar in Hl. rewrite Forall_forall in Hl. by apply (Hl _ Hi).
Qed.

Definition stars (star : bool) : list string := if star then ["**"] else [].

Definition finish (match_ : list string) (o : option Z) : bool :=
  match o with None => false | Some m => if m =? 0 then true else all_doublestars match_ (Z.to_nat m) end.

(** Before the [**] everything matches. *)
Lemma match_loop_star q rp : ∀ m, m ≤ 0 → finish ("**" :: q) (match_loop rp ("**" :: q) m) = true.
Proof.
  induction rp as [|p rp IH]; intros m Hm; simpl.
  { destruct (Z.eqb_spec m 0); [done|]. by replace (Z.to_nat m) with 0%nat by lia. }
  rewrite lua_index_low by done. rewrite bool_decide_eq_false_2 by done. simpl.
  assert (∀ n i, i ≤ 1 → (0 < n)%nat → 2 ≤ i + Z.of_nat n → unwind_loop n ("**" :: q) i = Some 1) as Hun.
  { intros n. induction n as [|n IHn]; intros i Hi Hn Hin; [lia|]. simpl.
    destruct (decide (i = 1)) as [->|Hne]; [done|]. rewrite lua_index_low, bool_decide_eq_false_2 by (done || lia).
    apply IHn; lia. }
  unfold unwind_to_last_doublestar. rewrite Hun; [|lia|simpl; lia|simpl; lia]. simpl. apply IH. lia.
Qed.

Lemma match_loop_run star rq1 : ∀ q2 rp, no_doublestar rq1 → no_doublestar q2 →
  let match_ := (stars star ++ rev rq1 ++ q2)%list in
  finish match_ (match_loop rp match_ (Z.of_nat (length (stars star) + length rq1))) = true ↔
  ∃ rsuf rpre, rp = (rsuf ++ rpre)%list ∧ (star = false → rpre = []) ∧ same_parts rsuf rq1.
Proof.
  induction rq1 as [|x rq1 IH]; intros q2 rp Hq1 Hq2 match_.
  - destruct star; subst match_; cbn [stars rev app length Nat.add].
    + split; [intros _; exists [], rp; split_and!; [done|done|constructor]|intros _].
      destruct rp as [|p rp]; [done|]. cbn [match_loop].
      replace (lua_index ("**" :: q2) (Z.of_nat 1)) with (Some "**") by done.
      rewrite bool_decide_eq_true_2 by done.
      assert (match_path_part p (Some "**") = true) as ->.
      { unfold match_path_part. simpl. unfold match_names. by rewrite orb_true_r. }
      by apply match_loop_star.
    + destruct rp as [|p rp]; cbn.
      { split; [intros _; exists [], []; split_and!; [done|done|constructor]|done]. }
      rewrite lua_index_low by done. rewrite bool_decide_eq_false_2 by done. cbn.
      unfold unwind_to_last_doublestar. rewrite unwind_none by (intros k Hk; apply (no_doublestar_after []); [done|simpl; lia]).
      split; [done|].
      intros (rsuf & rpre & Heq & Hpre & Hsame). rewrite Hpre in Heq by done. by inversion Hsame; subst.
  - apply Forall_cons in Hq1 as [Hx Hq1].
    assert (match_ = (stars star ++ rev rq1) ++ x :: q2)%list as Hm.
    { unfold match_. simpl. by rewrite <- !app_assoc. }
    assert (length (stars star) + length (x :: rq1) = S (length (stars star ++ rev rq1)))%nat as Hlen.
    { rewrite length_app, length_rev. simpl. lia. }
    assert (lua_index match_ (Z.of_nat (length (stars star) + length (x :: rq1))) = Some x) as Hix.
    { rewrite Hm, Hlen. apply lua_index_app. }
    destruct rp as [|p rp].
    + cbn [match_loop finish]. rewrite (proj2 (Z.eqb_neq _ _)) by (simpl; lia). rewrite Nat2Z.id, Hlen. simpl.
      rewrite Hm, list_lookup_middle by done. rewrite bool_decide_eq_false_2 by congruence. split; [done|].
      intros (rsuf & rpre & Heq & _ & Hsame). symmetry in Heq. apply app_nil in Heq as [-> _]. inversion Hsame.
    + cbn [match_loop]. rewrite Hix. rewrite bool_decide_eq_false_2 by congruence.
      destruct (match_path_part p (Some x)) eqn:Hpx.
      * replace (Z.of_nat _ - 1) with (Z.of_nat (length (stars star) + length rq1)) by (simpl; lia).
        rewrite Hm, <- app_assoc. rewrite (IH (x :: q2) rp Hq1 ltac:(by constructor)).
        split; intros (rsuf & rpre & Heq & Hpre & Hsame).
        -- exists (p :: rsuf), rpre. split_and!; [by rewrite Heq|done|by constructor].
        -- inversion Hsame as [|p' ? rsuf' ? ? Hs]; subst. simplify_eq/=. by exists rsuf', rpre.
      * unfold unwind_to_last_doublestar. rewrite unwind_none.
        -- split; [done|]. intros (rsuf & rpre & Heq & Hpre & Hsame). inversion Hsame; subst. simplify_eq/=. congruence.
        -- intros k Hk. apply no_doublestar_after; [|simpl in Hk; lia].
           apply Forall_app. split; [apply Forall_rev; by constructor|done].
Qed.

Lemma Forall2_rev {A B} (P : A → B → Prop) l k : Forall2 P l k → Forall2 P (rev l) (rev k).
Proof. rewrite !rev_alt. apply Forall2_reverse. Qed.
Lemma no_doublestar_rev l : no_doublestar l → no_doublestar (rev l).
Proof. unfold no_doublestar. apply Forall_rev. Qed.

(** C28: A path pattern whose only [**], if it has one, is in front means what it says: with the [**] it matches the
    paths that end in the parts of the pattern, without it those that consist of them, each part of the path and
    of the pattern compared by [match_path_part]. *)
Theorem match_path_meaning star q path : no_doublestar q →
  match_parts path (stars star ++ q) = true ↔
  ∃ pre suf, path = (pre ++ suf)%list ∧ (star = false → pre = []) ∧ same_parts suf q.
Proof.
  intros Hq. unfold match_parts. case_bool_decide as Hone.
  - destruct star; simplify_eq/=; [|by apply Forall_cons in Hq as [??]].
    split; [intros _; exists path, []; split_and!; [by rewrite app_nil_r|done|constructor]|done].
  - pose proof (match_loop_run star (rev q) [] (rev path) (no_doublestar_rev _ Hq) (Forall_nil_2 _)) as Hrun.
    rewrite rev_involutive, app_nil_r in Hrun. cbv zeta in Hrun. unfold finish in Hrun.
    rewrite length_app, <- (length_rev q) at 1. rewrite Hrun. clear Hrun. unfold same_parts. split.
    + intros (rsuf & rpre & Heq & Hpre & Hsame). exists (rev rpre), (rev rsuf). split_and!.
      * by rewrite <- rev_app_distr, <- Heq, rev_involutive.
      * intros Hs. by rewrite Hpre.
      * rewrite <- (rev_involutive q). by apply Forall2_rev.
    + intros (pre & suf & -> & Hpre & Hsame). exists (rev suf), (rev pre). split_and!.
      * apply rev_app_distr.
      * intros Hs. by rewrite Hpre.
      * by apply Forall2_rev.
Qed.
Lemma match_path_meaning_witness :
  no_doublestar ["b"; "(c|m:d)"] ∧
  match_parts ["a"; "b"; "m:d"] (stars true ++ ["b"; "(c|m:d)"]) = true ∧
  match_path "/a/b/m:d" "b/(c|m:d)" = true ∧ match_path "/a/b/d" "b/(c|m:d)" = false.
Proof.
  assert (no_doublestar ["b"; "(c|m:d)"]) as Hq by (repeat constructor; done).
  split_and!; [done| |vm_compute; reflexivity|vm_compute; reflexivity].
  apply (match_path_meaning true _ ["a"; "b"; "m:d"] Hq). exists ["a"], ["b"; "m:d"].
  split_and!; [done|done|]. repeat constructor.
Defined.

(** A [**] that is not in front takes the place of no part or one wrong part: [/x/**/c] is not matched by [/x/a/c], and is
    by [/a/c]. *)
Lemma inner_doublestar : match_path "/x/a/c" "/x/**/c" = false ∧ match_path "/a/c" "/x/**/c" = true.
Proof. split; vm_compute; reflexivity. Qed.

(** ** The tables of the parsed configuration *)

(** A setting's table; its block's, if it has one, is the list of the settings in it.  Settings, and with them
    blocks, are told apart by their numbers, the root setting's is 0 and it is its own parent.  Values are told
    apart by numbers, too: [instring] is changed in them.  [ls_values] is none for a default that was put in. *)
Record lsetting := LSetting {
  ls_name : string;
  ls_full_name : option string;
  ls_module : option string;
  ls_parent : nat;
  ls_values : option (list nat);
  ls_block : option (list nat);
  ls_handled_by : option string
}.
Record handler := Handler { h_path : string; h_default_values : option (list nat) }.
Record lconfig := LConfig {
  lc_settings : list lsetting;
  lc_values : list (list lua_token);     (* [instring.tokens] of each value *)
  lc_handlers : gmap string handler
}.
Definition put_values (v : list (list lua_token)) (c : lconfig) : lconfig := LConfig (lc_settings c) v (lc_handlers c).

(** What a call of a method gives: a result, nil and an error text, or a Lua error *)
Inductive lua_result (A : Type) := LuaOk (a : A) | LuaNil (err : string) | LuaRaise.
Arguments LuaOk {A}. Arguments LuaNil {A}. Arguments LuaRaise {A}.

Definition ends_with_slash (s : string) : bool :=
  match rev (String.list_ascii_of_string s) with c :: _ => is_char "/" c | [] => false end.

Section lua.
Variable c : lconfig.

Definition setting (s : nat) : option lsetting := lc_settings c !! s.
Definition is_root (s : nat) : bool := match setting s with Some x => Nat.eqb (ls_parent x) s | None => false end.

(** [setting.full_name or setting.name] *)
Definition path_name (x : lsetting) : string := default (ls_name x) (ls_full_name x).
Definition slash (path : string) : string := if ends_with_slash path then "" else "/".

(** [get_setting_path], and with it [get_path] of a setting; [n]: more than the depth of the setting *)
Fixpoint get_setting_path (n : nat) (s : nat) : option string :=
  match n with
  | O => None
  | S n' =>
      x ← setting s;
      if is_root s then Some ""
      else if is_root (ls_parent x) then Some "/"
      else
        parent ← setting (ls_parent x);
        parent_path ← get_setting_path n' (ls_parent x);
        Some (parent_path +:+ slash parent_path +:+ path_name parent)
  end.
Definition fuel : nat := S (length (lc_settings c)).

(** [get_path] of the block of a setting *)
Definition get_block_path (s : nat) : option string :=
  x ← setting s;
  setting_path ← get_setting_path fuel s;
  Some (setting_path +:+ slash setting_path +:+ (if is_root s then "" else path_name x)).

(** The settings in a block; a setting without one raises an error. *)
Definition block_settings (s : nat) : option (list nat) := x ← setting s; ls_block x.

(** [each_setting] from the root, and with it [all_settings]: [n]: more than the depth of the blocks *)
Fixpoint walk_setting (n : nat) (settings : list nat) : list nat :=
  match n with
  | O => []
  | S n' =>
      List.flat_map (λ s, s :: match block_settings s with Some l => walk_setting n' l | None => [] end) settings
  end.
Definition all_settings : list nat := walk_setting fuel (default [] (block_settings 0)).
Definition has_block (s : nat) : bool := match block_settings s with Some _ => true | None => false end.
Definition all_blocks : list nat := 0%nat :: List.filter has_block all_settings.

(** *** Looking settings up *)

Definition has_colon (name : string) : bool := existsb (is_char ":") (String.list_ascii_of_string name).
(** The module and the name that are looked for; none: no name *)
Definition split_name (name : string) : option string * option string :=
  if negb (has_colon name) then (None, Some name)
  else
    match module_and_name name with
    | None => (None, None)
    | Some (m, name') => (if starts_with "*" name then None else Some m, Some name')
    end.

(** Whether the setting [d] is what is looked for in the block with path [path] *)
Definition is_found (module name : option string) (path : string) (d : nat) : bool :=
  match setting d with
  | None => false
  | Some x =>
      bool_decide (name = Some (ls_name x)) && (bool_decide (module ≠ None ∧ module = ls_module x) || true) &&
      match ls_handled_by x ≫= λ h, lc_handlers c !! h with
      | Some h => match_path path (h_path h)
      | None => false
      end
  end.

(** The loop outwards; [n]: more than the depth of the block *)
Fixpoint find_setting_loop (n : nat) (module name : option string) (path : string) (context : nat) :
    lua_result (option nat) :=
  match n with
  | O => LuaRaise
  | S n' =>
      match setting context ≫= ls_block with
      | None => LuaRaise
      | Some settings =>
          match List.find (is_found module name path) settings with
          | Some d => LuaOk (Some d)
          | None =>
              match setting context with
              | Some x =>
                  if Nat.eqb context (ls_parent x) then LuaOk None
                  else find_setting_loop n' module name path (ls_parent x)
              | None => LuaRaise
              end
          end
      end
  end.
(** [find_setting]; false is [None]. *)
Definition find_setting (name : string) (context : nat) : lua_result (option nat) :=
  match get_block_path context with
  | None => LuaRaise
  | Some path => let '(module, name) := split_name name in find_setting_loop fuel module name path context
  end.

(** *** Values *)

Inductive values_kind := KindLocal | KindInherited | KindDefault.

(** [predecessor]: the loop looks at the variable [setting] after it has become a parent. *)
Fixpoint predecessor_loop (n : nat) (s : nat) : option nat :=
  match n with
  | O => None
  | S n' =>
      match setting s with
      | None => None
      | Some x =>
          if Nat.eqb (ls_parent x) s then None
          else
            let same d :=
              bool_decide (ls_handled_by x ≠ None ∧ (setting d ≫= ls_handled_by) = ls_handled_by x) in
            match List.find same (default [] (ls_block x)) with
            | Some d => Some d
            | None => predecessor_loop n' (ls_parent x)
            end
      end
  end.
Definition predecessor (s : nat) : option nat := x ← setting s; predecessor_loop fuel (ls_parent x).

(** [setting_values], by their numbers; nil is [LuaNil]. *)
Definition setting_values (s : nat) (kind : values_kind) : lua_result (list nat) :=
  match setting s with
  | None => LuaRaise
  | Some x =>
      match kind with
      | KindLocal => LuaOk (default [] (ls_values x))
      | KindDefault =>
          match ls_handled_by x with
          | None => LuaOk []
          | Some h =>
              match lc_handlers c !! h with
              | None => LuaNil "can't find handler for setting"
              | Some hd => LuaOk (default [] (h_default_values hd))
              end
          end
      | KindInherited =>
          match predecessor s with
          | None => LuaOk []
          | Some d =>
              match setting d ≫= ls_values with
              | None => LuaNil "nil"
              | Some l => LuaOk l
              end
          end
      end
  end.
End lua.

(** [join_literal_tokens] of instring.lua *)
Fixpoint join_literal_tokens (ts : list lua_token) : list lua_token :=
  match ts with
  | [] => []
  | LuaLiteral a :: ts' =>
      match join_literal_tokens ts' with
      | LuaLiteral b :: r => LuaLiteral (a +:+ b) :: r
      | r => LuaLiteral a :: r
      end
  | t :: ts' => t :: join_literal_tokens ts'
  end.

(** What [find_variable] of config.lua finds by a name in the block of a setting: nothing, a module's variable, or what
    [set] has made the variable stand for *)
Inductive found_variable := NotFound | ModuleVariable | Substitution (ts : list lua_token).
Class VariableEnv := find_variable_in : string → nat → found_variable.

Section substitution.
Context `{!VariableEnv}.

(** The loop over the tokens from place [i] on, counted from 0; none: it has not ended after [n] turns. *)
Fixpoint substitute (n : nat) (block : nat) (ts : list lua_token) (i : nat) : option (lua_result (list lua_token)) :=
  match n with
  | O => None
  | S n' =>
      match ts !! i with
      | None => Some (LuaOk ts)
      | Some (LuaVariable name _ _ _) =>
          match find_variable_in name block with
          | NotFound => Some (LuaNil "no such variable")
          | ModuleVariable => substitute n' block ts (S i)
          | Substitution r =>
              substitute n' block (join_literal_tokens (take i ts ++ r ++ drop (S i) ts)) i
          end
      | Some (LuaLiteral _) => substitute n' block ts (S i)
      end
  end.

(** The loop over the values: each value's [instring] becomes what it stands for.  [turns]: how many turns a
    value's loop may take; none: it took more. *)
Variable turns : nat.
Fixpoint values_loop (block : nat) (vals : list nat) (store : list (list lua_token)) :
    option (lua_result (list (list lua_token)) * list (list lua_token)) :=
  match vals with
  | [] => Some (LuaOk [], store)
  | v :: vals' =>
      match store !! v with
      | None => Some (LuaRaise, store)
      | Some ts =>
          match substitute turns block ts 0 with
          | None => None
          | Some (LuaOk ts) =>
              match values_loop block vals' (<[v := ts]> store) with
              | Some (LuaOk l, store) => Some (LuaOk (ts :: l), store)
              | r => r
              end
          | Some (LuaNil e) => Some (LuaNil e, store)
          | Some LuaRaise => Some (LuaRaise, store)
          end
      end
  end.

(** [setting_instrings]; what it keeps in [instrings_cache] is left out: it is called once for each setting and kind.
    A nil instead of values raises an error in [ipairs]. *)
Definition setting_instrings (c : lconfig) (s : nat) (kind : values_kind) :
    option (lua_result (list (list lua_token)) * lconfig) :=
  match setting_values c s kind, setting c s with
  | LuaOk vals, Some x =>
      match values_loop (ls_parent x) vals (lc_values c) with
      | Some (r, store) => Some (r, put_values store c)
      | None => None
      end
  | _, _ => Some (LuaRaise, c)
  end.
End substitution.

(** *** Lemmas *)

(** The values of a kind, if they all are plain literals *)
Definition plain_value (ts : list lua_token) : option string :=
  match ts with [LuaLiteral s] => Some s | _ => None end.
Definition written (c : lconfig) (s : nat) (kind : values_kind) : option (list string) :=
  match setting_values c s kind with
  | LuaOk vals => mapM (λ v, ts ← lc_values c !! v; plain_value ts) vals
  | _ => None
  end.

(** What does not change: everything but the values, and of them the plain ones *)
Record keeps (c c' : lconfig) : Prop := {
  kp_settings : lc_settings c' = lc_settings c;
  kp_handlers : lc_handlers c' = lc_handlers c;
  kp_plain : ∀ v ts s, lc_values c !! v = Some ts → plain_value ts = Some s → lc_values c' !! v = Some ts
}.
#[export] Instance keeps_preorder : PreOrder keeps.
Proof.
  split; [by split|]. intros c1 c2 c3 [Hs Hh Hp] [Hs' Hh' Hp']. split; [congruence|congruence|]. eauto.
Qed.

Lemma find_ext {A} (f g : A → bool) l : (∀ x, f x = g x) → List.find f l = List.find g l.
Proof. intros Hfg. induction l as [|x l IH]; [done|]. simpl. by rewrite Hfg, IH. Qed.
Lemma setting_values_keeps c c' s kind : keeps c c' → setting_values c' s kind = setting_values c s kind.
Proof.
  intros [Hs Hh _].
  assert (∀ t, setting c' t = setting c t) as Hset by (intros; unfold setting; by rewrite Hs).
  assert (∀ n t, predecessor_loop c' n t = predecessor_loop c n t) as Hp.
  { intros n. induction n as [|n IH]; intros t; [done|]. simpl. rewrite Hset. destruct (setting c t); [|done].
    rewrite IH. destruct (Nat.eqb _ _); [done|].
    erewrite find_ext; [reflexivity|]. intros d. simpl. by rewrite Hset. }
  assert (predecessor c' s = predecessor c s) as Hpr.
  { unfold predecessor, fuel. rewrite Hset, Hs. destruct (setting c s); [|done]. apply Hp. }
  unfold setting_values. rewrite Hset, Hpr, Hh. destruct (setting c s); [|done]. destruct kind; [done| |done].
  destruct (predecessor c s); [|done]. by rewrite Hset.
Qed.

Lemma written_keeps c c' s kind strs : keeps c c' → written c s kind = Some strs → written c' s kind = Some strs.
Proof.
  intros Hk. unfold written. rewrite (setting_values_keeps c c') by done. destruct (setting_values c s kind); [|done..].
  rewrite !mapM_Some. intros Hf. eapply Forall2_impl; [exact Hf|]. simpl. intros v str Hv.
  destruct (lc_values c !! v) as [ts|] eqn:Hts; [|done]. simpl in Hv. by rewrite (kp_plain _ _ Hk _ _ _ Hts Hv).
Qed.

Section substitution_lemmas.
Context `{!VariableEnv}.

Lemma values_loop_keeps turns block vals : ∀ store r store', values_loop turns block vals store = Some (r, store') →
  ∀ v ts s, store !! v = Some ts → plain_value ts = Some s → store' !! v = Some ts.
Proof.
  induction vals as [|v vals IH]; intros store r store' Hl u us s Hu Hp; simpl in Hl; [by simplify_eq|].
  destruct (store !! v) as [ts|] eqn:Hv; [|by simplify_eq].
  destruct (substitute turns block ts 0) as [[ts'|e|]|] eqn:Hs; [|by simplify_eq..|done].
  assert (<[v := ts']> store !! u = Some us) as Hu'.
  { destruct (decide (u = v)) as [->|Hne]; [|by rewrite list_lookup_insert_ne].
    rewrite list_lookup_insert_eq by (by apply lookup_lt_is_Some; eauto).
    assert (ts = us) as -> by congruence. destruct us as [|[str|] [|]]; try done. simpl in Hs.
    destruct turns as [|[|n]]; simpl in Hs; [done..|]. by simplify_eq. }
  destruct (values_loop turns block vals (<[v := ts']> store)) as [[[l|e|] store1]|] eqn:Hl'; simplify_eq;
    by eapply IH.
Qed.

Lemma setting_instrings_keeps turns c s kind r c' : setting_instrings turns c s kind = Some (r, c') → keeps c c'.
Proof.
  unfold setting_instrings. destruct (setting_values c s kind) as [vals| |]; [|intros [= <- <-]; reflexivity..].
  destruct (setting c s) as [x|]; [|intros [= <- <-]; reflexivity].
  destruct (values_loop _ _ _ _) as [[r0 store]|] eqn:Hl; [|done]. intros [= <- <-]. split; [done..|].
  eapply values_loop_keeps, Hl.
Qed.

(** Plain values are what they are. *)
Lemma values_loop_plain turns block vals : (2 ≤ turns)%nat → ∀ store strs,
  mapM (λ v, ts ← store !! v; plain_value ts) vals = Some strs →
  ∃ store', values_loop turns block vals store = Some (LuaOk ((λ s, [LuaLiteral s]) <$> strs), store').
Proof.
  intros Hn. induction vals as [|v vals IH]; intros store strs Hm; simpl in Hm.
  { injection Hm as <-. by exists store. }
  apply bind_Some in Hm as (str & Hv & Hm). apply bind_Some in Hm as (strs' & Hm & [= <-]).
  apply bind_Some in Hv as (ts & Hv & Hp). destruct ts as [|[str'|] [|]]; try done. injection Hp as ->.
  simpl. rewrite Hv.
  assert (substitute turns block [LuaLiteral str] 0 = Some (LuaOk [LuaLiteral str])) as ->.
  { destruct turns as [|[|n]]; [lia..|]. done. }
  rewrite list_insert_id by done. destruct (IH _ _ Hm) as [store' ->]. by exists store'.
Qed.

Lemma setting_instrings_plain turns c s kind strs : (2 ≤ turns)%nat → written c s kind = Some strs →
  ∃ c', setting_instrings turns c s kind = Some (LuaOk ((λ s, [LuaLiteral s]) <$> strs), c').
Proof.
  unfold written, setting_instrings. intros Hn Hw.
  destruct (setting_values c s kind) as [vals| |] eqn:Hv; [|done..].
  destruct (setting c s) as [x|] eqn:Hx.
  - destruct (values_loop_plain turns (ls_parent x) vals Hn _ _ Hw) as [store ->]. eauto.
  - unfold setting_values in Hv. by rewrite Hx in Hv.
Qed.
End substitution_lemmas.

(** *** Names and blocks on the way to the root *)

Definition chars : string → list ascii := String.list_ascii_of_string.
Definition good_name (n : string) : Prop := n ≠ "" ∧ Forall (λ a, is_char "/" a = false) (chars n).

(** A setting that is not the root has a parent made before it, which has a block; names have no slash. *)
Record tree_ok (c : lconfig) : Prop := {
  to_root : ∃ x l, setting c 0 = Some x ∧ ls_parent x = 0%nat ∧ ls_block x = Some l;
  to_parent : ∀ s x, setting c s = Some x → s ≠ 0%nat →
    (ls_parent x < s)%nat ∧ good_name (path_name x) ∧ is_Some (block_settings c (ls_parent x))
}.

(** The settings around a setting, with itself, from the root on; the names of all but the root; and the
    settings in the blocks around, the nearest first *)
Fixpoint chain (c : lconfig) (n : nat) (s : nat) : list nat :=
  match n, setting c s with
  | S n', Some x => if Nat.eqb s (ls_parent x) then [s] else (chain c n' (ls_parent x) ++ [s])%list
  | _, _ => []
  end.
Definition enclosing (c : lconfig) (s : nat) : list nat := chain c (fuel c) s.
Definition name_of (c : lconfig) (s : nat) : string := match setting c s with Some x => path_name x | None => "" end.
Definition names (c : lconfig) (s : nat) : list string := name_of c <$> tail (enclosing c s).
Definition in_scope (c : lconfig) (s : nat) : list nat :=
  mjoin ((λ o, default [] (block_settings c o)) <$> rev (enclosing c s)).

Section tree.
Variable c : lconfig.
Hypothesis Htree : tree_ok c.

Lemma setting_lt s x : setting c s = Some x → (s < length (lc_settings c))%nat.
Proof. intros Hs. apply lookup_lt_is_Some. by exists x. Qed.

(** More fuel changes nothing. *)
Lemma chain_fuel s : ∀ n m, (s < n)%nat → (s < m)%nat → chain c n s = chain c m s.
Proof.
  induction s as [s IH] using (well_founded_induction lt_wf). intros n m Hn Hm.
  destruct n as [|n]; [lia|]. destruct m as [|m]; [lia|]. simpl.
  destruct (setting c s) as [x|] eqn:Hx; [|done].
  destruct (Nat.eqb_spec s (ls_parent x)) as [|Hne]; [done|].
  assert (s ≠ 0%nat) as Hs0.
  { intros ->. destruct (to_root _ Htree) as (x0 & l & Hx0 & Hp & _). congruence. }
  destruct (to_parent _ Htree s x Hx Hs0) as (Hlt & _). f_equal. apply IH; lia.
Qed.

Lemma chain_root n : (0 < n)%nat → chain c n 0 = [0%nat].
Proof.
  intros Hn. destruct (to_root _ Htree) as (x0 & l & Hx0 & Hp & _). destruct n; [lia|]. simpl. rewrite Hx0, Hp. done.
Qed.
Lemma enclosing_root : enclosing c 0 = [0%nat].
Proof. apply chain_root. unfold fuel. lia. Qed.

Lemma enclosing_step s x : setting c s = Some x → s ≠ 0%nat →
  enclosing c s = (enclosing c (ls_parent x) ++ [s])%list ∧ (ls_parent x < s)%nat ∧ is_Some (setting c (ls_parent x)).
Proof.
  intros Hx Hs. destruct (to_parent _ Htree s x Hx Hs) as (Hlt & _ & [l Hl]). split_and!; [|done|].
  - unfold enclosing. pose proof (setting_lt s x Hx).
    rewrite (chain_fuel (ls_parent x) (fuel c) (length (lc_settings c))) by (unfold fuel; lia).
    unfold fuel. simpl. rewrite Hx. by destruct (Nat.eqb_spec s (ls_parent x)); [lia|].
  - unfold block_settings in Hl. destruct (setting c (ls_parent x)); [eauto|done].
Qed.

Lemma is_root_spec s x : setting c s = Some x → is_root c s = bool_decide (s = 0%nat).
Proof.
  intros Hx. unfold is_root. rewrite Hx. destruct (decide (s = 0%nat)) as [->|Hs].
  - destruct (to_root _ Htree) as (x0 & l & Hx0 & Hp & _). simplify_eq. rewrite Hp. done.
  - destruct (to_parent _ Htree s x Hx Hs) as (Hlt & _). rewrite bool_decide_eq_false_2 by done.
    apply Nat.eqb_neq. lia.
Qed.
End tree.

(** *** Paths of names *)

#[local] Open Scope list_scope.

Definition slashed (n : string) : list ascii := "/"%char :: chars n.
Definition joined (ns : list string) : list ascii := match ns with [] => slashed "" | _ => mjoin (slashed <$> ns) end.

Lemma chars_app a b : chars (a +:+ b) = (chars a ++ chars b)%list.
Proof. unfold chars. induction a as [|k a IH]; [done|]. simpl. by rewrite <- IH. Qed.
Lemma of_chars s : String.string_of_list_ascii (chars s) = s.
Proof. apply String.string_of_list_ascii_of_string. Qed.

Lemma split_at_run sep a : Forall (λ k, sep k = false) a → ∀ b acc,
  split_at sep (a ++ b) acc = split_at sep b (rev a ++ acc).
Proof.
  induction 1 as [|k a Hk Ha IH]; intros b acc; [done|]. simpl. rewrite Hk, IH. by rewrite <- app_assoc.
Qed.

Lemma split_joined ns : Forall good_name ns → ∀ acc,
  split_at (is_char "/") (mjoin (slashed <$> ns)) acc = String.string_of_list_ascii (rev acc) :: ns.
Proof.
  induction 1 as [|n ns [_ Hn] Hns IH]; intros acc; [done|]. rewrite fmap_cons.
  change (mjoin (slashed n :: (slashed <$> ns))) with ("/"%char :: (chars n ++ mjoin (slashed <$> ns)))%list.
  simpl. f_equal. rewrite (split_at_run _ _ Hn), IH, app_nil_r, rev_involutive. by rewrite of_chars.
Qed.

Lemma good_names_kept ns : Forall good_name ns → List.filter (λ w, negb (bool_decide (w = ""))) ns = ns.
Proof.
  induction 1 as [|n ns [Hn _] Hns IH]; [done|]. simpl. rewrite bool_decide_eq_false_2 by done. simpl. by rewrite IH.
Qed.

Lemma parts_joined ns path : Forall good_name ns → chars path = joined ns → parts "/" path = ns.
Proof.
  intros Hns Hp. unfold parts, split_string. fold (chars path). rewrite Hp. destruct ns as [|n ns]; [done|].
  unfold joined. rewrite (split_joined _ Hns []). simpl. by apply (good_names_kept (n :: ns)).
Qed.

Lemma split_path_joined ns path : Forall good_name ns → chars path = joined ns → split_path path = ns.
Proof.
  intros Hns Hp. unfold split_path. destruct path as [|k path]; [by destruct ns|].
  assert (k = "/"%char) as ->. { destruct ns; by inversion Hp. }
  rewrite !bool_decide_eq_false_2 by done. simpl. by apply parts_joined.
Qed.

Lemma joined_ends ns path : Forall good_name ns → chars path = joined ns →
  ends_with_slash path = bool_decide (ns = []).
Proof.
  intros Hns Hp. unfold ends_with_slash. fold (chars path). rewrite Hp.
  destruct ns as [|n ns] using rev_ind; [done|]. rewrite bool_decide_eq_false_2 by (intros Hnil%app_nil; naive_solver).
  apply Forall_app in Hns as [Hns Hn]. apply Forall_singleton in Hn as [Hne Hn].
  destruct (chars n) as [|k l] eqn:Hc using rev_ind; [by destruct n|]. clear IHl.
  assert (joined (ns ++ [n]) = (mjoin (slashed <$> ns) ++ "/"%char :: l ++ [k])%list) as ->.
  { assert (joined (ns ++ [n]) = mjoin (slashed <$> (ns ++ [n]))) as -> by (by destruct ns).
    rewrite fmap_app, join_app. simpl. unfold slashed at 2. by rewrite app_nil_r, Hc. }
  rewrite app_comm_cons, app_assoc, rev_app_distr. simpl.
  apply Forall_app in Hn as [_ Hk]. by inversion Hk.
Qed.

(** One name more *)
Lemma joined_snoc ns n path : Forall good_name ns → chars path = joined ns →
  chars (path +:+ slash path +:+ n) = joined (ns ++ [n]).
Proof.
  intros Hns Hp. unfold slash. rewrite (joined_ends ns) by done. rewrite !chars_app, Hp.
  destruct ns as [|m ns]; [simpl; by rewrite app_nil_r|]. rewrite bool_decide_eq_false_2 by done.
  unfold joined. cbn [app]. rewrite app_comm_cons, fmap_app, join_app. simpl. by rewrite app_nil_r.
Qed.

(** *** What is found *)

Section found.
Variable c : lconfig.
Hypothesis Htree : tree_ok c.

Lemma names_root : names c 0 = [].
Proof. unfold names. by rewrite enclosing_root. Qed.

Lemma names_step s x : setting c s = Some x → s ≠ 0%nat →
  names c s = names c (ls_parent x) ++ [path_name x] ∧ good_name (path_name x).
Proof.
  intros Hx Hs. destruct (to_parent _ Htree s x Hx Hs) as (_ & Hg & _). split; [|done].
  destruct (enclosing_step c Htree s x Hx Hs) as (He & Hlt & [y Hy]). unfold names. rewrite He.
  assert (enclosing c (ls_parent x) ≠ []) as Hne.
  { unfold enclosing, fuel. simpl. rewrite Hy. destruct (Nat.eqb _ _); [done|]. by intros [_ ?]%app_nil. }
  destruct (enclosing c (ls_parent x)) as [|e l]; [done|]. simpl. rewrite fmap_app. simpl.
  unfold name_of at 2. by rewrite Hx.
Qed.

Lemma names_good s : ∀ x, setting c s = Some x → Forall good_name (names c s).
Proof.
  induction s as [s IH] using (well_founded_induction lt_wf). intros x Hx.
  destruct (decide (s = 0%nat)) as [->|Hs]; [by rewrite names_root|].
  destruct (names_step s x Hx Hs) as [-> Hg]. destruct (enclosing_step c Htree s x Hx Hs) as (_ & Hlt & [y Hy]).
  apply Forall_app. split; [by eapply IH|by constructor].
Qed.

(** A setting's path has the names of the settings around it. *)
Lemma setting_path_joined s : ∀ x n, setting c s = Some x → s ≠ 0%nat → (s < n)%nat →
  ∃ path, get_setting_path c n s = Some path ∧ chars path = joined (names c (ls_parent x)).
Proof.
  induction s as [s IH] using (well_founded_induction lt_wf). intros x n Hx Hs Hn.
  destruct (enclosing_step c Htree s x Hx Hs) as (_ & Hlt & [y Hy]). destruct n as [|n]; [lia|]. simpl. rewrite Hx.
  simpl. rewrite (is_root_spec c Htree s x Hx), bool_decide_eq_false_2 by done.
  rewrite (is_root_spec c Htree _ y Hy). case_bool_decide as Hp.
  - exists "/". split; [done|]. rewrite Hp, names_root. done.
  - rewrite Hy. simpl. destruct (IH _ Hlt y n Hy Hp ltac:(lia)) as (path & -> & Hpath). simpl. eexists. split; [done|].
    destruct (names_step _ y Hy Hp) as [-> _].
    destruct (enclosing_step c Htree _ y Hy Hp) as (_ & _ & [z Hz]). apply joined_snoc; [|done].
    by eapply names_good.
Qed.

Lemma block_path_joined s x : setting c s = Some x →
  ∃ path, get_block_path c s = Some path ∧ chars path = joined (names c s).
Proof.
  intros Hx. unfold get_block_path. rewrite Hx. cbn [mbind option_bind]. rewrite (is_root_spec c Htree s x Hx).
  pose proof (setting_lt c s x Hx) as Hlt. case_bool_decide as Hs.
  - subst s. rewrite names_root. simpl. rewrite Hx. simpl. rewrite (is_root_spec c Htree 0 x Hx). by eexists.
  - destruct (setting_path_joined s x (fuel c) Hx Hs ltac:(unfold fuel; lia)) as (path & -> & Hp). simpl.
    eexists. split; [done|]. destruct (names_step s x Hx Hs) as [-> _].
    destruct (enclosing_step c Htree s x Hx Hs) as (_ & _ & [y Hy]).
    apply joined_snoc; [by eapply names_good|done].
Qed.

(** Whether [d] has the name, and the pattern of the handler that took it matches the names *)
Definition wanted (name : option string) (ns : list string) (d : nat) : bool :=
  match setting c d with
  | None => false
  | Some x =>
      bool_decide (name = Some (ls_name x)) &&
      match ls_handled_by x ≫= λ h, lc_handlers c !! h with
      | Some h => match_parts ns (split_path (h_path h))
      | None => false
      end
  end.

Lemma find_app {A} (f : A → bool) l1 l2 :
  List.find f (l1 ++ l2) = match List.find f l1 with Some x => Some x | None => List.find f l2 end.
Proof. induction l1 as [|x l1 IH]; [done|]. simpl. by destruct (f x). Qed.

Lemma in_scope_step s x : setting c s = Some x → s ≠ 0%nat →
  in_scope c s = default [] (ls_block x) ++ in_scope c (ls_parent x).
Proof.
  intros Hx Hs. destruct (enclosing_step c Htree s x Hx Hs) as (He & _ & _). unfold in_scope.
  rewrite He, rev_app_distr. simpl. unfold block_settings at 1. by rewrite Hx.
Qed.

Lemma find_loop_scope module name path s : ∀ n x, setting c s = Some x → is_Some (ls_block x) → (s < n)%nat →
  find_setting_loop c n module name path s = LuaOk (List.find (is_found c module name path) (in_scope c s)).
Proof.
  induction s as [s IH] using (well_founded_induction lt_wf). intros n x Hx [l Hl] Hn. destruct n as [|n]; [lia|].
  simpl. rewrite Hx. simpl. rewrite Hl. destruct (decide (s = 0%nat)) as [->|Hs].
  - unfold in_scope. rewrite enclosing_root by done. simpl. unfold block_settings. rewrite Hx. simpl. rewrite Hl.
    simpl. rewrite app_nil_r. destruct (to_root _ Htree) as (x0 & l0 & Hx0 & Hp & _). simplify_eq. rewrite Hp.
    by destruct (List.find _ _).
  - rewrite (in_scope_step s x Hx Hs), find_app, Hl. simpl. destruct (List.find _ l); [done|].
    destruct (to_parent _ Htree s x Hx Hs) as (Hlt & _ & [l' Hl']).
    destruct (Nat.eqb_spec s (ls_parent x)); [lia|]. unfold block_settings in Hl'.
    destruct (setting c (ls_parent x)) as [y|] eqn:Hy; [|done]. simpl in Hl'. apply (IH _ Hlt n y); [done|eauto|lia].
Qed.
End found.

(** C29: A setting is looked up in the block it is asked of and then in the blocks around it, the nearest first: the first one
    with the name is found whose handler's pattern matches the names of the blocks on the way from the root; the search
    ends.  The module that the name may begin with does not matter. *)
Theorem find_setting_nearest c name s x
  (Htree : tree_ok c) (Hs : setting c s = Some x) (Hblock : is_Some (ls_block x)) :
  find_setting c name s = LuaOk (List.find (wanted c (split_name name).2 (names c s)) (in_scope c s)).
Proof.
  unfold find_setting. destruct (block_path_joined c Htree s x Hs) as (path & -> & Hp).
  destruct (split_name name) as [module name'].
  rewrite (find_loop_scope c Htree _ _ _ s (fuel c) x Hs Hblock) by (pose proof (setting_lt c s x Hs); unfold fuel; lia).
  f_equal. apply find_ext. intros d. unfold is_found, wanted. destruct (setting c d) as [y|]; [|done].
  rewrite orb_true_r, andb_true_r. simpl. destruct (_ ≫= _) as [h|]; [|done]. unfold match_path.
  by rewrite (split_path_joined (names c s) path (names_good c Htree s x Hs) Hp).
Qed.

(** ** Examples *)

(** [timeout 5; server { name a; location { location b { } } }], and a handler for each *)
Definition sample_config : lconfig := LConfig
  [LSetting "::ROOT" None None 0 (Some []) (Some [1; 2]%nat) None;
   LSetting "timeout" None (Some "m") 0 (Some [0%nat]) None (Some "m:timeout");
   LSetting "server" None (Some "m") 0 (Some []) (Some [3; 4; 6]%nat) (Some "m:server");
   LSetting "name" None (Some "m") 2 (Some [1%nat]) None (Some "m:name");
   LSetting "location" None (Some "m") 2 (Some []) (Some [5%nat]) (Some "m:location");
   LSetting "location" None (Some "m") 4 (Some [2%nat]) (Some []) (Some "m:location");
   LSetting "timeout" None (Some "m") 2 (Some []) None (Some "m:timeout")]
  [[LuaLiteral "5"]; [LuaLiteral "a"]; [LuaLiteral "b"]]
  (list_to_map [("m:timeout", Handler "*" (Some [0%nat])); ("m:server", Handler "/" None);
                ("m:name", Handler "server/" None); ("m:location", Handler "*" None)]).

Lemma sample_tree : tree_ok sample_config.
Proof.
  split; [by do 2 eexists|]. intros s x Hs Hne.
  destruct s as [|s]; [done|].
  do 6 (destruct s as [|s];
    [injection Hs as <-; split_and!; [simpl; lia|split; [done|by repeat constructor]|by eexists]|]).
  done.
Qed.

Lemma find_setting_nearest_witness :
  find_setting sample_config "other:name" 4 = LuaOk None ∧ find_setting sample_config "other:name" 2 = LuaOk (Some 3%nat) ∧
  find_setting sample_config "timeout" 5 = LuaOk (Some 6%nat).
Proof.
  split_and!; [|by vm_compute|by vm_compute].
  rewrite (find_setting_nearest sample_config "other:name" 4 _ sample_tree eq_refl) by (by eexists). by vm_compute.
Defined.

(** *** Nothing is inherited *)

(** An inner setting without values does not inherit those of the one outside, although they have the same handler;
    the location inside a location has itself as its predecessor. *)
Lemma no_inheritance :
  setting_values sample_config 6 KindInherited = LuaOk [] ∧ setting_values sample_config 1 KindLocal = LuaOk [0%nat] ∧
  predecessor sample_config 5 = Some 5%nat ∧ setting_values sample_config 5 KindInherited = LuaOk [2%nat].
Proof. by vm_compute. Qed.
