(* ===== verification/ConfigSettings.v ===== *)
(** Settings in C, src/src/modules/config/config.c: the structs and the strings that are made of config.lua's settings, their
    copies for workers, and the functions that modules get values with. *)

From stdpp Require Import strings.
From S2P Require Import Prelude Modules Instring Config.

#[local] Open Scope string_scope.
#[local] Open Scope Z_scope.
#[local] Open Scope list_scope.

(** ** Data *)

(** [shuso_setting_t], [shuso_setting_block_t]: they have the number of the Lua setting they are made of, a block
    that of the setting whose block it is. *)
Record setting_struct := Setting {
  s_name : string;
  s_module : option string;
  s_path : string;
  s_instrings_index : Z;
  s_parent_block : option nat;
  s_block : option nat
}.
Record block_struct := Block { b_setting : nat; b_path : string }.

(** [shuso_setting_instrings_t]: which arrays of strings; [merged] is one of the others. *)
Record setting_arrays := SettingArrays { sa_merged : nat; sa_local : nat; sa_inherited : nat; sa_defaults : nat }.

Inductive merge_type := SETTING_MERGED | SETTING_LOCAL | SETTING_INHERITED | SETTING_DEFAULT.
Inductive value_type := SETTING_TYPED (q : query) | SETTING_BUFFER.
(** What a caller gets: false (no such value), or what the conversion gave *)
Inductive setting_answer := NoValue | Converted (a : answer) | BufferOf (l : list string).

(** What [shuso_config_module_common_ctx_t] holds of blocks; a pointer is a setting's or a block's. *)
Inductive pointer := PtrSetting (s : nat) | PtrBlock (b : nat).
Record config_blocks := ConfigBlocks { cb_root : pointer; cb_array : list pointer }.

(** What the core module sets in [S->common->config] *)
Record core_config := CoreConfig {
  cc_workers : Z;
  cc_io_uring_enabled : option bool;     (* none: [SHUSO_MAYBE] *)
  cc_worker_entries : Z;
  cc_sqpoll_thread : bool;
  cc_sqpoll_thread_idle : Z
}.

(** The manager's and all workers' memory: the strings' arrays are shared where a pointer is copied. *)
Record cworld (E : Type) := CWorld {
  cw_sys : world E;
  cw_lua : lconfig;
  cw_settings : gmap nat setting_struct;
  cw_blocks : gmap nat block_struct;
  cw_arrays : list (list instring);
  cw_config : core_config
}.
Arguments CWorld {E}. Arguments cw_sys {E}. Arguments cw_lua {E}. Arguments cw_settings {E}. Arguments cw_blocks {E}.
Arguments cw_arrays {E}. Arguments cw_config {E}.

(** What the code relies on: Lua's [string.match]; the error text that config.lua makes of a message about a setting or a
    block; what [str_time_to_seconds] of config.lua gives, in milliseconds, with Lua's numbers: a time, or false ([Some None]),
    or an error for some units, whose patterns are malformed (none). *)
Class ConfigEnv := {
  string_match : string → string → bool;
  located : nat → string → string;
  time_ms : string → option (option Z)
}.

Section config.
Context {E : Type} `{!InstringEnv E} `{!VariableEnv} `{!ConfigEnv}.
(** How often a loop over a string's tokens may turn; the modules that depend on the core. *)
Variable turns : nat.
Variable core_submodules : Z.

Definition put_csys (s : world E) (w : cworld E) : cworld E :=
  CWorld s (cw_lua w) (cw_settings w) (cw_blocks w) (cw_arrays w) (cw_config w).
Definition put_lua (l : lconfig) (w : cworld E) : cworld E :=
  CWorld (cw_sys w) l (cw_settings w) (cw_blocks w) (cw_arrays w) (cw_config w).
Definition put_setting (s : nat) (x : setting_struct) (w : cworld E) : cworld E :=
  CWorld (cw_sys w) (cw_lua w) (<[s := x]> (cw_settings w)) (cw_blocks w) (cw_arrays w) (cw_config w).
Definition put_block (s : nat) (x : block_struct) (w : cworld E) : cworld E :=
  CWorld (cw_sys w) (cw_lua w) (cw_settings w) (<[s := x]> (cw_blocks w)) (cw_arrays w) (cw_config w).
Definition put_arrays (l : list (list instring)) (w : cworld E) : cworld E :=
  CWorld (cw_sys w) (cw_lua w) (cw_settings w) (cw_blocks w) l (cw_config w).
Definition put_config (c : core_config) (w : cworld E) : cworld E :=
  CWorld (cw_sys w) (cw_lua w) (cw_settings w) (cw_blocks w) (cw_arrays w) c.

Definition on_csys {A} (m : M (world E) A) : M (cworld E) A :=
  λ w, match m (cw_sys w) with Some (x, s) => Some (x, put_csys s w) | None => None end.

Definition cpalloc (sz : Z) : M (cworld E) bool := on_csys (palloc sz).
Definition set_error {A} (msg : string) : M (cworld E) (option A) := on_csys (shuso_set_error msg).
Definition fail_with (msg : string) : M (cworld E) bool := set_error (A := unit) msg ;;; m_ret false.
Definition error_count : M (cworld E) Z := m_gets (λ w, Z.of_nat (length (w_errors (cw_sys w)))).
Definition last_error : M (cworld E) string := m_gets (λ w, default "" (head (w_errors (cw_sys w)))).

(** [lua_topointer] of a field that is there, or an [assert] *)
Definition m_some {A} (o : option A) : M (cworld E) A := match o with Some x => m_ret x | None => m_abort end.

(** [shuso_config_error] *)
Definition shuso_config_error (s : nat) (msg : string) : M (cworld E) bool := fail_with (located s msg).

(** ** Making the structs *)

(** [shuso_context_list_initialize] of a block: only whether there was memory for it *)
Definition block_context_list : M (cworld E) bool :=
  if 0 <? core_submodules then
    ok <- cpalloc (8 * core_submodules) ;;
    if ok : bool then m_ret true else fail_with "failed to allocate context_list"
  else m_ret true.

(** A new array *)
Definition new_array (l : list instring) : M (cworld E) nat :=
  w <- m_get ;; m_put (put_arrays (cw_arrays w ++ [l]) w) ;;; m_ret (length (cw_arrays w)).

(** One turn of the loop over the kinds: none: an error was reported. *)
Definition kind_instrings (s : nat) (kind : values_kind) : M (cworld E) (option nat) :=
  cnt <- error_count ;;
  w <- m_get ;;
  r <- m_some (setting_instrings turns (cw_lua w) s kind) ;;
  m_put (put_lua r.2 w) ;;;
  a <- match r.1 with
       | LuaNil err =>
           (** [luaS_pcall_config_method] reports it, too. *)
           set_error (A := unit) err ;;; set_error (A := unit) err ;;; m_ret None
       | LuaOk tss =>
           l <- on_csys (luaS_instrings_lua_to_c (Some <$> tss)) ;;
           match l with None => m_ret None | Some l => a <- new_array l ;; m_ret (Some a) end
       | LuaRaise =>
           (** Lua's stack does not hold what is looked for then: what follows is left out. *)
           m_abort
       end ;;
  cnt' <- error_count ;;
  if cnt <? cnt' then msg <- last_error ;; shuso_config_error s msg ;;; m_ret None
  else a <- m_some a ;; m_ret (Some a).

Definition array_length (a : nat) : M (cworld E) nat := w <- m_get ;; l <- m_some (cw_arrays w !! a) ;; m_ret (length l).

(** Which values count: the setting's own, or those inherited, or the defaults *)
Definition merged_array (local inherited defaults : nat) : M (cworld E) nat :=
  n <- array_length local ;;
  if Nat.ltb 0 n then m_ret local
  else
    n <- array_length inherited ;;
    if Nat.ltb 0 n then m_ret inherited else m_ret defaults.

Definition sizeof_setting : Z := 56.
Definition sizeof_block : Z := 24.
Definition sizeof_setting_arrays : Z := 32.

(** The block of a setting, if it has one: none: no memory *)
Definition setting_block (s : nat) (x : lsetting) : M (cworld E) (option (option nat)) :=
  match ls_block x with
  | None => m_ret (Some None)
  | Some _ =>
      ok <- cpalloc sizeof_block ;;
      if negb ok then set_error "failed to allocate memory for config block" else
      w <- m_get ;;
      m_assert (bool_decide (cw_blocks w !! s = None)) ;;;
      path <- m_some (get_block_path (cw_lua w) s) ;;
      m_modify (put_block s (Block s path)) ;;;
      ok <- block_context_list ;;
      if negb ok then set_error "unable to initialize config block module context list" else m_ret (Some (Some s))
  end.

(** [lua_setting_to_c_struct]: none: null *)
Definition lua_setting_to_c_struct (s : nat) (setting_index settings_count : Z) : M (cworld E) (option setting_arrays) :=
  ok <- cpalloc sizeof_setting ;;
  if negb ok then set_error "failed to alloc config setting" else
  w <- m_get ;;
  x <- m_some (setting (cw_lua w) s) ;;
  path <- m_some (get_setting_path (cw_lua w) (fuel (cw_lua w)) s) ;;
  m_assert (bool_decide (ls_module x ≠ None)) ;;;
  m_assert (bool_decide (cw_blocks w !! ls_parent x ≠ None)) ;;;
  block <- setting_block s x ;;
  match block with
  | None => m_ret None
  | Some block =>
      m_modify (put_setting s (Setting (ls_name x) (ls_module x) path setting_index (Some (ls_parent x)) block)) ;;;
      m_assert (setting_index <? settings_count) ;;;
      local <- kind_instrings s KindLocal ;;
      match local with
      | None => m_ret None
      | Some local =>
          defaults <- kind_instrings s KindDefault ;;
          match defaults with
          | None => m_ret None
          | Some defaults =>
              inherited <- kind_instrings s KindInherited ;;
              match inherited with
              | None => m_ret None
              | Some inherited =>
                  merged <- merged_array local inherited defaults ;;
                  m_ret (Some (SettingArrays merged local inherited defaults))
              end
          end
      end
  end.

(** The loop over the settings *)
Fixpoint structs_loop (ss : list nat) (i settings_count : Z) : M (cworld E) (option (list setting_arrays)) :=
  match ss with
  | [] => m_ret (Some [])
  | s :: ss' =>
      a <- lua_setting_to_c_struct s i settings_count ;;
      match a with
      | None => m_ret None
      | Some a =>
          r <- structs_loop ss' (i + 1) settings_count ;;
          m_ret (match r with Some l => Some (a :: l) | None => None end)
      end
  end.

(** A module's [initialize_config], if it has one; [S] is the array of settings it reads. *)
Definition config_fn : Type := list setting_arrays → nat → M (cworld E) bool.

Definition module_initialize_config (ctx : list setting_arrays) (block : nat) (initialize_config : option config_fn) :
    M (cworld E) bool :=
  errcount <- error_count ;;
  ok <- match initialize_config with
        | None => m_ret true
        | Some f =>
            r <- f ctx block ;;
            if r : bool then m_ret true
            else
              cnt <- error_count ;;
              if cnt =? errcount then fail_with "Module failed to initialize config, but reported no error"
              else m_ret false
        end ;;
  if negb ok then m_ret false
  else cnt <- error_count ;; m_ret (negb (errcount <? cnt)).

(** The inner loop over the modules, the outer one over the blocks *)
Fixpoint modules_config_loop (ctx : list setting_arrays) (block : nat) (modules : list (option config_fn)) : M (cworld E) bool :=
  match modules with
  | [] => m_ret true
  | m :: modules' =>
      ok <- module_initialize_config ctx block m ;;
      if ok : bool then modules_config_loop ctx block modules' else m_ret false
  end.
Fixpoint blocks_config_loop (ctx : list setting_arrays) (modules : list (option config_fn)) (blocks : list nat) :
    M (cworld E) bool :=
  match blocks with
  | [] => m_ret true
  | b :: blocks' =>
      w <- m_get ;;
      m_assert (bool_decide (cw_blocks w !! b ≠ None)) ;;;
      ok <- modules_config_loop ctx b modules ;;
      if ok : bool then blocks_config_loop ctx modules blocks' else m_ret false
  end.

(** The structs of the root *)
Definition generate_root : M (cworld E) bool :=
  w <- m_get ;;
  path <- m_some (get_setting_path (cw_lua w) (fuel (cw_lua w)) 0) ;;
  ok <- cpalloc sizeof_block ;;
  if negb ok then fail_with "failed to allocate memory for config root block" else
  ok <- block_context_list ;;
  if negb ok then fail_with "unable to initialize root block module context list" else
  m_modify (put_block 0 (Block 0 "")) ;;;
  ok <- cpalloc sizeof_setting ;;
  if negb ok then fail_with "failed to allocate memory for config root" else
  m_modify (put_setting 0 (Setting "::ROOT" None path (-1) None (Some 0%nat))) ;;; m_ret true.

(** [shuso_config_system_generate], once the configuration has been parsed and [config:handle] has called the settings'
    handlers: the manager's settings and the blocks; none: false *)
Definition shuso_config_system_generate (modules : list (option config_fn)) :
    M (cworld E) (option (list setting_arrays * config_blocks)) :=
  ok <- generate_root ;;
  if negb ok then m_ret None else
  w <- m_get ;;
  let all := all_settings (cw_lua w) in
  let num_settings := Z.of_nat (length all) in
  ok <- (if 0 <? num_settings then cpalloc (sizeof_setting_arrays * num_settings) else m_ret true) ;;
  if negb ok then set_error "failed to allocate memory for settings instring array" else
  ctx <- structs_loop all 0 num_settings ;;
  match ctx with
  | None => m_ret None
  | Some ctx =>
      w <- m_get ;;
      let blocks := all_blocks (cw_lua w) in
      ok <- blocks_config_loop ctx modules blocks ;;
      if negb ok then m_ret None else
      ok <- cpalloc (8 * Z.of_nat (length blocks)) ;;
      if negb ok then set_error "failed to allocate config block array" else
      (** The root is a setting, and so is its [ptr]. *)
      m_ret (Some (ctx, ConfigBlocks (PtrSetting 0) (PtrBlock <$> blocks)))
  end.

(** ** Workers *)

Definition copy_array (a : nat) : M (cworld E) (option nat) :=
  w <- m_get ;;
  old <- m_some (cw_arrays w !! a) ;;
  r <- on_csys (shuso_instrings_copy_for_worker old) ;;
  match r with
  | None => m_ret None
  | Some new =>
      (** The same pointer, or a new array *)
      if forallb (λ i, bool_decide (i_variables i = [])) old then m_ret (Some a)
      else a' <- new_array new ;; m_ret (Some a')
  end.

Fixpoint worker_settings_loop (ctx : list setting_arrays) : M (cworld E) (option (list setting_arrays)) :=
  match ctx with
  | [] => m_ret (Some [])
  | x :: ctx' =>
      local <- copy_array (sa_local x) ;;
      match local with
      | None => m_ret None
      | Some local =>
          defaults <- copy_array (sa_defaults x) ;;
          match defaults with
          | None => m_ret None
          | Some defaults =>
              inherited <- copy_array (sa_inherited x) ;;
              match inherited with
              | None => m_ret None
              | Some inherited =>
                  merged <- merged_array local inherited defaults ;;
                  r <- worker_settings_loop ctx' ;;
                  m_ret (match r with
                         | Some l => Some (SettingArrays merged local inherited defaults :: l)
                         | None => None
                         end)
              end
          end
      end
  end.

(** [config_initialize_worker] with the manager's settings: the worker's; none: false *)
Definition config_initialize_worker (manager : list setting_arrays) : M (cworld E) (option (list setting_arrays)) :=
  let count := Z.of_nat (length manager) in
  ok <- (if 0 <? count then cpalloc (sizeof_setting_arrays * count) else m_ret true) ;;
  if negb ok then set_error "failed to allocate memory for settings instrings array"
  else worker_settings_loop manager.

(** ** Values *)

(** [S->ctx.config.settings_instrings[setting->instrings_index]]; the root's index is out of bounds. *)
Definition setting_arrays_of (ctx : list setting_arrays) (s : nat) : M (cworld E) setting_arrays :=
  w <- m_get ;;
  x <- m_some (cw_settings w !! s) ;;
  m_assert (0 <=? s_instrings_index x) ;;;
  m_some (ctx !! Z.to_nat (s_instrings_index x)).

Definition array_of (mergetype : merge_type) (x : setting_arrays) : nat :=
  match mergetype with
  | SETTING_MERGED => sa_merged x
  | SETTING_LOCAL => sa_local x
  | SETTING_INHERITED => sa_inherited x
  | SETTING_DEFAULT => sa_defaults x
  end.

Definition typed_value (t : value_type) (i : instring) : M (world E) (setting_answer * instring) :=
  match t with
  | SETTING_TYPED q => r <- ask q i ;; m_ret (Converted r.1, r.2)
  | SETTING_BUFFER => r <- shuso_instring_buffer_value i ;; m_ret (BufferOf r.1, r.2)
  end.

(** [f] of the [n]th string of an array *)
Definition with_instring {A} (a n : nat) (f : instring → M (world E) (A * instring)) : M (cworld E) A :=
  w <- m_get ;;
  l <- m_some (cw_arrays w !! a) ;;
  i <- m_some (l !! n) ;;
  r <- on_csys (f i) ;;
  m_modify (λ w, put_arrays (<[a := <[n := r.2]> l]> (cw_arrays w)) w) ;;;
  m_ret r.1.

(** [shuso_setting_value]; no setting: null.  Other types than the enums' abort the program. *)
Definition shuso_setting_value (ctx : list setting_arrays) (s : option nat) (nval : Z) (mergetype : merge_type)
    (valtype : value_type) : M (cworld E) setting_answer :=
  match s with
  | None => m_ret NoValue
  | Some s =>
      x <- setting_arrays_of ctx s ;;
      let a := array_of mergetype x in
      n <- array_length a ;;
      if Z.of_nat n <=? nval then m_ret NoValue
      else with_instring a (Z.to_nat nval) (typed_value valtype)
  end.

(** The getters' [n] is an [int]. *)
Definition getter (q : query) (ctx : list setting_arrays) (s : option nat) (n : Z) : M (cworld E) setting_answer :=
  shuso_setting_value ctx s (u64 n) SETTING_MERGED (SETTING_TYPED q).
Definition shuso_setting_boolean ctx s n : M (cworld E) (option bool) :=
  r <- getter AskBoolean ctx s n ;; m_ret (match r with Converted (Boolean b) => b | _ => None end).
Definition shuso_setting_integer ctx s n : M (cworld E) (option Z) :=
  r <- getter AskInteger ctx s n ;; m_ret (match r with Converted (Integer z) => z | _ => None end).
Definition shuso_setting_number ctx s n : M (cworld E) (option Z) :=
  r <- getter AskNumber ctx s n ;; m_ret (match r with Converted (Number z) => z | _ => None end).
Definition shuso_setting_size ctx s n : M (cworld E) (option Z) :=
  r <- getter AskSize ctx s n ;; m_ret (match r with Converted (Size z) => z | _ => None end).
Definition shuso_setting_string ctx s n : M (cworld E) (option string) :=
  r <- getter AskString ctx s n ;; m_ret (match r with Converted (Str z) => z | _ => None end).
Definition shuso_setting_buffer ctx s n : M (cworld E) (option (list string)) :=
  r <- shuso_setting_value ctx s (u64 n) SETTING_MERGED SETTING_BUFFER ;;
  m_ret (match r with BufferOf l => Some l | _ => None end).
(** In milliseconds *)
Definition shuso_setting_time_sec ctx s n : M (cworld E) (option Z) :=
  v <- shuso_setting_string ctx s n ;;
  match v with
  | None => m_ret None
  | Some str => m_some (time_ms str)     (* an error there is not caught *)
  end.

(** [__shuso_setting_values_count]: null is followed. *)
Definition shuso_setting_values_count (ctx : list setting_arrays) (s : option nat) (mergetype : merge_type) : M (cworld E) nat :=
  s <- m_some s ;; x <- setting_arrays_of ctx s ;; array_length (array_of mergetype x).

(** [shuso_setting_string_matches]: null is followed before it is looked at, and the last place is one too far. *)
Definition shuso_setting_string_matches (ctx : list setting_arrays) (s : option nat) (n : Z) (lua_matchstring : string) :
    M (cworld E) bool :=
  s <- m_some s ;;
  x <- setting_arrays_of ctx s ;;
  count <- array_length (sa_merged x) ;;
  if Z.of_nat count <? u64 n then m_ret false
  else
    r <- with_instring (sa_merged x) (Z.to_nat (u64 n))
           (λ i, r <- shuso_instring_string_value false i ;; m_ret ((r.1, c_string_lua_ref (i_cached_value r.2)), r.2)) ;;
    match r.1 with
    | None => m_ret false
    | Some _ => str <- m_some r.2 ;; m_ret (string_match str lua_matchstring)
    end.

(** [shuso_config_value_error] *)
Definition shuso_config_value_error (ctx : list setting_arrays) (s : nat) (value_num : Z) : M (cworld E) bool :=
  v <- shuso_setting_string ctx (Some s) value_num ;;
  shuso_config_error s (match v with None => "missing value" | Some _ => "invalid value" end).

(** [shuso_setting]: false, which [find_setting] gives if there is none, is not nil, and cannot be indexed. *)
Definition shuso_setting (block : nat) (name : string) : M (cworld E) (option nat) :=
  w <- m_get ;;
  b <- m_some (cw_blocks w !! block) ;;
  match find_setting (cw_lua w) name (b_setting b) with
  | LuaOk (Some d) => m_ret (if bool_decide (cw_settings w !! d = None) then None else Some d)
  | LuaOk None => m_abort
  | LuaNil _ | LuaRaise => on_csys (shuso_set_error (A := unit) "Lua error") ;;; m_ret None
  end.

(** [shuso_config_match_path] of a block *)
Definition shuso_config_match_block_path (block : nat) (path : string) : M (cworld E) bool :=
  w <- m_get ;;
  b <- m_some (cw_blocks w !! block) ;;
  p <- m_some (get_block_path (cw_lua w) (b_setting b)) ;;
  m_ret (match_path p path).

(** ** Strings that are settled *)

(** A string without variables whose values are all cached *)
Record settled (str : string) (i : instring) : Prop := {
  se_variables : i_variables i = [];
  se_iov : i_iov i = [str];
  se_boolean : (c_boolean (i_cached_value i)).1 ≠ VALUE_UNKNOWN ∧ slot_ok (c_boolean (i_cached_value i)) lua_toboolean str;
  se_integer : (c_integer (i_cached_value i)).1 ≠ VALUE_UNKNOWN ∧ slot_ok (c_integer (i_cached_value i)) to_int str;
  se_number : (c_number (i_cached_value i)).1 ≠ VALUE_UNKNOWN ∧ slot_ok (c_number (i_cached_value i)) lua_tonumber str;
  se_size : (c_size (i_cached_value i)).1 ≠ VALUE_UNKNOWN ∧ slot_ok (c_size (i_cached_value i)) to_size str;
  se_string : c_string (i_cached_value i) = (VALUE_VALID, str) ∧ c_string_lua_ref (i_cached_value i) = Some str
}.

Lemma interpolate_none i (w : world E) : i_variables i = [] → shuso_instring_interpolate i w = Some (i, w).
Proof. intros Hv. unfold shuso_instring_interpolate. rewrite Hv. by destruct i as [v t iov c]. Qed.

Lemma cached_value_known {A} get put (convert : string → option A) str i (w : world E) :
  i_variables i = [] → (get (i_cached_value i)).1 ≠ VALUE_UNKNOWN → slot_ok (get (i_cached_value i)) convert str →
  cached_value get put convert i w = Some ((convert str, i), w).
Proof.
  intros Hv Hn Hok. unfold cached_value, m_bind. rewrite interpolate_none by done. unfold slot_ok in Hok.
  destruct (get (i_cached_value i)).1; [done|by rewrite Hok..].
Qed.

Lemma settled_string retval str i (w : world E) : settled str i →
  shuso_instring_string_value retval i w = Some ((Some str, i), w).
Proof.
  intros Hs. unfold shuso_instring_string_value, m_bind. rewrite interpolate_none by apply Hs.
  destruct (se_string _ _ Hs) as [-> _]. done.
Qed.

(** A settled string stays what it is and gives the conversions of its text. *)
Lemma settled_ask q str i (w : world E) : settled str i → ask q i w = Some ((direct_answer q str, i), w).
Proof.
  intros Hs. pose proof (se_variables _ _ Hs) as Hv. destruct q; simpl; unfold m_bind.
  - unfold shuso_instring_boolean_value. destruct (se_boolean _ _ Hs). by rewrite (cached_value_known _ _ _ str).
  - unfold shuso_instring_integer_value. destruct (se_integer _ _ Hs). by rewrite (cached_value_known _ _ _ str).
  - unfold shuso_instring_number_value. destruct (se_number _ _ Hs). by rewrite (cached_value_known _ _ _ str).
  - unfold shuso_instring_size_value. destruct (se_size _ _ Hs). by rewrite (cached_value_known _ _ _ str).
  - by rewrite (settled_string true str).
Qed.

(** Making of a literal settles it. *)
Lemma cached_value_fill {A} get put (convert : string → option A) str i (w : world E) r :
  i_variables i = [] → i_iov i = [str] → (get (i_cached_value i)).1 = VALUE_UNKNOWN →
  cached_value get put convert i w = Some r →
  ∃ x, x.1 ≠ VALUE_UNKNOWN ∧ slot_ok x convert str ∧ r.1.2 = set_cache (put x (i_cached_value i)) i.
Proof.
  intros Hv Hi Hu. unfold cached_value, m_bind. rewrite interpolate_none by done. rewrite Hu.
  unfold iovec_as_string, m_bind, m_assert. destruct (forallb _ _); [|done]. rewrite Hi. simpl.
  destruct (convert str) as [x|] eqn:Hc; unfold m_ret; intros [= <-];
    [exists (VALUE_VALID, x)|exists (VALUE_INVALID, (get (i_cached_value i)).2)]; done.
Qed.

Lemma literal_settled str (w : world E) r :
  literal_values (Instring [] [TokenLiteral str] [str] reset_cache) w = Some r → settled str r.1.
Proof.
  unfold literal_values. simpl. unfold m_bind. set (i0 := set_cache _ _).
  destruct (shuso_instring_boolean_value i0 w) as [[r1 w1]|] eqn:H1; [|done].
  apply (cached_value_fill _ _ _ str) in H1 as (b & Hb1 & Hb2 & Hb); [|done..]. simpl in Hb. rewrite Hb. clear Hb.
  set (i1 := set_cache _ _).
  destruct (shuso_instring_integer_value i1 w1) as [[r2 w2]|] eqn:H2; [|done].
  apply (cached_value_fill _ _ _ str) in H2 as (z & Hz1 & Hz2 & Hz); [|done..]. simpl in Hz. rewrite Hz. clear Hz.
  set (i2 := set_cache _ _).
  destruct (shuso_instring_number_value i2 w2) as [[r3 w3]|] eqn:H3; [|done].
  apply (cached_value_fill _ _ _ str) in H3 as (n & Hn1 & Hn2 & Hn); [|done..]. simpl in Hn. rewrite Hn. clear Hn.
  set (i3 := set_cache _ _).
  destruct (shuso_instring_size_value i3 w3) as [[r4 w4]|] eqn:H4; [|done].
  apply (cached_value_fill _ _ _ str) in H4 as (k & Hk1 & Hk2 & Hk); [|done..]. simpl in Hk. rewrite Hk. clear Hk.
  unfold m_ret. intros [= <-]. by split.
Qed.

Lemma plain_made str pre (w : world E) i w' :
  luaS_instring_lua_to_c_generic pre (Some [LuaLiteral str]) w = Some (Some i, w') → settled str i.
Proof.
  intros Hm. unfold luaS_instring_lua_to_c_generic, m_bind in Hm.
  destruct ((if pre then m_ret true else palloc sizeof_instring) w) as [[[] w1]|]; [|done..].
  cbv beta iota delta [negb] in Hm.
  destruct (palloc _ w1) as [[[] w2]|]; [|done..]. cbv beta iota delta [negb] in Hm.
  destruct (palloc _ w2) as [[[] w3]|]; [|done..]. cbv beta iota delta [negb] in Hm.
  destruct (tokens_loop _ w3) as [[[xs|] w4]|] eqn:Hx; [|done..].
  assert (xs = [(TokenLiteral str, str)]) as ->.
  { cbn [tokens_loop token_lua_to_c] in Hx. unfold m_bind in Hx.
    destruct (instring_token_literal_lua_to_c _ w3) as [[[x|] w5]|] eqn:Ht; [|done..].
    apply literal_made in Ht as (s' & [= <-] & ->). unfold m_ret in Hx. congruence. }
  simpl in Hm. unfold m_bind, m_ret in Hm.
  destruct (literal_values _ w4) as [[j w5]|] eqn:Hl; [|done]. injection Hm as <- _.
  by apply (literal_settled str) in Hl.
Qed.

Lemma plains_made strs : ∀ (w : world E) l w',
  luaS_instrings_lua_to_c (Some <$> ((λ s, [LuaLiteral s]) <$> strs)) w = Some (Some l, w') → Forall2 settled strs l.
Proof.
  intros w l w'. unfold luaS_instrings_lua_to_c, m_bind. destruct (palloc _ w) as [[[] w1]|]; [|done..].
  revert w1 l w'. induction strs as [|str strs IH]; intros w1 l w' Hl;
    [|rewrite !fmap_cons in Hl; cbn [instrings_loop] in Hl].
  { injection Hl as <- _. constructor. }
  unfold m_bind in Hl. destruct (luaS_instring_lua_to_c_generic _ _ w1) as [[[i|] w2]|] eqn:Hi; [|done..].
  destruct (instrings_loop _ w2) as [[[l'|] w3]|] eqn:Hl'; [|done..]. injection Hl as <- _.
  constructor; [by eapply plain_made|by eapply IH].
Qed.

(** ** What reading does not change *)

Definition literal_array (w : cworld E) (a : nat) (strs : list string) : Prop :=
  ∃ l, cw_arrays w !! a = Some l ∧ Forall2 settled strs l.

Record reads (w w' : cworld E) : Prop := {
  rd_lua : cw_lua w' = cw_lua w;
  rd_settings : cw_settings w' = cw_settings w;
  rd_blocks : cw_blocks w' = cw_blocks w;
  rd_arrays : ∀ a strs, literal_array w a strs → literal_array w' a strs
}.
#[export] Instance reads_preorder : PreOrder reads.
Proof. split; [by split|]. intros w1 w2 w3 [] []. split; [congruence..|eauto]. Qed.

(** A function that only reads *)
Definition reader {A} (m : M (cworld E) A) : Prop := ∀ w r w', m w = Some (r, w') → reads w w'.

Lemma reader_ret {A} (x : A) : reader (m_ret x).
Proof. intros w r w' [= _ <-]. reflexivity. Qed.
Lemma reader_get : reader (@m_get (cworld E)).
Proof. intros w r w' [= _ <-]. reflexivity. Qed.
Lemma reader_gets {A} (f : cworld E → A) : reader (m_gets f).
Proof. intros w r w' [= _ <-]. reflexivity. Qed.
Lemma reader_abort {A} : reader (@m_abort (cworld E) A).
Proof. done. Qed.
Lemma reader_bind {A B} (m : M (cworld E) A) (k : A → M (cworld E) B) :
  reader m → (∀ x, reader (k x)) → reader (x <- m ;; k x).
Proof.
  intros Hm Hk w r w' Hr. unfold m_bind in Hr. destruct (m w) as [[x w1]|] eqn:Hx; [|done].
  etrans; [by eapply Hm|by eapply Hk].
Qed.
Lemma reader_some {A} (o : option A) : reader (m_some o).
Proof. destruct o; [apply reader_ret|apply reader_abort]. Qed.
Lemma reader_assert b : reader (m_assert b).
Proof. destruct b; [apply reader_ret|apply reader_abort]. Qed.
Lemma reader_sys {A} (m : M (world E) A) : reader (on_csys m).
Proof.
  intros w r w'. unfold on_csys. destruct (m (cw_sys w)) as [[x s]|]; [|done]. intros [= _ <-]. by split.
Qed.

Lemma array_length_reads a w n w' : array_length a w = Some (n, w') → w' = w ∧ ∃ l, cw_arrays w !! a = Some l ∧ n = length l.
Proof.
  unfold array_length, m_bind, m_get. destruct (cw_arrays w !! a) as [l|]; [|done]. intros [= <- <-]. eauto.
Qed.
Lemma reader_length a : reader (array_length a).
Proof. intros w r w' [-> _]%array_length_reads. reflexivity. Qed.
Lemma reader_merged a1 a2 a3 : reader (merged_array a1 a2 a3).
Proof.
  apply reader_bind; [apply reader_length|]. intros n. destruct (Nat.ltb 0 n); [apply reader_ret|].
  apply reader_bind; [apply reader_length|]. intros n'. destruct (Nat.ltb 0 n'); apply reader_ret.
Qed.

Lemma reader_new_array l : reader (new_array l).
Proof.
  intros w r w' [= _ <-]. split; [done..|]. intros a strs (l' & Hl & Hs). exists l'. split; [|done].
  simpl. by apply lookup_app_l_Some.
Qed.

Lemma reader_copy a : reader (copy_array a).
Proof.
  unfold copy_array. apply reader_bind; [apply reader_get|]. intros w. apply reader_bind; [apply reader_some|].
  intros old. apply reader_bind; [apply reader_sys|]. intros [new|]; [|apply reader_ret].
  destruct (forallb _ old); [apply reader_ret|]. apply reader_bind; [apply reader_new_array|intros; apply reader_ret].
Qed.

(** A copy of strings without variables is the array itself. *)
Lemma settled_no_variables strs l : Forall2 settled strs l → forallb (λ i, bool_decide (i_variables i = [])) l = true.
Proof.
  induction 1 as [|str i strs l Hs _ IH]; [done|]. simpl. by rewrite bool_decide_eq_true_2 by apply Hs.
Qed.
Lemma copy_literal a strs w r w' : literal_array w a strs → copy_array a w = Some (r, w') → r = Some a.
Proof.
  intros (l & Hl & Hs). pose proof (settled_no_variables _ _ Hs) as Hv. unfold copy_array, m_bind, m_get. rewrite Hl.
  unfold m_some, m_ret. unfold on_csys, shuso_instrings_copy_for_worker. rewrite Hv. unfold m_ret. congruence.
Qed.

(** A function of one string keeps the settled ones settled. *)
Definition keeps_settled {A} (f : instring → M (world E) (A * instring)) : Prop :=
  ∀ str i w r w', settled str i → f i w = Some (r, w') → settled str r.2.

Lemma reader_with {A} a n (f : instring → M (world E) (A * instring)) : keeps_settled f → reader (with_instring a n f).
Proof.
  intros Hf w r w'. unfold with_instring, m_bind, m_get. destruct (cw_arrays w !! a) as [l|] eqn:Hl; [|done].
  simpl. unfold m_ret. destruct (l !! n) as [i|] eqn:Hi; [|done]. simpl. unfold on_csys.
  destruct (f i (cw_sys w)) as [[x s]|] eqn:Hx; [|done]. intros [= _ <-]. split; [done..|].
  intros b strs (l' & Hl' & Hs). destruct (decide (b = a)) as [->|Hne].
  - assert (l' = l) as -> by congruence. exists (<[n := x.2]> l). simpl. split.
    { apply list_lookup_insert_eq. apply lookup_lt_is_Some. eauto. }
    destruct (Forall2_lookup_r _ _ _ _ _ Hs Hi) as (str & Hstr & Hsi).
    rewrite <- (list_insert_id strs n str) by done. apply Forall2_insert; [done|]. by eapply Hf.
  - exists l'. simpl. by rewrite list_lookup_insert_ne.
Qed.

Lemma typed_keeps_settled t : keeps_settled (typed_value t).
Proof.
  intros str i w r w' Hs. destruct t as [q|]; simpl; unfold m_bind.
  - rewrite (settled_ask q str) by done. unfold m_ret. by intros [= <- _].
  - unfold shuso_instring_buffer_value, m_bind. rewrite interpolate_none by apply Hs. unfold m_ret.
    by intros [= <- _].
Qed.

Lemma reader_arrays_of ctx s : reader (setting_arrays_of ctx s).
Proof.
  unfold setting_arrays_of. apply reader_bind; [apply reader_get|]. intros w.
  apply reader_bind; [apply reader_some|]. intros x. apply reader_bind; [apply reader_assert|].
  intros _. apply reader_some.
Qed.

Lemma reader_value ctx s nval mt t : reader (shuso_setting_value ctx s nval mt t).
Proof.
  unfold shuso_setting_value. destruct s as [s|]; [|apply reader_ret].
  apply reader_bind; [apply reader_arrays_of|]. intros x. apply reader_bind; [apply reader_length|]. intros n.
  destruct (Z.of_nat n <=? nval); [apply reader_ret|]. apply reader_with, typed_keeps_settled.
Qed.

Lemma reader_string ctx s n : reader (shuso_setting_string ctx s n).
Proof. apply reader_bind; [apply reader_value|intros; apply reader_ret]. Qed.

Lemma reader_matches ctx s n pat : reader (shuso_setting_string_matches ctx s n pat).
Proof.
  apply reader_bind; [apply reader_some|]. intros s'. apply reader_bind; [apply reader_arrays_of|]. intros x.
  apply reader_bind; [apply reader_length|]. intros k. destruct (_ <? _); [apply reader_ret|].
  apply reader_bind; [apply reader_with|].
  - intros str i w r w' Hs. unfold m_bind. rewrite (settled_string false str) by done.
    unfold m_ret. by intros [= <- _].
  - intros [[v|] r]; [|apply reader_ret]. apply reader_bind; [apply reader_some|intros; apply reader_ret].
Qed.

(** *** The arrays of a setting *)

(** Those of a setting with plain values: its own, inherited ones, defaults *)
Record arrays_match (w : cworld E) (x : setting_arrays) (l i d : list string) : Prop := {
  am_local : literal_array w (sa_local x) l;
  am_inherited : literal_array w (sa_inherited x) i;
  am_defaults : literal_array w (sa_defaults x) d;
  am_merged : sa_merged x = match l, i with
                            | _ :: _, _ => sa_local x
                            | [], _ :: _ => sa_inherited x
                            | [], [] => sa_defaults x
                            end
}.

Lemma arrays_match_reads w w' x l i d : reads w w' → arrays_match w x l i d → arrays_match w' x l i d.
Proof. intros [] []. split; eauto. Qed.

Lemma literal_length a strs w : literal_array w a strs → array_length a w = Some (length strs, w).
Proof.
  intros (l & Hl & Hs). unfold array_length, m_bind, m_get. rewrite Hl. simpl. unfold m_ret.
  by rewrite (Forall2_length _ _ _ Hs).
Qed.

Lemma merged_match w a1 a2 a3 l i d m w' : literal_array w a1 l → literal_array w a2 i → literal_array w a3 d →
  merged_array a1 a2 a3 w = Some (m, w') → arrays_match w (SettingArrays m a1 a2 a3) l i d ∧ w' = w.
Proof.
  intros H1 H2 H3. unfold merged_array, m_bind. rewrite (literal_length _ _ _ H1).
  destruct l as [|str l]; simpl; [|intros [= <- <-]; by split].
  rewrite (literal_length _ _ _ H2). destruct i as [|str i]; simpl; intros [= <- <-]; by split.
Qed.

(** ** What is made *)

Lemma bind_inv {A B} (m : M (cworld E) A) (k : A → M (cworld E) B) w r w' :
  m_bind m k w = Some (r, w') → ∃ x w1, m w = Some (x, w1) ∧ k x w1 = Some (r, w').
Proof. unfold m_bind. destruct (m w) as [[x w1]|]; [eauto|done]. Qed.

(** What making leaves: Lua's tables keep their plain values, arrays stay, structs are only added. *)
Record makes (w w' : cworld E) : Prop := {
  mk_lua : keeps (cw_lua w) (cw_lua w');
  mk_arrays : ∀ a strs, literal_array w a strs → literal_array w' a strs
}.
#[export] Instance makes_preorder : PreOrder makes.
Proof. split; [by split|]. intros w1 w2 w3 [] []. split; [by etrans|eauto]. Qed.
Lemma reads_makes w w' : reads w w' → makes w w'.
Proof. intros [Hl _ _ Ha]. split; [by rewrite Hl|done]. Qed.
Definition maker {A} (m : M (cworld E) A) : Prop :=
  ∀ w r w', m w = Some (r, w') → makes w w' ∧ cw_settings w' = cw_settings w.
Lemma reader_maker {A} (m : M (cworld E) A) : reader m → maker m.
Proof. intros Hm w r w' Hr. pose proof (Hm _ _ _ Hr) as Hr'. split; [by apply reads_makes|apply Hr']. Qed.
Lemma maker_bind {A B} (m : M (cworld E) A) (k : A → M (cworld E) B) :
  maker m → (∀ x, maker (k x)) → maker (x <- m ;; k x).
Proof.
  intros Hm Hk w r w' (x & w1 & Hx & Hr)%bind_inv. destruct (Hm _ _ _ Hx) as [H1 E1].
  destruct (Hk _ _ _ _ Hr) as [H2 E2]. split; [by etrans|congruence].
Qed.

Lemma reader_fail msg : reader (fail_with msg).
Proof. apply reader_bind; [apply reader_sys|intros; apply reader_ret]. Qed.

Lemma reader_kind_end s a cnt :
  reader (cnt' <- error_count ;;
          if cnt <? cnt' then msg <- last_error ;; shuso_config_error s msg ;;; m_ret None
          else a <- m_some a ;; m_ret (Some (a : nat))).
Proof.
  apply reader_bind; [apply reader_gets|]. intros cnt'. destruct (cnt <? cnt').
  - apply reader_bind; [apply reader_gets|]. intros msg. apply reader_bind; [apply reader_fail|]. intros. apply reader_ret.
  - apply reader_bind; [apply reader_some|]. intros. apply reader_ret.
Qed.

(** One kind: the array that is made of plain values holds them. *)
Lemma kind_made s kind w r w' : kind_instrings s kind w = Some (r, w') →
  makes w w' ∧ cw_settings w' = cw_settings w ∧
  ∀ a strs, r = Some a → (2 ≤ turns)%nat → written (cw_lua w) s kind = Some strs → literal_array w' a strs.
Proof.
  intros Hk. unfold kind_instrings in Hk. apply bind_inv in Hk as (cnt & w0 & [= <- <-] & Hk).
  apply bind_inv in Hk as (w0 & w1 & [= <- <-] & Hk). apply bind_inv in Hk as ([res lua] & w1 & Hs & Hk).
  destruct (setting_instrings turns (cw_lua w) s kind) as [[res' lua']|] eqn:Hsi; [|done].
  injection Hs as -> -> <-. apply bind_inv in Hk as (u & w1 & [= <- <-] & Hk).
  set (w1 := put_lua lua w) in Hk. assert (makes w w1) as Hm1.
  { split; [by eapply setting_instrings_keeps|]. intros a strs (l & Hl & Hf). by exists l. }
  apply bind_inv in Hk as (a & w2 & Ha & Hk). simpl in Ha.
  assert (reads w1 w2) as Hr.
  { destruct res as [tss|err|]; [| |done].
    - eapply reader_bind in Ha; [done|apply reader_sys|]. intros [l|]; [|apply reader_ret].
      apply reader_bind; [apply reader_new_array|intros; apply reader_ret].
    - eapply reader_bind in Ha; [done|apply reader_sys|]. intros x. apply reader_bind; [apply reader_sys|].
      intros y. apply reader_ret. }
  pose proof (reader_kind_end s a _ _ _ _ Hk) as Hr2. split_and!.
  { etrans; [done|]. apply reads_makes. by etrans. }
  { rewrite (rd_settings _ _ Hr2), (rd_settings _ _ Hr). done. }
  intros b strs -> Hn Hw.
  destruct (setting_instrings_plain turns (cw_lua w) s kind strs Hn Hw) as [lua' Hpl]. rewrite Hsi in Hpl.
  injection Hpl as -> <-. apply bind_inv in Ha as (l & w3 & Hl & Ha).
  apply bind_inv in Hk as (cnt & w4 & [= <- <-] & Hk).
  destruct (_ <? _); [by apply bind_inv in Hk as (msg & w5 & _ & (x & w6 & _ & [=])%bind_inv)|].
  apply bind_inv in Hk as (b' & w5 & Hb & [= -> <-]). destruct a as [a|]; [|done]. injection Hb as -> <-.
  destruct l as [l|]; [|done]. apply bind_inv in Ha as (a' & w5 & Hn' & [= -> <-]). injection Hn' as <- <-.
  exists l. simpl. split; [by rewrite lookup_app_r, Nat.sub_diag|].
  unfold on_csys in Hl. destruct (luaS_instrings_lua_to_c _ _) as [[l' sys]|] eqn:Hmade; [|done].
  injection Hl as -> <-. by eapply plains_made.
Qed.

(** All kinds have plain values. *)
Definition plain_setting (c : lconfig) (s : nat) (l i d : list string) : Prop :=
  written c s KindLocal = Some l ∧ written c s KindInherited = Some i ∧ written c s KindDefault = Some d.
Lemma plain_setting_keeps c c' s l i d : keeps c c' → plain_setting c s l i d → plain_setting c' s l i d.
Proof. intros Hk (? & ? & ?). by split_and!; eapply written_keeps. Qed.


Lemma maker_block s b : maker (m_modify (put_block s b)).
Proof. intros w r w' [= <- <-]. by repeat split. Qed.
Lemma reader_context_list : reader block_context_list.
Proof.
  unfold block_context_list. destruct (0 <? core_submodules); [|apply reader_ret].
  apply reader_bind; [apply reader_sys|]. intros [|]; [apply reader_ret|apply reader_fail].
Qed.
Lemma maker_setting_block s x : maker (setting_block s x).
Proof.
  unfold setting_block. destruct (ls_block x); [|apply reader_maker, reader_ret].
  apply maker_bind; [apply reader_maker, reader_sys|]. intros ok. destruct (negb ok); [apply reader_maker, reader_sys|].
  apply maker_bind; [apply reader_maker, reader_get|]. intros w.
  apply maker_bind; [apply reader_maker, reader_assert|]. intros _.
  apply maker_bind; [apply reader_maker, reader_some|]. intros path.
  apply maker_bind; [apply maker_block|]. intros _.
  apply maker_bind; [apply reader_maker, reader_context_list|]. intros ok'.
  destruct (negb ok'); apply reader_maker; [apply reader_sys|apply reader_ret].
Qed.

(** A setting's struct and arrays *)
Lemma struct_made s i n w r w' : lua_setting_to_c_struct s i n w = Some (r, w') →
  makes w w' ∧ ∀ x, r = Some x →
  (∃ st, cw_settings w' = <[s := st]> (cw_settings w) ∧ s_instrings_index st = i) ∧
  ∀ l h d, (2 ≤ turns)%nat → plain_setting (cw_lua w) s l h d → arrays_match w' x l h d.
Proof.
  intros Hr. unfold lua_setting_to_c_struct in Hr. apply bind_inv in Hr as (ok & w1 & H1 & Hr).
  apply reader_sys in H1. destruct (negb ok).
  { apply reader_sys in Hr as Hr2. split; [by apply reads_makes; etrans|].
    intros x ->. unfold set_error, on_csys, shuso_set_error, m_bind in Hr. done. }
  apply bind_inv in Hr as (w1' & w2 & [= <- <-] & Hr).
  apply bind_inv in Hr as (x & w2 & Hx & Hr). apply reader_some in Hx as R2.
  apply bind_inv in Hr as (path & w3 & Hp & Hr). apply reader_some in Hp as R3.
  apply bind_inv in Hr as (? & w4 & R4%reader_assert & Hr). apply bind_inv in Hr as (? & w5 & R5%reader_assert & Hr).
  assert (reads w w5) as Hw5 by (by do 4 (etrans; [done|])). clear H1 R2 R3 R4 R5 Hp.
  apply bind_inv in Hr as (block & w6 & [Hm6 Hs6]%maker_setting_block & Hr).
  assert (makes w w6) as Hw6 by (etrans; [by apply reads_makes|done]).
  destruct block as [block|]; [|injection Hr as <- <-; done].
  apply bind_inv in Hr as (? & w7 & [= _ <-] & Hr). set (st := Setting _ _ _ _ _ _) in Hr.
  set (w7 := put_setting s st w6) in Hr.
  assert (makes w w7) as Hw7 by (destruct Hw6; by split).
  apply bind_inv in Hr as (? & w8 & R8%reader_assert & Hr).
  apply bind_inv in Hr as (loc & w9 & (M9 & S9 & A9)%kind_made & Hr).
  assert (makes w w8) as Hw8 by (etrans; [exact Hw7|by apply reads_makes]).
  assert (cw_settings w8 = <[s := st]> (cw_settings w)) as Hst8.
  { rewrite (rd_settings _ _ R8). simpl. by rewrite Hs6, (rd_settings _ _ Hw5). }
  assert (makes w w9) as Hw9 by (by etrans). destruct loc as [loc|]; [|injection Hr as <- <-; done].
  apply bind_inv in Hr as (def & w10 & (M10 & S10 & A10)%kind_made & Hr).
  assert (makes w w10) as Hw10 by (by etrans). destruct def as [def|]; [|injection Hr as <- <-; done].
  apply bind_inv in Hr as (inh & w11 & (M11 & S11 & A11)%kind_made & Hr).
  assert (makes w w11) as Hw11 by (by etrans). destruct inh as [inh|]; [|injection Hr as <- <-; done].
  apply bind_inv in Hr as (merged & w12 & Hmg & [= <- <-]). pose proof (reader_merged _ _ _ _ _ _ Hmg) as R12.
  split; [by etrans; [exact Hw11|apply reads_makes]|]. intros y [= <-]. split.
  { exists st. split; [|done]. rewrite (rd_settings _ _ R12). congruence. }
  intros l h d Hn Hplain. 
  destruct (plain_setting_keeps _ _ _ _ _ _ (mk_lua _ _ Hw8) Hplain) as (P1 & _ & _).
  destruct (plain_setting_keeps _ _ _ _ _ _ (mk_lua _ _ Hw9) Hplain) as (_ & _ & P3).
  destruct (plain_setting_keeps _ _ _ _ _ _ (mk_lua _ _ Hw10) Hplain) as (_ & P2 & _).
  pose proof (mk_arrays _ _ M11 _ _ (mk_arrays _ _ M10 _ _ (A9 _ _ eq_refl Hn P1))) as L1.
  pose proof (mk_arrays _ _ M11 _ _ (A10 _ _ eq_refl Hn P3)) as L3.
  pose proof (A11 _ _ eq_refl Hn P2) as L2.
  by destruct (merged_match _ _ _ _ _ _ _ _ _ L1 L2 L3 Hmg) as [Hmatch ->].
Qed.

(** A setting's struct leads to its arrays. *)
Definition setting_match (w : cworld E) (ctx : list setting_arrays) (s : nat) (l h d : list string) : Prop :=
  ∃ st x, cw_settings w !! s = Some st ∧ 0 ≤ s_instrings_index st ∧ ctx !! Z.to_nat (s_instrings_index st) = Some x ∧
          arrays_match w x l h d.

Lemma structs_made ss : (2 ≤ turns)%nat → ∀ pre n w r w', structs_loop ss (Z.of_nat (length pre)) n w = Some (r, w') →
  makes w w' ∧ ∀ ctx, r = Some ctx → ∀ s l h d, plain_setting (cw_lua w) s l h d →
    s ∈ ss ∨ setting_match w pre s l h d → setting_match w' (pre ++ ctx) s l h d.
Proof.
  intros Hn. induction ss as [|s ss IH]; intros pre n w r w' Hr.
  { injection Hr as <- <-. split; [reflexivity|]. intros ctx [= <-] s l h d _ [Hin|Hm]; [by apply elem_of_nil in Hin|].
    by rewrite app_nil_r. }
  cbn [structs_loop] in Hr. apply bind_inv in Hr as (a & w1 & [M1 A1]%struct_made & Hr).
  destruct a as [a|]; [|by injection Hr as <- <-]. destruct (A1 a eq_refl) as [(st & Hst & Hi) Ha]. clear A1.
  apply bind_inv in Hr as (rest & w2 & Hrest & [= <- <-]).
  replace (Z.of_nat (length pre) + 1) with (Z.of_nat (length (pre ++ [a]))) in Hrest by (rewrite length_app; simpl; lia).
  apply IH in Hrest as [M2 A2]. split; [by etrans|]. intros ctx Hctx t l h d Hplain Hin.
  destruct rest as [rest|]; [|done]. injection Hctx as <-.
  assert (pre ++ a :: rest = (pre ++ [a]) ++ rest) as -> by (by rewrite <- app_assoc).
  apply (A2 rest eq_refl); [by eapply plain_setting_keeps; [apply M1|]|].
  assert (setting_match w1 (pre ++ [a]) s l h d ∨ s ≠ t) as Hs.
  { destruct (decide (s = t)) as [->|]; [left|by right]. exists st, a. split_and!.
    - rewrite Hst. apply lookup_insert_eq.
    - lia.
    - rewrite Hi, Nat2Z.id, lookup_app_r by lia. by rewrite Nat.sub_diag.
    - by apply Ha. }
  rewrite elem_of_cons in Hin. destruct (decide (s = t)) as [->|Hne]; [right; by destruct Hs|].
  destruct Hin as [[->|Hin]|(st' & x & Hst' & Hi0 & Hx & Hm)]; [done|by left|right].
  exists st', x. split_and!; [by rewrite Hst, lookup_insert_ne|done|by apply lookup_app_l_Some|].
  destruct Hm. by split; [apply M1..|].
Qed.

Lemma setting_match_reads w w' ctx s l h d : reads w w' → setting_match w ctx s l h d → setting_match w' ctx s l h d.
Proof.
  intros Hr (st & x & Hst & Hi & Hx & Hm). exists st, x. rewrite (rd_settings _ _ Hr). split_and!; try done.
  by eapply arrays_match_reads.
Qed.

(** A module that, to configure itself, does nothing to the configuration but read it *)
Definition reads_config (m : option config_fn) : Prop :=
  match m with None => True | Some f => ∀ ctx block, reader (f ctx block) end.

Lemma reader_module ctx block m : reads_config m → reader (module_initialize_config ctx block m).
Proof.
  intros Hm. unfold module_initialize_config. apply reader_bind; [apply reader_gets|]. intros n.
  apply reader_bind.
  - destruct m as [f|]; [|apply reader_ret]. apply reader_bind; [apply Hm|]. intros [|]; [apply reader_ret|].
    apply reader_bind; [apply reader_gets|]. intros n'. destruct (_ =? _); [apply reader_fail|apply reader_ret].
  - intros ok. destruct (negb ok); [apply reader_ret|]. apply reader_bind; [apply reader_gets|intros; apply reader_ret].
Qed.
Lemma reader_modules ctx block modules : Forall reads_config modules → reader (modules_config_loop ctx block modules).
Proof.
  induction 1 as [|m modules Hm _ IH]; [apply reader_ret|]. simpl.
  apply reader_bind; [by apply reader_module|]. intros [|]; [done|apply reader_ret].
Qed.
Lemma reader_blocks ctx modules blocks : Forall reads_config modules → reader (blocks_config_loop ctx modules blocks).
Proof.
  intros Hm. induction blocks as [|b blocks IH]; [apply reader_ret|]. simpl.
  apply reader_bind; [apply reader_get|]. intros w. apply reader_bind; [apply reader_assert|]. intros _.
  apply reader_bind; [by apply reader_modules|]. intros [|]; [done|apply reader_ret].
Qed.

(** What a process may ask, in any order, and workers that are made *)
Inductive config_op :=
| OpValue (p : nat) (s : option nat) (nval : Z) (mergetype : merge_type) (t : value_type)
| OpMatches (p : nat) (s : option nat) (n : Z) (pattern : string)
| OpWorker.

Definition config_state : Type := cworld E * list (list setting_arrays).

(** The processes' settings: the first are the manager's. *)
Definition config_step (op : config_op) (x : config_state) : option config_state :=
  let '(w, ctxs) := x in
  match op with
  | OpValue p s nval mergetype t =>
      ctx ← ctxs !! p; r ← shuso_setting_value ctx s nval mergetype t w; Some (r.2, ctxs)
  | OpMatches p s n pattern =>
      ctx ← ctxs !! p; r ← shuso_setting_string_matches ctx s n pattern w; Some (r.2, ctxs)
  | OpWorker =>
      manager ← head ctxs; r ← config_initialize_worker manager w;
      Some (r.2, match r.1 with Some ctx => ctxs ++ [ctx] | None => ctxs end)
  end.
Fixpoint config_run (ops : list config_op) (x : config_state) : option config_state :=
  match ops with [] => Some x | op :: ops' => x' ← config_step op x; config_run ops' x' end.

Lemma reader_worker_loop manager : reader (worker_settings_loop manager).
Proof.
  induction manager as [|x manager IH]; [apply reader_ret|]. simpl.
  apply reader_bind; [apply reader_copy|]. intros [loc|]; [|apply reader_ret].
  apply reader_bind; [apply reader_copy|]. intros [def|]; [|apply reader_ret].
  apply reader_bind; [apply reader_copy|]. intros [inh|]; [|apply reader_ret].
  apply reader_bind; [apply reader_merged|]. intros mg.
  apply reader_bind; [apply IH|]. intros. apply reader_ret.
Qed.
Lemma reader_worker manager : reader (config_initialize_worker manager).
Proof.
  unfold config_initialize_worker. apply reader_bind.
  { destruct (0 <? _); [apply reader_sys|apply reader_ret]. }
  intros ok. destruct (negb ok); [apply reader_sys|apply reader_worker_loop].
Qed.

(** A worker's settings are the manager's where these have plain values. *)
Lemma worker_match manager : ∀ w ctx w', worker_settings_loop manager w = Some (Some ctx, w') →
  ∀ k x l h d, manager !! k = Some x → arrays_match w x l h d → ∃ x', ctx !! k = Some x' ∧ arrays_match w' x' l h d.
Proof.
  induction manager as [|y manager IH]; intros w ctx w' Hr k x l h d Hk Hm; [done|]. simpl in Hr.
  apply bind_inv in Hr as (loc & w1 & H1 & Hr). pose proof (reader_copy _ _ _ _ H1) as R1.
  destruct loc as [loc|]; [|done].
  apply bind_inv in Hr as (def & w2 & H2 & Hr). pose proof (reader_copy _ _ _ _ H2) as R2.
  destruct def as [def|]; [|done].
  apply bind_inv in Hr as (inh & w3 & H3 & Hr). pose proof (reader_copy _ _ _ _ H3) as R3.
  destruct inh as [inh|]; [|done].
  apply bind_inv in Hr as (mg & w4 & H4 & Hr). pose proof (reader_merged _ _ _ _ _ _ H4) as R4.
  apply bind_inv in Hr as (rest & w5 & H5 & Hr). destruct rest as [rest|]; [|done]. injection Hr as <- <-.
  destruct k as [|k]; simpl in Hk.
  - injection Hk as ->. exists (SettingArrays mg loc inh def). split; [done|].
    pose proof (copy_literal _ _ _ _ _ (am_local _ _ _ _ _ Hm) H1) as [= ->].
    pose proof (arrays_match_reads _ _ _ _ _ _ R1 Hm) as M1.
    pose proof (copy_literal _ _ _ _ _ (am_defaults _ _ _ _ _ M1) H2) as [= ->].
    pose proof (arrays_match_reads _ _ _ _ _ _ R2 M1) as M2.
    pose proof (copy_literal _ _ _ _ _ (am_inherited _ _ _ _ _ M2) H3) as [= ->].
    pose proof (arrays_match_reads _ _ _ _ _ _ R3 M2) as M3.
    apply (arrays_match_reads w4).
    { by apply reader_worker_loop in H5. }
    by destruct (merged_match _ _ _ _ _ _ _ _ _ (am_local _ _ _ _ _ M3) (am_inherited _ _ _ _ _ M3)
                   (am_defaults _ _ _ _ _ M3) H4) as [? ->].
  - eapply (IH _ _ _ H5); [done|]. eapply arrays_match_reads; [|done]. by etrans; [|etrans; [|etrans]].
Qed.

Lemma worker_setting_match manager w ctx w' s l h d : config_initialize_worker manager w = Some (Some ctx, w') →
  setting_match w manager s l h d → setting_match w' ctx s l h d.
Proof.
  intros Hr (st & x & Hst & Hi & Hx & Hm). pose proof (reader_worker _ _ _ _ Hr) as R.
  unfold config_initialize_worker in Hr. apply bind_inv in Hr as (ok & w1 & H1 & Hr).
  assert (reads w w1) as R1.
  { destruct (0 <? _); [by apply reader_sys in H1|by injection H1 as <- <-]. }
  destruct (negb ok); [by unfold set_error, on_csys, shuso_set_error, m_bind in Hr|].
  destruct (worker_match _ _ _ _ Hr _ _ _ _ _ Hx (arrays_match_reads _ _ _ _ _ _ R1 Hm)) as (x' & Hx' & Hm').
  exists st, x'. by rewrite (rd_settings _ _ R).
Qed.

(** All processes have the setting. *)
Definition state_match (x : config_state) (s : nat) (l h d : list string) : Prop :=
  Forall (λ ctx, setting_match x.1 ctx s l h d) x.2.

Lemma step_match op x x' s l h d : config_step op x = Some x' → state_match x s l h d → state_match x' s l h d.
Proof.
  destruct x as [w ctxs]. unfold state_match. simpl. intros Hstep Hm.
  assert (∀ w', reads w w' → Forall (λ ctx, setting_match w' ctx s l h d) ctxs) as Hkeep.
  { intros w' Hr. eapply Forall_impl; [exact Hm|]. intros ctx. by apply setting_match_reads. }
  destruct op as [p t nval mt vt|p t n pat|]; simpl in Hstep.
  - apply bind_Some in Hstep as (ctx & _ & Hstep). apply bind_Some in Hstep as ([r w'] & Hr & [= <-]).
    apply Hkeep. by apply reader_value in Hr.
  - apply bind_Some in Hstep as (ctx & _ & Hstep). apply bind_Some in Hstep as ([r w'] & Hr & [= <-]).
    apply Hkeep. by apply reader_matches in Hr.
  - apply bind_Some in Hstep as (manager & Hman & Hstep). apply bind_Some in Hstep as ([r w'] & Hr & [= <-]).
    simpl. pose proof (reader_worker _ _ _ _ Hr) as R. destruct r as [ctx|]; [|by apply Hkeep].
    apply Forall_app. split; [by apply Hkeep|]. constructor; [|constructor].
    eapply worker_setting_match; [exact Hr|]. destruct ctxs as [|m ctxs]; [done|]. simpl in Hman. simplify_eq.
    by apply Forall_cons in Hm as [? _].
Qed.

Lemma run_match ops s l h d : ∀ x x', config_run ops x = Some x' → state_match x s l h d → state_match x' s l h d.
Proof.
  induction ops as [|op ops IH]; intros x x' Hr Hm; simpl in Hr; [by injection Hr as <-|].
  apply bind_Some in Hr as (x1 & H1 & Hr). eapply IH; [exact Hr|]. by eapply step_match.
Qed.

(** The values that count, and what a query of one of them gives *)
Definition values_of (mergetype : merge_type) (l h d : list string) : list string :=
  match mergetype with
  | SETTING_MERGED => match l, h with _ :: _, _ => l | [], _ :: _ => h | [], [] => d end
  | SETTING_LOCAL => l
  | SETTING_INHERITED => h
  | SETTING_DEFAULT => d
  end.
Definition expected_answer (strs : list string) (nval : Z) (q : query) : setting_answer :=
  match strs !! Z.to_nat nval with Some str => Converted (direct_answer q str) | None => NoValue end.

(** A settled string is read without a trace. *)
Lemma with_settled {A} a n (f : instring → M (world E) (A * instring)) arr i x w :
  cw_arrays w !! a = Some arr → arr !! n = Some i → f i (cw_sys w) = Some ((x, i), cw_sys w) →
  with_instring a n f w = Some (x, w).
Proof.
  intros Harr Hi Hf. unfold with_instring, m_bind, m_get. rewrite Harr. simpl. unfold m_ret. rewrite Hi. simpl.
  unfold m_ret, on_csys. rewrite Hf. simpl. unfold m_modify. f_equal. f_equal.
  rewrite (list_insert_id arr) by done. unfold put_arrays, put_csys. simpl. rewrite list_insert_id by done.
  by destruct w.
Qed.

Lemma arrays_of_match w ctx st s x : cw_settings w !! s = Some st → 0 ≤ s_instrings_index st →
  ctx !! Z.to_nat (s_instrings_index st) = Some x → setting_arrays_of ctx s w = Some (x, w).
Proof.
  intros Hst Hi Hx. unfold setting_arrays_of, m_bind, m_get. rewrite Hst. simpl. unfold m_ret.
  rewrite (proj2 (Z.leb_le _ _) Hi). simpl. unfold m_ret. by rewrite Hx.
Qed.

Lemma value_match w ctx s l h d mergetype nval q : setting_match w ctx s l h d → 0 ≤ nval →
  shuso_setting_value ctx (Some s) nval mergetype (SETTING_TYPED q) w
  = Some (expected_answer (values_of mergetype l h d) nval q, w).
Proof.
  intros (st & x & Hst & Hi & Hx & Hm) Hn.
  assert (literal_array w (array_of mergetype x) (values_of mergetype l h d)) as Hlit.
  { destruct Hm as [Hl Hh Hd Hmg]. destruct mergetype; simpl; [|done..]. rewrite Hmg. by destruct l, h. }
  unfold shuso_setting_value, m_bind. rewrite (arrays_of_match _ _ _ _ _ Hst Hi Hx).
  rewrite (literal_length _ _ _ Hlit). destruct Hlit as (arr & Harr & Hset). unfold expected_answer.
  pose proof (Forall2_length _ _ _ Hset) as Hlen. bool_case.
  - by rewrite lookup_ge_None_2 by lia.
  - destruct (lookup_lt_is_Some_2 arr (Z.to_nat nval) ltac:(lia)) as [i Hai].
    destruct (Forall2_lookup_r _ _ _ _ _ Hset Hai) as (str & Hstr & Hsi). rewrite Hstr.
    eapply with_settled; [done..|]. simpl. unfold m_bind. by rewrite (settled_ask q str).
Qed.

Lemma matches_match w ctx s l h d v vs n pat : setting_match w ctx s l h d →
  values_of SETTING_MERGED l h d = v :: vs → n = 0 →
  shuso_setting_string_matches ctx (Some s) n pat w = Some (string_match v pat, w).
Proof.
  intros (st & x & Hst & Hi & Hx & Hm) Hv ->.
  assert (literal_array w (sa_merged x) (v :: vs)) as Hlit.
  { rewrite <- Hv. destruct Hm as [Hl Hh Hd Hmg]. rewrite Hmg. by destruct l, h. }
  unfold shuso_setting_string_matches, m_bind. simpl. unfold m_ret at 1. rewrite (arrays_of_match _ _ _ _ _ Hst Hi Hx).
  rewrite (literal_length _ _ _ Hlit). destruct Hlit as (arr & Harr & Hset).
  change (u64 0) with 0. bool_case; [simpl in *; lia|].
  inversion Hset as [|? i ? arr' Hsi Hset' E1 E2]; subst.
  erewrite with_settled; [|done|done|].
  2: { unfold m_bind. rewrite (settled_string false v) by done. simpl. destruct (se_string _ _ Hsi) as [_ ->]. done. }
  done.
Qed.

Lemma root_made w ok w' : generate_root w = Some (ok, w') → makes w w'.
Proof.
  intros Hr. unfold generate_root in Hr. apply bind_inv in Hr as (w0 & w1 & [= <- <-] & Hr).
  apply bind_inv in Hr as (path & w1 & R1%reader_some & Hr). apply bind_inv in Hr as (ok1 & w2 & R2%reader_sys & Hr).
  assert (makes w w2) as M2 by (apply reads_makes; by etrans).
  destruct (negb ok1); [apply reader_fail in Hr; etrans; [exact M2|by apply reads_makes]|].
  apply bind_inv in Hr as (ok2 & w3 & R3%reader_context_list & Hr).
  assert (makes w w3) as M3 by (etrans; [exact M2|by apply reads_makes]).
  destruct (negb ok2); [apply reader_fail in Hr; etrans; [exact M3|by apply reads_makes]|].
  apply bind_inv in Hr as (? & w4 & [M4 _]%maker_block & Hr). apply bind_inv in Hr as (ok3 & w5 & R5%reader_sys & Hr).
  assert (makes w w5) as M5 by (etrans; [exact M3|etrans; [exact M4|by apply reads_makes]]).
  destruct (negb ok3); [apply reader_fail in Hr; etrans; [exact M5|by apply reads_makes]|].
  apply bind_inv in Hr as (? & w6 & [= _ <-] & [= _ <-]). destruct M5. by split.
Qed.

Lemma all_settings_keeps c c' : keeps c c' → all_settings c' = all_settings c.
Proof.
  intros [Hs _ _]. assert (∀ s, block_settings c' s = block_settings c s) as Hb.
  { intros s. unfold block_settings, setting. by rewrite Hs. }
  assert (∀ n ss, walk_setting c' n ss = walk_setting c n ss) as Hw.
  { intros n. induction n as [|n IH]; intros ss; [done|]. simpl. apply flat_map_ext. intros s. rewrite Hb.
    by destruct (block_settings c s); [rewrite IH|]. }
  unfold all_settings, fuel. by rewrite Hs, Hw, Hb.
Qed.

Lemma generated modules w ctx blocks w' s l h d : (2 ≤ turns)%nat → Forall reads_config modules →
  shuso_config_system_generate modules w = Some (Some (ctx, blocks), w') →
  s ∈ all_settings (cw_lua w) → plain_setting (cw_lua w) s l h d → setting_match w' ctx s l h d.
Proof.
  intros Hn Hmods Hr Hs Hp. unfold shuso_config_system_generate in Hr.
  apply bind_inv in Hr as (ok & w1 & M1%root_made & Hr). destruct ok; [|done].
  apply bind_inv in Hr as (w1' & w2 & [= <- <-] & Hr). apply bind_inv in Hr as (ok & w2 & R2 & Hr).
  assert (makes w w2) as M2.
  { etrans; [exact M1|]. apply reads_makes. destruct (0 <? _); [by apply reader_sys in R2|by injection R2 as _ <-]. }
  rewrite (all_settings_keeps _ _ (mk_lua _ _ M1)) in Hr. clear R2.
  destruct ok; [|by unfold set_error, on_csys, shuso_set_error, m_bind in Hr].
  apply bind_inv in Hr as (res & w3 & [M3 A3]%(structs_made _ Hn []) & Hr). destruct res as [res|]; [|done].
  assert (setting_match w3 res s l h d) as Hmatch.
  { apply (A3 res eq_refl); [|by left]. by eapply plain_setting_keeps; [apply M2|]. }
  apply bind_inv in Hr as (w3' & w4 & [= <- <-] & Hr).
  apply bind_inv in Hr as (ok & w4 & R4%reader_blocks & Hr); [|done]. destruct ok; [|done].
  apply bind_inv in Hr as (ok & w5 & R5%reader_sys & Hr).
  destruct ok; [|by unfold set_error, on_csys, shuso_set_error, m_bind in Hr]. injection Hr as <- _ <-.
  eapply setting_match_reads; [exact R5|]. by eapply setting_match_reads.
Qed.
End config.

(** ** The theorem *)

(** C19: a setting whose values are plain literals has them everywhere.  If the structs were made of the configuration, and
    the modules only read it, then whatever values the manager and the workers asked for in which order,
    and whenever the workers were made, every process that asks for a value of the setting gets the conversion of the
    value that is written: of the setting's own, or the inherited ones if it has none, or the defaults if there are
    none either (or of the kind it asks for), and is told when there are not as many. *)
Theorem setting_values_everywhere {E} `{!InstringEnv E} `{!VariableEnv} `{!ConfigEnv} turns core_submodules modules
  (w : cworld E) ctx blocks w1 s l h d ops w2 ctxs p ctxp mergetype nval q
  (Hturns : (2 ≤ turns)%nat) (Hmodules : Forall reads_config modules)
  (Hmade : shuso_config_system_generate turns core_submodules modules w = Some (Some (ctx, blocks), w1))
  (Hs : s ∈ all_settings (cw_lua w)) (Hplain : plain_setting (cw_lua w) s l h d)
  (Hrun : config_run ops (w1, [ctx]) = Some (w2, ctxs)) (Hp : ctxs !! p = Some ctxp) (Hnval : 0 ≤ nval) :
  shuso_setting_value ctxp (Some s) nval mergetype (SETTING_TYPED q) w2
  = Some (expected_answer (values_of mergetype l h d) nval q, w2).
Proof.
  pose proof (generated _ _ _ _ _ _ _ _ _ _ _ Hturns Hmodules Hmade Hs Hplain) as Hmatch.
  assert (state_match (w1, [ctx]) s l h d) as Hstate by (constructor; [done|constructor]).
  eapply run_match in Hstate; [|exact Hrun]. unfold state_match in Hstate. rewrite Forall_forall in Hstate.
  apply value_match; [|done]. apply Hstate. simpl. by eapply list_elem_of_lookup_2.
Qed.

(** ** Examples *)

#[local] Instance sample_instrings : InstringEnv unit := {
  find_variable _ := Some false;
  eval _ e := (None, e);
  lua_tonumber _ := None;
  lua_tointeger s := if bool_decide (s = "5") then Some 5 else None;
  lua_tosize _ := None;
  has_memory _ _ := true
}.
#[local] Instance sample_variables : VariableEnv := λ name block,
  if bool_decide (name = "x") then Substitution [LuaLiteral (if Nat.eqb block 1 then "a" else "b")] else NotFound.
#[local] Instance sample_cenv : ConfigEnv := {
  string_match s pattern := bool_decide (pattern = "^" +:+ s +:+ "$");
  located _ msg := msg;
  time_ms _ := Some None
}.

Definition no_config : core_config := CoreConfig 0 None 0 false 0.
Definition sample_cworld (c : lconfig) : cworld unit := CWorld (World tt [] []) c ∅ ∅ [] no_config.
Definition sample_generated (c : lconfig) : option (option (list setting_arrays * config_blocks) * cworld unit) :=
  shuso_config_system_generate 9 0 [] (sample_cworld c).

Lemma setting_values_everywhere_witness :
  ∃ ctx blocks w1 w2 ctxs ctxp,
    sample_generated sample_config = Some (Some (ctx, blocks), w1) ∧
    config_run [OpValue 0 (Some 6%nat) 0 SETTING_MERGED (SETTING_TYPED AskInteger); OpWorker;
                OpMatches 1 (Some 6%nat) 0 "^5$"] (w1, [ctx]) = Some (w2, ctxs) ∧
    ctxs !! 1%nat = Some ctxp ∧
    shuso_setting_value ctxp (Some 6%nat) 0 SETTING_MERGED (SETTING_TYPED AskInteger) w2
    = Some (Converted (Integer (Some 5)), w2).
Proof.
  do 6 eexists. split; [vm_compute; reflexivity|]. split; [vm_compute; reflexivity|]. split; [vm_compute; reflexivity|].
  replace (Converted (Integer (Some 5))) with (expected_answer (values_of SETTING_MERGED [] [] ["5"]) 0 AskInteger)
    by (vm_compute; reflexivity).
  eapply (setting_values_everywhere 9 0 [] (sample_cworld sample_config) _ _ _ 6 [] [] ["5"]
           [OpValue 0 (Some 6%nat) 0 SETTING_MERGED (SETTING_TYPED AskInteger); OpWorker;
            OpMatches 1 (Some 6%nat) 0 "^5$"] _ _ 1 _ SETTING_MERGED 0 AskInteger).
  - lia.
  - constructor.
  - vm_compute. reflexivity.
  - vm_compute. set_solver.
  - by vm_compute.
  - vm_compute. reflexivity.
  - vm_compute. reflexivity.
  - lia.
Defined.

(** Two blocks with a setting whose default is the variable [x], which is set in both *)
Definition shared_default : lconfig := LConfig
  [LSetting "::ROOT" None None 0 (Some []) (Some [1; 2]%nat) None;
   LSetting "one" None (Some "m") 0 (Some []) (Some [3%nat]) (Some "m:one");
   LSetting "two" None (Some "m") 0 (Some []) (Some [4%nat]) (Some "m:two");
   LSetting "title" None (Some "m") 1 None None (Some "m:title");
   LSetting "title" None (Some "m") 2 None None (Some "m:title")]
  [[LuaVariable "x" None [] None]]
  (list_to_map [("m:one", Handler "/" None); ("m:two", Handler "/" None); ("m:title", Handler "*" (Some [0%nat]))]).

(** [title ""], as an empty string in double quotes *)
Definition empty_string : lconfig := LConfig
  [LSetting "::ROOT" None None 0 (Some []) (Some [1%nat]) None;
   LSetting "title" None (Some "m") 0 (Some [0%nat]) None (Some "m:title")]
  [[]] (list_to_map [("m:title", Handler "/" None)]).

(** What one asks of the manager's settings, once they are made *)
Definition asked {A} (c : lconfig) (f : list setting_arrays → M (cworld unit) A) : option A :=
  match sample_generated c with
  | Some (Some (ctx, _), w) => fst <$> f ctx w
  | _ => None
  end.

