(* ===== verification/ConfigCore.v ===== *)
(** The core module's settings, core_module_initialize_config of src/src/modules/core/core.c: from the texts of the
    configuration to the numbers the program runs with. *)

From stdpp Require Import strings.
From S2P Require Import Prelude Modules Instring Config ConfigSettings.

#[local] Open Scope string_scope.
#[local] Open Scope Z_scope.
#[local] Open Scope list_scope.

(** The build and the machine: [SHUTTLESOCK_MAX_WORKERS], [SHUTTLESOCK_HAVE_IO_URING], the cores, and whether the master is
    root *)
Record build := Build {
  bu_max_workers : Z;
  bu_have_io_uring : bool;
  bu_cores_online : Z;
  bu_master_has_root : bool
}.

Definition set_workers (n : Z) (c : core_config) : core_config :=
  CoreConfig n (cc_io_uring_enabled c) (cc_worker_entries c) (cc_sqpoll_thread c) (cc_sqpoll_thread_idle c).
Definition set_enabled (e : option bool) (c : core_config) : core_config :=
  CoreConfig (cc_workers c) e (cc_worker_entries c) (cc_sqpoll_thread c) (cc_sqpoll_thread_idle c).
Definition set_entries (n : Z) (c : core_config) : core_config :=
  CoreConfig (cc_workers c) (cc_io_uring_enabled c) n (cc_sqpoll_thread c) (cc_sqpoll_thread_idle c).
Definition set_sqpoll (b : bool) (c : core_config) : core_config :=
  CoreConfig (cc_workers c) (cc_io_uring_enabled c) (cc_worker_entries c) b (cc_sqpoll_thread_idle c).
Definition set_idle (n : Z) (c : core_config) : core_config :=
  CoreConfig (cc_workers c) (cc_io_uring_enabled c) (cc_worker_entries c) (cc_sqpoll_thread c) n.

Section core.
Context {E : Type} `{!InstringEnv E} `{!ConfigEnv}.
Variable b : build.

Definition mod_config (f : core_config → core_config) : M (cworld E) bool :=
  m_modify (λ w, put_config (f (cw_config w)) w) ;;; m_ret true.

(** Errors about a setting: there is one where the code gets here. *)
Definition config_error (s : option nat) (msg : string) : M (cworld E) bool :=
  s <- m_some s ;; shuso_config_error s msg.
Definition value_error (ctx : list setting_arrays) (s : option nat) : M (cworld E) bool :=
  s <- m_some s ;; shuso_config_value_error ctx s 0.

(** The first part: [workers] *)
Definition configure_workers (ctx : list setting_arrays) (block : nat) : M (cworld E) bool :=
  workers <- shuso_setting block "workers" ;;
  n <- shuso_setting_integer ctx workers 0 ;;
  match n with
  | Some nworkers =>
      if nworkers <? 0 then config_error workers "invalid value"
      else if bu_max_workers b <? nworkers then config_error workers "value cannot exceed"
      else mod_config (set_workers nworkers)
  | None =>
      str <- shuso_setting_string ctx workers 0 ;;
      match str with
      | Some _ =>
          auto <- shuso_setting_string_matches ctx workers 0 "^auto$" ;;
          if negb auto then value_error ctx workers else mod_config (set_workers (bu_cores_online b))
      | None => value_error ctx workers
      end
  end.

Definition configure_io_uring (ctx : list setting_arrays) (block : nat) : M (cworld E) bool :=
  s <- shuso_setting block "io_uring" ;;
  auto <- shuso_setting_string_matches ctx s 0 "^auto$" ;;
  if auto : bool then mod_config (set_enabled None)
  else
    val <- shuso_setting_boolean ctx s 0 ;;
    match val with
    | None => value_error ctx s
    | Some val =>
        if negb (bu_have_io_uring b) && val then config_error s "io_uring is not supported in this build of Shuttlesock"
        else mod_config (set_enabled (Some val))
    end.

Definition configure_entries (ctx : list setting_arrays) (block : nat) : M (cworld E) bool :=
  s <- shuso_setting block "io_uring_queue_entries" ;;
  entries <- shuso_setting_integer ctx s 0 ;;
  match entries with
  | None => value_error ctx s
  | Some entries => if entries <=? 0 then value_error ctx s else mod_config (set_entries entries)
  end.

Definition configure_sqpoll (ctx : list setting_arrays) (block : nat) : M (cworld E) bool :=
  s <- shuso_setting block "io_uring_sq_kernel_poll" ;;
  auto <- shuso_setting_string_matches ctx s 0 "^auto$" ;;
  if auto : bool then mod_config (set_sqpoll (bu_master_has_root b))
  else
    val <- shuso_setting_boolean ctx s 0 ;;
    match val with
    | None => value_error ctx s
    | Some val =>
        if val && negb (bu_master_has_root b) then config_error s "can't use SQ kernel thread without root"
        else mod_config (set_sqpoll val)
    end.

Definition configure_idle (ctx : list setting_arrays) (block : nat) : M (cworld E) bool :=
  s <- shuso_setting block "io_uring_sq_thead_idle" ;;
  ms <- shuso_setting_time_sec ctx s 0 ;;
  match ms with
  | None => value_error ctx s
  | Some ms => mod_config (set_idle ms)
  end.

(** [core_module_initialize_config] *)
Definition core_module_initialize_config (ctx : list setting_arrays) (block : nat) : M (cworld E) bool :=
  root <- shuso_config_match_block_path block "/" ;;
  if negb root then m_ret true else
  ok <- configure_workers ctx block ;;
  if negb ok then m_ret false else
  ok <- configure_io_uring ctx block ;;
  if negb ok then m_ret false else
  ok <- configure_entries ctx block ;;
  if negb ok then m_ret false else
  ok <- configure_sqpoll ctx block ;;
  if negb ok then m_ret false else
  configure_idle ctx block.

(** ** What it should do *)

(** What a text of [workers] stands for *)
Definition workers_spec (v : string) : option Z :=
  match to_int v with
  | Some n => if (0 <=? n) && (n <=? bu_max_workers b) then Some n else None
  | None => if string_match v "^auto$" then Some (bu_cores_online b) else None
  end.
(** Of a switch that may be automatic, and may not be [forbidden] when it is on *)
Definition switch_spec {A} (auto : A) (set : bool → A) (forbidden : bool) (v : string) : option A :=
  if string_match v "^auto$" then Some auto
  else match lua_toboolean v with
       | Some on => if on && forbidden then None else Some (set on)
       | None => None
       end.
Definition entries_spec (v : string) : option Z :=
  match to_int v with Some n => if 0 <? n then Some n else None | None => None end.

(** The texts of the five settings *)
Record core_texts := CoreTexts { ct_workers : string; ct_io_uring : string; ct_entries : string; ct_poll : string; ct_idle : string }.

Definition core_spec (t : core_texts) : option core_config :=
  workers ← workers_spec (ct_workers t);
  enabled ← switch_spec None Some (negb (bu_have_io_uring b)) (ct_io_uring t);
  entries ← entries_spec (ct_entries t);
  poll ← switch_spec (bu_master_has_root b) id (negb (bu_master_has_root b)) (ct_poll t);
  idle ← default None (time_ms (ct_idle t));
  Some (CoreConfig workers enabled entries poll idle).

(** A setting is found from the root and its first value is the text. *)
Definition has_text (w : cworld E) (ctx : list setting_arrays) (block : nat) (name v : string) : Prop :=
  ∃ s bl l h d vs, cw_blocks w !! block = Some bl ∧ find_setting (cw_lua w) name (b_setting bl) = LuaOk (Some s) ∧
    setting_match w ctx s l h d ∧ values_of SETTING_MERGED l h d = v :: vs.

Record core_settings (w : cworld E) (ctx : list setting_arrays) (block : nat) (t : core_texts) : Prop := {
  cs_workers : has_text w ctx block "workers" (ct_workers t);
  cs_io_uring : has_text w ctx block "io_uring" (ct_io_uring t);
  cs_entries : has_text w ctx block "io_uring_queue_entries" (ct_entries t);
  cs_poll : has_text w ctx block "io_uring_sq_kernel_poll" (ct_poll t);
  cs_idle : has_text w ctx block "io_uring_sq_thead_idle" (ct_idle t);
  cs_time : is_Some (time_ms (ct_idle t))
}.

Lemma core_settings_reads w w' ctx block t : reads w w' → core_settings w ctx block t → core_settings w' ctx block t.
Proof.
  intros Hr. assert (∀ name v, has_text w ctx block name v → has_text w' ctx block name v) as Ht.
  { intros name v (s & bl & l & h & d & vs & Hb & Hf & Hm & Hv). exists s, bl, l, h, d, vs.
    rewrite (rd_blocks _ _ Hr), (rd_lua _ _ Hr). split_and!; [done..| |done]. by eapply setting_match_reads. }
  intros []. split; by try apply Ht.
Qed.

(** What the getters give for such a setting *)
Lemma text_getters w ctx block name v : has_text w ctx block name v →
  ∃ s, shuso_setting block name w = Some (Some s, w) ∧
    shuso_setting_integer ctx (Some s) 0 w = Some (to_int v, w) ∧
    shuso_setting_boolean ctx (Some s) 0 w = Some (lua_toboolean v, w) ∧
    shuso_setting_string ctx (Some s) 0 w = Some (Some v, w) ∧
    (∀ pat, shuso_setting_string_matches ctx (Some s) 0 pat w = Some (string_match v pat, w)).
Proof.
  intros (s & bl & l & h & d & vs & Hb & Hf & Hm & Hv). exists s. split_and!.
  - unfold shuso_setting, m_bind, m_get. rewrite Hb. simpl. unfold m_ret. rewrite Hf.
    destruct Hm as (st & x & Hst & _). rewrite Hst. by rewrite bool_decide_eq_false_2.
  - unfold shuso_setting_integer, getter, m_bind. rewrite (value_match _ _ _ _ _ _ _ _ _ Hm) by done. by rewrite Hv.
  - unfold shuso_setting_boolean, getter, m_bind. rewrite (value_match _ _ _ _ _ _ _ _ _ Hm) by done. by rewrite Hv.
  - unfold shuso_setting_string, getter, m_bind. rewrite (value_match _ _ _ _ _ _ _ _ _ Hm) by done. by rewrite Hv.
  - intros pat. by eapply matches_match.
Qed.

(** A part of the configuration: it changes the result, or an error is reported. *)
Definition part_ok (m : M (cworld E) bool) (w : cworld E) (o : option (core_config → core_config)) : Prop :=
  match o with
  | Some f => m w = Some (true, put_config (f (cw_config w)) w)
  | None => ∃ w' msg, m w = Some (false, w') ∧ w_errors (cw_sys w') = msg :: w_errors (cw_sys w)
  end.

Lemma config_error_ok s msg w : part_ok (config_error (Some s) msg) w None.
Proof. by do 2 eexists. Qed.

Lemma value_error_ok w ctx block name v : has_text w ctx block name v →
  ∃ s, shuso_setting block name w = Some (Some s, w) ∧ part_ok (value_error ctx (Some s)) w None.
Proof.
  intros Ht. destruct (text_getters _ _ _ _ _ Ht) as (s & Hs & _ & _ & Hstr & _). exists s. split; [done|].
  unfold part_ok, value_error, shuso_config_value_error, m_some, m_bind, m_ret. rewrite Hstr. by do 2 eexists.
Qed.

Section parts.
Variables (w : cworld E) (ctx : list setting_arrays) (block : nat) (v : string).

Ltac use_text Ht :=
  let Hs := fresh in let Hs' := fresh in
  destruct (text_getters _ _ _ _ _ Ht) as (s & Hs & Hint & Hbool & Hstr & Hmatch);
  destruct (value_error_ok _ _ _ _ _ Ht) as (s' & Hs' & Herr); rewrite Hs in Hs'; injection Hs' as <-;
  unfold m_bind; rewrite Hs.

Lemma workers_ok : has_text w ctx block "workers" v →
  part_ok (configure_workers ctx block) w (set_workers <$> workers_spec v).
Proof.
  intros Ht. unfold configure_workers, workers_spec. unfold part_ok at 1. use_text Ht. rewrite Hint.
  destruct (to_int v) as [n|].
  - bool_case; simpl; [rewrite (proj2 (Z.leb_gt _ _)) by done; apply config_error_ok|].
    rewrite (proj2 (Z.leb_le _ _)) by done. bool_case; simpl.
    + rewrite (proj2 (Z.leb_gt _ _)) by done. apply config_error_ok.
    + by rewrite (proj2 (Z.leb_le _ _)) by done.
  - rewrite Hstr, Hmatch. by destruct (string_match v "^auto$").
Qed.

Lemma io_uring_ok : has_text w ctx block "io_uring" v →
  part_ok (configure_io_uring ctx block) w (set_enabled <$> switch_spec None Some (negb (bu_have_io_uring b)) v).
Proof.
  intros Ht. unfold configure_io_uring, switch_spec. unfold part_ok at 1. use_text Ht. rewrite Hmatch.
  destruct (string_match v "^auto$"); [done|]. rewrite Hbool. destruct (lua_toboolean v) as [on|]; [|done].
  rewrite (andb_comm on). destruct (negb (bu_have_io_uring b) && on); [apply config_error_ok|done].
Qed.

Lemma entries_text_ok : has_text w ctx block "io_uring_queue_entries" v →
  part_ok (configure_entries ctx block) w (set_entries <$> entries_spec v).
Proof.
  intros Ht. unfold configure_entries, entries_spec. unfold part_ok at 1. use_text Ht. rewrite Hint.
  destruct (to_int v) as [n|]; [|done]. destruct (Z.leb_spec n 0); simpl.
  - by rewrite (proj2 (Z.ltb_ge _ _)) by done.
  - by rewrite (proj2 (Z.ltb_lt _ _)) by done.
Qed.

Lemma sqpoll_ok : has_text w ctx block "io_uring_sq_kernel_poll" v →
  part_ok (configure_sqpoll ctx block) w
    (set_sqpoll <$> switch_spec (bu_master_has_root b) id (negb (bu_master_has_root b)) v).
Proof.
  intros Ht. unfold configure_sqpoll, switch_spec. unfold part_ok at 1. use_text Ht. rewrite Hmatch.
  destruct (string_match v "^auto$"); [done|]. rewrite Hbool. destruct (lua_toboolean v) as [on|]; [|done].
  destruct (on && negb (bu_master_has_root b)); [apply config_error_ok|done].
Qed.

Lemma idle_ok : has_text w ctx block "io_uring_sq_thead_idle" v → is_Some (time_ms v) →
  part_ok (configure_idle ctx block) w (set_idle <$> default None (time_ms v)).
Proof.
  intros Ht [ms Hms]. unfold configure_idle, shuso_setting_time_sec. unfold part_ok at 1. use_text Ht. rewrite Hstr, Hms. simpl.
  unfold m_ret. by destruct ms.
Qed.
End parts.

(** Parts one after another *)
Definition both (o o2 : option (core_config → core_config)) : option (core_config → core_config) :=
  match o, o2 with Some f, Some g => Some (λ c, g (f c)) | _, _ => None end.
Lemma parts_ok (m : M (cworld E) bool) (k : M (cworld E) bool) w o o2 :
  part_ok m w o → (∀ c, part_ok k (put_config c w) (o2)) →
  part_ok (ok <- m ;; if negb ok then m_ret false else k) w (both o o2).
Proof.
  intros Hm Hk. unfold part_ok at 1. unfold m_bind. destruct o as [f|]; simpl in *.
  - rewrite Hm. simpl. specialize (Hk (f (cw_config w))). destruct o2 as [g|]; simpl in *; [by rewrite Hk|].
    destruct Hk as (w' & msg & Hk & He). by exists w', msg.
  - destruct Hm as (w' & msg & -> & He). by exists w', msg.
Qed.

Lemma match_parts_nil ns : match_parts ns [] = bool_decide (ns = []).
Proof.
  unfold match_parts. destruct ns as [|n ns] using rev_ind; [done|]. rewrite rev_app_distr. simpl.
  rewrite bool_decide_eq_false_2; [done|]. by intros [_ ?]%app_nil.
Qed.

Lemma bind_run {A B} (m : M (cworld E) A) (k : A → M (cworld E) B) w x w' :
  m w = Some (x, w') → (x <- m ;; k x) w = k x w'.
Proof. unfold m_bind. by intros ->. Qed.

(** Only the root's path is [/]. *)
Lemma root_path_ok (w : cworld E) block bl : tree_ok (cw_lua w) → cw_blocks w !! block = Some bl →
  is_Some (setting (cw_lua w) (b_setting bl)) →
  shuso_config_match_block_path block "/" w = Some (bool_decide (b_setting bl = 0%nat), w).
Proof.
  intros Ht Hb [x Hx]. unfold shuso_config_match_block_path, m_bind, m_get. rewrite Hb. simpl. unfold m_ret at 1.
  destruct (block_path_joined _ Ht _ _ Hx) as (path & -> & Hp). simpl. unfold m_ret, match_path.
  rewrite (split_path_joined _ _ (names_good _ Ht _ _ Hx) Hp). change (split_path "/") with (@nil string).
  rewrite match_parts_nil. do 2 f_equal. apply bool_decide_ext. destruct (decide (b_setting bl = 0%nat)) as [He|Hne].
  - rewrite He, names_root by done. done.
  - split; [|done]. destruct (names_step _ Ht _ _ Hx Hne) as [-> _]. by intros [_ ?]%app_nil.
Qed.

Lemma all_parts_ok (w : cworld E) ctx block t : core_settings w ctx block t →
  part_ok (ok <- configure_workers ctx block ;;
           if negb ok then m_ret false else
           ok <- configure_io_uring ctx block ;;
           if negb ok then m_ret false else
           ok <- configure_entries ctx block ;;
           if negb ok then m_ret false else
           ok <- configure_sqpoll ctx block ;;
           if negb ok then m_ret false else
           configure_idle ctx block) w (const <$> core_spec t).
Proof.
  intros Hc.
  assert (∀ c, core_settings (put_config c w) ctx block t) as Hput.
  { intros c. eapply core_settings_reads; [|exact Hc]. by split. }
  assert (const <$> core_spec t =
    both (set_workers <$> workers_spec (ct_workers t))
      (both (set_enabled <$> switch_spec None Some (negb (bu_have_io_uring b)) (ct_io_uring t))
        (both (set_entries <$> entries_spec (ct_entries t))
          (both (set_sqpoll <$> switch_spec (bu_master_has_root b) id (negb (bu_master_has_root b)) (ct_poll t))
            (set_idle <$> default None (time_ms (ct_idle t))))))) as ->.
  { unfold core_spec. destruct (workers_spec _); [|done]. simpl. destruct (switch_spec None _ _ _); [|done]. simpl.
    destruct (entries_spec _); [|done]. simpl. destruct (switch_spec _ _ _ _); [|done]. simpl.
    by destruct (default None (time_ms _)). }
  apply parts_ok; [apply workers_ok, Hc|]. intros c1. apply parts_ok; [apply io_uring_ok, Hput|].
  intros c2. apply parts_ok; [apply entries_text_ok, (Hput c2)|]. intros c3.
  apply parts_ok; [apply sqpoll_ok, (Hput c3)|]. intros c4. apply idle_ok; apply (Hput c4).
Qed.

(** *** It only reads the configuration. *)

Lemma reader_mod f : reader (mod_config f).
Proof. apply reader_bind; [|intros; apply reader_ret]. intros w r w' [= _ <-]. by split. Qed.
Lemma reader_setting block name : reader (shuso_setting block name : M (cworld E) _).
Proof.
  apply reader_bind; [apply reader_get|]. intros w. apply reader_bind; [apply reader_some|]. intros bl.
  destruct (find_setting _ _ _) as [[d|]| |]; [apply reader_ret|apply reader_abort|..];
    (apply reader_bind; [apply reader_sys|intros; apply reader_ret]).
Qed.
Lemma reader_path block pat : reader (shuso_config_match_block_path block pat : M (cworld E) _).
Proof.
  apply reader_bind; [apply reader_get|]. intros w. apply reader_bind; [apply reader_some|]. intros bl.
  apply reader_bind; [apply reader_some|intros; apply reader_ret].
Qed.
Lemma reader_getter q ctx s n : reader (getter q ctx s n : M (cworld E) _).
Proof. apply reader_value. Qed.
Lemma reader_config_error s msg : reader (config_error s msg).
Proof. apply reader_bind; [apply reader_some|intros; apply reader_fail]. Qed.
Lemma reader_value_error ctx s : reader (value_error ctx s).
Proof.
  apply reader_bind; [apply reader_some|]. intros s'. apply reader_bind; [apply reader_string|]. intros v.
  apply reader_fail.
Qed.

Ltac readers :=
  repeat first
    [ progress intros
    | apply reader_setting | apply reader_string | apply reader_matches | apply reader_getter | apply reader_path
    | apply reader_ret | apply reader_some | apply reader_mod | apply reader_config_error | apply reader_value_error
    | apply reader_bind | case_match ].

(** The core module may be among those that read the configuration. *)
Lemma core_module_reads : reads_config (Some core_module_initialize_config).
Proof.
  intros ctx block. unfold core_module_initialize_config, configure_workers, configure_io_uring, configure_entries,
    configure_sqpoll, configure_idle, shuso_setting_integer, shuso_setting_boolean, shuso_setting_time_sec.
  readers.
Qed.
End core.

(** ** The theorem *)


(** ** Examples *)

Definition core_sample (workers : string) : lconfig := LConfig
  [LSetting "::ROOT" None None 0 (Some []) (Some [1; 2; 3; 4; 5; 6]%nat) None;
   LSetting "workers" None (Some "core") 0 (Some [0%nat]) None (Some "core:workers");
   LSetting "io_uring" None (Some "core") 0 None None (Some "core:io_uring");
   LSetting "io_uring_queue_entries" None (Some "core") 0 None None (Some "core:io_uring_queue_entries");
   LSetting "io_uring_sq_thead_idle" None (Some "core") 0 None None (Some "core:io_uring_sq_thead_idle");
   LSetting "io_uring_sq_kernel_poll" None (Some "core") 0 None None (Some "core:io_uring_sq_kernel_poll");
   LSetting "server" None (Some "m") 0 (Some []) (Some []) (Some "m:server")]
  [[LuaLiteral workers]; [LuaLiteral "auto"]; [LuaLiteral "4096"]; [LuaLiteral "500ms"]]
  (list_to_map [("core:workers", Handler "/" (Some [1%nat])); ("core:io_uring", Handler "/" (Some [1%nat]));
                ("core:io_uring_queue_entries", Handler "/" (Some [2%nat]));
                ("core:io_uring_sq_thead_idle", Handler "/" (Some [3%nat]));
                ("core:io_uring_sq_kernel_poll", Handler "/" (Some [1%nat])); ("m:server", Handler "/" None)]).

#[local] Instance core_instrings : InstringEnv unit := {
  find_variable _ := None;
  eval _ e := (None, e);
  lua_tonumber _ := None;
  lua_tointeger s := if bool_decide (s = "4") then Some 4 else if bool_decide (s = "4096") then Some 4096
                     else if bool_decide (s = "4294967298") then Some 4294967298 else None;
  lua_tosize _ := None;
  has_memory _ _ := true
}.
#[local] Instance core_variables : VariableEnv := λ _ _, NotFound.
#[local] Instance core_cenv : ConfigEnv := {
  string_match s pattern := bool_decide (pattern = "^" +:+ s +:+ "$");
  located _ msg := msg;
  time_ms s := if bool_decide (s = "500ms") then Some (Some 500) else Some None
}.
Definition core_build : build := Build 64 false 8 true.

(** What configuring gives: the core module's turn in [shuso_config_system_generate] *)
Definition core_generated (workers : string) : option (bool * core_config) :=
  match shuso_config_system_generate 9 0 [Some (core_module_initialize_config core_build)]
          (CWorld (World tt [] []) (core_sample workers) ∅ ∅ [] (CoreConfig 0 None 0 false 0)) with
  | Some (Some _, w) => Some (true, cw_config w)
  | Some (None, w) => Some (false, cw_config w)
  | None => None
  end.

Example core_generated_4 : core_generated "4" = Some (true, CoreConfig 4 None 4096 true 500).
Proof. by vm_compute. Qed.
(** A number of workers too big for a C [int] becomes another one. *)
Lemma workers_wrap : core_generated "4294967298" = Some (true, CoreConfig 2 None 4096 true 500).
Proof. by vm_compute. Qed.
Lemma workers_word : core_generated "many" = Some (false, CoreConfig 0 None 0 false 0).
Proof. by vm_compute. Qed.

Definition core_start (workers : string) : cworld unit :=
  CWorld (World tt [] []) (core_sample workers) ∅ ∅ [] (CoreConfig 0 None 0 false 0).

Lemma core_tree workers : tree_ok (core_sample workers).
Proof.
  split; [by do 2 eexists|]. intros s x Hs Hne. destruct s as [|s]; [done|].
  do 6 (destruct s as [|s];
    [injection Hs as <-; split_and!; [simpl; lia|split; [done|by repeat constructor]|by eexists]|]).
  done.
Qed.

