(* ===== verification/Sysutil.v ===== *)
(** What differs between systems, src/src/sysutil.c: the socket options a system has, the names of errors and signals, the
    number of its processors and the sizes of its pages.  A system is the macros its headers define, and what [sysconf]
    says. *)

From stdpp Require Import strings.
From S2P Require Import Prelude Slab.

#[local] Open Scope string_scope.
#[local] Open Scope Z_scope.

(** ** Tables that the preprocessor makes *)

(** [shuso_system_sockopt_type_t] and [shuso_system_sockopts_t] *)
Inductive sockopt_type := SOCKOPT_MISSING | TYPE_INT | TYPE_FLAG | TYPE_LINGER | TYPE_TIMEVAL.
Record system_sockopt := SystemSockopt { so_str : string; so_level : Z; so_name : Z; so_type : sockopt_type }.
#[export] Instance sockopt_type_eq_dec : EqDecision sockopt_type.
Proof. solve_decision. Defined.

Section system.
(** A macro's value; none: it is not defined *)
Variable macro : string → option Z.

Definition sockopt_decls : list (string * string * sockopt_type) := [
  ("SO_BROADCAST", "SOL_SOCKET", TYPE_FLAG); ("SO_DEBUG", "SOL_SOCKET", TYPE_FLAG);
  ("SO_DONTROUTE", "SOL_SOCKET", TYPE_FLAG); ("SO_ERROR", "SOL_SOCKET", TYPE_INT);
  ("SO_KEEPALIVE", "SOL_SOCKET", TYPE_FLAG); ("SO_LINGER", "SOL_SOCKET", TYPE_LINGER);
  ("SO_OOBINLINE", "SOL_SOCKET", TYPE_FLAG); ("SO_RCVBUF", "SOL_SOCKET", TYPE_INT);
  ("SO_SNDBUF", "SOL_SOCKET", TYPE_INT); ("SO_RCVLOWAT", "SOL_SOCKET", TYPE_INT);
  ("SO_SNDLOWAT", "SOL_SOCKET", TYPE_INT); ("SO_RCVTIMEO", "SOL_SOCKET", TYPE_TIMEVAL);
  ("SO_SNDTIMEO", "SOL_SOCKET", TYPE_TIMEVAL); ("SO_REUSEADDR", "SOL_SOCKET", TYPE_FLAG);
  ("SO_REUSEPORT", "SOL_SOCKET", TYPE_FLAG); ("SO_REUSEADDR", "SOL_SOCKET", TYPE_FLAG);
  ("SO_TYPE", "SOL_SOCKET", TYPE_INT); ("SO_USELOOPBACK", "SOL_SOCKET", TYPE_FLAG);
  ("IP_TOS", "IPPROTO_IP", TYPE_INT); ("IP_TTL", "IPPROTO_IP", TYPE_INT);
  ("IPV6_DONTFRAG", "IPPROTO_IPV6", TYPE_FLAG); ("IPV6_UNICAST_HOPS", "IPPROTO_IPV6", TYPE_INT);
  ("IPV6_V6ONLY", "IPPROTO_IPV6", TYPE_INT); ("TCP_MAXSEG", "IPPROTO_TCP", TYPE_INT);
  ("TCP_NODELAY", "IPPROTO_TCP", TYPE_FLAG); ("SCTP_AUTOCLOSE", "IPPROTO_SCTP", TYPE_INT);
  ("SCTP_MAXBURST", "IPPROTO_SCTP", TYPE_INT); ("SCTP_MAXSEG", "IPPROTO_SCTP", TYPE_INT);
  ("SCTP_NODELAY", "IPPROTO_SCTP", TYPE_FLAG)].

(** The table, without the entry at its end *)
Definition shuso_system_sockopts : list system_sockopt :=
  (λ '(str, level, type),
     match macro level, macro str with
     | Some l, Some n => SystemSockopt str l n type
     | _, _ => SystemSockopt str 0 0 SOCKOPT_MISSING
     end) <$> sockopt_decls.

(** The cases of [shuso_system_errnoname], in its order; four of them are left out when they are the same as another. *)
Definition errno_names : list string := [
    "E2BIG"; "EACCES"; "EADDRINUSE"; "EADDRNOTAVAIL"; "EADI"; "EADV"; "EAFNOSUPPORT"; "EAGAIN"; "EAIO"; "EALIGN";
    "EALREADY"; "EASYNC"; "EAUTH"; "EBADARCH"; "EBADE"; "EBADEXEC"; "EBADF"; "EBADFD"; "EBADMACHO"; "EBADMSG";
    "EBADR"; "EBADRPC"; "EBADRQC"; "EBADSLT"; "EBADVER"; "EBFONT"; "EBUSY"; "ECANCELED"; "ECANCELLED"; "ECAPMODE";
    "ECHILD"; "ECHRNG"; "ECKPT"; "ECLONEME"; "ECOMM"; "ECONFIG"; "ECONNABORTED"; "ECONNREFUSED"; "ECONNRESET";
    "ECORRUPT"; "ECVCERORR"; "ECVPERORR"; "EDEADLK"; "EDEADLOCK"; "EDESTADDREQ"; "EDESTADDRREQ"; "EDEVERR";
    "EDIRIOCTL"; "EDIRTY"; "EDIST"; "EDOM"; "EDOOFUS"; "EDOTDOT"; "EDQUOT"; "EDUPFD"; "EDUPPKG"; "EEXIST"; "EFAIL";
    "EFAULT"; "EFBIG"; "EFORMAT"; "EFSCORRUPTED"; "EFTYPE"; "EHOSTDOWN"; "EHOSTUNREACH"; "EHWPOISON"; "EIDRM";
    "EILSEQ"; "EINIT"; "EINPROG"; "EINPROGRESS"; "EINTEGRITY"; "EINTR"; "EINVAL"; "EIO"; "EIPSEC"; "EISCONN";
    "EISDIR"; "EISNAM"; "EJUSTRETURN"; "EKEEPLOOKING"; "EKEYEXPIRED"; "EKEYREJECTED"; "EKEYREVOKED"; "EL2HLT";
    "EL2NSYNC"; "EL3HLT"; "EL3RST"; "ELIBACC"; "ELIBBAD"; "ELIBEXEC"; "ELIBMAX"; "ELIBSCN"; "ELNRNG"; "ELOCKUNMAPPED";
    "ELOOP"; "EMEDIA"; "EMEDIUMTYPE"; "EMFILE"; "EMLINK"; "EMOUNTEXIT"; "EMOVEFD"; "EMSGSIZE"; "EMTIMERS";
    "EMULTIHOP"; "ENAMETOOLONG"; "ENAVAIL"; "ENEEDAUTH"; "ENETDOWN"; "ENETRESET"; "ENETUNREACH"; "ENFILE";
    "ENFSREMOTE"; "ENOANO"; "ENOATTR"; "ENOBUFS"; "ENOCONNECT"; "ENOCSI"; "ENODATA"; "ENODEV"; "ENOENT"; "ENOEXEC";
    "ENOIOCTL"; "ENOKEY"; "ENOLCK"; "ENOLINK"; "ENOLOAD"; "ENOMATCH"; "ENOMEDIUM"; "ENOMEM"; "ENOMSG"; "ENONET";
    "ENOPKG"; "ENOPOLICY"; "ENOPROTOOPT"; "ENOREG"; "ENOSPC"; "ENOSR"; "ENOSTR"; "ENOSYM"; "ENOSYS"; "ENOTACTIVE";
    "ENOTBLK"; "ENOTCAPABLE"; "ENOTCONN"; "ENOTDIR"; "ENOTEMPTY"; "ENOTNAM"; "ENOTREADY"; "ENOTRECOVERABLE";
    "ENOTRUST"; "ENOTSOCK"; "ENOTSUP"; "ENOTTY"; "ENOTUNIQ"; "ENOUNLD"; "ENOUNREG"; "ENXIO"; "EOPCOMPLETE";
    "EOPNOTSUPP"; "EOVERFLOW"; "EOWNERDEAD"; "EPASSTHROUGH"; "EPATHREMOTE"; "EPERM"; "EPFNOSUPPORT"; "EPIPE";
    "EPOWERF"; "EPROCLIM"; "EPROCUNAVAIL"; "EPROGMISMATCH"; "EPROGUNAVAIL"; "EPROTO"; "EPROTONOSUPPORT"; "EPROTOTYPE";
    "EPWROFF"; "EQFULL"; "EQSUSPENDED"; "ERANGE"; "ERECYCLE"; "EREDRIVEOPEN"; "EREFUSED"; "ERELOC"; "ERELOCATED";
    "ERELOOKUP"; "EREMCHG"; "EREMDEV"; "EREMOTE"; "EREMOTEIO"; "EREMOTERELEASE"; "ERESTART"; "ERFKILL"; "EROFS";
    "ERPCMISMATCH"; "ESAD"; "ESHLIBVERS"; "ESHUTDOWN"; "ESOCKTNOSUPPORT"; "ESOFT"; "ESPIPE"; "ESRCH"; "ESRMNT";
    "ESTALE"; "ESTART"; "ESTRPIPE"; "ESYSERROR"; "ETIME"; "ETIMEDOUT"; "ETOOMANYREFS"; "ETXTBSY"; "EUCLEAN";
    "EUNATCH"; "EUSERS"; "EVERSION"; "EWOULDBLOCK"; "EWRONGFS"; "EWRPROTECT"; "EXDEV"; "EXFULL"].
Definition errno_alias (name : string) : option string :=
  if String.eqb name "ECANCELLED" then Some "ECANCELED"
  else if String.eqb name "EDEADLOCK" then Some "EDEADLK"
  else if String.eqb name "EOPNOTSUPP" then Some "ENOTSUP"
  else if String.eqb name "EWOULDBLOCK" then Some "EAGAIN"
  else None.
Definition errno_case (name : string) : option (string * Z) :=
  n ← macro name;
  if bool_decide ((errno_alias name ≫= macro) = Some n) then None else Some (name, n).
Definition errno_cases : list (string * Z) := omap errno_case errno_names.
Definition shuso_system_errnoname (errno_ : Z) : option string :=
  fst <$> List.find (λ c, c.2 =? errno_) errno_cases.

(** Without [strsignal]: the comparisons in their order, those of signals that a system may not have among them *)
Definition signal_names : list string := [
    "SIGABRT"; "SIGALRM"; "SIGBUS"; "SIGCHLD"; "SIGCONT"; "SIGFPE"; "SIGHUP"; "SIGILL"; "SIGINFO"; "SIGINT"; "SIGKILL";
    "SIGPIPE"; "SIGPOLL"; "SIGIO"; "SIGPROF"; "SIGPWR"; "SIGQUIT"; "SIGSEGV"; "SIGSTOP"; "SIGSYS"; "SIGTERM"; "SIGTRAP";
    "SIGTTIN"; "SIGTTOU"; "SIGURG"; "SIGUSR1"; "SIGUSR2"; "SIGVTALRM"; "SIGXCPU"; "SIGXFSZ"; "SIGWINCH"].
Definition shuso_system_strsignal (sig : Z) : string :=
  default "UNKNOWN_SIGNAL" (List.find (λ name, bool_decide (macro name = Some sig)) signal_names).

(** ** Sizes *)

(** [sysconf], a [long] *)
Variable sysconf : string → Z.
(** What the file coherency_line_size has in it: none: it cannot be opened; no number: [fscanf] leaves the 0 *)
Variable coherency_line_size : option (option Z).

(** The result is an [int]. *)
Definition shuso_system_cores_online : Z :=
  let bad cores := (cores <? 1) || (2 ^ 31 <? cores) in
  let cores := sysconf "_SC_NPROCESSORS_ONLN" in
  let cores := if bad cores then sysconf "_SC_NPROCESSORS_CONF" else cores in
  s32 (if bad cores then 4 else cores).

(** On Linux *)
Definition shuso_system_cacheline_size : Z :=
  let sz := match macro "_SC_LEVEL1_DCACHE_LINESIZE" with
            | Some _ => u64 (sysconf "_SC_LEVEL1_DCACHE_LINESIZE")
            | None => 0
            end in
  if negb (sz =? 0) then sz
  else
    let sz := match coherency_line_size with Some n => u64 (s32 (default 0 n)) | None => 0 end in
    if sz =? 0 then 64 else sz.

(** [shuso_system_setup_t], and the sizes of src/src/shared_slab.c that are set with it *)
Record system_setup := SystemSetup {
  sys_page_size : Z;
  sys_page_size_shift : Z;
  sys_cacheline_size : Z;
  sys_initialized : bool;
  sys_slab_max_size : Z;
  sys_slab_exact_size : Z;
  sys_slab_exact_shift : Z;
  sys_slab_initialized : bool
}.
Definition system_zero : system_setup := SystemSetup 0 0 0 false 0 0 0 false.

Definition shuso_shared_slab_sizes_init (s : system_setup) : system_setup :=
  if sys_slab_initialized s then s
  else
    let exact := sys_page_size s / (8 * 8) in
    SystemSetup (sys_page_size s) (sys_page_size_shift s) (sys_cacheline_size s) (sys_initialized s)
      (sys_page_size s / 2) exact (exact_shift_loop 64 exact (sys_slab_exact_shift s)) true.

Definition shuso_system_initialize (s : system_setup) : system_setup :=
  if sys_initialized s then s
  else
    let page_size := u64 (sysconf "_SC_PAGESIZE") in
    let s := shuso_shared_slab_sizes_init
               (SystemSetup page_size (exact_shift_loop 64 page_size 0) shuso_system_cacheline_size (sys_initialized s)
                  (sys_slab_max_size s) (sys_slab_exact_size s) (sys_slab_exact_shift s) (sys_slab_initialized s)) in
    SystemSetup (sys_page_size s) (sys_page_size_shift s) (sys_cacheline_size s) true
      (sys_slab_max_size s) (sys_slab_exact_size s) (sys_slab_exact_shift s) (sys_slab_initialized s).

(** ** Properties *)

Lemma shift_loop_pow2 fuel k shift : 0 ≤ k < Z.of_nat fuel → exact_shift_loop fuel (2 ^ k) shift = shift + k.
Proof.
  revert k shift. induction fuel as [|fuel IH]; intros k shift Hk; [lia|]. simpl.
  rewrite Z.shiftr_div_pow2 by lia. destruct (Z.eqb_spec k 0) as [->|Hk0]; [simpl; lia|].
  replace (2 ^ k) with (2 ^ (k - 1) * 2 ^ 1) by (rewrite <- Z.pow_add_r by lia; f_equal; lia).
  rewrite Z.div_mul by done. pose proof (Z.pow_pos_nonneg 2 (k - 1)).
  bool_case; [lia|]. rewrite IH; lia.
Qed.

Lemma find_first {X} (f : X → Z) (l : list X) e x : NoDup (f <$> l) →
  List.find (λ c, f c =? e) l = Some x ↔ x ∈ l ∧ f x = e.
Proof.
  induction l as [|y l IH]; simpl; [set_solver|]. intros [Hy Hl]%NoDup_cons. rewrite elem_of_cons.
  destruct (Z.eqb_spec (f y) e) as [He|He].
  - split; [intros [= <-]; auto|]. intros [[->|Hx] Hfx]; [done|]. destruct Hy. apply list_elem_of_fmap.
    exists x. split; [congruence|done].
  - rewrite IH by done. naive_solver.
Qed.

Lemma elem_of_errno_cases name e :
  (name, e) ∈ errno_cases ↔ name ∈ errno_names ∧ macro name = Some e ∧ (errno_alias name ≫= macro) ≠ Some e.
Proof.
  unfold errno_cases. rewrite list_elem_of_omap. unfold errno_case. split.
  - intros (x & Hx & He). destruct (macro x) as [n|] eqn:Hn; simpl in He; [|done].
    case_bool_decide; simplify_eq. auto.
  - intros (Hx & Hn & Ha). exists name. split; [done|]. rewrite Hn. simpl. by rewrite bool_decide_eq_false_2.
Qed.

(** An error number gets the name of the macro that stands for it, of those the table has: when two of them have the
    same number, which [NoDup] excludes, the switch would not compile, but for the four names that are left out when they are
    another's; every other number gets a null pointer. *)
Theorem errnoname_correct (Hcompiles : NoDup (errno_cases.*2)) errno_ name :
  shuso_system_errnoname errno_ = Some name ↔
  name ∈ errno_names ∧ macro name = Some errno_ ∧ (errno_alias name ≫= macro) ≠ Some errno_.
Proof.
  rewrite <- elem_of_errno_cases. unfold shuso_system_errnoname. rewrite fmap_Some. split.
  - intros ((n & e) & Hf & ->). apply find_first in Hf as [Hin He]; [|done]. simpl in *. by subst.
  - intros Hin. exists (name, errno_). split; [|done]. by apply find_first.
Qed.

(** On a system whose pages have 2^k bytes, what [shuso_system_initialize] computes is what the slab's code
    takes them for: the shift is k, the largest chunk half a page, and the exact size, with its shift, that whose bitmap is
    a word of 64 bits; calling it again changes nothing. *)
Theorem system_sizes k (Hk : 6 ≤ k < 64) (Hpage : sysconf "_SC_PAGESIZE" = 2 ^ k) :
  let s := shuso_system_initialize system_zero in
  sys_page_size s = 2 ^ k ∧ sys_page_size_shift s = k ∧ sys_slab_max_size s = 2 ^ (k - 1) ∧
  2 ^ sys_slab_exact_shift s = sys_slab_exact_size s ∧ sys_slab_exact_size s * 64 = sys_page_size s ∧
  shuso_system_initialize s = s ∧
  (k = pagesize_shift → sys_page_size s = pagesize ∧ sys_slab_max_size s = slab_max_size ∧
     sys_slab_exact_size s = slab_exact_size ∧ sys_slab_exact_shift s = slab_exact_shift).
Proof.
  assert (2 ^ k < 2 ^ 64) as Hlt by (apply Z.pow_lt_mono_r; lia).
  assert (2 ^ k = 2 ^ (k - 6) * (8 * 8)) as He6.
  { change (8 * 8) with (2 ^ 6). rewrite <- Z.pow_add_r by lia. f_equal. lia. }
  assert (2 ^ k = 2 ^ (k - 1) * 2) as He1.
  { change 2 with (2 ^ 1) at 3. rewrite <- Z.pow_add_r by lia. f_equal. lia. }
  assert (u64 (2 ^ k) = 2 ^ k) as Hu by (apply u64_small; lia).
  assert (2 ^ k / (8 * 8) = 2 ^ (k - 6)) as Hd6 by (rewrite He6; by apply Z.div_mul).
  assert (2 ^ k / 2 = 2 ^ (k - 1)) as Hd1 by (rewrite He1; by apply Z.div_mul).
  unfold shuso_system_initialize, shuso_shared_slab_sizes_init. cbn [system_zero sys_initialized sys_slab_initialized
    sys_page_size sys_page_size_shift sys_cacheline_size sys_slab_max_size sys_slab_exact_size sys_slab_exact_shift].
  rewrite Hpage, Hu, Hd6, Hd1, !shift_loop_pow2 by lia. split_and!; try done; try lia.
  intros ->. done.
Qed.

(** At the edges: 2^31 processors pass the test and become a negative number, and a system that has no answer for the size
    of a line of its cache, [sysconf]'s -1, has lines of 2^64 - 1 bytes. *)
Lemma sysconf_edges :
  (sysconf "_SC_NPROCESSORS_ONLN" = 2 ^ 31 → shuso_system_cores_online = - 2 ^ 31) ∧
  (sysconf "_SC_LEVEL1_DCACHE_LINESIZE" = -1 → macro "_SC_LEVEL1_DCACHE_LINESIZE" ≠ None →
     shuso_system_cacheline_size = 2 ^ 64 - 1).
Proof.
  split.
  - intros He. unfold shuso_system_cores_online. by rewrite He.
  - intros He Hm. unfold shuso_system_cacheline_size. rewrite He. by destruct (macro _).
Qed.
End system.

(** ** Linux

    With glibc and what src/src/sysutil.c includes: without [netinet/tcp.h] no macro of TCP's options is defined. *)
Definition linux_macros : list (string * Z) := [
    ("SOL_SOCKET", 1); ("SO_DEBUG", 1); ("SO_REUSEADDR", 2); ("SO_TYPE", 3); ("SO_ERROR", 4); ("SO_DONTROUTE", 5);
    ("SO_BROADCAST", 6); ("SO_SNDBUF", 7); ("SO_RCVBUF", 8); ("SO_KEEPALIVE", 9); ("SO_OOBINLINE", 10);
    ("SO_LINGER", 13); ("SO_REUSEPORT", 15); ("SO_RCVLOWAT", 18); ("SO_SNDLOWAT", 19); ("SO_RCVTIMEO", 20);
    ("SO_SNDTIMEO", 21); ("IPPROTO_IP", 0); ("IP_TOS", 1); ("IP_TTL", 2); ("IPPROTO_IPV6", 41);
    ("IPV6_UNICAST_HOPS", 16); ("IPV6_V6ONLY", 26); ("IPV6_DONTFRAG", 62); ("IPPROTO_TCP", 6); ("IPPROTO_SCTP", 132);
    ("SIGABRT", 6); ("SIGALRM", 14); ("SIGBUS", 7); ("SIGCHLD", 17); ("SIGCONT", 18); ("SIGFPE", 8); ("SIGHUP", 1);
    ("SIGILL", 4); ("SIGINT", 2); ("SIGKILL", 9); ("SIGPIPE", 13); ("SIGPOLL", 29); ("SIGIO", 29); ("SIGPROF", 27);
    ("SIGPWR", 30); ("SIGQUIT", 3); ("SIGSEGV", 11); ("SIGSTOP", 19); ("SIGSYS", 31); ("SIGTERM", 15); ("SIGTRAP", 5);
    ("SIGTTIN", 21); ("SIGTTOU", 22); ("SIGURG", 23); ("SIGUSR1", 10); ("SIGUSR2", 12); ("SIGVTALRM", 26);
    ("SIGXCPU", 24); ("SIGXFSZ", 25); ("SIGWINCH", 28); ("E2BIG", 7); ("EACCES", 13); ("EADDRINUSE", 98);
    ("EADDRNOTAVAIL", 99); ("EADV", 68); ("EAFNOSUPPORT", 97); ("EAGAIN", 11); ("EALREADY", 114); ("EBADE", 52);
    ("EBADF", 9); ("EBADFD", 77); ("EBADMSG", 74); ("EBADR", 53); ("EBADRQC", 56); ("EBADSLT", 57); ("EBFONT", 59);
    ("EBUSY", 16); ("ECANCELED", 125); ("ECHILD", 10); ("ECHRNG", 44); ("ECOMM", 70); ("ECONNABORTED", 103);
    ("ECONNREFUSED", 111); ("ECONNRESET", 104); ("EDEADLK", 35); ("EDEADLOCK", 35); ("EDESTADDRREQ", 89);
    ("EDOM", 33); ("EDOTDOT", 73); ("EDQUOT", 122); ("EEXIST", 17); ("EFAULT", 14); ("EFBIG", 27); ("EHOSTDOWN", 112);
    ("EHOSTUNREACH", 113); ("EIDRM", 43); ("EILSEQ", 84); ("EINPROGRESS", 115); ("EINTR", 4); ("EINVAL", 22);
    ("EIO", 5); ("EISCONN", 106); ("EISDIR", 21); ("EISNAM", 120); ("EKEYEXPIRED", 127); ("EKEYREJECTED", 129);
    ("EKEYREVOKED", 128); ("EL2HLT", 51); ("EL2NSYNC", 45); ("EL3HLT", 46); ("EL3RST", 47); ("ELIBACC", 79);
    ("ELIBBAD", 80); ("ELIBEXEC", 83); ("ELIBMAX", 82); ("ELIBSCN", 81); ("ELNRNG", 48); ("ELOOP", 40);
    ("EMEDIUMTYPE", 124); ("EMFILE", 24); ("EMLINK", 31); ("EMSGSIZE", 90); ("EMULTIHOP", 72); ("ENAMETOOLONG", 36);
    ("ENAVAIL", 119); ("ENETDOWN", 100); ("ENETRESET", 102); ("ENETUNREACH", 101); ("ENFILE", 23); ("ENOANO", 55);
    ("ENOBUFS", 105); ("ENOCSI", 50); ("ENODATA", 61); ("ENODEV", 19); ("ENOENT", 2); ("ENOEXEC", 8); ("ENOKEY", 126);
    ("ENOLCK", 37); ("ENOLINK", 67); ("ENOMEDIUM", 123); ("ENOMEM", 12); ("ENOMSG", 42); ("ENONET", 64);
    ("ENOPKG", 65); ("ENOPROTOOPT", 92); ("ENOSPC", 28); ("ENOSR", 63); ("ENOSTR", 60); ("ENOSYS", 38);
    ("ENOTBLK", 15); ("ENOTCONN", 107); ("ENOTDIR", 20); ("ENOTEMPTY", 39); ("ENOTNAM", 118);
    ("ENOTRECOVERABLE", 131); ("ENOTSOCK", 88); ("ENOTSUP", 95); ("ENOTTY", 25); ("ENOTUNIQ", 76); ("ENXIO", 6);
    ("EOPNOTSUPP", 95); ("EOVERFLOW", 75); ("EOWNERDEAD", 130); ("EPERM", 1); ("EPFNOSUPPORT", 96); ("EPIPE", 32);
    ("EPROTO", 71); ("EPROTONOSUPPORT", 93); ("EPROTOTYPE", 91); ("ERANGE", 34); ("EREMCHG", 78); ("EREMOTE", 66);
    ("EREMOTEIO", 121); ("ERESTART", 85); ("ERFKILL", 132); ("EROFS", 30); ("ESHUTDOWN", 108);
    ("ESOCKTNOSUPPORT", 94); ("ESPIPE", 29); ("ESRCH", 3); ("ESRMNT", 69); ("ESTALE", 116); ("ESTRPIPE", 86);
    ("ETIME", 62); ("ETIMEDOUT", 110); ("ETOOMANYREFS", 109); ("ETXTBSY", 26); ("EUCLEAN", 117); ("EUNATCH", 49);
    ("EUSERS", 87); ("EWOULDBLOCK", 11); ("EXDEV", 18); ("EXFULL", 54); ("EHWPOISON", 133)].
Definition linux_macro (name : string) : option Z := snd <$> List.find (λ m, String.eqb m.1 name) linux_macros.
Definition linux_sysconf (name : string) : Z :=
  if String.eqb name "_SC_PAGESIZE" then 4096 else if String.eqb name "_SC_NPROCESSORS_ONLN" then 8 else -1.

Lemma errnoname_correct_witness :
  NoDup ((errno_cases linux_macro).*2) ∧
  (shuso_system_errnoname linux_macro 11 = Some "EAGAIN" ↔
   "EAGAIN" ∈ errno_names ∧ linux_macro "EAGAIN" = Some 11 ∧ (errno_alias "EAGAIN" ≫= linux_macro) ≠ Some 11).
Proof.
  assert (NoDup ((errno_cases linux_macro).*2)) as Hn by (apply (bool_decide_unpack _); by vm_compute).
  split; [exact Hn|]. exact (errnoname_correct linux_macro Hn 11 "EAGAIN").
Defined.

Example linux_errnames :
  shuso_system_errnoname linux_macro <$> [11; 4; 95; 35; 125; 9999] =
  [Some "EAGAIN"; Some "EINTR"; Some "ENOTSUP"; Some "EDEADLK"; Some "ECANCELED"; None].
Proof. by vm_compute. Qed.
Example linux_signals :
  shuso_system_strsignal linux_macro <$> [9; 15; 29; 64] = ["SIGKILL"; "SIGTERM"; "SIGPOLL"; "UNKNOWN_SIGNAL"].
Proof. by vm_compute. Qed.

Lemma system_sizes_witness :
  let s := shuso_system_initialize linux_macro linux_sysconf None system_zero in
  sys_page_size s = 2 ^ 12 ∧ sys_page_size_shift s = 12 ∧ sys_slab_max_size s = 2 ^ (12 - 1) ∧
  2 ^ sys_slab_exact_shift s = sys_slab_exact_size s ∧ sys_slab_exact_size s * 64 = sys_page_size s ∧
  shuso_system_initialize linux_macro linux_sysconf None s = s ∧
  (12 = pagesize_shift → sys_page_size s = pagesize ∧ sys_slab_max_size s = slab_max_size ∧
     sys_slab_exact_size s = slab_exact_size ∧ sys_slab_exact_shift s = slab_exact_shift).
Proof. apply (system_sizes linux_macro linux_sysconf None 12); [lia|reflexivity]. Defined.
