(* ===== verification/Sockaddr.v ===== *)
(** Socket addresses between C and Lua, luaS_sockaddr_lua_to_c and luaS_sockaddr_c_to_lua of src/src/lua_utils.c: from a table to
    the bytes of a [shuso_sockaddr_t], and back.  The layout is that of Linux on a little-endian machine. *)

From stdpp Require Import strings pretty.
From S2P Require Import Prelude Io.

#[local] Open Scope string_scope.
#[local] Open Scope Z_scope.

(** ** Memory *)

(** The bytes at a place; none: outside the object *)
Definition get_bytes (off n : nat) (m : list Z) : option (list Z) :=
  if bool_decide (off + n ≤ length m)%nat then Some (take n (drop off m)) else None.
Definition put_bytes (off : nat) (b m : list Z) : option (list Z) :=
  if bool_decide (off + length b ≤ length m)%nat then Some (take off m ++ b ++ drop (off + length b) m)%list else None.

(** The text of bytes, and back *)
Definition bytes_of (s : string) : list Z := (λ c, Z.of_N (Ascii.N_of_ascii c)) <$> String.list_ascii_of_string s.
Definition text_of (b : list Z) : string := String.string_of_list_ascii ((λ z, Ascii.ascii_of_N (Z.to_N z)) <$> b).

(** [shuso_sockaddr_t]: [sa_family] in the first two bytes, the port in the next two, most significant first; an IPv4
    address after it, an IPv6 address after the flow's four bytes; the path of a Unix socket after the family. *)
Definition sizeof_sockaddr_in : nat := 16.
Definition sizeof_sockaddr_in6 : nat := 28.
Definition sizeof_sun_path : nat := 108.
Definition sizeof_sockaddr_un : nat := 110.
Definition sizeof_shuso_sockaddr : nat := 112.

Definition le16 (z : Z) : list Z := [z mod 256; z / 256].
Definition htons (port : Z) : list Z := [port / 256; port mod 256].
Definition ntohs (b : list Z) : Z := match b with [h; l] => h * 256 + l | _ => 0 end.

Definition sa_family (m : list Z) : option Z := (λ b, match b with [l; h] => l + 256 * h | _ => 0 end) <$> get_bytes 0 2 m.

(** What is after a family's port, and how long it is *)
Definition addr_place (fam : Z) : nat * nat := if fam =? AF_INET6 then (8, 16)%nat else (4, 4)%nat.

(** ** Lua's side *)

(** The fields of a table: strings and integers *)
Inductive lua_field := FString (s : string) | FInteger (z : Z).
Definition sa_table : Type := gmap string lua_field.

(** Lua's conversion of a string to an integer (0: it has none), and the functions of the C library *)
Class SockEnv := {
  string_tointeger : string → Z;
  inet_pton : Z → string → option (list Z);
  inet_pton_length : ∀ fam s b, inet_pton fam s = Some b → length b = (addr_place fam).2;
  inet_ntop : Z → list Z → option string
}.

Definition field_tointeger `{SockEnv} (f : lua_field) : Z := match f with FString s => string_tointeger s | FInteger z => z end.
(** [lua_tolstring]: numbers become strings. *)
Definition field_tostring (f : lua_field) : string := match f with FString s => s | FInteger z => pretty z end.

Definition luaS_getfield_any (t : sa_table) (names : list string) : option lua_field :=
  head (omap (λ n, t !! n) names).

Definition luaS_streq_any (f : option lua_field) (strs : list string) : bool :=
  match f with Some (FString s) => bool_decide (s ∈ strs) | _ => false end.

Definition AF_UNSPEC : Z := 0.
Definition luaS_sockaddr_family_lua_to_c (f : option lua_field) : Z :=
  if luaS_streq_any f ["AF_INET"; "IPv4"; "ipv4"] then AF_INET
  else if luaS_streq_any f ["AF_INET6"; "IPv6"; "ipv6"] then AF_INET6
  else if luaS_streq_any f ["AF_UNIX"; "Unix"; "unix"; "AF_LOCAL"; "local"] then AF_UNIX
  else AF_UNSPEC.

(** What [luaS_sockaddr_lua_to_c] returns: the pointer to the memory, or the path, when that is on top of the
    stack; nil and a message; or it raises an error. *)
Inductive to_c_result :=
| ToPointer (m : list Z) | ToPath (path : string) (m : list Z) | ToNil (err : string) | ToError (err : string).

Section sockaddr.
Context `{SockEnv}.

(** The port and the address of a table; [m]: the memory *)
Definition get_addr_and_port (t : sa_table) (fam : Z) (m : list Z) : option to_c_result :=
  match t !! "port" with
  | None => Some (ToNil "port missing")
  | Some port =>
      m ← put_bytes 2 (htons (u16 (field_tointeger port))) m;
      let '(off, len) := addr_place fam in
      match luaS_getfield_any t ["addr_binary"; "address_binary"], luaS_getfield_any t ["addr"; "address"] with
      | Some b, _ => m ← put_bytes off (take len (bytes_of (field_tostring b))) m; Some (ToPointer m)
      | None, None => Some (ToNil "address and address_binary missing from sockaddr table")
      | None, Some s =>
          match inet_pton fam (field_tostring s) with
          | Some b => m ← put_bytes off b m; Some (ToPointer m)
          | None => Some (ToError "invalid address string")
          end
      end
  end.

(** The path, with a byte 0 after it; of the two values that are pushed one is popped. *)
Definition get_path (t : sa_table) (m : list Z) : option to_c_result :=
  match t !! "path" with
  | None => Some (ToNil "path missing for Unix address family")
  | Some f =>
      let str := field_tostring f in
      let b := (bytes_of str ++ [0])%list in
      if bool_decide (sizeof_sun_path < length b)%nat then Some (ToNil "Unix socket path is too long")
      else m ← put_bytes 2 b m; Some (ToPath str m)
  end.

(** [luaS_sockaddr_lua_to_c] of a table, with the memory it is given or, without, a new userdata, which has
    [garbage] in it; none: it writes outside the memory. *)
Definition luaS_sockaddr_lua_to_c (t : sa_table) (sockaddr : option (list Z)) (garbage : nat → list Z) : option to_c_result :=
  let fam := luaS_sockaddr_family_lua_to_c (luaS_getfield_any t ["addr_family"; "address_family"; "family"]) in
  let userdata n := default (garbage n) sockaddr in
  if fam =? AF_INET then
    m ← put_bytes 0 (le16 fam) (userdata sizeof_sockaddr_in); get_addr_and_port t fam m
  else if fam =? AF_INET6 then
    m ← put_bytes 0 (le16 fam) (userdata sizeof_sockaddr_in6); get_addr_and_port t fam m
  else if fam =? AF_UNIX then
    (** The size is that of [sockaddr_in6], too. *)
    m ← put_bytes 0 (le16 fam) (userdata sizeof_sockaddr_in6); get_path t m
  else Some (ToNil "invalid addr_family").

(** [luaS_sockaddr_c_to_lua], into a table: none: it reads outside the memory. *)
Definition to_lua_inet (family : string) (fam : Z) (m : list Z) (t : sa_table) : option (sa_table + string) :=
  let '(off, len) := addr_place fam in
  port ← get_bytes 2 2 m;
  b ← get_bytes off len m;
  let t := <["address_binary" := FString (text_of b)]> (<["port" := FInteger (ntohs port)]> (<["family" := FString family]> t)) in
  Some (match inet_ntop fam b with
        | None => inr "Invalid binary address"
        | Some s => inl (<["address" := FString s]> t)
        end).

(** The bytes before the first 0; none: there is no 0. *)
Fixpoint until_nul (b : list Z) : option (list Z) :=
  match b with
  | [] => None
  | z :: b' => if z =? 0 then Some [] else (λ r, z :: r) <$> until_nul b'
  end.

Definition luaS_sockaddr_c_to_lua (m : list Z) (t : sa_table) : option (sa_table + string) :=
  fam ← sa_family m;
  if fam =? AF_INET then to_lua_inet "IPv4" fam m t
  else if fam =? AF_INET6 then to_lua_inet "IPv6" fam m t
  else if fam =? AF_UNIX then
    path ← until_nul (drop 2 m);
    Some (inl (<["path" := FString (text_of path)]> (<["family" := FString "Unix"]> t)))
  else Some (inl t).

(** ** Bytes *)

Definition is_byte (z : Z) : Prop := 0 ≤ z < 256.

Lemma bytes_text b : Forall is_byte b → bytes_of (text_of b) = b.
Proof.
  intros Hb. unfold bytes_of, text_of. rewrite String.list_ascii_of_string_of_list_ascii.
  induction Hb as [|z b Hz Hb IH]; [done|]. rewrite !fmap_cons, IH. f_equal. unfold is_byte in Hz.
  rewrite Ascii.N_ascii_embedding by lia. lia.
Qed.

Lemma get_put off b m m' : put_bytes off b m = Some m' →
  length m' = length m ∧ get_bytes off (length b) m' = Some b ∧
  (∀ o n, (o + n ≤ off ∨ off + length b ≤ o)%nat → get_bytes o n m' = get_bytes o n m).
Proof.
  unfold put_bytes. case_bool_decide as Hle; [|done]. intros [= <-].
  assert (length (take off m) = off) as Ht by (rewrite length_take; lia).
  assert (length (take off m ++ b ++ drop (off + length b) m) = length m) as Hl.
  { rewrite !length_app, Ht, length_drop. lia. }
  split; [done|]. unfold get_bytes. rewrite Hl. rewrite bool_decide_eq_true_2 by done. split.
  - f_equal. rewrite drop_app_length' by done. by rewrite take_app_length.
  - intros o n Ho. case_bool_decide as Hon; [|done]. f_equal. destruct Ho as [Ho|Ho].
    + rewrite drop_app_le by lia. rewrite take_app_le by (rewrite length_drop; lia).
      rewrite skipn_firstn_comm, take_take. f_equal. lia.
    + rewrite app_assoc, drop_app_ge by (rewrite length_app; lia).
      rewrite length_app, Ht, drop_drop. do 2 f_equal. lia.
Qed.

Lemma put_some off b m : (off + length b ≤ length m)%nat → ∃ m', put_bytes off b m = Some m'.
Proof. intros Hl. unfold put_bytes. rewrite bool_decide_eq_true_2 by done. eauto. Qed.

Lemma get_bytes_some off n m b : get_bytes off n m = Some b → length b = n ∧ (Forall is_byte m → Forall is_byte b).
Proof.
  unfold get_bytes. case_bool_decide; [|done]. intros [= <-]. split; [rewrite length_take, length_drop; lia|].
  intros Hm. by apply Forall_take, Forall_drop.
Qed.

Lemma htons_ntohs b : length b = 2%nat → Forall is_byte b → htons (u16 (ntohs b)) = b.
Proof.
  intros Hl Hb. destruct b as [|h [|l [|]]]; try done. do 2 (apply Forall_cons in Hb as [? Hb]). unfold is_byte in *.
  simpl. unfold htons. rewrite u16_small by lia. f_equal; [|f_equal]; Z.div_mod_to_equations; lia.
Qed.

Lemma le16_family fam m m' : fam = AF_INET ∨ fam = AF_INET6 ∨ fam = AF_UNIX → put_bytes 0 (le16 fam) m = Some m' →
  sa_family m' = Some fam.
Proof.
  intros Hf Hp. apply get_put in Hp as (_ & Hg & _). unfold sa_family. change 2%nat with (length (le16 fam)).
  rewrite Hg. by destruct Hf as [->|[->| ->]].
Qed.

(** The same family, port and address *)
Definition same_address (m m' : list Z) : Prop :=
  ∃ fam, sa_family m = Some fam ∧ sa_family m' = Some fam ∧ get_bytes 2 2 m' = get_bytes 2 2 m ∧
         get_bytes (addr_place fam).1 (addr_place fam).2 m' = get_bytes (addr_place fam).1 (addr_place fam).2 m.

(** What is read off a table that [to_lua_inet] has made *)
Lemma inet_roundtrip family fam m m0 t : (fam = AF_INET ∨ fam = AF_INET6) → Forall is_byte m →
  sa_family m = Some fam → sa_family m0 = Some fam → ((addr_place fam).1 + (addr_place fam).2 ≤ length m0)%nat →
  to_lua_inet family fam m ∅ = Some (inl t) →
  luaS_getfield_any t ["addr_family"; "address_family"; "family"] = Some (FString family) ∧
  ∃ m', get_addr_and_port t fam m0 = Some (ToPointer m') ∧ same_address m m'.
Proof.
  intros Hf Hm Hfam Hfam0 Hlen Ht. unfold to_lua_inet in Ht. destruct (addr_place fam) as [off len] eqn:Hplace.
  apply bind_Some in Ht as (port & Hport & Ht). apply bind_Some in Ht as (b & Hb & Ht).
  destruct (inet_ntop fam b) as [str|]; [|done]. injection Ht as <-. split.
  { unfold luaS_getfield_any. simpl. by simplify_map_eq. }
  unfold get_addr_and_port. simplify_map_eq. rewrite Hplace.
  apply get_bytes_some in Hport as Hp2. destruct Hp2 as [Hpl Hpb]. apply get_bytes_some in Hb as Hb2.
  destruct Hb2 as [Hbl Hbb]. rewrite htons_ntohs by auto. simpl in Hlen.
  assert (4 ≤ off ∧ 0 < len)%nat as [Hoff Hlen0] by (destruct Hf as [->| ->]; vm_compute in Hplace; injection Hplace as <- <-; lia).
  destruct (put_some 2 port m0) as [m1 Hm1]; [lia|]. rewrite Hm1. simpl.
  unfold luaS_getfield_any. simpl. simplify_map_eq. rewrite bytes_text by auto. rewrite take_ge by lia.
  pose proof (get_put _ _ _ _ Hm1) as (Hl1 & Hg1 & Ho1).
  destruct (put_some off b m1) as [m2 Hm2]; [lia|]. rewrite Hm2. simpl. eexists. split; [done|].
  pose proof (get_put _ _ _ _ Hm2) as (Hl2 & Hg2 & Ho2).
  exists fam. rewrite Hplace. simpl. split_and!; [done| | |].
  - unfold sa_family. rewrite Ho2 by lia. rewrite Ho1 by lia. exact Hfam0.
  - rewrite Ho2 by lia. rewrite Hport. rewrite <- Hg1. by rewrite Hpl.
  - rewrite Hb. by rewrite <- Hg2.
Qed.
End sockaddr.

(** C30: an IP address survives the way through Lua: what [luaS_sockaddr_c_to_lua] makes a table of,
    [luaS_sockaddr_lua_to_c] turns into an address with the same family, port and address, in the memory it is given or in
    a new userdata, whatever was there before, and without going outside it. *)
Theorem sockaddr_roundtrip `{SockEnv} m t sockaddr garbage
  (Hbytes : Forall is_byte m) (Hfamily : sa_family m = Some AF_INET ∨ sa_family m = Some AF_INET6)
  (Htable : luaS_sockaddr_c_to_lua m ∅ = Some (inl t))
  (Hgiven : ∀ m', sockaddr = Some m' → length m' = sizeof_shuso_sockaddr) (Hnew : ∀ n, length (garbage n) = n) :
  ∃ m', luaS_sockaddr_lua_to_c t sockaddr garbage = Some (ToPointer m') ∧ same_address m m'.
Proof.
  assert (∀ n, (n ≤ sizeof_shuso_sockaddr)%nat → (n ≤ length (default (garbage n) sockaddr))%nat) as Hroom.
  { intros n Hn. destruct sockaddr as [m'|]; simpl; [by rewrite (Hgiven m' eq_refl)|by rewrite Hnew]. }
  unfold luaS_sockaddr_c_to_lua in Htable. unfold luaS_sockaddr_lua_to_c.
  destruct Hfamily as [Hf|Hf]; rewrite Hf in Htable; simpl in Htable.
  - specialize (Hroom sizeof_sockaddr_in ltac:(unfold sizeof_shuso_sockaddr, sizeof_sockaddr_in; lia)).
    destruct (put_some 0 (le16 AF_INET) (default (garbage sizeof_sockaddr_in) sockaddr)) as [m0 Hm0].
    { unfold sizeof_sockaddr_in in Hroom. simpl. unfold sizeof_sockaddr_in. lia. }
    destruct (inet_roundtrip "IPv4" AF_INET m m0 t) as [-> (m' & Hm' & Hs)]; auto.
    { eapply le16_family; eauto. }
    { destruct (get_put _ _ _ _ Hm0) as [-> _]. unfold sizeof_sockaddr_in in *. simpl. lia. }
    change (luaS_sockaddr_family_lua_to_c (Some (FString "IPv4"))) with AF_INET. simpl. rewrite Hm0. simpl. eauto.
  - specialize (Hroom sizeof_sockaddr_in6 ltac:(unfold sizeof_shuso_sockaddr, sizeof_sockaddr_in6; lia)).
    destruct (put_some 0 (le16 AF_INET6) (default (garbage sizeof_sockaddr_in6) sockaddr)) as [m0 Hm0].
    { unfold sizeof_sockaddr_in6 in Hroom. simpl. unfold sizeof_sockaddr_in6. lia. }
    destruct (inet_roundtrip "IPv6" AF_INET6 m m0 t) as [-> (m' & Hm' & Hs)]; auto.
    { eapply le16_family; eauto. }
    { destruct (get_put _ _ _ _ Hm0) as [-> _]. unfold sizeof_sockaddr_in6 in *. simpl. lia. }
    change (luaS_sockaddr_family_lua_to_c (Some (FString "IPv6"))) with AF_INET6. simpl. rewrite Hm0. simpl. eauto.
Qed.

(** ** Types of sockets *)

Definition SOCK_STREAM : Z := 1.
Definition SOCK_DGRAM : Z := 2.
Definition SOCK_RAW : Z := 3.
Definition SOCK_RDM : Z := 4.
Definition SOCK_SEQPACKET : Z := 5.

Definition luaS_string_to_socktype (f : option lua_field) : Z :=
  if luaS_streq_any f ["stream"; "STREAM"; "SOCK_STREAM"; "tcp"; "TCP"] then SOCK_STREAM
  else if luaS_streq_any f ["dgram"; "DGRAM"; "datagram"; "SOCK_DGRAM"; "udp"; "UDP"] then SOCK_DGRAM
  else if luaS_streq_any f ["raw"; "RAW"; "SOCK_RAW"] then SOCK_RAW
  else if luaS_streq_any f ["seqpacket"; "SOCK_SEQPACKET"] then SOCK_SEQPACKET
  else if luaS_streq_any f ["rdm"; "RDM"; "SOCK_RDM"] then SOCK_RDM
  else 0.

Definition luaS_pushstring_from_socktype (socktype : Z) : option lua_field :=
  if socktype =? SOCK_STREAM then Some (FString "stream")
  else if socktype =? SOCK_DGRAM then Some (FString "dgram")
  else if socktype =? SOCK_SEQPACKET then Some (FString "seqpacket")
  else if socktype =? SOCK_RAW then Some (FString "raw")
  else if socktype =? SOCK_RDM then Some (FString "rdm")
  else None.

Lemma socktype_roundtrip t : luaS_pushstring_from_socktype t ≠ None →
  luaS_string_to_socktype (luaS_pushstring_from_socktype t) = t.
Proof. unfold luaS_pushstring_from_socktype. repeat bool_case; by subst. Qed.

(** [shuso_sockaddr_len] of src/src/sysutil.c *)
Definition shuso_sockaddr_len (m : list Z) : Z :=
  match sa_family m with
  | Some fam =>
      if fam =? AF_INET then Z.of_nat sizeof_sockaddr_in
      else if fam =? AF_INET6 then Z.of_nat sizeof_sockaddr_in6
      else if fam =? AF_UNIX then Z.of_nat sizeof_sockaddr_un
      else 0
  | None => 0
  end.

(** ** Examples *)

#[local] Program Instance sample_sock : SockEnv := {
  string_tointeger _ := 0;
  inet_pton fam s := if (fam =? AF_INET) && bool_decide (s = "127.0.0.1") then Some [127; 0; 0; 1] else None;
  inet_ntop _ _ := Some "127.0.0.1"
}.
Next Obligation. intros fam s b. simpl. destruct (Z.eqb_spec fam AF_INET) as [->|]; [|done]. case_bool_decide; simpl; by intros [= <-]. Qed.

Definition localhost : list Z := le16 AF_INET ++ [0; 80; 127; 0; 0; 1] ++ replicate 104 0.
Definition nines (n : nat) : list Z := replicate n 9.
Definition localhost_table : sa_table := list_to_map
  [("family", FString "IPv4"); ("port", FInteger 80); ("address_binary", FString (text_of [127; 0; 0; 1])); ("address", FString "127.0.0.1")].

Lemma sockaddr_roundtrip_witness :
  luaS_sockaddr_c_to_lua localhost ∅ = Some (inl localhost_table) ∧
  ∃ m', luaS_sockaddr_lua_to_c localhost_table None nines = Some (ToPointer m') ∧ same_address localhost m'.
Proof.
  split; [vm_compute; reflexivity|].
  apply (sockaddr_roundtrip localhost localhost_table None nines).
  - apply Forall_forall. intros z Hz. vm_compute in Hz. unfold is_byte.
    repeat (apply elem_of_cons in Hz as [->|Hz]; [lia|]). by apply elem_of_nil in Hz.
  - left. vm_compute. reflexivity.
  - vm_compute. reflexivity.
  - done.
  - intros n. apply length_replicate.
Defined.

Definition unix_table (path : string) : sa_table := list_to_map [("family", FString "unix"); ("path", FString path)].

(** Where addresses go wrong.  For a Unix socket the path is returned in place of the address, which the caller in the
    server's bindings takes for a failed assertion; a new userdata for one has only 28 bytes, so that a path of 26 bytes is
    written beyond it.  A binary address that is too short keeps what was in the memory before; a port is taken modulo 65536,
    and a name of one is port 0. *)
Theorem sockaddr_flaws :
  (∃ m, luaS_sockaddr_lua_to_c (unix_table "/s") (Some (nines 112)) nines = Some (ToPath "/s" m)) ∧
  luaS_sockaddr_lua_to_c (unix_table "/tmp/a/path/of/26/bytes.sk") None nines = None ∧
  (∃ m, luaS_sockaddr_lua_to_c (<["address_binary" := FString (text_of [127])]> localhost_table) (Some (nines 112)) nines
        = Some (ToPointer m) ∧ get_bytes 4 4 m = Some [127; 9; 9; 9]) ∧
  luaS_sockaddr_lua_to_c (<["port" := FInteger 65616]> localhost_table) None nines
  = luaS_sockaddr_lua_to_c localhost_table None nines ∧
  luaS_sockaddr_lua_to_c (<["port" := FString "http"]> localhost_table) None nines
  = luaS_sockaddr_lua_to_c (<["port" := FInteger 0]> localhost_table) None nines.
Proof.
  split_and!; [eexists; vm_compute; reflexivity|by vm_compute| |by vm_compute|by vm_compute].
  eexists. split; vm_compute; reflexivity.
Qed.
