(* ===== verification/Sockets.v ===== *)
(** Sockets: what the kernel keeps of them, shuso_setsockopt of src/src/shuttlesock.c, and the functions that
    src/src/modules/lua_bridge/api/core_lua_api.c gives to Lua to open and close them and to set and get their options.
    The functions are called by Lua with a list of values and return one or raise an error. *)

From Stdlib Require Import QArith Qround.
From stdpp Require Import strings.
From S2P Require Import Prelude Heap System Io Sysutil.

#[local] Open Scope string_scope.
#[local] Open Scope Z_scope.

(** ** Bytes of numbers, the least significant first *)

Definition le (n : nat) (z : Z) : list Z := (λ i, Z.shiftr z (8 * Z.of_nat i) mod 256) <$> seq 0 n.
Definition unle (b : list Z) : Z := foldr (λ x a, x + 256 * a) 0 b.

(** ** The kernel's sockets *)

Record fdesc := Fdesc {
  fd_family : Z;
  fd_type : Z;
  fd_nonblock : bool;
  fd_opts : gmap (Z * Z) (list Z);      (* by level and name *)
  fd_bound : option (list Z)            (* the address it is bound to *)
}.
(** The open descriptors, the error numbers that the next calls fail with (0: the call succeeds), and [errno] *)
Record kernel := Kernel { k_fds : gmap Z fdesc; k_errnos : list Z; k_errno : Z }.
(** The kernel's choice of a descriptor that is not open, and what it keeps of an option's value *)
Class Sys := {
  new_fd : gset Z → Z;
  new_fd_ok : ∀ used, 0 ≤ new_fd used ∧ new_fd used ∉ used;
  kept : Z → Z → list Z → list Z
}.

(** What is read of an option that was not set *)
Definition no_value : list Z := replicate 16 0.

Lemma le_cons n z : le (S n) z = z mod 256 :: le n (z / 256).
Proof.
  unfold le. cbn [seq]. rewrite fmap_cons. rewrite Z.shiftr_0_r. f_equal.
  rewrite <- fmap_S_seq, <- list_fmap_compose. apply list_fmap_ext. intros i x _. simpl.
  change 256 with (2 ^ 8) at 2. rewrite <- Z.shiftr_div_pow2, Z.shiftr_shiftr by lia. do 2 f_equal. lia.
Qed.

Lemma length_le n z : length (le n z) = n.
Proof. unfold le. by rewrite length_fmap, length_seq. Qed.

Lemma unle_le n z : unle (le n z) = z mod 2 ^ (8 * Z.of_nat n).
Proof.
  revert z. induction n as [|n IH]; intros z; [by rewrite Z.mod_1_r|].
  rewrite le_cons. cbn [unle foldr]. fold (unle (le n (z / 256))). rewrite IH.
  replace (8 * Z.of_nat (S n)) with (8 + 8 * Z.of_nat n) by lia. rewrite Z.pow_add_r by lia.
  change (2 ^ 8) with 256. rewrite Z.rem_mul_r by (try apply Z.pow_nonzero; lia). lia.
Qed.

Lemma int_bytes z : s32 (unle (le 4 z)) = s32 z.
Proof.
  rewrite unle_le. change (8 * Z.of_nat 4) with 32. unfold s32, swrap. by rewrite Zplus_mod_idemp_l.
Qed.

Section kernel.
Context `{Sys}.

(** The calls return [-1] and set [errno], or what they return. *)
Definition put_errno (e : Z) (k : kernel) : kernel := Kernel (k_fds k) (k_errnos k) e.
Definition put_fd (fd : Z) (f : fdesc) (k : kernel) : kernel := Kernel (<[fd := f]> (k_fds k)) (k_errnos k) (k_errno k).
Definition del_fd (fd : Z) (k : kernel) : kernel := Kernel (delete fd (k_fds k)) (k_errnos k) (k_errno k).
Definition k_call (call : M kernel Z) : M kernel Z :=
  k <- m_get ;;
  m_put (Kernel (k_fds k) (tail (k_errnos k)) (k_errno k)) ;;;
  let e := default 0 (head (k_errnos k)) in
  if e =? 0 then call else m_modify (put_errno e) ;;; m_ret (-1).

Definition sys_socket (family type : Z) : M kernel Z :=
  k_call (
    fd <- m_gets (λ k, new_fd (dom (k_fds k))) ;;
    m_modify (put_fd fd (Fdesc family type false ∅ None)) ;;;
    m_ret fd).
(** A call on a descriptor *)
Definition on_fd (fd : Z) (call : fdesc → fdesc) : M kernel Z :=
  f <- m_gets (λ k, k_fds k !! fd) ;;
  match f with
  | None => m_modify (put_errno EBADF) ;;; m_ret (-1)
  | Some f => k_call (m_modify (put_fd fd (call f)) ;;; m_ret 0)
  end.
Definition with_sockopt (level name : Z) (value : list Z) (f : fdesc) : fdesc :=
  Fdesc (fd_family f) (fd_type f) (fd_nonblock f) (<[(level, name) := value]> (fd_opts f)) (fd_bound f).
Definition sys_setsockopt (fd level name : Z) (value : list Z) : M kernel Z :=
  on_fd fd (with_sockopt level name (kept level name value)).
Definition sys_bind (fd : Z) (addr : list Z) : M kernel Z :=
  on_fd fd (λ f, Fdesc (fd_family f) (fd_type f) (fd_nonblock f) (fd_opts f) (Some addr)).
Definition sys_set_nonblock (fd : Z) : M kernel Z :=
  on_fd fd (λ f, Fdesc (fd_family f) (fd_type f) true (fd_opts f) (fd_bound f)).
(** With at most [len] bytes of the value *)
Definition sys_getsockopt (fd level name : Z) (len : nat) : M kernel (Z * list Z) :=
  rc <- on_fd fd (λ f, f) ;;
  f <- m_gets (λ k, k_fds k !! fd) ;;
  m_ret (rc, take len (default no_value (f ← f; fd_opts f !! (level, name)))).
(** The descriptor is closed even if there is an error. *)
Definition sys_close (fd : Z) : M kernel Z :=
  rc <- on_fd fd (λ f, f) ;; m_modify (del_fd fd) ;;; m_ret rc.
(** [fcntl(fd, F_SETFL, fcntl(fd, F_GETFL) | O_NONBLOCK)] *)
Definition shuso_set_nonblocking (fd : Z) : M kernel Z := sys_set_nonblock fd.

(** A call on an open descriptor: it succeeds, or nothing is changed but [errno]. *)
Lemma on_fd_run fd call k f : k_fds k !! fd = Some f →
  ∃ rc k', on_fd fd call k = Some (rc, k') ∧ k_errnos k' = tail (k_errnos k) ∧
    (default 0 (head (k_errnos k)) = 0 ∧ rc = 0 ∧ k_fds k' = <[fd := call f]> (k_fds k) ∨
     default 0 (head (k_errnos k)) ≠ 0 ∧ rc = -1 ∧ k_fds k' = k_fds k).
Proof.
  intros Hf. unfold on_fd, k_call. m_unfold. rewrite Hf. simpl.
  bool_case; eexists _, _; (split; [done|]); simpl; auto.
Qed.

Lemma sys_close_run fd k f : k_fds k !! fd = Some f →
  ∃ rc k', sys_close fd k = Some (rc, k') ∧ k_fds k' = delete fd (k_fds k).
Proof.
  intros Hf. destruct (on_fd_run fd (λ f, f) k f Hf) as (rc & k' & E & _ & Hk). unfold sys_close, m_bind. rewrite E.
  eexists _, _. split; [done|]. simpl.
  destruct Hk as [(_ & _ & ->)|(_ & _ & ->)]; [by rewrite insert_id|done].
Qed.

Lemma sys_socket_run family type k :
  ∃ fd k', sys_socket family type k = Some (fd, k') ∧ k_errnos k' = tail (k_errnos k) ∧
    (0 ≤ fd ∧ k_fds k !! fd = None ∧ k_fds k' = <[fd := Fdesc family type false ∅ None]> (k_fds k) ∨
     fd = -1 ∧ k_fds k' = k_fds k).
Proof.
  unfold sys_socket, k_call. m_unfold. simpl. destruct (new_fd_ok (dom (k_fds k))) as [Hpos Hnew].
  bool_case; eexists _, _; (split; [done|]); simpl; [|auto].
  split; [done|]. left. split_and!; [done|by apply not_elem_of_dom|done].
Qed.
End kernel.

(** A process with its descriptors *)
Record netw := NetW { n_kernel : kernel; n_sys : world }.

(** ** Lua *)

(** A float is the rational it stands for; a table is its address. *)
Inductive lval := LNil | LBool (b : bool) | LInteger (z : Z) | LFloat (q : Q) | LString (s : string) | LTable (t : Z).
#[export] Instance Q_eq_dec : EqDecision Q.
Proof. solve_decision. Defined.
#[export] Instance lval_eq_dec : EqDecision lval.
Proof. solve_decision. Defined.

(** A function returns values, or a new table with these fields, or raises an error. *)
Inductive lresult := LReturn (l : list lval) | LReturnTable (fields : list (string * lval)) | LRaise (err : string).

(** Lua's reading of a number in a string and writing of one, what [luaL_traceback] adds to a message, and the C library's messages *)
Class LuaLib := {
  str2num : string → option Q;
  num2str : lval → string;
  luaL_traceback : string → string;
  strerror : Z → string
}.

Section lua.
Context `{LuaLib}.
(** What the tables have in them, in the order of [lua_next] *)
Variable tables : Z → list (lval * lval).

Definition lua_toboolean (v : lval) : bool := match v with LNil | LBool false => false | _ => true end.
Definition lua_isstring (v : lval) : bool := match v with LString _ | LInteger _ | LFloat _ => true | _ => false end.
Definition lua_tostring (v : lval) : string := match v with LString s => s | _ => num2str v end.
Definition to_number (v : lval) : option Q :=
  match v with
  | LInteger z => Some (inject_Z z)
  | LFloat q => Some q
  | LString s => str2num s
  | _ => None
  end.
Definition lua_tonumber (v : lval) : Q := default 0%Q (to_number v).
(** An integer, or a float or a string that is one; 0: none *)
Definition to_integer (v : lval) : option Z :=
  q ← to_number v;
  if Qeq_bool q (inject_Z (Qfloor q)) && (- 2 ^ 63 <=? Qfloor q) && (Qfloor q <? 2 ^ 63) then Some (Qfloor q) else None.
Definition lua_tointeger (v : lval) : Z := default 0 (to_integer v).
Definition lua_getfield (t : Z) (name : string) : lval :=
  default LNil (snd <$> List.find (λ e, bool_decide (e.1 = LString name)) (tables t)).
(** An argument, nil if there is none; the table at its place; the entry after a key: none: there is no such key *)
Definition arg (args : list lval) (n : nat) : lval := default LNil (args !! pred n).
Fixpoint entry_after (key : lval) (entries : list (lval * lval)) : option (option (lval * lval)) :=
  match entries with
  | [] => None
  | e :: entries' => if bool_decide (e.1 = key) then Some (head entries') else entry_after key entries'
  end.
Definition next_entry (t : Z) (key : lval) : option (option (lval * lval)) :=
  match key with LNil => Some (head (tables t)) | _ => entry_after key (tables t) end.
End lua.

Definition bad_argument (n : string) : lresult := LRaise ("bad argument #" ++ n).

(** ** Setting options from C *)

(** How much of the [value] of a [shuso_sockopt_t] an option of a type has: the members start at the same place. *)
Definition value_size (t : sockopt_type) : option nat :=
  match t with
  | SOCKOPT_MISSING => None
  | TYPE_INT | TYPE_FLAG => Some 4%nat
  | TYPE_LINGER => Some 8%nat
  | TYPE_TIMEVAL => Some 16%nat
  end.

Section sockets.
Context `{Malloc, Sys, LuaLib}.
(** The system's macros, and the process *)
Variable macro : string → option Z.
Variable p : Z.

Definition on_kernel {X} (m : M kernel X) : M netw X :=
  λ w, match m (n_kernel w) with Some (x, k) => Some (x, NetW k (n_sys w)) | None => None end.
Definition on_sys {X} (m : M world X) : M netw X :=
  λ w, match m (n_sys w) with Some (x, s) => Some (x, NetW (n_kernel w) s) | None => None end.

Definition errno : M netw Z := m_gets (λ w, k_errno (n_kernel w)).

Definition known_sockopt (level name : Z) : option system_sockopt :=
  List.find (λ k, (level =? so_level k) && (name =? so_name k)) (shuso_system_sockopts macro).
Definition shuso_setsockopt (fd level name : Z) (value : list Z) : M netw bool :=
  match known_sockopt level name with
  | None => on_sys (shuso_set_error p "unknown socket option")
  | Some known =>
      match value_size (so_type known) with
      | None =>
          on_sys (shuso_set_error p
            ("failed to set socket option " ++ so_str known ++ ": this system does not support it"))
      | Some len =>
          rc <- on_kernel (sys_setsockopt fd level name (take len value)) ;;
          if negb (rc =? 0) then
            e <- errno ;;
            on_sys (shuso_set_error_errno p e ("failed to set socket option " ++ so_str known ++ ": " ++ strerror e))
          else m_ret true
      end
  end.

Lemma shuso_setsockopt_run base fd level name value w f known len :
  err_inv p base (n_sys w) → k_fds (n_kernel w) !! fd = Some f →
  known_sockopt level name = Some known → value_size (so_type known) = Some len →
  ∃ ok w', shuso_setsockopt fd level name value w = Some (ok, w') ∧ err_inv p base (n_sys w') ∧
    k_fds (n_kernel w')
    = if ok : bool then <[fd := with_sockopt level name (kept level name (take len value)) f]> (k_fds (n_kernel w))
      else k_fds (n_kernel w).
Proof.
  intros He Hf Hk Hlen. unfold shuso_setsockopt. rewrite Hk, Hlen. unfold m_bind, on_kernel, sys_setsockopt.
  destruct (on_fd_run fd (with_sockopt level name (kept level name (take len value))) _ f Hf) as (rc & k & -> & _ & Hr).
  destruct Hr as [(_ & -> & Hr)|(_ & -> & Hr)]; simpl.
  - by eexists _, _.
  - destruct (set_error_errno_spec p (k_errno k)
      ("failed to set socket option " ++ so_str known ++ ": " ++ strerror (k_errno k)) base _ He) as (s & E & Hs).
    unfold errno, m_gets, on_sys. simpl. rewrite E. eexists _, _. split; [done|]. split; [apply Hs|done].
Qed.

(** ** Lua's functions *)

Section lua_api.
Variable tables : Z → list (lval * lval).

(** The table "socket_sockopts_table" of [luaS_push_system_module]: a later entry takes an earlier one's place. *)
Definition socket_sockopts_table (str : string) : option system_sockopt :=
  last (filter (λ o, so_str o = str) (shuso_system_sockopts macro)).

(** The bytes of the value, if there is one; [garbage]: what is on the stack *)
Definition sockopt_bytes (t : sockopt_type) (v : lval) (garbage : list Z) : option (list Z) :=
  match t with
  | SOCKOPT_MISSING => None
  | TYPE_INT => Some (le 4 (lua_tointeger v))
  | TYPE_FLAG => Some (le 4 (if lua_toboolean v then 1 else 0))
  | TYPE_LINGER =>
      Some (if bool_decide (v = LBool false) then le 4 0 ++ le 4 0
            else match to_number v, v with
                 | Some _, _ => le 4 1 ++ le 4 (lua_tointeger v)
                 | None, LTable t =>
                     le 4 (if lua_toboolean (lua_getfield tables t "onoff") then 1 else 0) ++
                     le 4 (lua_tointeger (lua_getfield tables t "linger"))
                 | None, _ => take 8 garbage
                 end)%list
  | TYPE_TIMEVAL =>
      let f := lua_tonumber v in
      let sec := Qfloor f in
      Some (le 8 sec ++ le 8 (Qfloor ((f - inject_Z sec) * 1000000)))%list
  end.

Definition Lua_shuso_fd_setsockopt (garbage : list Z) (args : list lval) : M netw lresult :=
  match to_integer (arg args 1) with
  | None => m_ret (bad_argument "1")
  | Some fd =>
      if negb (lua_isstring (arg args 2)) then m_ret (bad_argument "2")
      else if (length args <? 3)%nat then m_ret (bad_argument "3")
      else
        let str := lua_tostring (arg args 2) in
        match socket_sockopts_table str with
        | None => m_ret (LReturn [LNil; LString ("unknown sockopt '" ++ str ++ "'")])
        | Some template =>
            match sockopt_bytes (so_type template) (arg args 3) garbage with
            | None => m_ret (LReturn [LNil; LString ("sockopt '" ++ str ++ "' unsupported on this system")])
            | Some value =>
                rc <- on_kernel (sys_setsockopt (s32 fd) (so_level template) (so_name template) value) ;;
                if negb (rc =? 0) then
                  e <- errno ;;
                  m_ret (LReturn [LNil; LString ("setsockopt '" ++ str ++ "' failed: " ++ strerror e)])
                else m_ret (LReturn [LBool true])
            end
        end
  end.

(** What is made of the value's bytes *)
Definition sockopt_result (t : sockopt_type) (name : Z) (b : list Z) : lresult :=
  let integer := s32 (unle (take 4 b)) in
  match t with
  | SOCKOPT_MISSING => LReturn []
  | TYPE_INT =>
      if bool_decide (macro "SO_ERROR" = Some name) then
        LReturn [if integer =? 0 then LBool false
                 else match shuso_system_errnoname macro integer with Some s => LString s | None => LNil end;
                 LString (strerror integer)]
      else LReturn [LInteger integer]
  | TYPE_FLAG => LReturn [LBool (negb (integer =? 0))]
  | TYPE_LINGER =>
      LReturnTable [("onoff", LBool (negb (integer =? 0))); ("linger", LInteger (s32 (unle (take 4 (drop 4 b)))))]
  | TYPE_TIMEVAL =>
      let sec := s64 (unle (take 8 b)) in
      LReturn [LFloat (inject_Z sec + inject_Z sec / 1000000)]
  end.

Definition Lua_shuso_fd_getsockopt (args : list lval) : M netw lresult :=
  match to_integer (arg args 1) with
  | None => m_ret (bad_argument "1")
  | Some fd =>
      if negb (lua_isstring (arg args 2)) then m_ret (bad_argument "2")
      else
        let str := lua_tostring (arg args 2) in
        match socket_sockopts_table str with
        | None => m_ret (LReturn [LNil; LString ("unknown sockopt '" ++ str ++ "'")])
        | Some template =>
            match value_size (so_type template) with
            | None => m_ret (LReturn [LNil; LString ("sockopt '" ++ str ++ "' unsupported on this system")])
            | Some len =>
                r <- on_kernel (sys_getsockopt (s32 fd) (so_level template) (so_name template) len) ;;
                if negb (r.1 =? 0) then
                  e <- errno ;;
                  m_ret (LReturn [LNil; LString ("getsockopt '" ++ str ++ "' failed: " ++ strerror e)])
                else m_ret (sockopt_result (so_type template) (so_name template) r.2)
            end
        end
  end.

Definition Lua_shuso_fd_close (args : list lval) : M netw lresult :=
  match to_integer (arg args 1) with
  | None => m_ret (bad_argument "1")
  | Some fd =>
      rc <- on_kernel (sys_close (s32 fd)) ;;
      if negb (rc =? 0) then e <- errno ;; m_ret (LReturn [LNil; LString (strerror e)]) else m_ret (LReturn [LBool true])
  end.

(** [luaS_call] of a function that is on the stack with its arguments, which are popped: the first [nresults] results, or
    none and the error is reported.  The one function that is called so makes no tables. *)
Definition set_nolog (b : bool) : M world unit :=
  mod_err p (λ e, Err (e_msg e) (e_count e) (e_number e) (e_static e) b (e_no_publish e)).
Definition luaS_call (f : M netw lresult) (nresults : nat) : M netw (list lval) :=
  r <- f ;;
  match r with
  | LReturn l => m_ret (take nresults (l ++ replicate nresults LNil)%list)
  | LReturnTable _ => m_abort
  | LRaise err =>
      e <- on_sys (get_err p) ;;
      on_sys (set_nolog false) ;;;
      on_sys (shuso_set_error p ("Lua error: " ++ luaL_traceback err)) ;;;
      on_sys (set_nolog (e_no_log e)) ;;;
      m_ret []
  end.

(** The loop of [Lua_shuso_fd_create] over the options, on Lua's stack, the top first: at its start the key is on it.  [fuel]
    bounds the turns.  The function that is pushed is not a value here: [LNil] is in its place. *)
Fixpoint set_options (fuel : nat) (garbage : list Z) (fd : Z) (stack : list lval) : M netw lresult :=
  match fuel, stack, rev stack !! 2%nat with
  | S fuel', key :: rest, Some (LTable t) =>
      match next_entry tables t key with
      | None => m_ret (LRaise "invalid key to 'next'")
      | Some None => m_ret (LReturn [LInteger fd])
      | Some (Some (k, v)) =>
          let stack := v :: k :: rest in
          if negb (lua_isstring k) then
            m_ret (LReturn [LNil; LString "Can't create socket: sockopt key is not a string"])
          else
            let pushed := LInteger fd :: LNil :: stack in
            results <- luaS_call (Lua_shuso_fd_setsockopt garbage [LInteger fd; default LNil (pushed !! 3%nat)]) 2 ;;
            let stack := (rev results ++ stack)%list in
            if bool_decide (stack !! 1%nat = Some LNil) then
              m_ret (LReturn [LNil; LString ("Can't create socket: " ++ lua_tostring (default LNil (head stack)))])
            else set_options fuel' garbage fd (drop 2 stack)
      end
  | _, _, _ => m_abort
  end.

Definition Lua_shuso_fd_create (fuel : nat) (garbage : list Z) (args : list lval) : M netw lresult :=
  if negb (lua_isstring (arg args 1)) then m_ret (bad_argument "1")
  else if negb (lua_isstring (arg args 2)) then m_ret (bad_argument "2")
  else
    let fam := lua_tostring (arg args 1) in
    let type := lua_tostring (arg args 2) in
    let family := if String.eqb fam "AF_UNIX" || String.eqb fam "AF_LOCAL" then Some AF_UNIX
                  else if String.eqb fam "AF_INET" then Some AF_INET
                  else if String.eqb fam "AF_INET6" then Some AF_INET6 else None in
    let socktype := if String.eqb type "SOCK_STREAM" then Some 1
                    else if String.eqb type "SOCK_DGRAM" then Some 2
                    else if String.eqb type "SOCK_RAW" then Some 3 else None in
    match family, socktype with
    | None, _ => m_ret (LReturn [LNil; LString ("Can't create fd: Unsupported address family " ++ fam)])
    | _, None => m_ret (LReturn [LNil; LString ("Can't create fd: Unsupported socket type " ++ type)])
    | Some family, Some socktype =>
        fd <- on_kernel (sys_socket family socktype) ;;
        if fd =? -1 then
          e <- errno ;;
          m_ret (LReturn [LNil; LString ("Can't create fd (family " ++ fam ++ ", type " ++ type ++ "): " ++ strerror e)])
        else
          on_kernel (shuso_set_nonblocking fd) ;;;
          match arg args 3 with
          | LTable _ => set_options fuel garbage fd (LNil :: rev args)
          | _ => m_ret (LReturn [LInteger fd])
          end
    end.
End lua_api.


(** ** What is set can be read *)

(** An option's value after it was set to a value, for the types that have one *)
Definition reads_back (tables : Z → list (lval * lval)) (t : sockopt_type) (v : lval) : option lresult :=
  let linger (onoff : bool) (n : Z) := Some (LReturnTable [("onoff", LBool onoff); ("linger", LInteger n)]) in
  match t, v with
  | TYPE_INT, _ => Some (LReturn [LInteger (s32 (lua_tointeger v))])
  | TYPE_FLAG, _ => Some (LReturn [LBool (lua_toboolean v)])
  | TYPE_LINGER, LBool false => linger false 0
  | TYPE_LINGER, LTable t =>
      linger (lua_toboolean (lua_getfield tables t "onoff")) (s32 (lua_tointeger (lua_getfield tables t "linger")))
  | TYPE_LINGER, _ => match to_number v with Some _ => linger true (s32 (lua_tointeger v)) | None => None end
  | _, _ => None
  end.

Definition with_opt (fd level name : Z) (value : list Z) (f : fdesc) (w : netw) : netw :=
  NetW (put_fd fd (with_sockopt level name value f) (n_kernel w)) (n_sys w).

Lemma flag_byte (b : bool) : negb (s32 (if b then 1 else 0) =? 0) = b.
Proof. by destruct b. Qed.

Lemma reads_bytes tables garbage t name v r :
  macro "SO_ERROR" ≠ Some name → reads_back tables t v = Some r →
  ∃ b len, sockopt_bytes tables t v garbage = Some b ∧ value_size t = Some len ∧
    sockopt_result t name (take len b) = r.
Proof.
  intros He Hr. destruct t; try done; cbn [sockopt_bytes value_size reads_back] in Hr |- *; eexists _, _; (split_and!; [done|done|]).
  - simplify_eq. unfold sockopt_result. rewrite bool_decide_eq_false_2 by done. rewrite !take_ge by (rewrite ?take_ge; rewrite length_le; lia).
    by rewrite int_bytes.
  - simplify_eq. unfold sockopt_result. rewrite !take_ge by (rewrite ?take_ge; rewrite length_le; lia). by rewrite int_bytes, flag_byte.
  - assert (∀ x y : Z, sockopt_result TYPE_LINGER name (take 8 (le 4 x ++ le 4 y)) =
      LReturnTable [("onoff", LBool (negb (s32 x =? 0))); ("linger", LInteger (s32 y))]) as Hl.
    { intros x y. unfold sockopt_result. rewrite (take_ge _ 8) by (rewrite length_app, !length_le; lia).
      rewrite take_app_length', drop_app_length' by (by rewrite length_le). rewrite take_ge by (rewrite length_le; lia).
      by rewrite !int_bytes. }
    case_bool_decide as Hv; [subst; simplify_eq; by rewrite Hl|].
    destruct v as [|[]|z|q|str|t']; cbn [to_number] in Hr |- *; try done; [| |destruct (str2num str)|];
      simplify_eq; by rewrite Hl, ?flag_byte.
Qed.

End sockets.

(** ** Examples *)

#[local] Program Instance sample_sys : Sys := {
  new_fd used := Z.of_nat (fresh (set_map (C := gset Z) (D := gset nat) Z.to_nat used));
  kept _ _ b := b
}.
Next Obligation.
  intros used. split; [lia|]. intros Hin. apply (is_fresh (set_map (C := gset Z) (D := gset nat) Z.to_nat used)).
  apply elem_of_map. exists (Z.of_nat (fresh (set_map (C := gset Z) (D := gset nat) Z.to_nat used))). split; [lia|done].
Qed.

#[local] Instance sample_lualib : LuaLib := {|
  str2num := λ _, None;
  num2str := λ _, "";
  luaL_traceback := λ s, s;
  strerror := λ _, "an error"
|}.

Definition sample_netw : netw := NetW (Kernel {[4 := Fdesc AF_INET 1 true ∅ None]} [] 0) world_init.
(** The options of a socket that is made, and a table that has one of [SO_LINGER] *)
Definition sample_tables (t : Z) : list (lval * lval) :=
  if t =? 1 then [(LString "SO_KEEPALIVE", LBool true)]
  else [(LString "onoff", LBool true); (LString "linger", LInteger 30)].


(** What is left of a run: the result, the open descriptors and the message of the last error *)
Definition sock_outcome (r : option (lresult * netw)) : option (lresult * list Z * option string) :=
  (λ r, (r.1, (map_to_list (k_fds (n_kernel r.2))).*1, snd <$> e_msg (l_err (w_local (n_sys r.2) 0)))) <$> r.


