(* ===== verification/Server.v ===== *)
(** Listening sockets, src/src/modules/server/server.c: what is put into shared memory for the master to open a socket, the
    opening of it, the coroutine that accepts connections, and the listeners at the end of its events.  The bindings
    that src/src/modules/server/server.lua makes are in it as what the functions get. *)

From stdpp Require Import strings.
From S2P Require Import Prelude Heap Pool System Buffer SlabBuffer Io Sockaddr Sysutil Sockets.

#[local] Open Scope string_scope.
#[local] Open Scope Z_scope.

(** ** Hosts *)

(** [shuso_hostinfo_t] *)
Record hostinfo := HostInfo { h_name : option Z; h_family : Z; h_type : Z; h_sockaddr : option Z }.
Definition sizeof_hostinfo : Z := 24.

(** The memory of a process: the blocks of its allocators, and what is in them: hosts, names and addresses. *)
Record hostmem (A : Type) := HostMem {
  hm_mem : A;
  hm_hosts : gmap Z hostinfo;
  hm_names : gmap Z string;
  hm_addrs : gmap Z (list Z)
}.
Arguments HostMem {A}. Arguments hm_mem {A}. Arguments hm_hosts {A}. Arguments hm_names {A}. Arguments hm_addrs {A}.

Section hosts.
Context {A : Type} `{BM : BufMem A}.

Definition put_hm_mem (m : A) (w : hostmem A) : hostmem A := HostMem m (hm_hosts w) (hm_names w) (hm_addrs w).
Definition put_host (p : Z) (h : hostinfo) (w : hostmem A) : hostmem A :=
  HostMem (hm_mem w) (<[p := h]> (hm_hosts w)) (hm_names w) (hm_addrs w).
Definition put_name (p : Z) (s : string) (w : hostmem A) : hostmem A :=
  HostMem (hm_mem w) (hm_hosts w) (<[p := s]> (hm_names w)) (hm_addrs w).
Definition put_addr (p : Z) (b : list Z) (w : hostmem A) : hostmem A :=
  HostMem (hm_mem w) (hm_hosts w) (hm_names w) (<[p := b]> (hm_addrs w)).

Definition on_mem {X} (m : M A X) : M (hostmem A) X :=
  λ w, match m (hm_mem w) with Some (x, a) => Some (x, put_hm_mem a w) | None => None end.
(** What a pointer points to: nothing is found behind null or a wild one. *)
Definition deref {X} (f : hostmem A → gmap Z X) (p : option Z) : M (hostmem A) X :=
  λ w, match p with
       | Some p => match f w !! p with Some x => Some (x, w) | None => None end
       | None => None
       end.

Definition slab_alloc (sz : Z) : M (hostmem A) (option Z) := on_mem (bm_slab_alloc sz).
Definition slab_free (p : Z) : M (hostmem A) unit := on_mem (bm_slab_free p).

Definition free_shared_host_data (h : option Z) : M (hostmem A) unit :=
  match h with
  | None => m_ret tt
  | Some p =>
      host <- deref hm_hosts (Some p) ;;
      (match h_sockaddr host with Some a => slab_free a | None => m_ret tt end) ;;;
      slab_free p
  end.

(** [goto fail]: what was made is given back, and an error is raised. *)
Definition fail_shared (h : option Z) : M (hostmem A) (option Z) := free_shared_host_data h ;;; m_ret None.

(** The name, which is copied if there is one: none: no memory *)
Definition share_name (p : Z) (host : hostinfo) : M (hostmem A) bool :=
  match h_name host with
  | None => m_ret true
  | Some n =>
      name <- deref hm_names (Some n) ;;
      r <- slab_alloc (Z.of_nat (String.length name) + 1) ;;
      sh <- deref hm_hosts (Some p) ;;
      m_modify (put_host p (HostInfo r (h_family sh) (h_type sh) (h_sockaddr sh))) ;;;
      match r with
      | None => m_ret false
      | Some q => m_modify (put_name q name) ;;; m_ret true
      end
  end.

(** The address, of a size by its family; one of another family stays where it was. *)
Definition share_sockaddr (p : Z) (host : hostinfo) : M (hostmem A) bool :=
  sa <- deref hm_addrs (h_sockaddr host) ;;
  let len := shuso_sockaddr_len sa in
  if len =? 0 then m_ret true
  else
    r <- slab_alloc len ;;
    sh <- deref hm_hosts (Some p) ;;
    m_modify (put_host p (HostInfo (h_name sh) (h_family sh) (h_type sh) r)) ;;;
    match r with
    | None => m_ret false
    | Some q => m_modify (put_addr q (take (Z.to_nat len) sa)) ;;; m_ret true
    end.

(** [luaS_create_shared_host_data] of a binding's host: the copy in shared memory; none: an error *)
Definition luaS_create_shared_host_data (host : hostinfo) : M (hostmem A) (option Z) :=
  r <- slab_alloc sizeof_hostinfo ;;
  match r with
  | None => fail_shared None
  | Some p =>
      m_modify (put_host p host) ;;;
      ok <- share_name p host ;;
      if negb ok then fail_shared (Some p) else
      ok <- share_sockaddr p host ;;
      if negb ok then fail_shared (Some p) else m_ret (Some p)
  end.

Definition luaS_free_shared_host_data (p : Z) : M (hostmem A) bool := free_shared_host_data (Some p) ;;; m_ret true.

(** *** What is shared *)

Section shared.
Context {BO : BufMemOk A SHUSO_BUF_SHARED}.
Local Abbreviation live := (bm_live SHUSO_BUF_SHARED).

Lemma slab_alloc_run sz w l : live (hm_mem w) l → 0 < sz < 2 ^ 63 →
  ∃ r a, slab_alloc sz w = Some (r, put_hm_mem a w) ∧
    live a (match r with Some p => (p, sz) :: l | None => l end).
Proof.
  intros Hl Hsz. destruct (bm_alloc_ok (mt := SHUSO_BUF_SHARED) _ _ _ Hl Hsz) as (r & a & Ha & Hr).
  exists r, a. unfold slab_alloc, on_mem. simpl in Ha. rewrite Ha. split; [done|by destruct r].
Qed.

Lemma slab_free_run p sz w l : live (hm_mem w) ((p, sz) :: l) →
  ∃ a, slab_free p w = Some (tt, put_hm_mem a w) ∧ live a l.
Proof.
  intros Hl. destruct (bm_free_ok (mt := SHUSO_BUF_SHARED) _ _ _ _ Hl) as (a & Ha & Hr).
  exists a. unfold slab_free, on_mem. simpl in Ha. by rewrite Ha.
Qed.

Lemma free_host_run p h sz sz' w l : hm_hosts w !! p = Some h →
  live (hm_mem w) (match h_sockaddr h with Some b => [(b, sz')] | None => [] end ++ (p, sz) :: l) →
  ∃ a, free_shared_host_data (Some p) w = Some (tt, put_hm_mem a w) ∧ live a l.
Proof.
  intros Hp Hl. unfold free_shared_host_data, m_bind, deref. rewrite Hp.
  destruct (h_sockaddr h) as [b|]; simpl in Hl.
  - destruct (slab_free_run b sz' w _ Hl) as (a & -> & Ha).
    destruct (slab_free_run p sz (put_hm_mem a w) l Ha) as (a' & -> & Ha'). by exists a'.
  - destruct (slab_free_run p sz w l Hl) as (a' & He & Ha'). unfold m_ret. rewrite He. by exists a'.
Qed.

Lemma sockaddr_len_cases m : shuso_sockaddr_len m ∈ [16; 28; 110; 0].
Proof. unfold shuso_sockaddr_len. destruct (sa_family m); repeat bool_case; set_solver. Qed.

Definition name_set (p : Z) (h : hostinfo) (name : string) (r : option Z) (w : hostmem A) : hostmem A :=
  let w := put_host p (HostInfo r (h_family h) (h_type h) (h_sockaddr h)) w in
  match r with Some q => put_name q name w | None => w end.
Definition addr_set (p : Z) (h : hostinfo) (b : list Z) (r : option Z) (w : hostmem A) : hostmem A :=
  let w := put_host p (HostInfo (h_name h) (h_family h) (h_type h) r) w in
  match r with Some q => put_addr q b w | None => w end.
Definition is_some {X} (r : option X) : bool := match r with Some _ => true | None => false end.

Lemma share_name_run w l p h host n name : live (hm_mem w) l → hm_hosts w !! p = Some h →
  h_name host = Some n → hm_names w !! n = Some name → Z.of_nat (String.length name) < 2 ^ 62 →
  ∃ r a, share_name p host w = Some (is_some r, name_set p h name r (put_hm_mem a w)) ∧
    live a (match r with Some q => (q, Z.of_nat (String.length name) + 1) :: l | None => l end).
Proof.
  intros Hl Hp Hn Hname Hlen.
  destruct (slab_alloc_run (Z.of_nat (String.length name) + 1) w l Hl ltac:(lia)) as (r & a & E & Hl').
  exists r, a. split; [|done]. unfold share_name. rewrite Hn. unfold m_bind, deref. rewrite Hname, E. simpl. rewrite Hp.
  by destruct r.
Qed.

Lemma share_sockaddr_run w l p h host x sa : live (hm_mem w) l → hm_hosts w !! p = Some h →
  h_sockaddr host = Some x → hm_addrs w !! x = Some sa → shuso_sockaddr_len sa ≠ 0 →
  ∃ r a, share_sockaddr p host w
      = Some (is_some r, addr_set p h (take (Z.to_nat (shuso_sockaddr_len sa)) sa) r (put_hm_mem a w)) ∧
    live a (match r with Some q => (q, shuso_sockaddr_len sa) :: l | None => l end).
Proof.
  intros Hl Hp Hx Hsa Hlen. pose proof (sockaddr_len_cases sa) as Hcases. rewrite !elem_of_cons, elem_of_nil in Hcases.
  destruct (slab_alloc_run (shuso_sockaddr_len sa) w l Hl ltac:(lia)) as (r & a & E & Hl').
  exists r, a. split; [|done]. unfold share_sockaddr, m_bind, deref. rewrite Hx, Hsa.
  rewrite (proj2 (Z.eqb_neq _ _) Hlen), E. simpl. rewrite Hp. by destruct r.
Qed.

(** C20: the copy of a host that the manager puts into shared memory has the name and the address of the original, in blocks of
    their own, and the rest of the shared memory stays as it is; freeing the copy gives back its block and the address's, not
    the name's.  When there is no memory for the copy or its address nothing of the copy is used, but the name leaks in the second
    case; when there is none for the name, the cleanup frees an address in the slab that is not the slab's:
    that of the original. *)
Theorem shared_host_copy (w : hostmem A) l host n name a sa
  (Hl : live (hm_mem w) l)
  (Hname : h_name host = Some n) (Hn : hm_names w !! n = Some name) (Hlen : Z.of_nat (String.length name) < 2 ^ 62)
  (Haddr : h_sockaddr host = Some a) (Ha : hm_addrs w !! a = Some sa) (Hfamily : shuso_sockaddr_len sa ≠ 0) :
  let name_size := Z.of_nat (String.length name) + 1 in
  let addr_size := shuso_sockaddr_len sa in
  (∃ p q b w', luaS_create_shared_host_data host w = Some (Some p, w') ∧
     live (hm_mem w') ((b, addr_size) :: (q, name_size) :: (p, sizeof_hostinfo) :: l) ∧
     hm_hosts w' !! p = Some (HostInfo (Some q) (h_family host) (h_type host) (Some b)) ∧
     hm_names w' !! q = Some name ∧ hm_addrs w' !! b = Some (take (Z.to_nat addr_size) sa) ∧
     ∃ w'', luaS_free_shared_host_data p w' = Some (true, w'') ∧ live (hm_mem w'') ((q, name_size) :: l)) ∨
  (∃ w', luaS_create_shared_host_data host w = Some (None, w') ∧
     (live (hm_mem w') l ∨ ∃ q, live (hm_mem w') ((q, name_size) :: l))) ∨
  (∃ p w', luaS_create_shared_host_data host w = (slab_free a ;;; slab_free p ;;; m_ret None) w' ∧
     live (hm_mem w') ((p, sizeof_hostinfo) :: l)).
Proof.
  intros name_size addr_size. unfold luaS_create_shared_host_data.
  destruct (slab_alloc_run sizeof_hostinfo w l Hl ltac:(done)) as ([p|] & a1 & E1 & Hl1).
  2: { right; left. exists (put_hm_mem a1 w). unfold m_bind at 1. rewrite E1. auto. }
  set (w1 := put_host p host (put_hm_mem a1 w)).
  destruct (share_name_run w1 _ p host host n name Hl1) as ([q|] & a2 & E2 & Hl2); try done;
    [by apply lookup_insert_eq| |].
  2: { right; right. exists p, (name_set p host name None (put_hm_mem a2 w1)). split; [|done].
       unfold m_bind, m_modify in *. rewrite E1. fold w1. rewrite E2. unfold fail_shared, free_shared_host_data, m_bind, deref.
       simpl. rewrite lookup_insert_eq. simpl. rewrite Haddr. by destruct (slab_free a _) as [[? ?]|]. }
  set (w2 := name_set p host name (Some q) (put_hm_mem a2 w1)) in *.
  destruct (share_sockaddr_run w2 _ p (HostInfo (Some q) (h_family host) (h_type host) (h_sockaddr host)) host a sa Hl2)
    as (r & a3 & E3 & Hl3); try done; [by apply lookup_insert_eq|].
  set (w3 := addr_set _ _ _ _ _) in E3.
  assert (luaS_create_shared_host_data host w =
    (if is_some r then m_ret (Some p) else fail_shared (Some p)) w3) as Hrun.
  { unfold luaS_create_shared_host_data, m_bind, m_modify in *. rewrite E1. fold w1. rewrite E2. simpl. rewrite E3.
    by destruct r. }
  unfold luaS_create_shared_host_data in Hrun. rewrite Hrun.
  assert (hm_hosts w3 !! p = Some (HostInfo (Some q) (h_family host) (h_type host) r)) as Hp.
  { by destruct r; apply lookup_insert_eq. }
  destruct r as [b|]; simpl.
  - left. exists p, q, b, w3. split_and!; try done.
    + by apply lookup_insert_eq.
    + by apply lookup_insert_eq.
    + destruct (free_host_run p _ sizeof_hostinfo addr_size w3 ((q, name_size) :: l) Hp) as (a4 & E4 & Hl4).
      { eapply bm_live_perm; [|exact Hl3]. simpl. constructor. apply Permutation_swap. }
      exists (put_hm_mem a4 w3). split; [|done]. unfold luaS_free_shared_host_data, m_bind. by rewrite E4.
  - right; left.
    destruct (free_host_run p _ sizeof_hostinfo 0 w3 ((q, name_size) :: l) Hp) as (a4 & E4 & Hl4).
    { eapply bm_live_perm; [|exact Hl3]. apply Permutation_swap. }
    exists (put_hm_mem a4 w3). split; [unfold fail_shared, m_bind; by rewrite E4|]. right. by exists q.
Qed.
End shared.
End hosts.

(** ** Opening a listening socket in the master *)

Section fd_request.
Context {A : Type} `{Malloc, Sys, LuaLib}.
Variable macro : string → option Z.
Variable p : Z.

(** A string of the host's in a message *)
Definition host_name (m : hostmem A) (host : hostinfo) : string := default "" (n ← h_name host; hm_names m !! n).

(** [sopt]: [SO_REUSEPORT] with the integer 1, the rest of the value 0 *)
Definition reuseport_value : list Z := (le 4 1 ++ replicate 12 0)%list.

(** Closing the socket before the message is made of [errno] *)
Definition fail_fd_request (fd : Z) (what name : string) : M netw lresult :=
  on_kernel (sys_close fd) ;;;
  e <- errno ;;
  m_ret (LReturn [LNil; LString ("Failed to " ++ what ++ " listener socket " ++ name ++ ": " ++ strerror e)]).

Definition luaS_handle_fd_request (m : hostmem A) (ptr : Z) : M netw lresult :=
  match hm_hosts m !! ptr, macro "SOL_SOCKET", macro "SO_REUSEPORT" with
  | Some hostinfo, Some level, Some name =>
      m_assert (p =? SHUTTLESOCK_MASTER) ;;;
      fd <- on_kernel (sys_socket (h_family hostinfo) (h_type hostinfo)) ;;
      if fd =? -1 then
        e <- errno ;;
        m_ret (LReturn [LNil; LString ("Failed to create listener socket " ++ host_name m hostinfo ++ ": " ++ strerror e)])
      else
        on_kernel (shuso_set_nonblocking fd) ;;;
        ok <- shuso_setsockopt macro p fd level name reuseport_value ;;
        if negb ok then fail_fd_request fd "set sockopts for" (host_name m hostinfo)
        else
          match h_sockaddr hostinfo ≫= (λ a, hm_addrs m !! a) with
          | None => m_abort
          | Some addr =>
              rc <- on_kernel (sys_bind fd (take (Z.to_nat (shuso_sockaddr_len addr)) addr)) ;;
              if rc =? -1 then fail_fd_request fd "bind" (host_name m hostinfo)
              else m_ret (LReturn [LInteger fd])
          end
  | _, _, _ => m_abort
  end.

Lemma fail_fd_request_run fd what name w f : k_fds (n_kernel w) !! fd = Some f →
  ∃ msg k, fail_fd_request fd what name w = Some (LReturn [LNil; LString msg], NetW k (n_sys w)) ∧
    k_fds k = delete fd (k_fds (n_kernel w)).
Proof.
  intros Hf. unfold fail_fd_request, m_bind, on_kernel.
  destruct (sys_close_run fd (n_kernel w) f Hf) as (rc & k & -> & Hk).
  unfold errno, m_gets, m_ret. simpl. by eexists _, _.
Qed.

Lemma shuso_set_nonblocking_run fd family type k : k_fds k !! fd = Some (Fdesc family type false ∅ None) →
  ∃ rc k' nb, shuso_set_nonblocking fd k = Some (rc, k') ∧
    k_fds k' = <[fd := Fdesc family type nb ∅ None]> (k_fds k) ∧ (default 0 (head (k_errnos k)) = 0 → nb = true).
Proof.
  intros Hf. unfold shuso_set_nonblocking, sys_set_nonblock.
  destruct (on_fd_run fd (λ f, Fdesc (fd_family f) (fd_type f) true (fd_opts f) (fd_bound f)) k _ Hf)
    as (rc & k' & -> & _ & [(_ & _ & Hk)|(? & _ & Hk)]).
  - by exists rc, k', true.
  - exists rc, k', false. split_and!; [done| |done]. by rewrite Hk, insert_id.
Qed.

(** C12: the master's answer to a request for a listening socket: a new descriptor, of the host's family and type, that may share
    its port, is bound to the host's address with its whole length, and does not block unless [fcntl] failed; or nil and a message.
    On no path, whichever call fails, is a descriptor left open, and the others are not touched. *)
Theorem fd_request_correct m ptr w base host a addr level name str
  (Hmaster : p = SHUTTLESOCK_MASTER) (He : err_inv p base (n_sys w))
  (Hhost : hm_hosts m !! ptr = Some host) (Haddr : h_sockaddr host = Some a) (Ha : hm_addrs m !! a = Some addr)
  (Hlevel : macro "SOL_SOCKET" = Some level) (Hname : macro "SO_REUSEPORT" = Some name)
  (Hknown : known_sockopt macro level name = Some (SystemSockopt str level name TYPE_FLAG)) :
  ∃ r w', luaS_handle_fd_request m ptr w = Some (r, w') ∧ err_inv p base (n_sys w') ∧
    ((∃ fd nonblock, r = LReturn [LInteger fd] ∧ k_fds (n_kernel w) !! fd = None ∧
        k_fds (n_kernel w')
        = <[fd := Fdesc (h_family host) (h_type host) nonblock {[(level, name) := kept level name (le 4 1)]}
                    (Some (take (Z.to_nat (shuso_sockaddr_len addr)) addr))]> (k_fds (n_kernel w)) ∧
        (default 0 (k_errnos (n_kernel w) !! 1%nat) = 0 → nonblock = true)) ∨
     (∃ msg, r = LReturn [LNil; LString msg] ∧ k_fds (n_kernel w') = k_fds (n_kernel w))).
Proof.
  unfold luaS_handle_fd_request. rewrite Hhost, Hlevel, Hname, Hmaster, Z.eqb_refl. rewrite <- Hmaster.
  cbn [m_assert]. unfold m_bind at 1, m_ret at 1.
  destruct (sys_socket_run (h_family host) (h_type host) (n_kernel w)) as (fd & k1 & E1 & Herr & Hk1).
  unfold m_bind at 1, on_kernel at 1. rewrite E1.
  destruct Hk1 as [(Hpos & Hnew & Hk1)|[-> Hk1]].
  2: { eexists _, _. split; [done|]. split; [done|]. right. by eexists. }
  destruct (Z.eqb_spec fd (-1)) as [->|_]; [lia|].
  assert (k_fds k1 !! fd = Some (Fdesc (h_family host) (h_type host) false ∅ None)) as Hf1
    by (rewrite Hk1; apply lookup_insert_eq).
  unfold m_bind at 1, on_kernel at 1. cbn [n_kernel n_sys].
  destruct (shuso_set_nonblocking_run fd _ _ _ Hf1) as (rc & k2 & nb & -> & Hf2 & Hnb). rewrite Hk1, insert_insert_eq in Hf2.
  unfold m_bind at 1.
  destruct (shuso_setsockopt_run macro p base fd level name reuseport_value (NetW k2 (n_sys w)) _ _ 4%nat He
              ltac:(simpl; rewrite Hf2; apply lookup_insert_eq) Hknown eq_refl) as (ok & w3 & -> & He3 & Hf3).
  destruct ok; simpl in Hf3; cbn [negb].
  2: { destruct (fail_fd_request_run fd "set sockopts for" (host_name m host) w3 (Fdesc (h_family host) (h_type host) nb ∅ None))
         as (msg & k4 & -> & Hk4); [rewrite Hf3, Hf2; apply lookup_insert_eq|].
       eexists _, _. split; [done|]. split; [done|]. right. exists msg. split; [done|]. simpl.
       by rewrite Hk4, Hf3, Hf2, delete_insert_id. }
  rewrite Haddr. simpl. rewrite Ha. unfold m_bind at 1, on_kernel at 1.
  assert (k_fds (n_kernel w3) !! fd = Some (with_sockopt level name (kept level name (le 4 1))
            (Fdesc (h_family host) (h_type host) nb ∅ None))) as Hf4 by (rewrite Hf3; apply lookup_insert_eq).
  destruct (on_fd_run fd (λ f, Fdesc (fd_family f) (fd_type f) (fd_nonblock f) (fd_opts f)
     (Some (take (Z.to_nat (shuso_sockaddr_len addr)) addr))) (n_kernel w3) _ Hf4) as (rc' & k5 & E5 & _ & Hk5).
  unfold sys_bind. rewrite E5. rewrite Hf3, Hf2, !insert_insert_eq in Hk5.
  destruct Hk5 as [(_ & -> & Hk5)|(_ & -> & Hk5)]; simpl.
  - eexists _, _. split; [done|]. split; [done|]. left. exists fd, nb.
    split_and!; try done. intros Hq. apply Hnb. rewrite Herr. by destruct (k_errnos (n_kernel w)) as [|? []].
  - destruct (fail_fd_request_run fd "bind" (host_name m host) (NetW k5 (n_sys w3))
      (with_sockopt level name (kept level name (le 4 1)) (Fdesc (h_family host) (h_type host) nb ∅ None)))
      as (msg & k6 & -> & Hk6); [simpl; rewrite Hk5; apply lookup_insert_eq|].
    eexists _, _. split; [done|]. split; [done|]. right. exists msg. split; [done|]. simpl in *.
    by rewrite Hk6, Hk5, delete_insert_id.
Qed.
End fd_request.

(** ** A binding in C *)

(** What [luaS_create_binding_data] reads of Lua's table; the blocks and settings of its [listen] are pointers. *)
Record lua_binding := LuaBinding {
  lb_server_type : string;
  lb_name : string;
  lb_address : sa_table;
  lb_common_parent_block : Z;
  lb_listen : list (Z * Z)
}.
(** [shuso_server_binding_t]: its host is in it. *)
Record server_binding := ServerBinding {
  sb_lua_hostnum : Z;
  sb_server_type : Z;
  sb_array : Z;
  sb_listen : list (Z * Z);
  sb_common_parent_block : Z
}.
Definition sizeof_server_binding : Z := 64.
Definition host_of_binding (binding : Z) : Z := binding + 16.
Definition sizeof_binding_listen : Z := 16.

Section binding.
Context {A : Type} `{BM : BufMem A} `{SockEnv}.

Definition palloc (sz : Z) : M (hostmem A) (option Z) := on_mem (bm_palloc sz).
(** An allocation, and what follows it; or the message of an error *)
Definition palloc_or {X} (sz : Z) (err : string) (k : Z → M (hostmem A) (X + string)) : M (hostmem A) (X + string) :=
  r <- palloc sz ;; match r with Some a => k a | None => m_ret (inr err) end.
Definition palloc_string {X} (s err : string) (k : Z → M (hostmem A) (X + string)) : M (hostmem A) (X + string) :=
  palloc_or (Z.of_nat (String.length s) + 1) err (λ q, m_modify (put_name q s) ;;; k q).

(** [luaS_create_binding_data]; [garbage]: what is in the memory of the address.  When [luaS_sockaddr_lua_to_c] raises an error
    [luaS_call] leaves nothing on the stack, and what is found there is not the address. *)
Definition luaS_create_binding_data (lb : lua_binding) (hostnum : Z) (garbage : list Z) :
    M (hostmem A) (Z * server_binding + string) :=
  palloc_or sizeof_server_binding "failed to allocate memory for server binding" (λ binding,
  palloc_string (lb_server_type lb) "failed to allocate memory for server binding server_type string" (λ server_type,
  palloc_string (lb_name lb) "failed to allocate memory for server binding server_type string" (λ name,
  palloc_or (Z.of_nat sizeof_shuso_sockaddr) "couldn't allocate host sockaddr" (λ sockaddr,
    let type := luaS_string_to_socktype (lb_address lb !! "type") in
    m_assert (negb (type =? 0)) ;;;
    match luaS_sockaddr_lua_to_c (lb_address lb) (Some garbage) (λ n, replicate n 0) with
    | None | Some (ToPath _ _) | Some (ToError _) => m_abort
    | Some (ToNil err) => m_ret (inr err)
    | Some (ToPointer m) =>
        m_modify (put_addr sockaddr m) ;;;
        let host := HostInfo (Some name) (default 0 (sa_family m)) type (Some sockaddr) in
        m_modify (put_host (host_of_binding binding) host) ;;;
        m_assert (negb (lb_common_parent_block lb =? 0)) ;;;
        palloc_or (sizeof_binding_listen * Z.of_nat (length (lb_listen lb))) "couldn't allocate server host config array"
          (λ array,
          m_ret (inl (binding,
            ServerBinding hostnum server_type array (lb_listen lb) (lb_common_parent_block lb))))
    end)))).

Section created.
Context {BO : BufMemOk A SHUSO_BUF_POOL}.
Local Abbreviation live := (bm_live SHUSO_BUF_POOL).

Lemma palloc_or_run {X} sz err (k : Z → M (hostmem A) (X + string)) w l (Q : X + string → hostmem A → Prop) :
  live (hm_mem w) l → 0 < sz < 2 ^ 63 →
  (∀ m, Q (inr err) (put_hm_mem m w)) →
  (∀ a m, live m ((a, sz) :: l) → ∃ r w', k a (put_hm_mem m w) = Some (r, w') ∧ Q r w') →
  ∃ r w', palloc_or sz err k w = Some (r, w') ∧ Q r w'.
Proof.
  intros Hl Hsz Hnone Hsome. unfold palloc_or, palloc, on_mem, m_bind.
  destruct (bm_alloc_ok (mt := SHUSO_BUF_POOL) _ _ _ Hl Hsz) as ([a|] & m & Ha & Hr); simpl in Ha; rewrite Ha; eauto.
Qed.

Lemma palloc_string_run {X} s err (k : Z → M (hostmem A) (X + string)) w l (Q : X + string → hostmem A → Prop) :
  live (hm_mem w) l → Z.of_nat (String.length s) < 2 ^ 62 →
  (∀ m, Q (inr err) (put_hm_mem m w)) →
  (∀ a m, live m ((a, Z.of_nat (String.length s) + 1) :: l) →
     ∃ r w', k a (put_name a s (put_hm_mem m w)) = Some (r, w') ∧ Q r w') →
  ∃ r w', palloc_string s err k w = Some (r, w') ∧ Q r w'.
Proof. intros Hl Hs Hnone Hsome. eapply palloc_or_run; [done|lia|done|]. intros a m Hm. by apply Hsome. Qed.

(** The binding that is made of Lua's table, when [luaS_sockaddr_lua_to_c] converts its address: its strings, its address and
    its array are in disjoint blocks of the pool; its host has the name, the family and the type that the table says and the
    converted address; or there was no memory, and that is the error. *)
Theorem binding_created (w : hostmem A) l lb hostnum garbage m
  (Hl : live (hm_mem w) l)
  (Haddr : luaS_sockaddr_lua_to_c (lb_address lb) (Some garbage) (λ n, replicate n 0) = Some (ToPointer m))
  (Htype : luaS_string_to_socktype (lb_address lb !! "type") ≠ 0) (Hparent : lb_common_parent_block lb ≠ 0)
  (Hst : Z.of_nat (String.length (lb_server_type lb)) < 2 ^ 62) (Hname : Z.of_nat (String.length (lb_name lb)) < 2 ^ 62)
  (Hlisten : 0 < Z.of_nat (length (lb_listen lb)) < 2 ^ 32) :
  ∃ r w', luaS_create_binding_data lb hostnum garbage w = Some (r, w') ∧
    match r with
    | inl (binding, sb) => ∃ name sockaddr,
        sb = ServerBinding hostnum (sb_server_type sb) (sb_array sb) (lb_listen lb) (lb_common_parent_block lb) ∧
        live (hm_mem w')
          ([(sb_array sb, 16 * Z.of_nat (length (lb_listen lb))); (sockaddr, 112);
            (name, Z.of_nat (String.length (lb_name lb)) + 1);
            (sb_server_type sb, Z.of_nat (String.length (lb_server_type lb)) + 1); (binding, 64)] ++ l) ∧
        hm_names w' !! sb_server_type sb = Some (lb_server_type lb) ∧ hm_names w' !! name = Some (lb_name lb) ∧
        hm_addrs w' !! sockaddr = Some m ∧
        hm_hosts w' !! host_of_binding binding
        = Some (HostInfo (Some name) (default 0 (sa_family m)) (luaS_string_to_socktype (lb_address lb !! "type"))
                  (Some sockaddr))
    | inr err => err ∈ ["failed to allocate memory for server binding";
                        "failed to allocate memory for server binding server_type string";
                        "couldn't allocate host sockaddr"; "couldn't allocate server host config array"]
    end.
Proof.
  unfold luaS_create_binding_data.
  eapply palloc_or_run; [done|done|intros; set_solver|]. intros binding m1 H1.
  eapply palloc_string_run; [done|done|intros; set_solver|]. intros st m2 H2.
  eapply palloc_string_run; [done|done|intros; set_solver|]. intros name m3 H3.
  eapply palloc_or_run; [done|done|intros; set_solver|]. intros sockaddr m4 H4.
  rewrite (proj2 (Z.eqb_neq _ _) Htype), Haddr, (proj2 (Z.eqb_neq _ _) Hparent).
  unfold m_bind, m_assert, m_modify, m_ret. cbn [negb].
  eapply palloc_or_run; [done|unfold sizeof_binding_listen; lia|intros; set_solver|]. intros array m5 H5.
  eexists _, _. split; [done|]. exists name, sockaddr. split_and!; [done|exact H5| | | |]; simpl;
    [|by apply lookup_insert_eq..].
  rewrite lookup_insert_ne; [by apply lookup_insert_eq|]. intros ->.
  destruct (bm_live_disjoint _ _ H3) as [Hd _]. inversion Hd as [|? ? Hd']. unfold disjoint_blk in Hd'. simpl in Hd'. lia.
Qed.
End created.
End binding.

(** ** Examples *)

#[local] Existing Instance sample_sock.
#[local] Existing Instance sample_sys.
#[local] Existing Instance sample_lualib.
#[local] Instance sample_pool_ok : BufMemOk (pw * Slab.spool) SHUSO_BUF_POOL := pool_mem_ok _ _ ∅.

(** A process with a pool and a shared slab; a host in its pool *)
Definition sample_mem : hostmem (pw * Slab.spool) := HostMem (Pool.demo_pool, SlabSpec.demo_pool) ∅ ∅ ∅.
Definition sample_host : hostinfo := HostInfo (Some 32) AF_INET SOCK_STREAM (Some 64).
Definition sample_host_mem : hostmem (pw * Slab.spool) := put_name 32 "localhost:80" (put_addr 64 localhost sample_mem).
(** What it becomes in memory full of nines *)
Definition loopback : list Z := (take 8 localhost ++ nines 104)%list.
Definition sample_table : sa_table := <["type" := FString "TCP"]> localhost_table.
Definition sample_binding : lua_binding := LuaBinding "http" "127.0.0.1:80" sample_table 4096 [(4096, 8192)].

Lemma shared_host_copy_witness :
  hm_names sample_host_mem !! 32 = Some "localhost:80" ∧
  ((∃ p q b w', luaS_create_shared_host_data sample_host sample_host_mem = Some (Some p, w') ∧
     bm_live SHUSO_BUF_SHARED (hm_mem w') ([(b, 16); (q, 13); (p, sizeof_hostinfo)] ++ []) ∧
     hm_hosts w' !! p = Some (HostInfo (Some q) AF_INET SOCK_STREAM (Some b)) ∧
     hm_names w' !! q = Some "localhost:80" ∧ hm_addrs w' !! b = Some (take 16 localhost) ∧
     ∃ w'', luaS_free_shared_host_data p w' = Some (true, w'') ∧ bm_live SHUSO_BUF_SHARED (hm_mem w'') [(q, 13)]) ∨
  (∃ w', luaS_create_shared_host_data sample_host sample_host_mem = Some (None, w') ∧
     (bm_live SHUSO_BUF_SHARED (hm_mem w') [] ∨ ∃ q, bm_live SHUSO_BUF_SHARED (hm_mem w') [(q, 13)])) ∨
  (∃ p w', luaS_create_shared_host_data sample_host sample_host_mem = (slab_free 64 ;;; slab_free p ;;; m_ret None) w' ∧
     bm_live SHUSO_BUF_SHARED (hm_mem w') [(p, sizeof_hostinfo)])).
Proof.
  split; [reflexivity|].
  apply (shared_host_copy sample_host_mem [] sample_host 32 "localhost:80" 64 localhost); try done.
  destruct (SlabSpec.created SlabSpec.demo_size SlabSpec.demo_base SlabSpec.demo_pool eq_refl eq_refl eq_refl SlabSpec.demo_region) as (_ & _ & _ & _ & _ & _ & Hh).
  exact Hh.
Defined.

Lemma binding_created_witness :
  luaS_sockaddr_lua_to_c sample_table (Some (nines 112)) (λ n, replicate n 0)
    = Some (ToPointer loopback) ∧
  ∃ r w', luaS_create_binding_data sample_binding 1 (nines 112) sample_mem = Some (r, w') ∧
    match r with
    | inl (binding, sb) => ∃ name sockaddr,
        sb = ServerBinding 1 (sb_server_type sb) (sb_array sb) [(4096, 8192)] 4096 ∧
        bm_live SHUSO_BUF_POOL (hm_mem w')
          ([(sb_array sb, 16); (sockaddr, 112); (name, 13); (sb_server_type sb, 5); (binding, 64)] ++ []) ∧
        hm_names w' !! sb_server_type sb = Some "http" ∧ hm_names w' !! name = Some "127.0.0.1:80" ∧
        hm_addrs w' !! sockaddr = Some loopback ∧
        hm_hosts w' !! host_of_binding binding = Some (HostInfo (Some name) AF_INET SOCK_STREAM (Some sockaddr))
    | inr err => err ∈ ["failed to allocate memory for server binding";
                        "failed to allocate memory for server binding server_type string";
                        "couldn't allocate host sockaddr"; "couldn't allocate server host config array"]
    end.
Proof.
  split; [vm_compute; reflexivity|].
  apply (binding_created sample_mem [] sample_binding 1 (nines 112) loopback); try done.
  exists []. exact demo_pool_inv.
Defined.

(** The master's side of a host in shared memory *)
Definition sample_shared : hostmem unit :=
  HostMem tt {[32 := HostInfo (Some 64) AF_INET SOCK_STREAM (Some 96)]} {[64 := "localhost:80"]} {[96 := localhost]}.

Lemma fd_request_correct_witness :
  ∃ r w', luaS_handle_fd_request linux_macro SHUTTLESOCK_MASTER sample_shared 32 sample_netw = Some (r, w') ∧
    err_inv SHUTTLESOCK_MASTER ∅ (n_sys w') ∧
    ((∃ fd nonblock, r = LReturn [LInteger fd] ∧ k_fds (n_kernel sample_netw) !! fd = None ∧
        k_fds (n_kernel w')
        = <[fd := Fdesc AF_INET SOCK_STREAM nonblock {[(1, 15) := kept 1 15 (le 4 1)]}
                    (Some (take (Z.to_nat (shuso_sockaddr_len localhost)) localhost))]>
            (k_fds (n_kernel sample_netw)) ∧
        (default 0 (k_errnos (n_kernel sample_netw) !! 1%nat) = 0 → nonblock = true)) ∨
     (∃ msg, r = LReturn [LNil; LString msg] ∧ k_fds (n_kernel w') = k_fds (n_kernel sample_netw))).
Proof.
  apply (fd_request_correct linux_macro SHUTTLESOCK_MASTER sample_shared 32 sample_netw ∅
           (HostInfo (Some 64) AF_INET SOCK_STREAM (Some 96)) 96 localhost 1 15 "SO_REUSEPORT");
    [done|apply world_init_errors|done..].
Defined.

(** The whole way of a host: from Lua's table to a socket that is bound to its address *)
Definition sample_request : option (lresult * netw) :=
  match luaS_create_binding_data sample_binding 1 (nines 112) sample_mem with
  | Some (inl (binding, _), m) =>
      match hm_hosts m !! host_of_binding binding with
      | Some host =>
          match luaS_create_shared_host_data host m with
          | Some (Some shared, m) => luaS_handle_fd_request linux_macro SHUTTLESOCK_MASTER m shared sample_netw
          | _ => None
          end
      | None => None
      end
  | _ => None
  end.
Example sample_request_bound :
  (λ r, (r.1, k_fds (n_kernel r.2) !! 5)) <$> sample_request
  = Some (LReturn [LInteger 5],
          Some (Fdesc AF_INET SOCK_STREAM true {[(1, 15) := [1; 0; 0; 0]]} (Some (take 16 loopback)))).
Proof. vm_compute. reflexivity. Qed.
