(* ===== verification/Listener.v ===== *)
(** The coroutine that accepts connections, listener_accept_coro of src/src/modules/server/server.c, on the operations of
    Io.v, and the listeners at the end of the server's two events, which make an event [accept] of an event [maybe_accept]
    (Event.v). *)

From stdpp Require Import strings.
From S2P Require Import Prelude Event Heap System Buffer SlabBuffer Io IpcFd IpcFdSpec Sockaddr Server.

#[local] Open Scope string_scope.
#[local] Open Scope Z_scope.

Definition SHUSO_OK : Z := 1.

(** ** The operation [accept] *)

Record accept_state (sockaddr : Z) (io : io_t) : Prop := AcceptState {
  as_opcode : io_opcode_ io = OP_ACCEPT;
  as_num : io_num io = SIZEOF_SOCKADDR;
  as_addr : io_addr io = sockaddr;
  as_nonnull : sockaddr ≠ 0;
  as_result : io_result io = 0;
  as_error : io_error io = 0
}.

Section accept.
Context `{Malloc}.
Variable sockaddr : Z.

Definition accept_call (w : iow) : syscall := Syscall OP_ACCEPT (io_fd (w_io w)) [] 0 0.

Lemma set_num_same io n : io_num io = n → 0 ≤ n < 2 ^ 64 → set_num n io = io.
Proof. intros Hn ?. unfold set_num. rewrite u64_small by lia. subst n. by destruct io. Qed.

Lemma accept_call_once n w : accept_state sockaddr (w_io w) →
  call_until_uninterrupted n OP_ACCEPT w =
  let r := one_answer (w_sys w) in
  let w' := with_calls (tail (w_sys w)) [accept_call w] w in
  match r, n with
  | SysErr e, S n' => if e =? EINTR then call_until_uninterrupted n' OP_ACCEPT w' else Some (r, w')
  | _, _ => Some (r, w')
  end.
Proof.
  intros [Ho Hn Ha Hnn _ _].
  assert (run_syscall OP_ACCEPT 0 w = Some (one_answer (w_sys w), with_calls (tail (w_sys w)) [accept_call w] w)) as Hrun.
  { unfold run_syscall, op_memory, get_io. m_unfold. rewrite Ho. simpl. destruct (w_sys w) as [|[]]; done. }
  assert (∀ w1, w_io w1 = w_io w → put_io (set_num (u32 (io_num (w_io w1))) (w_io w1)) w1 = w1) as Hsame.
  { intros w1 Hw1. rewrite Hw1, set_num_same; [rewrite <- Hw1; by destruct w1| |]; by rewrite Hn. }
  destruct n; cbn [call_until_uninterrupted]; unfold get_io, mod_io; unfold m_bind at 1, m_gets at 1;
    rewrite Hn, Ha, (proj2 (Z.eqb_neq _ _) Hnn); unfold m_bind, m_assert, m_ret, m_modify; simpl negb;
    change (u32 SIZEOF_SOCKADDR =? SIZEOF_SOCKADDR) with true; cbv beta iota delta [negb]; rewrite Hrun, Hsame by done;
    destruct (w_sys w) as [|[]]; simpl; try done; by destruct (e =? EINTR).
Qed.

Lemma accept_call_spec n w : accept_state sockaddr (w_io w) → (length (w_sys w) ≤ n)%nat →
  ∃ calls, call_until_uninterrupted n OP_ACCEPT w
    = Some ((answer (w_sys w)).1, with_calls (answer (w_sys w)).2 calls w).
Proof.
  revert w. induction n as [|n IH]; intros w Hs Hn; rewrite accept_call_once by done.
  { destruct (w_sys w); [|simpl in Hn; lia]. by eexists. }
  destruct (w_sys w) as [|[m|e|e] sys] eqn:Hsys; cbv zeta; simpl; try by eexists.
  all: destruct (Z.eqb_spec e EINTR) as [->|]; simpl; [|by eexists].
  all: destruct (IH (with_calls sys [accept_call w] w)) as (calls & ->); [done|simpl in *; lia|].
  all: eexists; unfold with_calls; simpl; by rewrite <- app_assoc.
Qed.

Lemma accept_answered (rh : M iow unit) w r : accept_state sockaddr (w_io w) → io_repeat (w_io w) = true →
  (answer (w_sys w)).1 = r →
  ∃ calls, let w1 := with_calls (answer (w_sys w)).2 calls w in
    shuso_io_ev_operation rh w =
    match r with
    | SysOk n => if n =? -1 then shuso_io_ev_operation rh w else rh (put_io (set_result (s64 n) 0 (w_io w)) w1)
    | SysErr e | SysSoError e =>
        if e =? EAGAIN then Some (tt, put_watcher true (put_io (set_watch WATCH_OP_RETRY (w_io w)) w1))
        else rh (put_io (set_result (-1) e (w_io w)) w1)
    end.
Proof.
  intros Hs Hrep Hr. destruct (accept_call_spec (length (w_sys w)) w Hs ltac:(lia)) as (calls & Hcall). rewrite Hr in Hcall.
  exists calls. intros w1. fold w1 in Hcall. destruct Hs as [Ho Hn Ha Hnn Hre He].
  assert (∀ io, io_opcode_ io = OP_ACCEPT → ∀ w2, w_io w2 = io → shuso_io_op_cleanup w2 = Some (tt, w2)) as Hclean.
  { intros io Hio w2 <-. unfold shuso_io_op_cleanup, get_io. m_unfold. by rewrite Hio. }
  assert (shuso_io_ev_operation rh w = _) as Hop
    by (unfold shuso_io_ev_operation, get_io; unfold m_bind at 1, m_gets at 1; unfold m_bind at 1, m_gets at 1;
        rewrite Ho; unfold m_bind at 1; rewrite Hcall; reflexivity).
  destruct r as [n|e|e]; cbv iota in Hop.
  - destruct (Z.eqb_spec n (-1)) as [->|Hn1]; [done|]. rewrite Hop. clear Hop Hcall.
    unfold shuso_io_update_fd_closed_status_from_op_result. unfold m_bind at 1, m_ret at 1.
    unfold m_bind at 1, m_gets at 1. change (w_io w1) with (w_io w). rewrite Hrep.
    assert ((if negb (n =? 0) && true then shuso_io_op_update_and_check_completion n else m_ret true) w1 = Some (true, w1))
      as Hcomplete.
    { destruct (negb (n =? 0) && true); [|done]. unfold shuso_io_op_update_and_check_completion, get_io. m_unfold.
      change (w_io w1) with (w_io w). by rewrite Ho. }
    unfold m_bind at 1. rewrite Hcomplete. cbv beta iota delta [negb].
    unfold m_bind at 1. rewrite (Hclean _ Ho w1 eq_refl). unfold m_bind, mod_io, m_modify.
    change (w_io w1) with (w_io w). by rewrite Hre, He.
  - rewrite Hop. unfold shuso_io_update_fd_closed_status_from_op_result. unfold m_bind at 1, m_ret at 1.
    cbn [Z.eqb Pos.eqb andb]. rewrite bool_decide_eq_false_2 by done. cbn [andb].
    destruct (e =? EAGAIN).
    + unfold m_bind, mod_io, m_modify. change shuso_io_ev_watch_update with shuso_io_watch_update.
      by rewrite watch_update_settles.
    + unfold m_bind, mod_io, m_modify. by rewrite (Hclean _ Ho _ eq_refl) || rewrite (Hclean (set_result (-1) e (w_io w))).
  - exfalso. clear -Hr. revert Hr. induction (w_sys w) as [|[m|e'|e'] sys IH]; simpl; try done; by destruct (e' =? EINTR).
Qed.
End accept.

(** ** The server's events *)

(** [shuso_server_tentative_accept_data_t] with its address, and [shuso_server_accept_data_t] with its socket *)
Record tentative := Tentative { ta_sockaddr : list Z; ta_fd : Z; ta_binding : Z; ta_accept_event : Z }.
Record accept_data := AcceptData { ac_fd : Z; ac_sockaddr : list Z; ac_family : Z; ac_type : Z; ac_binding : Z }.

(** What the events' data points to, which lives on the stack while the event is published; which connections were
    published, in order, and which were closed.  The rest is the listeners'. *)
Record srv (V : Type) := Srv {
  sv_tentative : option tentative;
  sv_accept : option accept_data;
  sv_published : list accept_data;
  sv_closed : list Z;
  sv_user : V
}.
Arguments Srv {V}.
Arguments sv_tentative {V}.
Arguments sv_accept {V}.
Arguments sv_published {V}.
Arguments sv_closed {V}.
Arguments sv_user {V}.

Section events.
Context {V : Type}.
Local Abbreviation U := (srv V).
Local Abbreviation L := (M (ev_world U * complete_event_state)).
(** [binding->host]; the addresses of the data; the events, and the other modules' listeners, in their order *)
Variable binding_host : Z → hostinfo.
Variables maybe_data accept_data_at maybe_accept_event accept_event : Z.
Variables maybe_listeners accept_listeners : list (listener (U := U)).
Variable server_module : Z.

Definition tell_tentative (t : tentative) (u : U) : U :=
  Srv (Some t) (sv_accept u) (sv_published u) (sv_closed u) (sv_user u).
Definition tell_accept (a : accept_data) (u : U) : U :=
  Srv (sv_tentative u) (Some a) (sv_published u ++ [a]) (sv_closed u) (sv_user u).
Definition tell_closed (fd : Z) (u : U) : U :=
  Srv (sv_tentative u) (sv_accept u) (sv_published u) (sv_closed u ++ [fd]) (sv_user u).
Definition mod_user (f : U → U) : M (ev_world U) unit := m_modify (λ w, put_user (f (ev_user w)) w).

(** [no_accept_handler_found], the last listener of [accept] where [luaS_accept_event_init] is called *)
Definition no_accept_handler_found (code d : Z) : L unit :=
  on_world (
    w <- m_get ;;
    match sv_accept (ev_user w) with
    | None => m_abort
    | Some data => mod_user (tell_closed (ac_fd data))
    end).
(** [luaS_accept_event_init] *)
Definition luaS_accept_event_init (ls : list (listener (U := U))) : list (listener (U := U)) :=
  (ls ++ [Listener server_module no_accept_handler_found])%list.

Definition accept_table (a : Z) : event (U := U) :=
  if a =? accept_event then Event "server:accept" accept_listeners None else Event "" [] None.

Definition maybe_accept_event_confirm_accept (code d : Z) : L unit :=
  on_world (
    w <- m_get ;;
    match sv_tentative (ev_user w) with
    | None => m_abort
    | Some data =>
        let host := binding_host (ta_binding data) in
        m_assert (bool_decide (sa_family (ta_sockaddr data) = Some (h_family host))) ;;;
        mod_user (tell_accept (AcceptData (ta_fd data) (ta_sockaddr data) (h_family host) (h_type host) (ta_binding data))) ;;;
        shuso_event_publish accept_table (ta_accept_event data) SHUSO_OK accept_data_at ;;;
        m_ret tt
    end).
(** [luaS_maybe_accept_event_init] *)
Definition luaS_maybe_accept_event_init (ls : list (listener (U := U))) : list (listener (U := U)) :=
  (ls ++ [Listener server_module maybe_accept_event_confirm_accept])%list.

(** The events that C publishes: none has an interrupt handler. *)
Definition server_events (a : Z) : event (U := U) :=
  if a =? maybe_accept_event then Event "server:maybe_accept" (luaS_maybe_accept_event_init maybe_listeners) None
  else accept_table a.

(** ** The coroutine *)

(** [shuso_listener_io_data_t]: its [io], its [sockaddr], which [accept] writes; the events' state; the address that the
    kernel's next connection comes from; descriptors that were closed *)
Record listenw := ListenW {
  lw_iow : iow;
  lw_ev : ev_world U;
  lw_sockaddr : list Z;
  lw_peer : list Z;
  lw_closed : list Z
}.
Definition put_lw_iow (i : iow) (w : listenw) : listenw := ListenW i (lw_ev w) (lw_sockaddr w) (lw_peer w) (lw_closed w).
Definition put_lw_ev (e : ev_world U) (w : listenw) : listenw :=
  ListenW (lw_iow w) e (lw_sockaddr w) (lw_peer w) (lw_closed w).
Definition put_lw_sockaddr (a : list Z) (w : listenw) : listenw :=
  ListenW (lw_iow w) (lw_ev w) a (lw_peer w) (lw_closed w).
Definition put_lw_peer (a : list Z) (w : listenw) : listenw :=
  ListenW (lw_iow w) (lw_ev w) (lw_sockaddr w) a (lw_closed w).
Definition lw_close (fd : Z) (w : listenw) : listenw :=
  ListenW (lw_iow w) (lw_ev w) (lw_sockaddr w) (lw_peer w) (lw_closed w ++ [fd]).

#[export] Instance listenw_has_io : HasIo listenw := {| the_io := lw_iow; with_io := put_lw_iow |}.

Definition on_ev {X} (m : M (ev_world U) X) : M listenw X :=
  λ w, match m (lw_ev w) with Some (x, e) => Some (x, put_lw_ev e w) | None => None end.

Context `{Malloc}.
(** The listener's binding, where [d->sockaddr] is, and what [listen] fails with (0: it does not) *)
Variables binding sockaddr_at listen_errno : Z.

Definition set_error_handler (b : bool) (io : io_t) : io_t :=
  Io (io_fd io) (io_data io) (io_addr io) (io_num io) (io_aux io) (io_result io) (io_error io) b (io_handler_stage io)
    (io_closed io) (io_opcode_ io) (io_watch io) (io_readwrite io) (io_repeat io).

(** [SHUSO_IO_CORO_YIELD(wait, SHUSO_IO_READ)] *)
Definition wait_connection : M listenw unit := on_io (mod_io (set_stage 1)) ;;; on_io (shuso_io_wait SHUSO_IO_READ).

(** What follows the second yield: the kernel has written the address if it accepted a connection. *)
Definition publish_connection : M listenw unit :=
  w <- m_get ;;
  let io := w_io (lw_iow w) in
  (if io_result io =? -1 then m_ret tt else m_modify (put_lw_sockaddr (lw_peer w))) ;;;
  w <- m_get ;;
  on_ev (mod_user (tell_tentative (Tentative (lw_sockaddr w) (s32 (io_result io)) binding accept_event))) ;;;
  on_ev (shuso_event_publish server_events maybe_accept_event SHUSO_OK maybe_data) ;;;
  m_ret tt.

(** A failed [listen] raises [SIGABRT]. *)
Definition listener_accept_coro (run_handler : M listenw unit) : M listenw unit :=
  on_io (mod_io (set_error_handler true)) ;;;
  io <- on_io get_io ;;
  match io_handler_stage io with
  | O => m_assert (listen_errno =? 0) ;;; wait_connection
  | S O =>
      on_io (mod_io (set_stage 2)) ;;;
      called <- completes (λ rh, shuso_io_accept rh sockaddr_at SIZEOF_SOCKADDR) ;;
      if called : bool then run_handler else m_ret tt
  | _ => publish_connection ;;; wait_connection
  end.

(** [shuso_io_run_handler] with [listener_accept_coro_error], which only logs; [fuel] bounds the operations that complete one
    inside the other. *)
Fixpoint listener_handler (fuel : nat) : M listenw unit :=
  match fuel with
  | O => m_abort
  | S fuel' =>
      io <- on_io get_io ;;
      if io_error_handler io && (io_result io =? -1) then on_io (mod_io (set_stage 0))
      else listener_accept_coro (listener_handler fuel') ;;; on_io shuso_io_watch_update
  end.

Definition luaS_start_worker_io_listener_coroutine (fuel : nat) (fd : Z) : M listenw unit :=
  match shuso_io_init_socket fd SHUSO_IO_READ with
  | None => m_abort
  | Some (io, _) =>
      on_io (mod_io (λ _, set_num 0 (set_data 0 io))) ;;;
      m_assert (bool_decide (io_handler_stage io = O)) ;;;
      listener_handler fuel
  end.

(** [shuso_io_stop] and [close] *)
Definition luaS_stop_worker_io_listener_coroutine (fuel : nat) : M listenw bool :=
  io <- on_io get_io ;;
  (if bool_decide (io_watch io = WATCH_NONE) then m_ret tt
   else
     on_io (mod_io (set_watch WATCH_NONE)) ;;;
     on_io (mod_io (set_result (-1) ECANCELED)) ;;;
     listener_accept_coro (listener_handler fuel)) ;;;
  on_io shuso_io_abort ;;;
  m_modify (lw_close (io_fd io)) ;;;
  m_ret true.

(** The event loop finds the socket readable, if the listener is still watching it: the kernel has these answers to
    [accept], the connection, if there is one, from this address. *)
Definition listener_ready (fuel : nat) (sys : list sysres) (peer : list Z) : M listenw unit :=
  w <- m_get ;;
  if negb (w_watcher (lw_iow w)) then m_ret tt
  else
    on_io (m_modify (Io.put_sys sys)) ;;;
    m_modify (put_lw_peer peer) ;;;
    called <- completes (λ rh, ev_watcher_handler rh EV_READ) ;;
    if called : bool then listener_handler fuel else m_ret tt.
Fixpoint listener_run (fuel : nat) (turns : list (list sysres * list Z)) : M listenw unit :=
  match turns with
  | [] => m_ret tt
  | (sys, peer) :: turns' => listener_ready fuel sys peer ;;; listener_run fuel turns'
  end.

(** ** What the listeners leave alone *)

Definition keeps (u u' : U) : Prop :=
  sv_tentative u' = sv_tentative u ∧ sv_accept u' = sv_accept u ∧ sv_published u' = sv_published u.
(** A listener that comes to its end, where [P] holds *)
Definition listener_ok (P : U → Prop) (l : listener (U := U)) : Prop :=
  ∀ code d s, P (ev_user s.1) → ∃ s', li_fn l code d s = Some (tt, s') ∧ keeps (ev_user s.1) (ev_user s'.1).

Lemma keeps_refl u : keeps u u.
Proof. done. Qed.
Lemma keeps_trans u1 u2 u3 : keeps u1 u2 → keeps u2 u3 → keeps u1 u3.
Proof. intros (?&?&?) (?&?&?). split_and!; congruence. Qed.

Lemma fire_loop_ok P ls i code data s : (∀ u u', keeps u u' → P u → P u') → Forall (listener_ok P) ls → P (ev_user s.1) →
  ∃ s', fire_loop false i ls code data s = Some (tt, s') ∧ keeps (ev_user s.1) (ev_user s'.1).
Proof.
  intros HP Hls. revert i s. induction Hls as [|l ls Hl _ IH]; intros i s Hs; simpl; [by exists s|].
  unfold m_bind, get_cev, m_gets, mod_cev, on_world, m_modify. simpl.
  destruct (Hl code data (put_active (li_module l) s.1, set_cur (li_module l) i s.2) Hs) as (s1 & -> & Hk1).
  destruct (IH (i + 1) s1) as (s2 & -> & Hk2); [by eapply HP|]. exists s2. split; [done|]. by eapply keeps_trans.
Qed.

Lemma fire_loop_app ls ls' i code data s :
  fire_loop (U := U) false i (ls ++ ls') code data s =
  (fire_loop false i ls code data ;;; fire_loop false (i + Z.of_nat (length ls)) ls' code data) s.
Proof.
  revert i s. induction ls as [|l ls IH]; intros i s.
  - simpl. unfold m_bind, m_ret. f_equal. lia.
  - cbn [app fire_loop]. unfold m_bind, get_cev, m_gets, mod_cev, on_world, m_modify. simpl.
    destruct (li_fn l code data _) as [[[] s1]|]; [|done]. rewrite IH. unfold m_bind.
    destruct (fire_loop false (i + 1) ls code data s1) as [[[] s2]|]; [|done]. f_equal. lia.
Qed.

(** An event without an interrupt handler *)
Lemma publish_ok events ev name ls code data w u' :
  events ev = Event name ls None →
  (∀ s, s.1 = w → ∃ s', fire_loop false 0 ls code data s = Some (tt, s') ∧ u' (ev_user s'.1)) →
  ∃ b w', shuso_event_publish (U := U) events ev code data w = Some (b, w') ∧ u' (ev_user w').
Proof.
  intros He Hl. unfold shuso_event_publish, fire_event. rewrite He. cbn [evt_listeners evt_interrupt_handler].
  rewrite bool_decide_eq_false_2 by (simpl; lia).
  destruct (Hl (w, Cev ev 0 code data 0 NO_INTERRUPT None) eq_refl) as ([w1 c1] & E & Hu). change (drop (Z.to_nat 0) ls) with ls. rewrite E.
  by eexists _, _.
Qed.

(** ** Connections are published *)

Section accepting.
Hypothesis Hmaybe : Forall (listener_ok (λ u, is_Some (sv_tentative u))) maybe_listeners.
Hypothesis Haccept : Forall (listener_ok (λ u, is_Some (sv_accept u))) accept_listeners.
(** The host of the listener's binding *)
Local Abbreviation host := (binding_host binding).

Definition accepted (t : tentative) : accept_data :=
  let host := binding_host (ta_binding t) in
  AcceptData (ta_fd t) (ta_sockaddr t) (h_family host) (h_type host) (ta_binding t).

Lemma confirm_ok t code d s : sv_tentative (ev_user s.1) = Some t →
  sa_family (ta_sockaddr t) = Some (h_family (binding_host (ta_binding t))) → ta_accept_event t = accept_event →
  ∃ s', maybe_accept_event_confirm_accept code d s = Some (tt, s') ∧
    sv_published (ev_user s'.1) = (sv_published (ev_user s.1) ++ [accepted t])%list.
Proof.
  intros Ht Hf He. unfold maybe_accept_event_confirm_accept, on_world, mod_user. m_unfold. rewrite Ht.
  rewrite bool_decide_eq_true_2 by done. rewrite He.
  set (w1 := put_user _ _).
  destruct (publish_ok accept_table accept_event "server:accept" accept_listeners SHUSO_OK accept_data_at w1
              (λ u, sv_published u = sv_published (ev_user w1))) as (b & w2 & -> & Hp).
  - unfold accept_table. by rewrite Z.eqb_refl.
  - intros s1 Hs. destruct (fire_loop_ok (λ u, is_Some (sv_accept u)) accept_listeners 0 SHUSO_OK accept_data_at s1)
      as (s2 & -> & (_ & _ & Hk)); [by intros u u' (_ & -> & _)|done|by rewrite Hs|].
    exists s2. split; [done|]. by rewrite Hk, Hs.
  - eexists. split; [done|]. simpl. by rewrite Hp.
Qed.

Lemma publish_maybe_ok t w : sv_tentative (ev_user w) = Some t →
  sa_family (ta_sockaddr t) = Some (h_family (binding_host (ta_binding t))) → ta_accept_event t = accept_event →
  ∃ b w', shuso_event_publish server_events maybe_accept_event SHUSO_OK maybe_data w = Some (b, w') ∧
    sv_published (ev_user w') = (sv_published (ev_user w) ++ [accepted t])%list.
Proof.
  intros Ht Hf He.
  destruct (publish_ok server_events maybe_accept_event "server:maybe_accept" (luaS_maybe_accept_event_init maybe_listeners)
    SHUSO_OK maybe_data w (λ u, sv_published u = (sv_published (ev_user w) ++ [accepted t])%list)) as (b & w' & E & Hp).
  - unfold server_events. by rewrite Z.eqb_refl.
  - intros s Hs. unfold luaS_maybe_accept_event_init. rewrite fire_loop_app. unfold m_bind.
    destruct (fire_loop_ok (λ u, is_Some (sv_tentative u)) maybe_listeners 0 SHUSO_OK maybe_data s)
      as (s1 & -> & (Ht1 & _ & Hp1)); [by intros u u' (-> & _ & _)|done|by rewrite Hs, Ht|].
    cbn [fire_loop]. unfold m_bind, get_cev, m_gets, mod_cev, m_modify, on_world. simpl.
    edestruct (confirm_ok t SHUSO_OK maybe_data) as (s2 & E2 & Hp2); [|done|done|].
    2: { unfold m_modify. simpl. rewrite E2. exists s2. split; [done|]. rewrite Hp2. simpl. by rewrite Hp1, Hs. }
    simpl. by rewrite Ht1, Hs.
  - by exists b, w'.
Qed.

(** The listener waits for a connection, or for [accept] to be tried again. *)
Definition watching (i : iow) : Prop :=
  io_handler_stage (w_io i) = 1%nat ∧ io_watch (w_io i) = WATCH_POLL_READ ∧ io_result (w_io i) = 0 ∧
  w_watcher i = true.
Definition retrying (i : iow) : Prop :=
  io_handler_stage (w_io i) = 2%nat ∧ io_watch (w_io i) = WATCH_OP_RETRY ∧ accept_state sockaddr_at (w_io i) ∧
  io_repeat (w_io i) = true ∧ w_watcher i = true.

Lemma m_bind_run {S X Y} (m : M S X) (k : X → M S Y) s x s' : m s = Some (x, s') → (y <- m ;; k y) s = k x s'.
Proof. intros E. unfold m_bind. by rewrite E. Qed.
Lemma on_io_get w : on_io get_io w = Some (w_io (lw_iow w), w).
Proof. by destruct w. Qed.
Lemma on_io_mod f w : on_io (mod_io f) w = Some (tt, put_lw_iow (put_io (f (w_io (lw_iow w))) (lw_iow w)) w).
Proof. done. Qed.
Lemma on_io_update w i : settled i → on_io shuso_io_watch_update (put_lw_iow i w) = Some (tt, put_lw_iow i w).
Proof. intros Hs. unfold on_io. cbn [the_io listenw_has_io lw_iow put_lw_iow]. by rewrite watch_update_settled. Qed.

Lemma watching_settled i : watching i → settled i.
Proof. intros (_ & Hw & _ & Ha). unfold settled. by rewrite Hw, Ha. Qed.
Lemma retrying_settled i : retrying i → settled i.
Proof. intros (_ & Hw & _ & _ & Ha). unfold settled. by rewrite Hw, Ha. Qed.

(** The coroutine, and the handler where the operation did not fail *)
Definition enter (w : listenw) : listenw := put_lw_iow (put_io (set_error_handler true (w_io (lw_iow w))) (lw_iow w)) w.
Lemma handler_run fuel w w' i : io_result (w_io (lw_iow w)) ≠ -1 → settled i →
  listener_accept_coro (listener_handler fuel) w = Some (tt, put_lw_iow i w') →
  listener_handler (S fuel) w = Some (tt, put_lw_iow i w').
Proof.
  intros Hr Hs E. cbn [listener_handler]. rewrite (m_bind_run _ _ _ _ _ (on_io_get w)).
  rewrite (proj2 (Z.eqb_neq _ _) Hr), andb_false_r. rewrite (m_bind_run _ _ _ _ _ E). by apply on_io_update.
Qed.

Lemma wait_connection_run w : ∃ i, wait_connection w = Some (tt, put_lw_iow i w) ∧ watching i.
Proof.
  unfold wait_connection, shuso_io_wait, on_io, mod_io. m_unfold.
  change (SHUSO_IO_READ =? Z.lor SHUSO_IO_READ SHUSO_IO_WRITE) with false. rewrite Z.eqb_refl.
  rewrite watch_update_settles. eexists. split; [done|]. done.
Qed.

Lemma publish_connection_ok w n :
  io_result (w_io (lw_iow w)) = n → 0 ≤ n < 2 ^ 31 → sa_family (lw_peer w) = Some (h_family host) →
  ∃ w', publish_connection w = Some (tt, w') ∧ lw_iow w' = lw_iow w ∧
    sv_published (ev_user (lw_ev w'))
    = (sv_published (ev_user (lw_ev w)) ++ [AcceptData n (lw_peer w) (h_family host) (h_type host) binding])%list.
Proof.
  intros Hn Hr Hf. unfold publish_connection. m_unfold. cbv beta zeta. rewrite Hn, (proj2 (Z.eqb_neq n (-1))) by lia.
  unfold on_ev, mod_user. m_unfold. cbn [lw_iow lw_ev lw_sockaddr put_lw_sockaddr put_lw_ev].
  replace (s32 n) with n by (symmetry; apply swrap_small; lia).
  destruct (publish_maybe_ok (Tentative (lw_peer w) n binding accept_event)
    (put_user (tell_tentative (Tentative (lw_peer w) n binding accept_event) (ev_user (lw_ev w))) (lw_ev w)))
    as (b & w' & E & Hp); try done.
  rewrite E. eexists. split; [done|]. split; [done|]. simpl. rewrite Hp. done.
Qed.

Lemma handler_publishes fuel w n :
  io_handler_stage (w_io (lw_iow w)) = 2%nat → io_result (w_io (lw_iow w)) = n → 0 ≤ n < 2 ^ 31 →
  sa_family (lw_peer w) = Some (h_family host) →
  ∃ w', listener_handler (S fuel) w = Some (tt, w') ∧ watching (lw_iow w') ∧
    sv_published (ev_user (lw_ev w'))
    = (sv_published (ev_user (lw_ev w)) ++ [AcceptData n (lw_peer w) (h_family host) (h_type host) binding])%list.
Proof.
  intros Hs Hn Hr Hf.
  destruct (publish_connection_ok (enter w) n) as (w2 & E2 & Hi2 & Hp2); [done..|].
  destruct (wait_connection_run w2) as (i & E3 & Hw). exists (put_lw_iow i w2). split_and!; [|done|done].
  apply handler_run; [lia|by apply watching_settled|]. unfold listener_accept_coro.
  rewrite (m_bind_run _ _ _ _ _ (on_io_mod _ w)). fold (enter w). rewrite (m_bind_run _ _ _ _ _ (on_io_get (enter w))).
  cbn [enter lw_iow w_io put_lw_iow put_io set_error_handler io_handler_stage]. rewrite Hs.
  by rewrite (m_bind_run _ _ _ _ _ E2).
Qed.

Lemma completes_listener (op : M iow unit → M iow unit) w i : op note_handler (lw_iow w) = Some (tt, i) →
  completes op w = Some ((length (w_handled (lw_iow w)) <? length (w_handled i))%nat, put_lw_iow i w).
Proof. intros E. unfold completes, on_io. m_unfold. cbn [the_io listenw_has_io]. by rewrite E. Qed.

(** An operation that is [accept], or [accept] again *)
Lemma completes_accept (op : M iow unit → M iow unit) w w0 :
  op note_handler (lw_iow w) = shuso_io_ev_operation note_handler w0 →
  accept_state sockaddr_at (w_io w0) → io_repeat (w_io w0) = true →
  w_handled w0 = w_handled (lw_iow w) → io_handler_stage (w_io w0) = 2%nat →
  match (answer (w_sys w0)).1 with
  | SysOk n => 0 ≤ n < 2 ^ 31 → ∃ i, completes op w = Some (true, put_lw_iow i w) ∧
      io_result (w_io i) = n ∧ io_handler_stage (w_io i) = 2%nat
  | SysErr e => e = EAGAIN → ∃ i, completes op w = Some (false, put_lw_iow i w) ∧ retrying i
  | SysSoError _ => True
  end.
Proof.
  intros Hop Ha Hrep Hh Hs.
  destruct (accept_answered sockaddr_at note_handler w0 _ Ha Hrep eq_refl) as (calls & Hr). cbv zeta in Hr.
  destruct ((answer (w_sys w0)).1) as [n|e|e]; [| |done].
  - intros Hn. rewrite (proj2 (Z.eqb_neq n (-1))) in Hr by lia. rewrite s64_small in Hr by lia.
    unfold note_handler in Hr at 2. unfold get_io in Hr. m_unfold.
    eexists. split; [|split].
    + erewrite completes_listener; [|exact (eq_trans Hop Hr)]. f_equal. f_equal. simpl. rewrite Hh, length_app. simpl.
      apply Nat.ltb_lt. lia.
    + done.
    + done.
  - intros ->. cbn [Z.eqb EAGAIN Pos.eqb] in Hr. eexists. split.
    + erewrite completes_listener; [|exact (eq_trans Hop Hr)]. f_equal. f_equal. simpl. rewrite Hh. apply Nat.ltb_irrefl.
    + destruct Ha. by split_and!.
Qed.

Definition listening (i : iow) : Prop := watching i ∨ retrying i.
(** What a turn of the event loop brings: a connection from an address of the binding's family, or none yet *)
Definition turn_ok (turn : list sysres * list Z) : Prop :=
  match (answer turn.1).1 with
  | SysOk n => 0 ≤ n < 2 ^ 31 ∧ sa_family turn.2 = Some (h_family host)
  | SysErr e | SysSoError e => e = EAGAIN
  end.
Definition connection (turn : list sysres * list Z) : list accept_data :=
  match (answer turn.1).1 with
  | SysOk n => [AcceptData n turn.2 (h_family host) (h_type host) binding]
  | _ => []
  end.
Definition published (w : listenw) : list accept_data := sv_published (ev_user (lw_ev w)).

(** After [accept] was tried, the handler is called if there is a connection. *)
Lemma accept_then_handler fuel op w w0 turn :
  op note_handler (lw_iow w) = shuso_io_ev_operation note_handler w0 →
  accept_state sockaddr_at (w_io w0) → io_repeat (w_io w0) = true →
  w_handled w0 = w_handled (lw_iow w) → io_handler_stage (w_io w0) = 2%nat →
  w_sys w0 = turn.1 → lw_peer w = turn.2 → turn_ok turn →
  ∃ w', (called <- completes op ;; if called : bool then listener_handler (S fuel) else m_ret tt) w = Some (tt, w') ∧
    listening (lw_iow w') ∧ published w' = (published w ++ connection turn)%list.
Proof.
  intros Hop Ha Hrep Hh Hs Hsys Hpeer Hok. pose proof (completes_accept op w w0 Hop Ha Hrep Hh Hs) as Hc.
  unfold turn_ok, connection in *. rewrite Hsys in Hc. destruct ((answer turn.1).1) as [n|e|e] eqn:Han.
  - destruct Hok as [Hn Hf]. destruct (Hc Hn) as (i & E & Hr & Hst). rewrite (m_bind_run _ _ _ _ _ E).
    destruct (handler_publishes fuel (put_lw_iow i w) n) as (w' & -> & Hw & Hp); [done..|by simpl; rewrite Hpeer|].
    exists w'. split_and!; [done|by left|]. unfold published. rewrite Hp. simpl. by rewrite Hpeer.
  - destruct (Hc Hok) as (i & E & Hr). rewrite (m_bind_run _ _ _ _ _ E). exists (put_lw_iow i w).
    split_and!; [done|by right|]. by rewrite app_nil_r.
  - exfalso. revert Han. clear. induction (turn.1) as [|[m|e'|e'] sys IH]; simpl; try done; by destruct (e' =? EINTR).
Qed.

Lemma ready_step fuel w turn : sockaddr_at ≠ 0 → listening (lw_iow w) → turn_ok turn →
  ∃ w', listener_ready (S (S fuel)) turn.1 turn.2 w = Some (tt, w') ∧
    listening (lw_iow w') ∧ published w' = (published w ++ connection turn)%list.
Proof.
  intros Hsa Hl Hok. unfold listener_ready. unfold m_bind at 1, m_get.
  assert (w_watcher (lw_iow w) = true) as -> by (destruct Hl as [(_ & _ & _ & ?)|(_ & _ & _ & _ & ?)]; done).
  cbn [negb]. set (w1 := put_lw_peer turn.2 (put_lw_iow (Io.put_sys turn.1 (lw_iow w)) w)).
  change (∃ w', (called <- completes (λ rh, ev_watcher_handler rh EV_READ) ;;
                 if called : bool then listener_handler (S (S fuel)) else m_ret tt) w1 = Some (tt, w') ∧
    listening (lw_iow w') ∧ published w' = (published w1 ++ connection turn)%list).
  destruct Hl as [(Hs & Hwt & Hr & Hwa)|(Hs & Hwt & Ha & Hrep & Hwa)].
  - set (i2 := log_handled (CallHandler 0 (io_error (w_io (lw_iow w1)))) (put_io (set_watch WATCH_NONE (w_io (lw_iow w1))) (lw_iow w1))).
    set (w2 := put_lw_iow i2 w1).
    assert (completes (λ rh, ev_watcher_handler rh EV_READ) w1 = Some (true, w2)) as E1.
    { rewrite (completes_listener _ _ i2).
      - f_equal. f_equal. simpl. rewrite length_app. simpl. apply Nat.ltb_lt. lia.
      - unfold ev_watcher_handler, get_io, mod_io. m_unfold. cbn [the_io listenw_has_io w1 lw_iow put_lw_peer put_lw_iow].
        simpl. rewrite Hwt. simpl. unfold note_handler, get_io, i2. m_unfold. simpl. by rewrite Hr. }
    rewrite (m_bind_run _ _ _ _ _ E1).
    set (w3 := put_lw_iow (put_io (set_stage 2 (set_error_handler true (w_io i2))) i2) w2).
    destruct (accept_then_handler fuel (λ rh, shuso_io_accept rh sockaddr_at SIZEOF_SOCKADDR) w3
      (put_io (set_repeat true (set_num SIZEOF_SOCKADDR (set_addr sockaddr_at (set_opcode OP_ACCEPT
         (set_result 0 0 (w_io (lw_iow w3))))))) (lw_iow w3)) turn) as (w' & E & Hl & Hp); try done.
    assert (listener_accept_coro (listener_handler (S fuel)) w2 = Some (tt, put_lw_iow (lw_iow w') w')) as Hcoro.
    { unfold listener_accept_coro. rewrite (m_bind_run _ _ _ _ _ (on_io_mod _ w2)), (m_bind_run _ _ _ _ _ (on_io_get _)).
      replace (io_handler_stage _) with 1%nat by (symmetry; exact Hs).
      rewrite (m_bind_run _ _ _ _ _ (on_io_mod _ _)). etrans; [exact E|]. by destruct w'. }
    exists w'. split_and!; [|done|done].
    etrans; [apply (handler_run (S fuel) w2 w' (lw_iow w')); [simpl; by rewrite Hr| |done]|by destruct w'].
    destruct Hl; [by apply watching_settled|by apply retrying_settled].
  - apply (accept_then_handler (S fuel) (λ rh, ev_watcher_handler rh EV_READ) w1 (put_io (set_watch WATCH_NONE (w_io (lw_iow w1))) (lw_iow w1)));
      try done; [|by destruct Ha].
    unfold ev_watcher_handler, get_io, mod_io. m_unfold. simpl. rewrite Hwt. simpl.
    destruct Ha as [Ho _ _ _ _ _]. rewrite Ho. done.
Qed.

Lemma start_listens fuel fd w : listen_errno = 0 →
  ∃ w', luaS_start_worker_io_listener_coroutine (S fuel) fd w = Some (tt, w') ∧ listening (lw_iow w') ∧ published w' = published w.
Proof.
  intros Hl. unfold luaS_start_worker_io_listener_coroutine.
  change (shuso_io_init_socket fd SHUSO_IO_READ)
    with (Some (Io fd 0 0 0 0 0 0 false 0 0 OP_NONE WATCH_NONE SHUSO_IO_READ false, SHUSO_IO_READ)).
  cbv iota beta. rewrite (m_bind_run _ _ _ _ _ (on_io_mod _ w)). set (w1 := put_lw_iow _ w).
  rewrite bool_decide_eq_true_2 by done. unfold m_bind at 1, m_assert, m_ret.
  destruct (wait_connection_run (enter w1)) as (i & E & Hw).
  exists (put_lw_iow i (enter w1)). split_and!; [|by left|done].
  apply handler_run; [done|by apply watching_settled|]. unfold listener_accept_coro.
  rewrite (m_bind_run _ _ _ _ _ (on_io_mod _ w1)), (m_bind_run _ _ _ _ _ (on_io_get _)). simpl.
  by rewrite Hl.
Qed.

Lemma run_listens fuel turns w : sockaddr_at ≠ 0 → listening (lw_iow w) → Forall turn_ok turns →
  ∃ w', listener_run (S (S fuel)) turns w = Some (tt, w') ∧ listening (lw_iow w') ∧
    published w' = (published w ++ (turns ≫= connection))%list.
Proof.
  intros Hsa Hl Hok. revert w Hl. induction Hok as [|[sys peer] turns Ht _ IH]; intros w Hl.
  { exists w. split_and!; [done|done|by rewrite app_nil_r]. }
  destruct (ready_step fuel w (sys, peer) Hsa Hl Ht) as (w1 & E & Hl1 & Hp1).
  destruct (IH w1 Hl1) as (w2 & E2 & Hl2 & Hp2). exists w2. cbn [listener_run].
  rewrite (m_bind_run _ _ _ _ _ E). split_and!; [done|done|]. by rewrite Hp2, Hp1, bind_cons, app_assoc.
Qed.

End accepting.
End events.

(** ** Examples *)

Definition ECONNABORTED : Z := 103.
#[local] Existing Instance sample_sock.

Definition tcp_host (_ : Z) : hostinfo := HostInfo None AF_INET SOCK_STREAM None.
(** A module that handles connections: it leaves the server's data alone. *)
Definition http_listener : listener (U := srv unit) := Listener 3 (λ _ _, m_ret tt).
Definition sample_listener : listenw (V := unit) :=
  ListenW (IoW (Io (-1) 0 0 0 0 0 0 false 0 0 OP_NONE WATCH_NONE 0 false) ∅ ∅ ∅ false [] [] [])
    (EvWorld 0 ∅ ∅ 1 [] (Srv None None [] [] tt)) [] [] [].
Definition connected (fd : Z) : accept_data := AcceptData fd localhost AF_INET SOCK_STREAM 4096.

Section sample.
Variable accept_listeners : list (listener (U := srv unit)).
(** The listener with these modules, through these turns, and stopped after them *)
Definition sample_run (turns : list (list sysres * list Z)) : M listenw unit :=
  luaS_start_worker_io_listener_coroutine tcp_host 1 2 10 20 [] accept_listeners 1 4096 8192 0 9 5 ;;;
  listener_run tcp_host 1 2 10 20 [] accept_listeners 1 4096 8192 0 9 turns.
Definition sample_stop : M listenw bool :=
  luaS_stop_worker_io_listener_coroutine tcp_host 1 2 10 20 [] accept_listeners 1 4096 8192 0 9.
End sample.

Definition sample_turns : list (list sysres * list Z) :=
  [([SysErr EINTR; SysOk 7], localhost); ([SysErr EAGAIN], []); ([SysOk 8], localhost)].


Definition tcp_unix_table : sa_table := <["type" := FString "TCP"]> (unix_table "/s").
Definition bad_address_table : sa_table := <["address" := FString "x"]> (delete "address_binary" sample_table).

(** What is left of a run: the connections that were published, those that were closed, whether the socket is watched *)
Definition listener_outcome {X} (r : option (X * listenw (V := unit))) : option (list accept_data * list Z * bool) :=
  (λ r, (published r.2, sv_closed (ev_user (lw_ev r.2)), w_watcher (lw_iow r.2))) <$> r.

